(* ===== verification/_CoqProject ===== *)
-Q . S2P
Prelude.v
Str.v
Param.v
Spinlock.v
Sleeplock.v
Dlist.v
Bio.v
BioSpec.v
BioOps.v
BioProps.v
Log.v
LogDisk.v
LogOps.v
LogTx.v
LogProps.v
Fs.v
FsSpec.v
FsBitmap.v
FsFile.v
FsRw.v
FsWrite.v
FsCodec.v
FsWritei.v
FsProps.v
FsPath.v
Mem.v
Kalloc.v
Vm.v
VmSpec.v
VmWalk.v
VmMap.v
VmUser.v
VmCopy.v
VmProps.v
VmFree.v
VmFork.v
Ring.v
Printf.v
Virtio.v
VirtioProps.v
Kernel.v
Asm.v
AsmProps.v
Proc.v
Sched.v
KernelSpec.v
Console.v
ConsoleProps.v
Pipe.v
PipeProps.v
PipeUser.v
ProcLife.v
Exec.v
Sysfile.v
Trap.v
SysProps.v
Frames.v
Descr.v
Boot.v
User.v
UWorld.v
ULib.v
Grep.v
Sh.v
ShProps.v
ShShow.v
ShRun.v
Umalloc.v
UmallocProps.v
Progs.v
ProgsProps.v
Mkfs.v
MkfsProps.v
Mount.v
