(* ===== verification/Prelude.v ===== *)
(** * xv6 for RISC-V, modelled and verified

    The program is the teaching operating system xv6 under src/riscv: a kernel
    (src/riscv/kernel), its user programs (src/riscv/user) and the program that
    makes the disk image (src/riscv/mkfs).  This library translates its C and
    assembly into executable definitions, component by component, and proves
    what the components promise to each other and to their users.

    ** How the code is represented

    A C integer is a [Z], wrapped explicitly ([u8], [u16], [u32], [u64], [s16],
    [s32], ...) where C wraps it.  Structures are records, enumerations and
    unions inductive types, arrays lists, and a pointer into a table is an
    index, a null pointer [None].  On-disk structures and page tables are bytes:
    they are encoded and decoded as the code does.  A routine is a function of
    the monad [M S A] below: it returns ([Ok]), panics ([Panic], with the
    message), has to wait ([Block], on a channel) or uses up the fuel of a loop
    ([NoFuel]).  [wp m Q s] is total correctness: [m] returns from [s] and [Q]
    holds; a panic, a wait or missing fuel makes it false.  Each layer has a
    state of its own and reaches the layer below through a lens.  User programs
    are functions of a similar monad [U W A] over a class [Sys] of the system
    calls, so that a theorem about a program holds in every world that keeps the
    promises it states.

    ** The parts, from the bottom up

    - Prelude (this file): integers, codecs, buffers, the monad, its rules,
      tactics and hints.  Param: kernel/param.h and the constants of fs.h,
      stat.h, fcntl.h.  Str: string.c.  Printf: the formatting of printf.c.
    - Spinlock (spinlock.c; Module SMP interleaves the memory operations of any
      number of CPUs), Sleeplock (sleeplock.c).
    - Bio (bio.c), over Dlist (doubly linked lists).  BioSpec, BioOps and
      BioProps: the cache is a map from block numbers to contents.
    - Log (log.c).  LogDisk: what a disk image with a log means, and the images
      a crash can leave.  LogOps, LogTx: the routines and the transactions.
      LogProps: crash safety.
    - Fs (fs.c: block allocator, inodes, contents, directories, path names).
      FsSpec, FsBitmap, FsFile, FsRw, FsWrite, FsCodec, FsWritei: the
      specifications of its layers.  FsProps, FsPath: its guarantees.
    - Mem (physical memory, riscv.h, memlayout.h), Kalloc (kalloc.c), Vm (vm.c).
      VmSpec, VmWalk, VmMap, VmUser, VmCopy: page tables as partial maps and the
      user's view of memory.  VmProps, VmFree, VmFork: the guarantees.
    - Virtio (virtio_disk.c) and VirtioProps.  The device on the other side of
      the rings is a parameter with the laws of class [BlkDevice].
    - Kernel: the state of everything above the file system (proc.h, file.h and
      the static data).  Proc and ProcLife (proc.c), Console (uart.c, printf.c,
      console.c), Pipe (pipe.c, file.c), Exec (exec.c), Sysfile (sysfile.c and
      the argument fetching of syscall.c), Trap (trap.c, sysproc.c, syscall.c,
      plic.c), Boot (start.c, main.c, virtio_disk_init).  Ring, ConsoleProps,
      PipeProps, PipeUser, KernelSpec, SysProps: their properties.  Sched: sleep
      and wakeup as a step relation over any number of threads.
    - Frames and Descr: descriptor tables and reference counts through every
      system call.
    - Asm and AsmProps: trampoline.S, swtch.S, kernelvec.S and entry.S, run
      instruction by instruction behind a page table.
    - User (the system call interface, user.h), UWorld (a concrete world for
      examples), ULib (ulib.c and the user's printf.c), Grep (grep.c), Sh,
      ShProps, ShShow, ShRun (sh.c), Umalloc and UmallocProps (umalloc.c), Progs
      and ProgsProps (cat, wc, echo, kill, ln, mkdir, rm, ls, init, zombie,
      forktest, stressfs, forphan, dorphan).
    - Mkfs and MkfsProps (mkfs.c); Mount: the kernel boots from the image.

    Definitions keep the names of the source.  A loop or a piece of a routine
    that is a definition of its own is named after the routine ([bget] searches
    with [find_cached] and [find_unused], [uvmcopy] works with [uvmcopy_one]).

    ** What is proved

    - Storage.  The buffer cache refines a map of blocks.  A transaction is
      atomic at every crash point, also when recovery is interrupted; recovery
      is idempotent; the space [begin_op] reserves is enough; a transaction that
      fills the cache panics.  [balloc] hands out free data blocks; [readi] and
      [writei] read and write the byte sequence an inode describes, from and to
      any memory, also when a copy fails (classes [Dest] and [Source]; a copy
      that fails half way inside [writei] is left out, since the bytes it leaves
      in the buffer are not logged); mounting a disk without orphans carries
      out the logged transaction.  mkfs makes an image with the files it
      was given, and the kernel mounts it.  What the disk reports as
      successful is the transfer of one request, a thread leaves the driver only
      after its own was, and the interrupt handler panics exactly when the disk
      has reported a failure.
    - Memory.  The page allocator hands out each page once.  [mappages] adds
      exactly the translations asked for; [copyout] writes the user's writable
      memory and nothing else; [uvmcopy] gives the child its own copy; [uvmfree] returns
      every page.  A lazy sbrk is not bounded by the address space.
    - Processes.  Mutual exclusion of spinlocks and the absence of lost wakeups
      under every interleaving; the paths through the assembly restore the
      registers they should; every system call keeps the descriptors and the
      reference counts in agreement; pipes are bounded queues; the console
      edits lines; [start] hands a hart in any state over to the supervisor.
    - User programs.  malloc and free never let live blocks overlap.  The shell
      parses what it prints, always ends parsing, and each process of a command
      ends, waits or becomes a program as the meaning of the command says, with
      its files connected accordingly.  grep prints the lines that match, by a matcher
      equivalent to a declarative meaning; cat copies and wc counts.

    ** Bounds and fuel

    Sizes are the source's (NBUF, NPROC, FSSIZE, ...).  A loop that is not
    structural has fuel, chosen in the definition from the data that bounds it:
    the cache scans take one turn for each buffer and one for the list head;
    [rw_fuel n] covers the blocks [n] bytes can touch ([turns_fuel]); the parser
    has [parse_fuel], four turns for each character ([parsecmd_terminates]);
    [iappend] takes at most one turn for each byte.  Where a loop lasts as long
    as its input (cat, wc, grep, the shell, init) the fuel is an argument and the
    theorem says how much is enough.  Since [wp] excludes [NoFuel], a theorem
    about [wp] includes termination.

    ** Interleaving

    Kernel routines are verified as run by one thread; a routine that has to
    wait ends in [Block] with the state it leaves, and what it does after the
    wait is a definition of its own where the code has one ([sleep_return],
    [sched_return]).  The two places where interleaving is the point, spinlocks
    ([Spinlock.SMP]) and sleep against wakeup ([Sched], with any number of channels
    and conditions), are step relations over all interleavings of single memory
    or lock operations.  So is the traffic between the disk driver and its device
    ([VirtioProps.vstep]), where each section of the driver under its lock is one
    step and the device acts between them.  [Descr] speaks of a system call up to its return or its first wait.

    ** Not modelled

    - The linker scripts (kernel.ld, user.ld): the addresses they define are
      parameters.  usys.pl, which generates one ecall for each system call: user
      programs are proved against the interface.  The Makefile and test scripts.
    - usertests.c, grind.c and logstress.c: tests and loads which no other part
      relies on.
    - The command line handling and messages of mkfs.  The memory model is
      sequentially consistent.  The hardware (UART, PLIC, virtio device, timer)
      appears as the registers the code reads and writes.
    - src/x86, the older port to the PC: another kernel for another machine,
      with a boot path and devices of its own, built from sources of its own. *)

(** ** Shared vocabulary

    Machine integers at their width, little-endian byte codecs, byte buffers
    and in-place splices, the kernel monad with its total-correctness rules,
    lenses between the state of a layer and the state of the layer below it,
    and the tactics and hint databases every component uses.  *)

From stdpp Require Export base tactics list list_numbers numbers option strings gmap.
From Stdlib Require Export ZArith Lia.
From Stdlib Require Import Permutation.

#[global] Open Scope Z_scope.

(** ** Machine integers

    A C integer of width [w] is a [Z]; every arithmetic result that C reduces
    modulo [2^w] is wrapped explicitly.  *)

Definition u8 (x : Z) : Z := x mod 2 ^ 8.
Definition u16 (x : Z) : Z := x mod 2 ^ 16.
Definition u32 (x : Z) : Z := x mod 2 ^ 32.
Definition u64 (x : Z) : Z := x mod 2 ^ 64.

(** Conversion to a signed type of [w] bits (two's complement). *)
Definition swrap (w : Z) (x : Z) : Z := (x + 2 ^ (w - 1)) mod 2 ^ w - 2 ^ (w - 1).
Definition s16 (x : Z) : Z := swrap 16 x.
Definition s32 (x : Z) : Z := swrap 32 x.
Definition s64 (x : Z) : Z := swrap 64 x.

(** ** Little-endian codecs *)

Fixpoint le_encode (n : nat) (v : Z) : list Z :=
  match n with
  | O => []
  | S n' => v mod 256 :: le_encode n' (v / 256)
  end.

Fixpoint le_decode (bs : list Z) : Z :=
  match bs with
  | [] => 0
  | b :: bs' => b + 256 * le_decode bs'
  end.

Definition is_byte (b : Z) : Prop := 0 <= b < 256.

(** ** Byte buffers

    [slice off n l] reads [n] elements at [off]; [splice off bs l] overwrites
    the elements of [l] from [off] on with [bs], as a [memmove] into an array
    does (the array never changes length).  *)

Definition slice {A} (off n : nat) (l : list A) : list A := take n (drop off l).

Definition splice {A} (off : nat) (bs l : list A) : list A :=
  take off l ++ take (length l - off) bs ++ drop (off + length bs) l.

(** ** The kernel monad

    A kernel routine maps a state to an outcome: it returns, it calls
    [panic], it would sleep on a channel (or spin on a lock) until another
    thread of control acts, or the fuel given to an unbounded loop runs out. *)

(** A sleep channel is an address in the kernel; here the object's name and
    an index within it. *)
Abbreviation chan := (string * Z)%type.

Inductive outcome (S A : Type) : Type :=
| Ok (a : A) (s : S)
| Panic (msg : string)
| Block (c : chan) (s : S)
| NoFuel.
Arguments Ok {S A} a s.
Arguments Panic {S A} msg.
Arguments Block {S A} c s.
Arguments NoFuel {S A}.

Definition M (S A : Type) : Type := S -> outcome S A.

Definition ret {S A} (a : A) : M S A := fun s => Ok a s.

Definition bind {S A B} (m : M S A) (k : A -> M S B) : M S B :=
  fun s =>
    match m s with
    | Ok a s' => k a s'
    | Panic msg => Panic msg
    | Block c s' => Block c s'
    | NoFuel => NoFuel
    end.

Definition panic {S A} (msg : string) : M S A := fun _ => Panic msg.
Definition block_on {S A} (c : chan) : M S A := fun s => Block c s.
Definition no_fuel {S A} : M S A := fun _ => NoFuel.
Definition get {S} : M S S := fun s => Ok s s.
Definition put {S} (s : S) : M S unit := fun _ => Ok tt s.
Definition gets {S A} (f : S -> A) : M S A := fun s => Ok (f s) s.
Definition modify {S} (f : S -> S) : M S unit := fun s => Ok tt (f s).

Declare Scope kern_scope.
Delimit Scope kern_scope with kern.
Bind Scope kern_scope with M.
Notation "x <- c1 ;; c2" := (bind c1 (fun x => c2))
  (at level 100, c1 at next level, right associativity) : kern_scope.
Notation "c1 ;; c2" := (bind c1 (fun _ => c2)) : kern_scope.
Notation "'when' b 'do' c" := (if b then c else ret tt)
  (at level 99, b at level 9, c at level 99) : kern_scope.
#[global] Open Scope kern_scope.

(** [for_each l body] runs a counted loop over the values its index takes. *)
Fixpoint for_each {S A} (l : list A) (body : A -> M S unit) : M S unit :=
  match l with
  | [] => ret tt
  | x :: l' => body x ;; for_each l' body
  end.

(** [for_find l body] is a counted loop whose body may leave it early with a
    value (a [return] or [break] inside the loop). *)
Fixpoint for_find {S A R} (l : list A) (body : A -> M S (option R)) : M S (option R) :=
  match l with
  | [] => ret None
  | x :: l' =>
      r <- body x ;;
      match r with
      | Some v => ret (Some v)
      | None => for_find l' body
      end
  end.

(** ** Lenses: a lower layer's state inside an upper layer's *)

Record lens (S T : Type) : Type := mkLens { lget : S -> T; lset : T -> S -> S }.
Arguments mkLens {S T} lget lset.
Arguments lget {S T} l s.
Arguments lset {S T} l t s.

Class LensLaws {S T} (l : lens S T) : Prop := {
  lens_get_set t s : lget l (lset l t s) = t;
  lens_set_set t t' s : lset l t (lset l t' s) = lset l t s;
  lens_set_get s : lset l (lget l s) s = s
}.

Definition zoom {S T A} (l : lens S T) (m : M T A) : M S A :=
  fun s =>
    match m (lget l s) with
    | Ok a t => Ok a (lset l t s)
    | Panic msg => Panic msg
    | Block c t => Block c (lset l t s)
    | NoFuel => NoFuel
    end.

(** ** Total correctness

    [wp m Q s]: run from [s], [m] returns (it neither panics, blocks nor
    exhausts its fuel) and the result and final state satisfy [Q].  *)

Definition wp {S A} (m : M S A) (Q : A -> S -> Prop) (s : S) : Prop :=
  match m s with
  | Ok a s' => Q a s'
  | _ => False
  end.

(** The same for a routine that may have to wait: [B] is what holds when it
    blocks. *)
Definition wpb {S A} (m : M S A) (Q : A -> S -> Prop) (B : chan -> S -> Prop) (s : S) : Prop :=
  match m s with
  | Ok a s' => Q a s'
  | Block c s' => B c s'
  | _ => False
  end.

(** [panics m msg s]: run from [s], [m] ends in [panic(msg)]. *)
Definition panics {S A} (m : M S A) (msg : string) (s : S) : Prop := m s = Panic msg.

(** ** Rules *)

Section rules.
Context {S A B : Type}.
Implicit Types (s : S).

Lemma wp_ret (a : A) Q s : Q a s -> wp (ret a) Q s.
Proof. exact id. Qed.

Lemma wp_bind (m : M S A) (k : A -> M S B) Q s :
  wp m (fun a s' => wp (k a) Q s') s -> wp (bind m k) Q s.
Proof. unfold wp, bind. by destruct (m s). Qed.

Lemma wp_mono (m : M S A) (P Q : A -> S -> Prop) s :
  wp m P s -> (forall a s', P a s' -> Q a s') -> wp m Q s.
Proof. unfold wp. destruct (m s); naive_solver. Qed.

Lemma wp_Ok (m : M S A) Q s :
  wp m Q s -> exists a s', m s = Ok a s' /\ Q a s'.
Proof. unfold wp. destruct (m s); naive_solver. Qed.

Lemma wp_intro (m : M S A) (Q : A -> S -> Prop) s a s' :
  m s = Ok a s' -> Q a s' -> wp m Q s.
Proof. unfold wp. by intros ->. Qed.

Lemma wp_gets (f : S -> A) Q s : Q (f s) s -> wp (gets f) Q s.
Proof. exact id. Qed.

Lemma wp_modify (f : S -> S) Q s : Q tt (f s) -> wp (modify f) Q s.
Proof. exact id. Qed.

Lemma wp_get Q s : Q s s -> wp (@get S) Q s.
Proof. exact id. Qed.

Lemma wp_put s0 Q s : Q tt s0 -> wp (put s0) Q s.
Proof. exact id. Qed.

Lemma wpb_bind (m : M S A) (k : A -> M S B) Q R s :
  wp m (fun a s' => wpb (k a) Q R s') s -> wpb (bind m k) Q R s.
Proof. unfold wp, wpb, bind. by destruct (m s). Qed.

Lemma wpb_wp (m : M S A) Q R s : wp m Q s -> wpb m Q R s.
Proof. unfold wp, wpb. by destruct (m s). Qed.

Lemma wpb_block c (Q : A -> S -> Prop) (R : chan -> S -> Prop) s : R c s -> wpb (block_on c) Q R s.
Proof. exact id. Qed.

Lemma bind_Ok (m : M S A) (k : A -> M S B) s a s' :
  m s = Ok a s' -> bind m k s = k a s'.
Proof. unfold bind. by intros ->. Qed.

Lemma bind_Ok_inv (m : M S A) (k : A -> M S B) s b s' :
  bind m k s = Ok b s' -> exists a s1, m s = Ok a s1 /\ k a s1 = Ok b s'.
Proof. unfold bind. destruct (m s); naive_solver. Qed.

Lemma bind_Panic (m : M S A) (k : A -> M S B) s msg :
  m s = Panic msg -> bind m k s = Panic msg.
Proof. unfold bind. by intros ->. Qed.
End rules.

Lemma wp_zoom {S T A} (l : lens S T) (m : M T A) (Q : A -> S -> Prop) s :
  wp m (fun a t => Q a (lset l t s)) (lget l s) -> wp (zoom l m) Q s.
Proof. unfold wp, zoom. by destruct (m (lget l s)). Qed.

(** Loop rule: an invariant indexed by what has been and what remains to be
    iterated. *)
Lemma wp_for_each {S A} (body : A -> M S unit) (I : list A -> list A -> S -> Prop) l s :
  I [] l s ->
  (forall done x rest s', l = done ++ x :: rest -> I done (x :: rest) s' ->
     wp (body x) (fun _ s'' => I (done ++ [x]) rest s'') s') ->
  wp (for_each l body) (fun _ s' => I l [] s') s.
Proof.
  intros H0 Hstep.
  assert (Hgen : forall rest done s', l = done ++ rest -> I done rest s' ->
            wp (for_each rest body) (fun _ s'' => I l [] s'') s').
  { induction rest as [|x rest IH]; intros done s' Hl HI; simpl.
    - rewrite app_nil_r in Hl. subst. by apply wp_ret.
    - apply wp_bind. eapply wp_mono; [by apply (Hstep done x rest)|].
      intros [] s'' HI'. apply (IH (done ++ [x])); [|done].
      by rewrite <- app_assoc. }
  by apply (Hgen l []).
Qed.

(** The same for [for (i = 0; i < n; i++)]. *)
Lemma wp_for_range {S} (n : Z) (body : Z -> M S unit) (I : nat -> S -> Prop) s :
  I O s ->
  (forall k s', (k < Z.to_nat n)%nat -> I k s' ->
     wp (body (Z.of_nat k)) (fun _ s'' => I (Datatypes.S k) s'') s') ->
  wp (for_each (seqZ 0 n) body) (fun _ s' => I (Z.to_nat n) s') s.
Proof.
  intros H0 Hstep.
  eapply wp_mono; [apply (wp_for_each _ (fun dn _ s' => I (length dn) s')); [done|]|].
  - intros dn x rest s' Hl HI.
    assert (length dn < Z.to_nat n)%nat as Hlt.
    { rewrite <- (length_seqZ 0 n), Hl, length_app. simpl. lia. }
    assert (x = Z.of_nat (length dn)) as ->.
    { assert (seqZ 0 n !! length dn = Some x) as Hx by (rewrite Hl; by apply list_lookup_middle).
      apply lookup_seqZ in Hx. lia. }
    rewrite length_app, Nat.add_comm. by apply Hstep.
  - intros [] s'. by rewrite length_seqZ.
Qed.

(** A searching loop: the invariant holds as long as nothing was found. *)
Lemma wp_for_find {S A R} (body : A -> M S (option R)) (I : list A -> S -> Prop)
    (Q : option R -> S -> Prop) l s :
  I [] s ->
  (forall dn x rest s', l = dn ++ x :: rest -> I dn s' ->
     wp (body x) (fun r s'' => match r with
                               | Some v => Q (Some v) s''
                               | None => I (dn ++ [x]) s''
                               end) s') ->
  (forall s', I l s' -> Q None s') ->
  wp (for_find l body) Q s.
Proof.
  intros H0 Hstep Hend.
  assert (forall rest dn s', l = dn ++ rest -> I dn s' -> wp (for_find rest body) Q s') as Hgen.
  { induction rest as [|x rest IH]; intros dn s' Hl HI; simpl.
    - rewrite app_nil_r in Hl. subst. apply wp_ret. auto.
    - apply wp_bind. eapply wp_mono; [by apply (Hstep dn x rest)|].
      intros [v|] s'' HI'; simpl; [by apply wp_ret|].
      apply (IH (dn ++ [x])); [by rewrite <- app_assoc|done]. }
  by apply (Hgen l []).
Qed.

(** ** What a routine leaves unchanged

    [keeps f m]: whenever [m] returns, the observation [f] of the state is
    what it was. *)
Definition keeps {S T A} (f : S -> T) (m : M S A) : Prop :=
  forall s a s', m s = Ok a s' -> f s' = f s.

Section keeps.
Context {S T A B : Type} (f : S -> T).

Lemma keeps_ret (a : A) : keeps f (ret a : M S A).
Proof. by intros s ? ? [= <- <-]. Qed.
Lemma keeps_gets (g : S -> A) : keeps f (gets g).
Proof. by intros s ? ? [= <- <-]. Qed.
Lemma keeps_get : keeps f (@get S).
Proof. by intros s ? ? [= <- <-]. Qed.
Lemma keeps_panic msg : keeps f (panic msg : M S A).
Proof. by intros s ? ?. Qed.
Lemma keeps_block c : keeps f (block_on c : M S A).
Proof. by intros s ? ?. Qed.
Lemma keeps_modify (g : S -> S) : (forall s, f (g s) = f s) -> keeps f (modify g).
Proof. intros Hg s ? ? [= <- <-]. apply Hg. Qed.

Lemma keeps_bind (m : M S A) (k : A -> M S B) :
  keeps f m -> (forall a, keeps f (k a)) -> keeps f (bind m k).
Proof.
  intros Hm Hk s b s'. unfold bind. destruct (m s) as [a s1| | |] eqn:E; try done.
  intros H. rewrite (Hk a s1 b s' H). by eapply Hm.
Qed.

Lemma keeps_for_each (l : list A) (body : A -> M S unit) :
  (forall x, keeps f (body x)) -> keeps f (for_each l body).
Proof.
  intros Hb. induction l as [|x l IH]; simpl; [by intros s ? ? [= <- <-]|].
  intros s b s'. unfold bind. destruct (body x s) as [a s1| | |] eqn:E; try done.
  intros H. rewrite (IH s1 b s' H). by eapply Hb.
Qed.
End keeps.

Lemma keeps_zoom {S T U A} (f : S -> T) (l : lens S U) (m : M U A) :
  (forall t s, f (lset l t s) = f s) -> keeps f (zoom l m).
Proof. intros Hl s a s'. unfold zoom. case_match; intros; simplify_eq. apply Hl. Qed.

Create HintDb keeps.
#[export] Hint Resolve keeps_ret keeps_gets keeps_get keeps_panic keeps_block : keeps.

(** [keeps_auto] decomposes a routine down to the hints. *)
Ltac keeps_auto :=
  repeat first
    [ solve [auto with keeps]
    | apply keeps_bind; [|intros ?]
    | apply keeps_for_each; intros ?
    | apply keeps_modify; intros ?; reflexivity
    | case_match ].

(** ** Generic lemmas *)

Lemma le_encode_length n v : length (le_encode n v) = n.
Proof. revert v. induction n; intros v; simpl; auto. Qed.

Lemma le_decode_encode n v :
  le_decode (le_encode n v) = v mod 2 ^ (8 * Z.of_nat n).
Proof.
  revert v. induction n as [|n IH]; intros v.
  - simpl. by rewrite Z.mod_1_r.
  - cbn [le_encode le_decode]. rewrite IH.
    replace (8 * Z.of_nat (S n)) with (8 + 8 * Z.of_nat n) by lia.
    rewrite Z.pow_add_r by lia. change (2 ^ 8) with 256.
    rewrite Z.rem_mul_r by lia. lia.
Qed.

Lemma le_encode_bytes n v : Forall is_byte (le_encode n v).
Proof.
  revert v. induction n as [|n IH]; intros v; simpl; constructor; auto.
  unfold is_byte. pose proof (Z.mod_pos_bound v 256). lia.
Qed.

Lemma le_decode_bound bs :
  Forall is_byte bs -> 0 <= le_decode bs < 2 ^ (8 * Z.of_nat (length bs)).
Proof.
  induction 1 as [|b bs Hb _ IH]; [simpl; lia|].
  cbn [le_decode length]. unfold is_byte in Hb.
  replace (8 * Z.of_nat (S (length bs))) with (8 + 8 * Z.of_nat (length bs)) by lia.
  rewrite Z.pow_add_r by lia. change (2 ^ 8) with 256. lia.
Qed.

Lemma le_encode_decode bs :
  Forall is_byte bs -> le_encode (length bs) (le_decode bs) = bs.
Proof.
  induction 1 as [|b bs Hb _ IH]; [done|].
  cbn [le_decode length le_encode]. unfold is_byte in Hb.
  replace (b + 256 * le_decode bs) with (le_decode bs * 256 + b) by lia.
  rewrite Z.div_add_l by lia. rewrite (Z.div_small b 256) by lia.
  rewrite Z.add_0_r, IH. f_equal.
  rewrite Z.add_comm, Z.mod_add by lia. by apply Z.mod_small.
Qed.

Lemma splice_length {A} off (bs l : list A) : length (splice off bs l) = length l.
Proof.
  unfold splice. rewrite !length_app, !length_take, length_drop. lia.
Qed.

Lemma splice_in_bounds {A} off (bs l : list A) :
  (off + length bs <= length l)%nat ->
  splice off bs l = take off l ++ bs ++ drop (off + length bs) l.
Proof. intros H. unfold splice. by rewrite (take_ge bs) by lia. Qed.

Lemma slice_splice_eq {A} off (bs l : list A) :
  (off + length bs <= length l)%nat -> slice off (length bs) (splice off bs l) = bs.
Proof.
  intros H. rewrite splice_in_bounds by done. unfold slice.
  rewrite drop_app_ge by (rewrite length_take; lia).
  rewrite length_take, Nat.min_l by lia.
  rewrite Nat.sub_diag, drop_0. by rewrite take_app_le, take_ge by lia.
Qed.

Lemma lookup_splice_old {A} off (bs l : list A) i :
  (i < off \/ off + length bs <= i)%nat -> splice off bs l !! i = l !! i.
Proof.
  intros H. unfold splice.
  destruct (decide (i < length l)%nat) as [Hi|Hi].
  - destruct (decide (i < off)%nat).
    + rewrite lookup_app_l by (rewrite length_take; lia). by rewrite lookup_take_lt.
    + rewrite lookup_app_r by (rewrite length_take; lia).
      rewrite lookup_app_r by (rewrite !length_take; lia).
      rewrite lookup_drop, !length_take. f_equal. lia.
  - rewrite !lookup_ge_None_2; [done|lia|].
    rewrite !length_app, !length_take, length_drop. lia.
Qed.

Lemma lookup_splice_new {A} off (bs l : list A) i :
  (off + length bs <= length l)%nat -> (off <= i < off + length bs)%nat ->
  splice off bs l !! i = bs !! (i - off)%nat.
Proof.
  intros Hl Hi. rewrite splice_in_bounds by done.
  rewrite lookup_app_r by (rewrite length_take; lia).
  rewrite lookup_app_l by (rewrite length_take; lia).
  f_equal. rewrite length_take. lia.
Qed.

Lemma lookup_slice {A} off n (l : list A) i :
  (i < n)%nat -> slice off n l !! i = l !! (off + i)%nat.
Proof. intros H. unfold slice. by rewrite lookup_take_lt, lookup_drop. Qed.

Lemma slice_length {A} off n (l : list A) :
  (off + n <= length l)%nat -> length (slice off n l) = n.
Proof. intros H. unfold slice. rewrite length_take, length_drop. lia. Qed.

Lemma slice_splice_ne {A} off n off' (bs l : list A) :
  (off + n <= off' \/ off' + length bs <= off)%nat ->
  slice off n (splice off' bs l) = slice off n l.
Proof.
  intros H. apply list_eq. intros i.
  destruct (decide (i < n)%nat).
  - rewrite !lookup_slice by done. apply lookup_splice_old. lia.
  - unfold slice. rewrite !lookup_take_ge by lia. done.
Qed.

Lemma elem_of_take_in {A} (x : A) k l : x ∈ take k l -> x ∈ l.
Proof. intros H. rewrite <- (take_drop k l). apply elem_of_app. by left. Qed.

Lemma elem_of_drop_in {A} (x : A) k l : x ∈ drop k l -> x ∈ l.
Proof. intros H. rewrite <- (take_drop k l). apply elem_of_app. by right. Qed.

Lemma NoDup_drop {A} k (l : list A) : NoDup l -> NoDup (drop k l).
Proof. rewrite <- (take_drop k l) at 1. by intros (_ & _ & ?)%NoDup_app. Qed.

Lemma splice_Forall {A} (Q : A -> Prop) off bs l :
  Forall Q bs -> Forall Q l -> Forall Q (splice off bs l).
Proof.
  intros Hb Hl. unfold splice. rewrite !Forall_app.
  split_and!; eauto using Forall_take, Forall_drop.
Qed.

(** An invariant of a step relation holds in every reachable state. *)
Lemma rtc_preserves {A} (R : relation A) (Q : A -> Prop) x y :
  (forall a b, R a b -> Q a -> Q b) -> rtc R x y -> Q x -> Q y.
Proof. intros Hs. induction 1; eauto. Qed.

(** Updates of one element of an array. *)
Lemma alter_at {A} (f : A -> A) i (l : list A) x :
  l !! i = Some x -> alter f i l = <[i := f x]> l.
Proof.
  intros H. apply list_eq. intros j. destruct (decide (i = j)) as [->|Hne].
  - rewrite list_lookup_alter_eq, H, list_lookup_insert_eq; [done|by eapply lookup_lt_Some].
  - by rewrite list_lookup_alter_ne, list_lookup_insert_ne.
Qed.

Lemma alter_same {A} `{!Inhabited A} (f : A -> A) i (l : list A) :
  f (l !!! i) = l !!! i -> alter f i l = l.
Proof.
  intros Hf. apply list_eq. intros j. destruct (decide (i = j)) as [->|Hne].
  - rewrite list_lookup_alter_eq. rewrite list_lookup_total_alt in Hf.
    destruct (l !! j); simpl in *; congruence.
  - by rewrite list_lookup_alter_ne.
Qed.

Lemma alter_alter {A} (f g : A -> A) i (l : list A) :
  alter f i (alter g i l) = alter (fun a => f (g a)) i l.
Proof. apply list_alter_alter_eq. Qed.

Lemma u32_small x : 0 <= x < 2 ^ 32 -> u32 x = x.
Proof. intros. by apply Z.mod_small. Qed.
Lemma u64_small x : 0 <= x < 2 ^ 64 -> u64 x = x.
Proof. intros. by apply Z.mod_small. Qed.
Lemma s32_small x : - 2 ^ 31 <= x < 2 ^ 31 -> s32 x = x.
Proof.
  intros. unfold s32, swrap. change (32 - 1) with 31.
  rewrite Z.mod_small; lia.
Qed.
Lemma u32_range x : 0 <= u32 x < 2 ^ 32.
Proof. by apply Z.mod_pos_bound. Qed.
Lemma u64_range x : 0 <= u64 x < 2 ^ 64.
Proof. by apply Z.mod_pos_bound. Qed.
Lemma s32_range x : - 2 ^ 31 <= s32 x < 2 ^ 31.
Proof.
  unfold s32, swrap. change (32 - 1) with 31.
  pose proof (Z.mod_pos_bound (x + 2 ^ 31) (2 ^ 32)). lia.
Qed.

(** ** Tactics and hints *)

Create HintDb kern.
#[export] Hint Resolve wp_ret wp_gets wp_modify wp_get wp_put : kern.

(** [wp_step] advances a [wp] goal through one primitive of the monad. *)
Ltac wp_step :=
  lazymatch goal with
  | |- wp (bind _ _) _ _ => apply wp_bind
  | |- wp (ret _) _ _ => apply wp_ret
  | |- wp (gets _) _ _ => apply wp_gets
  | |- wp (modify _) _ _ => apply wp_modify
  | |- wp get _ _ => apply wp_get
  | |- wp (put _) _ _ => apply wp_put
  end.
Ltac wp_steps := repeat (wp_step; cbv beta).

(** [wp_use H] reasons about the next routine by its specification [H]. *)
Ltac wp_use H := eapply wp_mono; [eapply H|cbv beta].

(** [inv_bind H as a s E] steps into the first routine of a sequence that
    returned. *)
Tactic Notation "inv_bind" hyp(H) "as" ident(a) ident(s) ident(E) :=
  apply bind_Ok_inv in H as (a & s & E & H).

(** [destruct_ands] splits every conjunction and existential hypothesis. *)
Ltac destruct_ands :=
  repeat match goal with
  | H : _ /\ _ |- _ => destruct H
  | H : ex _ |- _ => destruct H
  end.
