(* ===== verification/Str.v ===== *)
(** * Byte strings (kernel/string.c)

    [memset], [memmove] and [memcmp] work on one byte array with addresses in
    it, so that overlapping regions are what they are in C.  The string
    routines take the bytes found from a pointer on; a byte past the end of
    such a list reads as the terminating NUL.  *)

From S2P Require Import Prelude.

Definition rd (m : list Z) (a : nat) : Z := default 0 (m !! a).

(** ** Memory *)

Fixpoint memset_loop (n : nat) (d : nat) (c : Z) (m : list Z) : list Z :=
  match n with
  | O => m
  | S n' => memset_loop n' (S d) c (<[d := u8 c]> m)
  end.
Definition memset (d : nat) (c : Z) (n : nat) (m : list Z) : list Z := memset_loop n d c m.

Fixpoint memcmp (n : nat) (a b : nat) (m : list Z) : Z :=
  match n with
  | O => 0
  | S n' => if rd m a =? rd m b then memcmp n' (S a) (S b) m else rd m a - rd m b
  end.

(** [*d++ = *s++] and [*--d = *--s], [n] times. *)
Fixpoint copy_fwd (n d s : nat) (m : list Z) : list Z :=
  match n with
  | O => m
  | S n' => copy_fwd n' (S d) (S s) (<[d := rd m s]> m)
  end.
Fixpoint copy_bwd (n d s : nat) (m : list Z) : list Z :=
  match n with
  | O => m
  | S n' => copy_bwd n' (d - 1) (s - 1) (<[(d - 1)%nat := rd m (s - 1)]> m)
  end.

Definition memmove (d s n : nat) (m : list Z) : list Z :=
  if (n =? 0)%nat then m
  else if (s <? d)%nat && (d <? s + n)%nat then copy_bwd n (d + n) (s + n) m
  else copy_fwd n d s m.

Definition memcpy (d s n : nat) (m : list Z) : list Z := memmove d s n m.

(** ** Strings *)

Fixpoint strncmp (n : nat) (p q : list Z) : Z :=
  match n with
  | O => 0
  | S n' =>
      if negb (rd p 0 =? 0) && (rd p 0 =? rd q 0) then strncmp n' (drop 1 p) (drop 1 q)
      else u8 (rd p 0) - u8 (rd q 0)
  end.

(** [strncpy]: the two loops, at index [i] of the destination. *)
Fixpoint strncpy_pad (n i : nat) (s : list Z) : list Z :=
  match n with
  | O => s
  | S n' => strncpy_pad n' (S i) (<[i := 0]> s)
  end.
Fixpoint strncpy_loop (n i : nat) (s t : list Z) : list Z :=
  match n with
  | O => s
  | S n' =>
      let c := rd t 0 in
      let s' := <[i := c]> s in
      if c =? 0 then strncpy_pad n' (S i) s' else strncpy_loop n' (S i) s' (drop 1 t)
  end.
Definition strncpy (s t : list Z) (n : Z) : list Z := strncpy_loop (Z.to_nat n) 0 s t.

Fixpoint safestrcpy_loop (n i : nat) (s t : list Z) : list Z :=
  match n with
  | O => <[i := 0]> s
  | S n' =>
      let c := rd t 0 in
      let s' := <[i := c]> s in
      if c =? 0 then <[S i := 0]> s' else safestrcpy_loop n' (S i) s' (drop 1 t)
  end.
Definition safestrcpy (s t : list Z) (n : Z) : list Z :=
  if n <=? 0 then s else safestrcpy_loop (Z.to_nat (n - 1)) 0 s t.

Fixpoint strlen (s : list Z) : Z :=
  match s with
  | [] => 0
  | c :: s' => if c =? 0 then 0 else 1 + strlen s'
  end.

(** ** Reference definitions *)

(** The C string at the start of a byte list. *)
Fixpoint cstr (s : list Z) : list Z :=
  match s with
  | [] => []
  | c :: s' => if c =? 0 then [] else c :: cstr s'
  end.

Definition nonul (s : list Z) : Prop := Forall (fun c => c <> 0) s.

(** ** Copies *)

Lemma rd_lookup m a x : m !! a = Some x -> rd m a = x.
Proof. unfold rd. by intros ->. Qed.

(** Element [i] after a forward copy of [n] bytes, for regions where the
    destination is not ahead of a source byte still to be read. *)
Lemma copy_fwd_lookup n d s m i :
  (d + n <= length m)%nat -> (s + n <= length m)%nat -> (d <= s \/ s + n <= d)%nat ->
  copy_fwd n d s m !! i =
  if decide (d <= i < d + n)%nat then m !! (s + (i - d))%nat else m !! i.
Proof.
  revert d s m. induction n as [|n IH]; intros d s m Hd Hs Hov.
  - rewrite decide_False by lia. done.
  - cbn [copy_fwd]. assert (s < length m)%nat as Hlt by lia.
    destruct (lookup_lt_is_Some_2 _ _ Hlt) as [x Hx]. rewrite (rd_lookup _ _ _ Hx).
    rewrite IH by (rewrite ?length_insert; lia).
    destruct (decide (i = d)) as [->|Hne].
    + rewrite decide_False, decide_True by lia. rewrite list_lookup_insert_eq by lia.
      rewrite <- Hx. f_equal. lia.
    + repeat case_decide; try lia; rewrite list_lookup_insert_ne by lia; [|done].
      f_equal. lia.
Qed.

Lemma copy_bwd_lookup n d s m i :
  (n <= d <= length m)%nat -> (n <= s <= d)%nat ->
  copy_bwd n d s m !! i =
  if decide (d - n <= i < d)%nat then m !! (s - (d - i))%nat else m !! i.
Proof.
  revert d s m. induction n as [|n IH]; intros d s m Hd Hs.
  - rewrite decide_False by lia. done.
  - cbn [copy_bwd]. assert (s - 1 < length m)%nat as Hlt by lia.
    destruct (lookup_lt_is_Some_2 _ _ Hlt) as [x Hx]. rewrite (rd_lookup _ _ _ Hx).
    rewrite IH by (rewrite ?length_insert; lia).
    destruct (decide (i = d - 1)%nat) as [->|Hne].
    + rewrite decide_False, decide_True by lia. rewrite list_lookup_insert_eq by lia.
      rewrite <- Hx. f_equal. lia.
    + repeat case_decide; try lia; rewrite list_lookup_insert_ne by lia; [|done].
      f_equal. lia.
Qed.

Lemma splice_lookup {A} off (bs l : list A) i :
  (off + length bs <= length l)%nat ->
  splice off bs l !! i =
  if decide (off <= i < off + length bs)%nat then bs !! (i - off)%nat else l !! i.
Proof.
  intros H. case_decide; [by apply lookup_splice_new|apply lookup_splice_old; lia].
Qed.

(** Memmove.  Whatever the overlap of source and destination, [memmove]
    leaves the bytes the source held before the call at the destination and
    touches nothing else. *)
Theorem memmove_correct d s n m :
  (d + n <= length m)%nat -> (s + n <= length m)%nat ->
  memmove d s n m = splice d (slice s n m) m.
Proof.
  intros Hd Hs. apply list_eq. intros i. unfold memmove.
  assert (length (slice s n m) = n) as Hlen by by apply slice_length.
  rewrite splice_lookup, Hlen by lia.
  destruct (Nat.eqb_spec n 0) as [->|Hn]; [by rewrite decide_False by lia|].
  destruct (Nat.ltb_spec s d), (Nat.ltb_spec d (s + n)); simpl;
    rewrite ?copy_bwd_lookup, ?copy_fwd_lookup by lia;
    repeat case_decide; try lia; try done; rewrite lookup_slice by lia; f_equal; lia.
Qed.

Lemma memmove_correct_witness :
  memmove 1 0 4 [1; 2; 3; 4; 5; 6] = [1; 1; 2; 3; 4; 6].
Proof. rewrite memmove_correct by (simpl; lia). reflexivity. Defined.

Lemma memset_lookup n d c m i :
  (d + n <= length m)%nat ->
  memset_loop n d c m !! i = if decide (d <= i < d + n)%nat then Some (u8 c) else m !! i.
Proof.
  revert d m. induction n as [|n IH]; intros d m Hd.
  - rewrite decide_False by lia. done.
  - cbn [memset_loop]. rewrite IH by (rewrite length_insert; lia).
    destruct (decide (i = d)) as [->|Hne].
    + rewrite decide_False, decide_True by lia. by rewrite list_lookup_insert_eq by lia.
    + repeat case_decide; try lia; try done. by rewrite list_lookup_insert_ne by lia.
Qed.

Lemma memset_spec d c n m :
  (d + n <= length m)%nat -> memset d c n m = splice d (replicate n (u8 c)) m.
Proof.
  intros Hd. apply list_eq. intros i. unfold memset.
  rewrite memset_lookup, splice_lookup, length_replicate by (rewrite ?length_replicate; lia).
  case_decide; [|done]. symmetry. apply lookup_replicate_2. lia.
Qed.

(** ** Comparison *)

Lemma cstr_cons_nz c s : c <> 0 -> cstr (c :: s) = c :: cstr s.
Proof. intros H. simpl. by rewrite (proj2 (Z.eqb_neq c 0)). Qed.

Lemma rd_take_cstr n s :
  cstr (take (S n) s) =
  if rd s 0 =? 0 then [] else rd s 0 :: cstr (take n (drop 1 s)).
Proof. destruct s as [|c s]; simpl; [done|]. unfold rd. simpl. by destruct (c =? 0). Qed.

(** Strncmp.  On byte strings, [strncmp(p, q, n) == 0] exactly when the C
    strings at [p] and [q] agree in their first [n] characters; the name
    comparison of the file system rests on it. *)
Theorem strncmp_zero n p q :
  Forall is_byte p -> Forall is_byte q ->
  strncmp n p q = 0 <-> cstr (take n p) = cstr (take n q).
Proof.
  revert p q. induction n as [|n IH]; intros p q Hp Hq; [by rewrite !take_0|].
  assert (forall s, Forall is_byte s -> 0 <= rd s 0 < 256) as Hr.
  { intros s Hs. unfold rd. destruct (s !! 0%nat) eqn:E; simpl; [|lia].
    by apply (Forall_lookup_1 _ _ _ _ Hs E). }
  pose proof (Hr p Hp). pose proof (Hr q Hq).
  rewrite !rd_take_cstr. cbn [strncmp].
  destruct (Z.eqb_spec (rd p 0) 0) as [E|E]; simpl.
  - rewrite E. unfold u8. rewrite !Z.mod_small by lia.
    destruct (Z.eqb_spec (rd q 0) 0); split; intros; try done; lia.
  - destruct (Z.eqb_spec (rd p 0) (rd q 0)) as [E'|E'].
    + rewrite IH by by apply Forall_drop. rewrite <- E'.
      rewrite (proj2 (Z.eqb_neq _ _)) by done. split; [congruence|by intros [= ?]].
    + unfold u8. rewrite !Z.mod_small by lia.
      destruct (Z.eqb_spec (rd q 0) 0); split; intros Hx; try done; try lia.
      by injection Hx.
Qed.

Lemma strncmp_zero_witness :
  cstr (take 14 [97; 98; 0; 7]) = cstr (take 14 [97; 98]).
Proof.
  apply (strncmp_zero 14 [97; 98; 0; 7] [97; 98]);
    [repeat constructor; unfold is_byte; lia..|vm_compute; reflexivity].
Defined.

(** ** Bounded copies of strings *)

Lemma strncpy_pad_lookup n i s k :
  (i + n <= length s)%nat ->
  strncpy_pad n i s !! k = if decide (i <= k < i + n)%nat then Some 0 else s !! k.
Proof.
  revert i s. induction n as [|n IH]; intros i s Hl.
  - rewrite decide_False by lia. done.
  - cbn [strncpy_pad]. rewrite IH by (rewrite length_insert; lia).
    destruct (decide (k = i)) as [->|Hne].
    + rewrite decide_False, decide_True by lia. by rewrite list_lookup_insert_eq by lia.
    + repeat case_decide; try lia; try done. by rewrite list_lookup_insert_ne by lia.
Qed.

(** The [n]-byte field holding the string [t]: its characters, then NULs. *)
Definition name_field (n : nat) (t : list Z) : list Z :=
  take n (cstr t) ++ replicate (n - length (cstr t)) 0.

Lemma name_field_length n t : length (name_field n t) = n.
Proof. unfold name_field. rewrite length_app, length_take, length_replicate. lia. Qed.

Lemma name_field_S n t :
  name_field (S n) t =
  if rd t 0 =? 0 then replicate (S n) 0 else rd t 0 :: name_field n (drop 1 t).
Proof.
  unfold name_field. destruct t as [|c t]; simpl; [done|].
  unfold rd. simpl. by destruct (c =? 0).
Qed.

Lemma strncpy_loop_spec n i s t :
  (i + n <= length s)%nat -> strncpy_loop n i s t = splice i (name_field n t) s.
Proof.
  revert i s t. induction n as [|n IH]; intros i s t Hl.
  - apply list_eq. intros k. rewrite splice_lookup, name_field_length by (rewrite name_field_length; lia).
    rewrite decide_False by lia. done.
  - cbn [strncpy_loop]. apply list_eq. intros k.
    rewrite splice_lookup, name_field_length by (rewrite name_field_length; lia).
    rewrite name_field_S. destruct (Z.eqb_spec (rd t 0) 0) as [E|E].
    + rewrite strncpy_pad_lookup by (rewrite length_insert; lia). rewrite E.
      destruct (decide (k = i)) as [->|Hne].
      * rewrite decide_False, decide_True by lia. rewrite list_lookup_insert_eq by lia.
        symmetry. apply lookup_replicate_2. lia.
      * repeat case_decide; try lia; [symmetry; apply lookup_replicate_2; lia|].
        by rewrite list_lookup_insert_ne by lia.
    + rewrite IH by (rewrite length_insert; lia).
      rewrite splice_lookup, name_field_length by (rewrite name_field_length, length_insert; lia).
      destruct (decide (k = i)) as [->|Hne].
      * rewrite decide_False, decide_True by lia. rewrite list_lookup_insert_eq by lia.
        by rewrite Nat.sub_diag.
      * repeat case_decide; try lia; [|by rewrite list_lookup_insert_ne by lia].
        destruct (k - i)%nat eqn:Ek; [lia|]. simpl. f_equal. lia.
Qed.

Lemma strncpy_spec s t n :
  0 <= n <= Z.of_nat (length s) ->
  strncpy s t n = splice 0 (name_field (Z.to_nat n) t) s.
Proof. intros Hn. apply strncpy_loop_spec. lia. Qed.

Lemma safestrcpy_loop_spec n i s t :
  (i + n < length s)%nat ->
  let r := take n (cstr t) in
  let s' := safestrcpy_loop n i s t in
  length s' = length s /\
  (forall k, (k < i \/ i + n < k)%nat -> s' !! k = s !! k) /\
  (forall k, (k < length r)%nat -> s' !! (i + k)%nat = r !! k) /\
  s' !! (i + length r)%nat = Some 0.
Proof.
  revert i s t. induction n as [|n IH]; intros i s t Hl; cbn [safestrcpy_loop].
  - rewrite take_0. split_and!; [by rewrite length_insert| | |].
    + intros k Hk. apply list_lookup_insert_ne. lia.
    + simpl. lia.
    + simpl. rewrite Nat.add_0_r. apply list_lookup_insert_eq. lia.
  - destruct t as [|c t]; cbn [cstr].
    + unfold rd. simpl. split_and!; [by rewrite !length_insert| |lia|].
      * intros k Hk. by rewrite !list_lookup_insert_ne by lia.
      * rewrite Nat.add_0_r, list_lookup_insert_ne by lia. apply list_lookup_insert_eq. lia.
    + unfold rd. simpl (default 0 _). destruct (Z.eqb_spec c 0) as [->|Hc].
      * simpl. split_and!; [by rewrite !length_insert| |lia|].
        -- intros k Hk. by rewrite !list_lookup_insert_ne by lia.
        -- rewrite Nat.add_0_r, list_lookup_insert_ne by lia. apply list_lookup_insert_eq. lia.
      * simpl (drop 1 _). rewrite drop_0.
        destruct (IH (S i) (<[i:=c]> s) t) as (H1 & H2 & H3 & H4); [rewrite length_insert; lia|].
        cbn [take length]. split_and!.
        -- by rewrite H1, length_insert.
        -- intros k Hk. rewrite H2 by lia. apply list_lookup_insert_ne. lia.
        -- intros [|k] Hk; simpl.
           ++ rewrite Nat.add_0_r, H2 by lia. apply list_lookup_insert_eq. lia.
           ++ rewrite <- H3 by lia. f_equal. lia.
        -- rewrite <- H4. f_equal. lia.
Qed.

Lemma cstr_nonul s : nonul (cstr s).
Proof.
  induction s as [|c s IH]; simpl; [constructor|].
  destruct (Z.eqb_spec c 0); constructor; auto.
Qed.

Lemma cstr_app_nul r s : nonul r -> cstr (r ++ 0 :: s) = r.
Proof. induction 1 as [|c r Hc _ IH]; [done|]. cbn [app]. by rewrite cstr_cons_nz, IH. Qed.

(** Safestrcpy.  With room for [n > 0] bytes, [safestrcpy] leaves a
    NUL-terminated string: the source cut to [n - 1] characters; the array
    keeps its length and no byte from the [n]th on is touched. *)
Theorem safestrcpy_correct s t n :
  0 < n <= Z.of_nat (length s) ->
  cstr (safestrcpy s t n) = take (Z.to_nat (n - 1)) (cstr t) /\
  length (safestrcpy s t n) = length s /\
  drop (Z.to_nat n) (safestrcpy s t n) = drop (Z.to_nat n) s.
Proof.
  intros Hn. unfold safestrcpy. rewrite (proj2 (Z.leb_gt _ _)) by lia.
  destruct (safestrcpy_loop_spec (Z.to_nat (n - 1)) 0 s t) as (H1 & H2 & H3 & H4); [lia|].
  set (s' := safestrcpy_loop _ _ _ _) in *. set (r := take _ (cstr t)) in *. simpl in H3, H4.
  split_and!; [|done|].
  - rewrite <- (take_drop_middle s' (length r) 0 H4).
    replace (take (length r) s') with r; [apply cstr_app_nul, Forall_take, cstr_nonul|].
    apply list_eq. intros k. destruct (decide (k < length r)%nat).
    + by rewrite lookup_take_lt, H3.
    + by rewrite lookup_take_ge, lookup_ge_None_2 by lia.
  - apply list_eq. intros k. rewrite !lookup_drop. apply H2. lia.
Qed.

Lemma safestrcpy_correct_witness :
  cstr (safestrcpy [9; 9; 9; 9] [104; 101; 108; 108; 111] 3) = [104; 101].
Proof.
  destruct (safestrcpy_correct [9; 9; 9; 9] [104; 101; 108; 108; 111] 3) as [H _];
    [simpl; lia|exact H].
Defined.

Lemma strlen_cstr s : strlen s = Z.of_nat (length (cstr s)).
Proof. induction s as [|c s IH]; simpl; [done|]. destruct (c =? 0); simpl; lia. Qed.
