(* ===== verification/Param.v ===== *)
(** * Constants of the kernel and of the on-disk format
    (kernel/param.h, kernel/fs.h, kernel/stat.h, kernel/fcntl.h) and the disk
    as the block device the buffer cache drives.  *)

From S2P Require Import Prelude.

Definition NPROC : nat := 64.
Definition NCPU : nat := 8.
Definition NOFILE : nat := 16.
Definition NFILE : nat := 100.
Definition NINODE : nat := 50.
Definition NDEV : Z := 10.
Definition ROOTDEV : Z := 1.
Definition MAXARG : Z := 32.
Definition MAXOPBLOCKS : Z := 10.
Definition LOGBLOCKS : Z := MAXOPBLOCKS * 3.
Definition NBUF : nat := 30.
Definition FSSIZE : Z := 2000.
Definition MAXPATH : Z := 128.
Definition USERSTACK : Z := 1.

Definition ROOTINO : Z := 1.
Definition BSIZE : Z := 1024.
Definition FSMAGIC : Z := 0x10203040.
Definition NDIRECT : Z := 12.
Definition NINDIRECT : Z := BSIZE / 4.
Definition MAXFILE : Z := NDIRECT + NINDIRECT.
Definition DIRSIZ : Z := 14.
Definition BPB : Z := BSIZE * 8.

Definition T_DIR : Z := 1.
Definition T_FILE : Z := 2.
Definition T_DEVICE : Z := 3.

Definition O_RDONLY : Z := 0x000.
Definition O_WRONLY : Z := 0x001.
Definition O_RDWR : Z := 0x002.
Definition O_CREATE : Z := 0x200.
Definition O_TRUNC : Z := 0x400.

Definition SBRK_EAGER : Z := 1.
Definition SBRK_LAZY : Z := 2.

(** ** The block device

    A disk is the history of completed block writes, newest first, over a
    zeroed medium.  The history is what a crash can cut: the disk after a
    crash is an older suffix of the history.  A write of one block is
    atomic. *)

Abbreviation block := (list Z).
Abbreviation disk := (list (Z * list Z)).

Definition bsize : nat := Z.to_nat BSIZE.
Definition zero_block : block := replicate bsize 0.

Fixpoint disk_read (d : disk) (b : Z) : block :=
  match d with
  | [] => zero_block
  | (b', data) :: d' => if b' =? b then data else disk_read d' b
  end.

Definition disk_write (b : Z) (data : block) (d : disk) : disk := (b, data) :: d.

(** Every write carried a full block of bytes. *)
Definition disk_ok (d : disk) : Prop :=
  Forall (fun w => length (snd w) = bsize /\ Forall is_byte (snd w)) d.

Lemma zero_block_length : length zero_block = bsize.
Proof. apply length_replicate. Qed.

Lemma zero_block_bytes : Forall is_byte zero_block.
Proof. apply Forall_replicate. unfold is_byte. lia. Qed.

Lemma disk_read_length d b : disk_ok d -> length (disk_read d b) = bsize.
Proof.
  induction 1 as [|[b' x] d [Hx _] _ IH]; simpl; [apply zero_block_length|].
  by destruct (b' =? b).
Qed.

Lemma disk_read_bytes d b : disk_ok d -> Forall is_byte (disk_read d b).
Proof.
  induction 1 as [|[b' x] d [_ Hx] _ IH]; simpl; [apply zero_block_bytes|].
  by destruct (b' =? b).
Qed.

Lemma disk_read_write_eq b data d : disk_read (disk_write b data d) b = data.
Proof. simpl. by rewrite Z.eqb_refl. Qed.

Lemma disk_read_write_ne b b' data d :
  b <> b' -> disk_read (disk_write b data d) b' = disk_read d b'.
Proof. intros. simpl. by rewrite (proj2 (Z.eqb_neq b b')). Qed.

#[global] Opaque zero_block.
