(* ===== verification/Spinlock.v ===== *)
(** * Spinlocks and interrupt nesting (kernel/spinlock.c)

    The per-thread kernel environment (the CPU a kernel thread runs on, its
    interrupt-enable state, [struct cpu]'s [noff]/[intena], the running
    process as the lower half of the kernel sees it), [push_off]/[pop_off],
    and [struct spinlock] with its operations.  [Module SMP] interleaves the
    memory operations of [acquire] and [release] on several CPUs.  *)

From S2P Require Import Prelude.

(** ** The kernel environment *)

Record kenv := mkKenv {
  e_cpu : Z;            (* cpuid(): the hart id in tp *)
  e_noff : Z;           (* mycpu()->noff *)
  e_intena : bool;      (* mycpu()->intena *)
  e_sie : bool;         (* sstatus.SIE *)
  e_pid : Z;            (* myproc()->pid *)
  e_killed : bool;      (* killed(myproc()) *)
  e_woken : list chan;  (* channels wakeup() was called on, newest first *)
  e_out : list (string * list Z)  (* printf() calls: format and integer arguments, newest first *)
}.

Definition set_sie (b : bool) (e : kenv) : kenv :=
  mkKenv (e_cpu e) (e_noff e) (e_intena e) b (e_pid e) (e_killed e) (e_woken e) (e_out e).
Definition set_noff (n : Z) (e : kenv) : kenv :=
  mkKenv (e_cpu e) n (e_intena e) (e_sie e) (e_pid e) (e_killed e) (e_woken e) (e_out e).
Definition set_intena (b : bool) (e : kenv) : kenv :=
  mkKenv (e_cpu e) (e_noff e) b (e_sie e) (e_pid e) (e_killed e) (e_woken e) (e_out e).
Definition add_woken (c : chan) (e : kenv) : kenv :=
  mkKenv (e_cpu e) (e_noff e) (e_intena e) (e_sie e) (e_pid e) (e_killed e)
         (c :: e_woken e) (e_out e).
Definition add_out (m : string * list Z) (e : kenv) : kenv :=
  mkKenv (e_cpu e) (e_noff e) (e_intena e) (e_sie e) (e_pid e) (e_killed e)
         (e_woken e) (m :: e_out e).

Definition intr_get : M kenv bool := gets e_sie.
Definition intr_off : M kenv unit := modify (set_sie false).
Definition intr_on : M kenv unit := modify (set_sie true).

(** [wakeup(chan)] as seen by a kernel thread: its effect on the process
    table is the subject of [Proc]; here the call is recorded. *)
Definition wakeup (c : chan) : M kenv unit := modify (add_woken c).
Definition printf (m : string) (args : list Z) : M kenv unit := modify (add_out (m, args)).

Definition push_off : M kenv unit :=
  old <- intr_get ;;
  intr_off ;;
  n <- gets e_noff ;;
  (when (n =? 0) do modify (set_intena old)) ;;
  modify (fun e => set_noff (e_noff e + 1) e).

Definition pop_off : M kenv unit :=
  i <- intr_get ;;
  if i : bool then panic "pop_off - interruptible" else
  n <- gets e_noff ;;
  if n <? 1 then panic "pop_off" else
  modify (set_noff (n - 1)) ;;
  n' <- gets e_noff ;;
  ena <- gets e_intena ;;
  when ((n' =? 0) && ena) do intr_on.

(** ** struct spinlock *)

Record spinlock := mkSpinlock {
  locked : bool;        (* Is the lock held? *)
  lk_cpu : option Z     (* The cpu holding the lock. *)
}.

Definition initlock : spinlock := mkSpinlock false None.

Abbreviation LM := (M (kenv * spinlock)).

Definition env_l {T} : lens (kenv * T) kenv := mkLens fst (fun e s => (e, snd s)).

Definition holding : LM bool :=
  gets (fun s => locked (snd s) && bool_decide (lk_cpu (snd s) = Some (e_cpu (fst s)))).

(** [acquire]: the test-and-set either finds the lock free and takes it, or
    the CPU spins until its holder releases it. *)
Definition acquire : LM unit :=
  zoom env_l push_off ;;
  h <- holding ;;
  if h : bool then panic "acquire" else
  l <- gets (fun s => locked (snd s)) ;;
  if l : bool then block_on ("spinlock", 0) else
  modify (fun s => (fst s, mkSpinlock true (lk_cpu (snd s)))) ;;
  modify (fun s => (fst s, mkSpinlock (locked (snd s)) (Some (e_cpu (fst s))))).

Definition release : LM unit :=
  h <- holding ;;
  if negb h then panic "release" else
  modify (fun s => (fst s, mkSpinlock (locked (snd s)) None)) ;;
  modify (fun s => (fst s, mkSpinlock false (lk_cpu (snd s)))) ;;
  zoom env_l pop_off.

(** ** Locks inside a component's state *)

Class HasEnv (S : Type) := env_of : lens S kenv.
#[export] Instance HasEnv_kenv : HasEnv kenv := mkLens id (fun e _ => e).

(** Run an operation on a lock (or any sub-object) together with the
    environment of the running thread. *)
Definition with_env {S T A} `{!HasEnv S} (L : lens S T) (m : M (kenv * T) A) : M S A :=
  fun s =>
    match m (lget env_of s, lget L s) with
    | Ok a (e, t) => Ok a (lset L t (lset env_of e s))
    | Panic msg => Panic msg
    | Block c (e, t) => Block c (lset L t (lset env_of e s))
    | NoFuel => NoFuel
    end.

Lemma keeps_with_env {S T U A} `{!HasEnv S} (f : S -> U) (L : lens S T) (m : M (kenv * T) A) :
  (forall t e s, f (lset L t (lset env_of e s)) = f s) -> keeps f (with_env L m).
Proof.
  intros Hl s a s'. unfold with_env. repeat case_match; intros; simplify_eq. apply Hl.
Qed.

Definition in_env {S A} `{!HasEnv S} (m : M kenv A) : M S A := zoom env_of m.

#[export] Instance HasEnv_pair {T} : HasEnv (kenv * T) := env_l.

(** ** What a balanced use of locks preserves

    [env_same] forgets the record of wakeups and printed lines, and the value
    of [intena] while no lock is held (the next [push_off] overwrites it). *)

Definition env_ok (e : kenv) : Prop :=
  0 <= e_noff e /\ (0 < e_noff e -> e_sie e = false).

Definition env_same (e e' : kenv) : Prop :=
  e_cpu e' = e_cpu e /\ e_noff e' = e_noff e /\ e_sie e' = e_sie e /\
  e_pid e' = e_pid e /\ e_killed e' = e_killed e /\
  (0 < e_noff e -> e_intena e' = e_intena e).

Definition push_env (e : kenv) : kenv :=
  let e' := set_sie false e in
  let e'' := if e_noff e =? 0 then set_intena (e_sie e) e' else e' in
  set_noff (e_noff e + 1) e''.

Definition pop_env (e : kenv) : kenv :=
  let e' := set_noff (e_noff e - 1) e in
  if (e_noff e - 1 =? 0) && e_intena e then set_sie true e' else e'.

#[export] Instance env_same_preorder : PreOrder env_same.
Proof.
  split; unfold env_same.
  - intros e. tauto.
  - intros e1 e2 e3. intuition (try congruence).
    etransitivity; [|eauto]. eauto with congruence.
Qed.

Lemma env_same_ok e e' : env_same e e' -> env_ok e -> env_ok e'.
Proof. intros (?&Hn&Hs&_) [??]. unfold env_ok. rewrite Hn, Hs. done. Qed.

Lemma push_off_spec e : push_off e = Ok tt (push_env e).
Proof.
  unfold push_off, intr_get, intr_off, push_env, bind, gets, modify. simpl.
  by destruct (e_noff e =? 0).
Qed.

Lemma pop_off_spec e :
  e_sie e = false -> 1 <= e_noff e -> pop_off e = Ok tt (pop_env e).
Proof.
  intros Hs Hn. unfold pop_off, intr_get, intr_on, pop_env, bind, gets, modify.
  rewrite Hs. rewrite (proj2 (Z.ltb_ge _ _)) by lia. simpl.
  by destruct ((e_noff e - 1 =? 0) && e_intena e).
Qed.

Lemma push_env_ok e : env_ok e -> env_ok (push_env e).
Proof.
  intros [??]. unfold push_env, env_ok. by destruct (e_noff e =? 0); simpl; split; try lia.
Qed.

Lemma push_env_noff e : e_noff (push_env e) = e_noff e + 1.
Proof. done. Qed.

Lemma push_env_fields e :
  e_cpu (push_env e) = e_cpu e /\ e_pid (push_env e) = e_pid e /\
  e_killed (push_env e) = e_killed e /\ e_sie (push_env e) = false.
Proof. unfold push_env. by destruct (e_noff e =? 0). Qed.

(** Undoing one [push_off] restores the environment, whatever balanced
    work happened in between. *)
Lemma pop_push_same e e1 :
  env_ok e -> env_same (push_env e) e1 -> env_same e (pop_env e1).
Proof.
  intros [Hn Hs] (H1&H2&H3&H4&H5&H6).
  unfold push_env in *. unfold pop_env, env_same.
  assert (e_noff e1 = e_noff e + 1) as Hn1
    by (rewrite H2; by destruct (e_noff e =? 0)).
  rewrite Hn1. replace (e_noff e + 1 - 1) with (e_noff e) by lia.
  destruct (Z.eqb_spec (e_noff e) 0) as [E|E]; simpl in *.
  - assert (e_intena e1 = e_sie e) as -> by (apply H6; lia).
    destruct (e_sie e) eqn:Es; simpl; split_and!; try congruence; lia.
  - split_and!; try congruence; [rewrite H3, Hs by lia; done|].
    intros _. apply H6. lia.
Qed.

#[global] Opaque push_env pop_env.

Section lock_rules.
Context {S : Type} `{!HasEnv S}.
Implicit Types (s : S).

Lemma wp_acquire (L : lens S spinlock) s Q :
  locked (lget L s) = false ->
  Q tt (lset L (mkSpinlock true (Some (e_cpu (lget env_of s))))
             (lset env_of (push_env (lget env_of s)) s)) ->
  wp (with_env L acquire) Q s.
Proof.
  intros Hl HQ. unfold wp, with_env, acquire, bind, zoom, holding, gets, modify. simpl.
  rewrite push_off_spec. simpl. rewrite Hl. simpl. rewrite ?Hl. simpl.
  destruct (push_env_fields (lget env_of s)) as (-> & _). done.
Qed.

Lemma wp_release (L : lens S spinlock) s Q :
  lget L s = mkSpinlock true (Some (e_cpu (lget env_of s))) ->
  e_sie (lget env_of s) = false -> 1 <= e_noff (lget env_of s) ->
  Q tt (lset L initlock (lset env_of (pop_env (lget env_of s)) s)) ->
  wp (with_env L release) Q s.
Proof.
  intros Hl Hs Hn HQ.
  unfold wp, with_env, release, bind, zoom, holding, gets, modify. simpl.
  rewrite Hl. simpl. rewrite bool_decide_eq_true_2 by done. simpl.
  rewrite pop_off_spec by done. done.
Qed.

(** Release after balanced work: the environment is back to what it was
    before the matching acquire. *)
Lemma wp_release_same (L : lens S spinlock) s e0 Q :
  env_ok e0 -> env_same (push_env e0) (lget env_of s) ->
  lget L s = mkSpinlock true (Some (e_cpu e0)) ->
  (forall e, env_same e0 e -> Q tt (lset L initlock (lset env_of e s))) ->
  wp (with_env L release) Q s.
Proof.
  intros Hok Hs Hl HQ. pose proof (push_env_fields e0) as (Hc & _ & _ & Hsie).
  pose proof (push_env_noff e0) as Hn. pose proof Hs as (Hc' & Hn' & Hsie' & _).
  apply wp_release.
  - by rewrite Hl, Hc', Hc.
  - congruence.
  - rewrite Hn', Hn. destruct Hok. lia.
  - apply HQ. by apply pop_push_same.
Qed.
End lock_rules.

(** ** Nesting *)

(** [n] nested critical sections around [m]. *)
Fixpoint nested (n : nat) (m : M kenv unit) : M kenv unit :=
  match n with
  | O => m
  | S n' => push_off ;; nested n' m ;; pop_off
  end.

Lemma nested_spec n m e :
  env_ok e -> (n = O -> e_sie e = false) ->
  (forall e1, env_ok e1 -> e_sie e1 = false -> wp m (fun _ e2 => env_same e1 e2) e1) ->
  wp (nested n m) (fun _ e' => env_same e e') e.
Proof.
  revert e. induction n as [|n IH]; intros e Hok Hs Hm; simpl; [by apply Hm; auto|].
  wp_step. eapply wp_intro; [apply push_off_spec|]. wp_step.
  pose proof (push_env_fields e) as (_ & _ & _ & Hsie). pose proof (push_env_noff e) as Hn.
  eapply wp_mono; [apply IH; [by apply push_env_ok|done|done]|].
  intros [] e1 He1. pose proof He1 as (_ & Hn1 & Hs1 & _).
  eapply wp_intro; [apply pop_off_spec; [congruence|destruct Hok; lia]|].
  by apply pop_push_same.
Qed.

(** Interrupts.  Any depth of [push_off]/[pop_off] nesting around a
    balanced body returns without a panic, runs the body with interrupts off,
    and puts back the interrupt state, the nesting depth and everything else
    of the environment, so interrupts come back on exactly at the outermost
    [pop_off]. *)
Theorem interrupt_nesting n m e :
  env_ok e ->
  (forall e1, env_ok e1 -> e_sie e1 = false -> wp m (fun _ e2 => env_same e1 e2) e1) ->
  exists e', nested (S n) m e = Ok tt e' /\ env_same e e' /\ e_sie e' = e_sie e.
Proof.
  intros Hok Hm. destruct (wp_Ok _ _ _ (nested_spec (S n) m e Hok ltac:(done) Hm)) as ([] & e' & ? & He).
  exists e'. split_and!; [done..|]. apply He.
Qed.

Lemma interrupt_nesting_witness :
  exists e', nested 3 (ret tt) (mkKenv 0 0 false true 1 false [] []) = Ok tt e' /\ e_sie e' = true.
Proof.
  destruct (interrupt_nesting 2 (ret tt) (mkKenv 0 0 false true 1 false [] [])) as (e' & Hr & _ & Hs).
  - split; simpl; lia.
  - intros e1 _ _. apply wp_ret. reflexivity.
  - by exists e'.
Defined.

(** ** Several CPUs contending for one lock

    Every CPU runs [acquire(lk); ...; release(lk); ...] in a loop.  One
    transition is one shared-memory operation; the atomic swap of
    [__sync_lock_test_and_set] is one operation, the write of [lk->cpu] that
    follows it is another.  *)

Module SMP.

Inductive pc :=
| Idle          (* outside the lock *)
| Spin          (* in acquire(), past the holding() check *)
| Taken         (* test-and-set returned 0, lk->cpu not yet written *)
| Critical      (* acquire() has returned *)
| Cleared       (* in release(), lk->cpu = 0 done, lock word still set *)
| Panicked.     (* panic("acquire") or panic("release") *)

#[export] Instance pc_eq_dec : EqDecision pc.
Proof. solve_decision. Defined.

Record state := mkState { pcs : Z -> pc; lk : spinlock }.

Definition upd (f : Z -> pc) (c : Z) (p : pc) : Z -> pc :=
  fun c' => if decide (c' = c) then p else f c'.

Definition holds (l : spinlock) (c : Z) : bool :=
  locked l && bool_decide (lk_cpu l = Some c).

Inductive step : state -> state -> Prop :=
| step_enter c s : pcs s c = Idle -> holds (lk s) c = false ->
    step s (mkState (upd (pcs s) c Spin) (lk s))
| step_enter_panic c s : pcs s c = Idle -> holds (lk s) c = true ->
    step s (mkState (upd (pcs s) c Panicked) (lk s))
| step_tas_busy c s : pcs s c = Spin -> locked (lk s) = true ->
    step s (mkState (pcs s) (mkSpinlock true (lk_cpu (lk s))))
| step_tas_free c s : pcs s c = Spin -> locked (lk s) = false ->
    step s (mkState (upd (pcs s) c Taken) (mkSpinlock true (lk_cpu (lk s))))
| step_setcpu c s : pcs s c = Taken ->
    step s (mkState (upd (pcs s) c Critical) (mkSpinlock (locked (lk s)) (Some c)))
| step_leave c s : pcs s c = Critical -> holds (lk s) c = true ->
    step s (mkState (upd (pcs s) c Cleared) (mkSpinlock (locked (lk s)) None))
| step_leave_panic c s : pcs s c = Critical -> holds (lk s) c = false ->
    step s (mkState (upd (pcs s) c Panicked) (lk s))
| step_unlock c s : pcs s c = Cleared ->
    step s (mkState (upd (pcs s) c Idle) (mkSpinlock false (lk_cpu (lk s)))).

Definition init : state := mkState (fun _ => Idle) initlock.

Inductive reachable : state -> Prop :=
| reach_init : reachable init
| reach_step s s' : reachable s -> step s s' -> reachable s'.

(** A CPU owns the lock from its successful test-and-set to the final store. *)
Definition owner (p : pc) : bool :=
  match p with Taken | Critical | Cleared => true | _ => false end.

(** The invariant ties the lock word and [lk->cpu] to the program counters. *)
Definition inv (s : state) : Prop :=
  (forall c, pcs s c <> Panicked) /\
  (forall c c', owner (pcs s c) = true -> owner (pcs s c') = true -> c = c') /\
  (locked (lk s) = true <-> exists c, owner (pcs s c) = true) /\
  (forall c, lk_cpu (lk s) = Some c <-> pcs s c = Critical).

Lemma upd_eq f c p : upd f c p c = p.
Proof. unfold upd. by rewrite decide_True. Qed.
Lemma upd_ne f c p c' : c' <> c -> upd f c p c' = f c'.
Proof. intros. unfold upd. by rewrite decide_False. Qed.

Lemma inv_init : inv init.
Proof. repeat split; simpl; try naive_solver; intros; discriminate. Qed.

(** One CPU moves to [p'] and leaves the lock as [l']. *)
Lemma inv_upd s c p' l' :
  inv s -> p' <> Panicked ->
  (owner p' = true -> forall c', c' <> c -> owner (pcs s c') = false) ->
  (locked l' = true <-> owner p' = true \/ exists c', c' <> c /\ owner (pcs s c') = true) ->
  (lk_cpu l' = Some c <-> p' = Critical) ->
  (forall c', c' <> c -> lk_cpu l' = Some c' <-> pcs s c' = Critical) ->
  inv (mkState (upd (pcs s) c p') l').
Proof.
  intros (Hp & Hu & _ & _) Hp' Hown Hlk Hcpu Hcpu'. split_and!; simpl.
  - intros c'. unfold upd. case_decide; auto.
  - intros c1 c2. unfold upd. repeat case_decide; subst; intros H1 H2; auto.
    + by rewrite (Hown H1) in H2.
    + by rewrite (Hown H2) in H1.
  - rewrite Hlk. split.
    + intros [H|(c' & Hne & H)]; [exists c; by rewrite upd_eq|exists c'; by rewrite upd_ne].
    + intros [c' H]. unfold upd in H. case_decide; eauto.
  - intros c'. unfold upd. case_decide; subst; auto.
Qed.

(** The lock has at most one owner, so every other CPU is outside. *)
Lemma inv_alone s c :
  inv s -> owner (pcs s c) = true ->
  locked (lk s) = true /\ forall c', c' <> c -> owner (pcs s c') = false.
Proof.
  intros (_ & Hu & Hl & _) Ho. split; [apply Hl; eauto|]. intros c' Hne.
  destruct (owner (pcs s c')) eqn:E; [|done]. by destruct Hne; apply Hu.
Qed.

Lemma inv_step s s' : inv s -> step s s' -> inv s'.
Proof.
  intros I Hs. pose proof I as (Hp & Hu & Hl & Hc).
  destruct Hs as [c s H1 H2|c s H1 H2|c s H1 H2|c s H1 H2|c s H1|c s H1 H2|c s H1 H2|c s H1].
  - apply inv_upd; simpl; try done.
    + rewrite Hl. split; [|naive_solver]. intros [c' Hc']. right. exists c'. split; [|done].
      intros ->. by rewrite H1 in Hc'.
    + rewrite Hc, H1. done.
  - apply andb_true_iff in H2 as [_ H2]. apply bool_decide_eq_true, Hc in H2. congruence.
  - rewrite <- H2. by destruct s as [? []].
  - assert (forall c', owner (pcs s c') = false) as Hno.
    { intros c'. apply not_true_is_false. intros E.
      assert (locked (lk s) = true) by (apply Hl; eauto). congruence. }
    apply inv_upd; simpl; try done; [naive_solver|]. rewrite Hc, H1. done.
  - destruct (inv_alone s c I) as [Hlk Hal]; [by rewrite H1|].
    apply inv_upd; simpl; try done; [naive_solver|]. intros c' Hne. split; [congruence|].
    intros H'. specialize (Hal c' Hne). by rewrite H' in Hal.
  - destruct (inv_alone s c I) as [Hlk Hal]; [by rewrite H1|].
    apply inv_upd; simpl; try done; [naive_solver|]. intros c' Hne. split; [done|].
    intros H'. specialize (Hal c' Hne). by rewrite H' in Hal.
  - assert (lk_cpu (lk s) = Some c) as Hcc by by apply Hc.
    assert (locked (lk s) = true) as Hlk by (apply Hl; exists c; by rewrite H1).
    unfold holds in H2. rewrite Hlk, bool_decide_eq_true_2 in H2; done.
  - destruct (inv_alone s c I) as [Hlk Hal]; [by rewrite H1|].
    apply inv_upd; simpl; try done.
    + split; [done|]. intros [?|(c' & Hne & H')]; [done|]. by rewrite Hal in H'.
    + rewrite Hc, H1. done.
Qed.

Lemma inv_reachable s : reachable s -> inv s.
Proof. induction 1; eauto using inv_init, inv_step. Qed.

(** C3: mutual exclusion.  Whatever the interleaving of the CPUs' memory
    operations, at most one CPU is between the return of [acquire] and its
    call of [release]; that CPU is the one [holding] reports; and neither
    [panic] of [acquire] and [release] is ever reached. *)
Theorem mutual_exclusion s :
  reachable s ->
  (forall c c', pcs s c = Critical -> pcs s c' = Critical -> c = c') /\
  (forall c, pcs s c = Critical <-> holds (lk s) c = true) /\
  (forall c, pcs s c <> Panicked).
Proof.
  intros Hr. pose proof (inv_reachable s Hr) as I. pose proof I as (Hp & Hu & Hl & Hc).
  split_and!; [|intros c; split|done].
  - intros c c' H1 H2. apply Hu; by rewrite ?H1, ?H2.
  - intros H1. destruct (inv_alone s c I) as [Hlk _]; [by rewrite H1|].
    unfold holds. rewrite Hlk. by apply bool_decide_eq_true, Hc.
  - intros [_ H]%andb_true_iff. apply bool_decide_eq_true in H. by apply Hc.
Qed.

Lemma mutual_exclusion_witness :
  exists s, reachable s /\ pcs s 0 = Critical /\ pcs s 1 = Spin /\
    (forall c, pcs s c = Critical -> 0 = c).
Proof.
  set (s := mkState (upd (upd (upd (upd (fun _ => Idle) 0 Spin) 1 Spin) 0 Taken) 0 Critical)
                    (mkSpinlock true (Some 0))).
  assert (reachable s) as Hr.
  { eapply reach_step; [eapply reach_step; [eapply reach_step; [eapply reach_step;
      [apply reach_init|]|]|]|].
    - by apply (step_enter 0).
    - by apply (step_enter 1).
    - by apply (step_tas_free 0).
    - by apply (step_setcpu 0). }
  exists s. split_and!; [done..|]. intros c. by apply (mutual_exclusion s Hr).
Defined.

End SMP.
