(* ===== verification/Sleeplock.v ===== *)
(** * Sleeping locks (kernel/sleeplock.c)

    [struct sleeplock] is a lock word with the pid of its holder, protected
    by a spinlock.  [acquiresleep] on a lock that is held sleeps: in a
    sequential run it ends in [Block], with the inner spinlock released. *)

From S2P Require Import Prelude Spinlock.

Record sleeplock := mkSleeplock {
  sl_locked : bool;    (* Is the lock held? *)
  sl_lk : spinlock;    (* spinlock protecting this sleep lock *)
  sl_pid : Z           (* Process holding lock *)
}.

Definition initsleeplock : sleeplock := mkSleeplock false initlock 0.

Abbreviation SM := (M (kenv * sleeplock)).

Definition lk_l : lens (kenv * sleeplock) spinlock :=
  mkLens (fun s => sl_lk (snd s))
         (fun l s => (fst s, mkSleeplock (sl_locked (snd s)) l (sl_pid (snd s)))).

Definition set_holder (b : bool) (pid : Z) : SM unit :=
  modify (fun s => (fst s, mkSleeplock b (sl_lk (snd s)) pid)).

(** [c] is the address of the lock, the channel its waiters sleep on. *)
Definition acquiresleep (c : chan) : SM unit :=
  with_env lk_l acquire ;;
  l <- gets (fun s => sl_locked (snd s)) ;;
  if l : bool then
    (* sleep(lk, &lk->lk): give up the inner spinlock and the CPU *)
    with_env lk_l release ;; block_on c
  else
    p <- gets (fun s => e_pid (fst s)) ;;
    set_holder true p ;;
    with_env lk_l release.

Definition releasesleep (c : chan) : SM unit :=
  with_env lk_l acquire ;;
  set_holder false 0 ;;
  in_env (wakeup c) ;;
  with_env lk_l release.

Definition holdingsleep : SM bool :=
  with_env lk_l acquire ;;
  r <- gets (fun s => sl_locked (snd s) && (sl_pid (snd s) =? e_pid (fst s))) ;;
  with_env lk_l release ;;
  ret r.

(** ** Behaviour of the three operations on a lock nobody spins on *)

Definition held_by (pid : Z) : sleeplock := mkSleeplock true initlock pid.

Lemma env_same_woken c e : env_same e (add_woken c e).
Proof. unfold env_same. simpl. tauto. Qed.

Lemma env_same_out m e : env_same e (add_out m e).
Proof. unfold env_same. simpl. tauto. Qed.

Section rules.
Context {S : Type} `{!HasEnv S}.

(** What happens to the lock and the environment, for a lens into any
    component's state. *)
Lemma wp_acquiresleep (L : lens S sleeplock) c s Q :
  env_ok (lget env_of s) -> lget L s = initsleeplock ->
  (forall e', env_same (lget env_of s) e' ->
     Q tt (lset L (held_by (e_pid (lget env_of s))) (lset env_of e' s))) ->
  wp (with_env L (acquiresleep c)) Q s.
Proof.
  intros Hok HL HQ.
  set (e := lget env_of s).
  assert (wp (acquiresleep c)
            (fun _ t => env_same e (fst t) /\ snd t = held_by (e_pid e)) (e, initsleeplock)) as H.
  { unfold acquiresleep. wp_step. apply wp_acquire; [done|]. simpl.
    wp_steps. simpl. wp_steps. unfold set_holder. wp_steps. simpl.
    destruct (push_env_fields e) as (Hc & Hp & _ & Hs).
    apply wp_release; simpl.
    - by rewrite Hc.
    - done.
    - rewrite push_env_noff. fold e in Hok. destruct Hok. lia.
    - split; [by apply pop_push_same|]. by rewrite Hp. }
  apply wp_Ok in H as ([] & [e' l'] & Hr & He & Hl'). simpl in *. subst l'.
  unfold wp, with_env. fold e. fold e in HL. rewrite HL, Hr. by apply HQ.
Qed.

Lemma wp_holdingsleep (L : lens S sleeplock) s Q :
  env_ok (lget env_of s) -> lget L s = held_by (e_pid (lget env_of s)) ->
  (forall e', env_same (lget env_of s) e' ->
     Q true (lset L (held_by (e_pid (lget env_of s))) (lset env_of e' s))) ->
  wp (with_env L holdingsleep) Q s.
Proof.
  intros Hok HL HQ.
  set (e := lget env_of s).
  assert (wp holdingsleep
            (fun b t => b = true /\ env_same e (fst t) /\ snd t = held_by (e_pid e))
            (e, held_by (e_pid e))) as H.
  { unfold holdingsleep. wp_step. apply wp_acquire; [done|]. simpl.
    wp_steps. simpl.
    destruct (push_env_fields e) as (Hc & Hp & _ & Hs).
    apply wp_release; simpl.
    - by rewrite Hc.
    - done.
    - rewrite push_env_noff. fold e in Hok. destruct Hok. lia.
    - wp_steps. split_and!; [by rewrite Hp, Z.eqb_refl|by apply pop_push_same|done]. }
  apply wp_Ok in H as (b & [e' l'] & Hr & -> & He & Hl'). simpl in *. subst l'.
  unfold wp, with_env. fold e. fold e in HL. rewrite HL, Hr. by apply HQ.
Qed.

Lemma wp_releasesleep (L : lens S sleeplock) c s Q :
  env_ok (lget env_of s) -> lget L s = held_by (e_pid (lget env_of s)) ->
  (forall e', env_same (lget env_of s) e' ->
     Q tt (lset L initsleeplock (lset env_of e' s))) ->
  wp (with_env L (releasesleep c)) Q s.
Proof.
  intros Hok HL HQ.
  set (e := lget env_of s).
  assert (wp (releasesleep c)
            (fun _ t => env_same e (fst t) /\ snd t = initsleeplock)
            (e, held_by (e_pid e))) as H.
  { unfold releasesleep. wp_step. apply wp_acquire; [done|]. simpl.
    unfold set_holder. wp_steps. unfold in_env. apply wp_zoom. unfold wakeup. wp_steps.
    simpl.
    destruct (push_env_fields e) as (Hc & Hp & _ & Hs).
    apply wp_release; simpl.
    - by rewrite Hc.
    - done.
    - rewrite push_env_noff. fold e in Hok. destruct Hok. lia.
    - split; [|done]. apply pop_push_same; [done|]. apply env_same_woken. }
  apply wp_Ok in H as ([] & [e' l'] & Hr & He & Hl'). simpl in *. subst l'.
  unfold wp, with_env. fold e. fold e in HL. rewrite HL, Hr. by apply HQ.
Qed.
End rules.
