(* ===== verification/Dlist.v ===== *)
(** * Circular doubly linked lists given by successor and predecessor maps

    [chain N P l]: consecutive elements of [l] point at each other.  The
    buffer cache's LRU list is a chain from the head back to the head.  *)

From S2P Require Import Prelude.

Section dlist.
Context {A : Type} `{!EqDecision A}.
Implicit Types (N P : A -> A) (l : list A).

Fixpoint chain N P l : Prop :=
  match l with
  | [] => True
  | x :: l' =>
      match l' with
      | [] => True
      | y :: _ => N x = y /\ P y = x /\ chain N P l'
      end
  end.

(** Function update: the effect of an assignment to one node's pointer. *)
Definition fupd (f : A -> A) (a b : A) : A -> A :=
  fun x => if decide (x = a) then b else f x.

Lemma fupd_eq f a b : fupd f a b a = b.
Proof. unfold fupd. by rewrite decide_True. Qed.
Lemma fupd_ne f a b x : x <> a -> fupd f a b x = f x.
Proof. intros. unfold fupd. by rewrite decide_False. Qed.

Lemma chain_ext N P N' P' l :
  (forall x, x ∈ removelast l -> N' x = N x) ->
  (forall x, x ∈ tl l -> P' x = P x) ->
  chain N P l -> chain N' P' l.
Proof.
  revert N P N' P'. induction l as [|x [|y l] IH]; intros N P N' P' HN HP Hc; try done.
  destruct Hc as (H1 & H2 & H3). simpl in HN, HP.
  split_and!.
  - rewrite HN; [done|]. left.
  - rewrite HP; [done|]. left.
  - apply (IH N P); [| |done].
    + intros z Hz. apply HN. by right.
    + intros z Hz. apply HP. by right.
Qed.

Lemma chain_app N P l1 x l2 :
  chain N P (l1 ++ x :: l2) <-> chain N P (l1 ++ [x]) /\ chain N P (x :: l2).
Proof.
  induction l1 as [|a [|b l1] IH].
  - simpl. tauto.
  - simpl. destruct l2; simpl; tauto.
  - change (chain N P (a :: b :: l1 ++ x :: l2) <->
            chain N P (a :: b :: l1 ++ [x]) /\ chain N P (x :: l2)).
    simpl in *. tauto.
Qed.

Lemma elem_of_removelast x l : x ∈ removelast l -> x ∈ l.
Proof.
  induction l as [|a [|b l] IH]; [done| |].
  - simpl. by intros ?%elem_of_nil.
  - change (removelast (a :: b :: l)) with (a :: removelast (b :: l)).
    intros [->|H]%elem_of_cons; [left|]. right. by apply IH.
Qed.

Lemma removelast_snoc l x : removelast (l ++ [x]) = l.
Proof. by rewrite removelast_last. Qed.

(** A circular list with head node [h] and elements [l] in order. *)
Definition ring N P (h : A) l : Prop := chain N P (h :: l ++ [h]).

(** Unlinking: [b->next->prev = b->prev; b->prev->next = b->next]. *)
Lemma ring_unlink N P h l1 b l2 :
  NoDup (h :: l1 ++ b :: l2) -> ring N P h (l1 ++ b :: l2) ->
  ring (fupd N (P b) (N b)) (fupd P (N b) (P b)) h (l1 ++ l2).
Proof.
  unfold ring. intros Hnd Hc.
  (* [a] is b's predecessor, [c] its successor *)
  destruct (exists_last (l := h :: l1)) as (pre & a & Ha); [done|].
  destruct (l2 ++ [h]) as [|c post] eqn:Hpost; [by destruct l2|].
  assert (Hfull : h :: (l1 ++ b :: l2) ++ [h] = pre ++ a :: b :: c :: post).
  { rewrite <- app_assoc. simpl. rewrite Hpost.
    change (h :: l1 ++ b :: c :: post) with ((h :: l1) ++ b :: c :: post).
    rewrite Ha, <- app_assoc. done. }
  assert (Hgoal : h :: (l1 ++ l2) ++ [h] = pre ++ a :: c :: post).
  { rewrite <- app_assoc, Hpost.
    change (h :: l1 ++ c :: post) with ((h :: l1) ++ c :: post).
    rewrite Ha, <- app_assoc. done. }
  rewrite Hgoal. rewrite Hfull in Hc.
  rewrite chain_app in Hc. destruct Hc as [Hpre Hrest].
  change (a :: b :: c :: post) with ([a] ++ b :: c :: post) in Hrest.
  rewrite chain_app in Hrest. destruct Hrest as [(Hab & Hba & _) (Hbc & Hcb & Hpc)].
  simpl in Hpc. rewrite Hba, Hbc.
  assert (Hnd1 : NoDup ((pre ++ [a]) ++ b :: l2)).
  { rewrite <- Ha. done. }
  apply NoDup_app in Hnd1 as (Hnda & Hdisj & Hndb).
  apply NoDup_app in Hnda as (Hndpre & Hapre & _).
  assert (Hapost : forall x, x ∈ pre ++ [a] -> x ∉ b :: l2) by done.
  assert (Hl2 : forall x, x ∈ removelast (c :: post) -> x ∈ l2).
  { intros x Hx. rewrite <- Hpost in Hx. by rewrite removelast_snoc in Hx. }
  assert (Hcpre : c ∉ tl (pre ++ [a])).
  { rewrite <- Ha. simpl. intros Hin.
    destruct l2 as [|c' l2]; simpl in Hpost; injection Hpost as <- <-.
    - apply NoDup_cons in Hnd as [Hh _]. apply Hh. set_solver.
    - apply (Hapost c'); [|set_solver]. rewrite <- Ha. by right. }
  rewrite chain_app. split; [|split_and!].
  - apply (chain_ext N P); [| |done].
    + rewrite removelast_snoc. intros x Hx. apply fupd_ne. intros ->.
      apply (Hapre a); set_solver.
    + intros x Hx. apply fupd_ne. by intros ->.
  - apply fupd_eq.
  - apply fupd_eq.
  - apply (chain_ext N P); [| |done].
    + intros x Hx. apply fupd_ne. intros ->. apply Hl2 in Hx.
      apply (Hapost a); set_solver.
    + simpl. intros x Hx. apply fupd_ne. intros ->.
      destruct l2 as [|c' l2]; simpl in Hpost; injection Hpost as <- <-; [set_solver|].
      apply elem_of_app in Hx as [Hx|Hx].
      * apply NoDup_cons in Hndb as [_ Hndb]. apply NoDup_cons in Hndb as [Hn _]. done.
      * apply list_elem_of_singleton in Hx. subst.
        apply NoDup_cons in Hnd as [Hh _]. apply Hh. set_solver.
Qed.

(** Inserting at the front: [b->next = head.next; b->prev = &head;
    head.next->prev = b; head.next = b]. *)
Lemma dring_push N P h l b :
  NoDup (h :: b :: l) -> ring N P h l ->
  ring (fupd (fupd N b (N h)) h b) (fupd (fupd P b h) (N h) b) h (b :: l).
Proof.
  unfold ring. intros Hnd Hc.
  apply NoDup_cons in Hnd as [Hh Hnd]. apply NoDup_cons in Hnd as [Hb Hnd].
  assert (Hbh : b <> h) by set_solver.
  destruct (l ++ [h]) as [|c post] eqn:Hpost; [by destruct l|].
  assert (Hin : forall x, x ∈ c :: post -> x ∈ l \/ x = h).
  { intros x. rewrite <- Hpost. set_solver. }
  assert (Hcb : c <> b) by (intros ->; destruct (Hin b); set_solver).
  destruct Hc as (H1 & H2 & H3). simpl in H3.
  assert (Hg : h :: (b :: l) ++ [h] = h :: b :: c :: post) by by rewrite <- Hpost.
  rewrite Hg, H1.
  change (chain ?N ?P (h :: b :: c :: post)) with
    (N h = b /\ P b = h /\ N b = c /\ P c = b /\ chain N P (c :: post)).
  split_and!.
  - apply fupd_eq.
  - rewrite fupd_ne by done. apply fupd_eq.
  - rewrite fupd_ne by done. apply fupd_eq.
  - apply fupd_eq.
  - apply (chain_ext N P); [| |done].
    + intros x Hx. assert (x ∈ l) as Hxl.
      { rewrite <- Hpost in Hx. by rewrite removelast_snoc in Hx. }
      rewrite !fupd_ne; [done| |]; intros ->; set_solver.
    + simpl. intros x Hx. rewrite !fupd_ne; [done| |]; intros ->.
      * destruct (Hin b); [by right|set_solver|done].
      * destruct l as [|c' l]; simpl in Hpost; injection Hpost as <- <-; [set_solver|].
        apply elem_of_app in Hx as [Hx|Hx]; [by apply NoDup_cons in Hnd as [? _]|].
        apply list_elem_of_singleton in Hx. subst. set_solver.
Qed.

(** An element's neighbours are nodes of the ring. *)
Lemma ring_neighbours N P h l1 b l2 :
  ring N P h (l1 ++ b :: l2) ->
  N b ∈ h :: l1 ++ l2 /\ P b ∈ h :: l1 ++ l2.
Proof.
  unfold ring. intros Hc.
  destruct (exists_last (l := h :: l1)) as (pre & a & Ha); [done|].
  destruct (l2 ++ [h]) as [|c post] eqn:Hpost; [by destruct l2|].
  assert (Hfull : h :: (l1 ++ b :: l2) ++ [h] = pre ++ a :: b :: c :: post).
  { rewrite <- app_assoc. simpl. rewrite Hpost.
    change (h :: l1 ++ b :: c :: post) with ((h :: l1) ++ b :: c :: post).
    rewrite Ha, <- app_assoc. done. }
  rewrite Hfull, chain_app in Hc. destruct Hc as [_ (_ & HP & HN & _)].
  assert (Hin : a ∈ h :: l1) by (rewrite Ha; set_solver).
  assert (Hic : c ∈ l2 ++ [h]) by (rewrite Hpost; left).
  rewrite HP, HN. set_solver.
Qed.

Lemma ring_ext N P N' P' h l :
  (forall x, x ∈ h :: l -> N' x = N x /\ P' x = P x) ->
  ring N P h l -> ring N' P' h l.
Proof.
  intros H. unfold ring. apply chain_ext.
  - change (h :: l ++ [h]) with ((h :: l) ++ [h]). rewrite removelast_snoc.
    intros x Hx. by apply H.
  - simpl. intros x Hx. apply H. set_solver.
Qed.
End dlist.
