(* ===== verification/Bio.v ===== *)
(** * Buffer cache (kernel/bio.c, kernel/buf.h)

    [bcache] is an array of [NBUF] buffers plus the list head.  A [struct buf]
    pointer is an index: [i < NBUF] is [&bcache.buf[i]], [NBUF] is
    [&bcache.head].  The LRU list is threaded through [prev]/[next] exactly
    as in the code.  *)

From S2P Require Import Prelude Param Spinlock Sleeplock.

Record buf := mkBuf {
  valid : bool;        (* has data been read from disk? *)
  b_disk : bool;       (* does disk "own" buf? *)
  b_dev : Z;
  b_blockno : Z;
  b_lock : sleeplock;
  b_refcnt : Z;
  b_prev : nat;        (* LRU cache list *)
  b_next : nat;
  b_data : block
}.

(** A buffer in zero-initialised storage. *)
Definition buf0 : buf := mkBuf false false 0 0 initsleeplock 0 0 0 zero_block.
#[export] Instance buf_inhabited : Inhabited buf := populate buf0.

Definition set_valid v b := mkBuf v (b_disk b) (b_dev b) (b_blockno b) (b_lock b) (b_refcnt b) (b_prev b) (b_next b) (b_data b).
Definition set_bdisk v b := mkBuf (valid b) v (b_dev b) (b_blockno b) (b_lock b) (b_refcnt b) (b_prev b) (b_next b) (b_data b).
Definition set_dev v b := mkBuf (valid b) (b_disk b) v (b_blockno b) (b_lock b) (b_refcnt b) (b_prev b) (b_next b) (b_data b).
Definition set_blockno v b := mkBuf (valid b) (b_disk b) (b_dev b) v (b_lock b) (b_refcnt b) (b_prev b) (b_next b) (b_data b).
Definition set_lk v b := mkBuf (valid b) (b_disk b) (b_dev b) (b_blockno b) v (b_refcnt b) (b_prev b) (b_next b) (b_data b).
Definition set_refcnt v b := mkBuf (valid b) (b_disk b) (b_dev b) (b_blockno b) (b_lock b) v (b_prev b) (b_next b) (b_data b).
Definition set_prev v b := mkBuf (valid b) (b_disk b) (b_dev b) (b_blockno b) (b_lock b) (b_refcnt b) v (b_next b) (b_data b).
Definition set_next v b := mkBuf (valid b) (b_disk b) (b_dev b) (b_blockno b) (b_lock b) (b_refcnt b) (b_prev b) v (b_data b).
Definition set_data v b := mkBuf (valid b) (b_disk b) (b_dev b) (b_blockno b) (b_lock b) (b_refcnt b) (b_prev b) (b_next b) v.

(** The cache, the device under it and the running thread. *)
Record bio := mkBio {
  io_env : kenv;
  bc_lock : spinlock;        (* bcache.lock *)
  bc_buf : list buf;         (* bcache.buf[0..NBUF-1], then bcache.head *)
  io_disk : disk
}.

Definition head : nat := NBUF.

#[export] Instance HasEnv_bio : HasEnv bio :=
  mkLens io_env (fun e s => mkBio e (bc_lock s) (bc_buf s) (io_disk s)).
Definition bcache_lock : lens bio spinlock :=
  mkLens bc_lock (fun l s => mkBio (io_env s) l (bc_buf s) (io_disk s)).

Definition getb (i : nat) : M bio buf := gets (fun s => bc_buf s !!! i).
Definition updb (i : nat) (f : buf -> buf) : M bio unit :=
  modify (fun s => mkBio (io_env s) (bc_lock s) (alter f i (bc_buf s)) (io_disk s)).

Definition buf_lock (i : nat) : lens bio sleeplock :=
  mkLens (fun s => b_lock (bc_buf s !!! i))
         (fun l s => mkBio (io_env s) (bc_lock s) (alter (set_lk l) i (bc_buf s)) (io_disk s)).
Definition buf_chan (i : nat) : chan := ("buf.lock", Z.of_nat i).

(** Boot-time contents of [bcache] on a machine whose disk is [d]. *)
Definition bio_boot (e : kenv) (d : disk) : bio :=
  mkBio e initlock (replicate (S NBUF) buf0) d.

Definition binit : M bio unit :=
  modify (lset bcache_lock initlock) ;;
  updb head (set_prev head) ;;
  updb head (set_next head) ;;
  for_each (seq 0 NBUF) (fun b =>
    h <- getb head ;;
    updb b (set_next (b_next h)) ;;
    updb b (set_prev head) ;;
    updb b (set_lk initsleeplock) ;;
    h <- getb head ;;
    updb (b_next h) (set_prev b) ;;
    updb head (set_next b)).

(** The two list scans of [bget]; [fuel] bounds the walk, [NBUF + 1] steps
    are enough on a well-formed list. *)
Fixpoint find_cached (fuel : nat) (b : nat) (dev blockno : Z) : M bio (option nat) :=
  match fuel with
  | O => no_fuel
  | S fuel' =>
      if decide (b = head) then ret None else
      x <- getb b ;;
      if (b_dev x =? dev) && (b_blockno x =? blockno) then ret (Some b)
      else find_cached fuel' (b_next x) dev blockno
  end.

Fixpoint find_unused (fuel : nat) (b : nat) : M bio (option nat) :=
  match fuel with
  | O => no_fuel
  | S fuel' =>
      if decide (b = head) then ret None else
      x <- getb b ;;
      if b_refcnt x =? 0 then ret (Some b)
      else find_unused fuel' (b_prev x)
  end.

Definition bget (dev blockno : Z) : M bio nat :=
  with_env bcache_lock acquire ;;
  h <- getb head ;;
  r <- find_cached (S NBUF) (b_next h) dev blockno ;;
  match r with
  | Some b =>
      updb b (fun x => set_refcnt (u32 (b_refcnt x + 1)) x) ;;
      with_env bcache_lock release ;;
      with_env (buf_lock b) (acquiresleep (buf_chan b)) ;;
      ret b
  | None =>
      h <- getb head ;;
      r <- find_unused (S NBUF) (b_prev h) ;;
      match r with
      | Some b =>
          updb b (set_dev dev) ;;
          updb b (set_blockno blockno) ;;
          updb b (set_valid false) ;;
          updb b (set_refcnt 1) ;;
          with_env bcache_lock release ;;
          with_env (buf_lock b) (acquiresleep (buf_chan b)) ;;
          ret b
      | None => panic "bget: no buffers"
      end
  end.

(** A completed disk transfer: the driver hands the buffer to the device
    ([b->disk = 1]) and sleeps until the completion interrupt clears the
    flag.  The device is chosen by block number alone. *)
Definition virtio_disk_rw (b : nat) (write : bool) : M bio unit :=
  updb b (set_bdisk true) ;;
  x <- getb b ;;
  (if write then
     modify (fun s => mkBio (io_env s) (bc_lock s) (bc_buf s)
                            (disk_write (b_blockno x) (b_data x) (io_disk s)))
   else
     d <- gets io_disk ;;
     updb b (set_data (disk_read d (b_blockno x)))) ;;
  updb b (set_bdisk false).

Definition bread (dev blockno : Z) : M bio nat :=
  b <- bget dev blockno ;;
  x <- getb b ;;
  (when (negb (valid x)) do
     (virtio_disk_rw b false ;; updb b (set_valid true))) ;;
  ret b.

Definition bwrite (b : nat) : M bio unit :=
  h <- with_env (buf_lock b) holdingsleep ;;
  if negb h then panic "bwrite" else
  virtio_disk_rw b true.

Definition brelse (b : nat) : M bio unit :=
  h <- with_env (buf_lock b) holdingsleep ;;
  if negb h then panic "brelse" else
  with_env (buf_lock b) (releasesleep (buf_chan b)) ;;
  with_env bcache_lock acquire ;;
  updb b (fun x => set_refcnt (u32 (b_refcnt x - 1)) x) ;;
  x <- getb b ;;
  (when (b_refcnt x =? 0) do
    (* no one is waiting for it. *)
    (updb (b_next x) (set_prev (b_prev x)) ;;
     x <- getb b ;;
     updb (b_prev x) (set_next (b_next x)) ;;
     h <- getb head ;;
     updb b (set_next (b_next h)) ;;
     updb b (set_prev head) ;;
     h <- getb head ;;
     updb (b_next h) (set_prev b) ;;
     updb head (set_next b))) ;;
  with_env bcache_lock release.

Definition bpin (b : nat) : M bio unit :=
  with_env bcache_lock acquire ;;
  updb b (fun x => set_refcnt (u32 (b_refcnt x + 1)) x) ;;
  with_env bcache_lock release.

Definition bunpin (b : nat) : M bio unit :=
  with_env bcache_lock acquire ;;
  updb b (fun x => set_refcnt (u32 (b_refcnt x - 1)) x) ;;
  with_env bcache_lock release.
