(* ===== verification/BioSpec.v ===== *)
(** * The buffer cache implements a map of blocks

    The abstract state of the cache, for the one device the kernel uses, is
    the set [H] of blocks the running process holds locked, the set [P] of
    blocks pinned by the log, and the logical contents [blk] of every block:
    the cached copy when there is one, the disk's otherwise.  Each operation
    of [Bio] is specified on that abstract state; no specification mentions
    buffers' recycling, reference counts or the LRU list, whose invariants
    are preserved throughout.  *)

From S2P Require Import Prelude Param Spinlock Sleeplock Dlist Bio.
From Stdlib Require Import Permutation.

(** ** Views of the buffer array *)

(** A buffer without its list pointers. *)
Definition core (b : buf) : buf := set_prev 0 (set_next 0 b).
Definition cores (s : bio) : list buf := core <$> bc_buf s.

Definition nx (s : bio) (i : nat) : nat := b_next (bc_buf s !!! i).
Definition pv (s : bio) (i : nat) : nat := b_prev (bc_buf s !!! i).

(** An update of one buffer that leaves its list pointers alone. *)
Definition link_free (f : buf -> buf) : Prop :=
  forall b, b_next (f b) = b_next b /\ b_prev (f b) = b_prev b /\ core (f b) = f (core b).

Definition upd_state (s : bio) (e : kenv) (i : nat) (f : buf -> buf) : bio :=
  mkBio e (bc_lock s) (alter f i (bc_buf s)) (io_disk s).

Lemma fmap_core_alter f (i : nat) (bs : list buf) :
  link_free f -> core <$> alter f i bs = alter f i (core <$> bs).
Proof.
  intros Hf. apply list_eq. intros j. rewrite list_lookup_fmap.
  destruct (decide (i = j)) as [->|Hne].
  - rewrite !list_lookup_alter_eq, list_lookup_fmap.
    destruct (bs !! j); simpl; [|done]. f_equal. apply Hf.
  - by rewrite !list_lookup_alter_ne, list_lookup_fmap.
Qed.

Lemma fmap_core_alter_links f (i : nat) (bs : list buf) :
  (forall b, core (f b) = core b) -> core <$> alter f i bs = core <$> bs.
Proof.
  intros Hf. apply list_eq. intros j. rewrite !list_lookup_fmap.
  destruct (decide (i = j)) as [->|Hne].
  - rewrite !list_lookup_alter_eq. destruct (bs !! j); simpl; [|done]. by rewrite Hf.
  - by rewrite !list_lookup_alter_ne.
Qed.

(** A field of buffer [j] after an update of buffer [i]. *)
Lemma alter_total {A} (g : buf -> A) f i (bs : list buf) j :
  (i < length bs)%nat ->
  g (alter f i bs !!! j) = if decide (j = i) then g (f (bs !!! i)) else g (bs !!! j).
Proof.
  intros Hi. rewrite !list_lookup_total_alt. case_decide as E.
  - subst. rewrite list_lookup_alter_eq.
    destruct (lookup_lt_is_Some_2 bs i Hi) as [b ->]. done.
  - by rewrite list_lookup_alter_ne.
Qed.

Lemma alter_total_same {A} (g : buf -> A) f i (bs : list buf) j :
  (forall b, g (f b) = g b) -> g (alter f i bs !!! j) = g (bs !!! j).
Proof.
  intros Hg. destruct (decide (i < length bs)%nat) as [Hi|Hi].
  - rewrite alter_total by done. case_decide; subst; auto.
  - rewrite !list_lookup_total_alt. destruct (decide (i = j)) as [->|].
    + rewrite list_lookup_alter_eq. by rewrite lookup_ge_None_2 by lia.
    + by rewrite list_lookup_alter_ne.
Qed.

Lemma cores_lookup s i :
  (i < length (bc_buf s))%nat -> cores s !! i = Some (core (bc_buf s !!! i)).
Proof.
  intros Hi. unfold cores. rewrite list_lookup_fmap, list_lookup_total_alt.
  destruct (lookup_lt_is_Some_2 _ _ Hi) as [b ->]. done.
Qed.

Lemma cores_length s : length (cores s) = length (bc_buf s).
Proof. apply length_fmap. Qed.

(** ** The two scans of [bget] on a well-formed list *)

Lemma find_cached_spec s l dev x fuel :
  chain (nx s) (pv s) (l ++ [head]) -> head ∉ l -> (length l < fuel)%nat ->
  find_cached fuel (List.hd head (l ++ [head])) dev x s =
  Ok (List.find (fun i => (b_dev (bc_buf s !!! i) =? dev) &&
                          (b_blockno (bc_buf s !!! i) =? x)) l) s.
Proof.
  revert fuel. induction l as [|i l IH]; intros [|fuel] Hc Hh Hf; simpl in *; try lia.
  - done.
  - rewrite decide_False by set_solver.
    unfold bind, getb, gets.
    destruct ((b_dev (bc_buf s !!! i) =? dev) && (b_blockno (bc_buf s !!! i) =? x)); [done|].
    destruct (l ++ [head]) as [|y r] eqn:E; [by destruct l|].
    destruct Hc as (Hn & _ & Hc). rewrite <- IH with (fuel := fuel); [|done|set_solver|lia].
    f_equal. unfold nx in Hn. by rewrite Hn.
Qed.

Lemma find_unused_spec s l fuel :
  chain (nx s) (pv s) (head :: l) -> head ∉ l -> (length l < fuel)%nat ->
  find_unused fuel (List.last (head :: l) head) s =
  Ok (List.find (fun i => b_refcnt (bc_buf s !!! i) =? 0) (rev l)) s.
Proof.
  revert fuel. induction l as [|i l IH] using rev_ind;
    intros [|fuel] Hc Hh Hf; rewrite ?length_app in Hf; simpl in Hf; try lia.
  - done.
  - change (head :: l ++ [i]) with ((head :: l) ++ [i]). rewrite List.last_last.
    simpl. rewrite decide_False by set_solver.
    rewrite rev_app_distr. simpl. unfold bind, getb, gets.
    destruct (b_refcnt (bc_buf s !!! i) =? 0); [done|].
    destruct (exists_last (l := head :: l)) as (pre & a & Ha); [done|].
    assert (Hca : chain (nx s) (pv s) (head :: l) /\ pv s i = a).
    { change (head :: l ++ [i]) with ((head :: l) ++ [i]) in Hc. rewrite Ha in *.
      rewrite <- app_assoc in Hc. simpl in Hc. rewrite chain_app in Hc.
      destruct Hc as [? (_ & ? & _)]. done. }
    destruct Hca as [Hc' Hp].
    rewrite <- IH with (fuel := fuel); [|done|set_solver|lia].
    f_equal. unfold pv in Hp. rewrite Hp, Ha. by rewrite List.last_last.
Qed.

Section spec.
Context (d : Z).    (* the device number, ROOTDEV *)

Definition matches (x : Z) (b : buf) : bool := (b_dev b =? d) && (b_blockno b =? x).

(** Contents of block [x] as the kernel sees it. *)
Definition blk_of (dk : disk) (cs : list buf) (x : Z) : block :=
  match List.find (matches x) cs with
  | Some b => b_data b
  | None => disk_read dk x
  end.
Definition blk (s : bio) (x : Z) : block := blk_of (io_disk s) (cores s) x.

(** Buffer [i] caches block [x]. *)
Definition slot (s : bio) (i : nat) (x : Z) : Prop :=
  exists b, cores s !! i = Some b /\ b_dev b = d /\ b_blockno b = x.

Definition refs (H P : gset Z) (x : Z) : Z :=
  (if decide (x ∈ H) then 1 else 0) + (if decide (x ∈ P) then 1 else 0).

(** A buffer either caches a block of [d], with its reference count, lock and
    contents accounted for, or has never been used. *)
Definition buf_ok (pid : Z) (dk : disk) (H P : gset Z) (b : buf) : Prop :=
  length (b_data b) = bsize /\ Forall is_byte (b_data b) /\
  ((b_dev b = d /\ valid b = true /\ b_refcnt b = refs H P (b_blockno b) /\
    b_lock b = (if decide (b_blockno b ∈ H) then held_by pid else initsleeplock) /\
    (b_blockno b ∉ H -> b_blockno b ∉ P -> b_data b = disk_read dk (b_blockno b)))
   \/ (b_dev b = 0 /\ valid b = false /\ b_refcnt b = 0 /\ b_lock b = initsleeplock)).

Record cache_ok (pid : Z) (dk : disk) (H P : gset Z) (cs : list buf) : Prop := {
  c_len : length cs = S NBUF;
  c_each : forall i b, cs !! i = Some b -> buf_ok pid dk H P b;
  c_head : exists b, cs !! head = Some b /\ b_dev b = 0;
  c_uniq : forall i j b c, cs !! i = Some b -> cs !! j = Some c ->
    b_dev b = d -> b_dev c = d -> b_blockno b = b_blockno c -> i = j;
  c_present : forall x, x ∈ H ∪ P ->
    exists i b, cs !! i = Some b /\ b_dev b = d /\ b_blockno b = x
}.

(** The LRU list holds every buffer once. *)
Definition lru_ok (s : bio) : Prop :=
  exists order, Permutation order (seq 0 NBUF) /\ ring (nx s) (pv s) head order.

Record bio_inv (H P : gset Z) (s : bio) : Prop := {
  bi_cache : cache_ok (e_pid (io_env s)) (io_disk s) H P (cores s);
  bi_lru : lru_ok s;
  bi_env : env_ok (io_env s);
  bi_lock : bc_lock s = initlock;
  bi_dev : d <> 0;
  bi_disk : disk_ok (io_disk s)
}.

(** What every operation preserves: the running thread's environment and the
    buffers of the blocks held before and after. *)
Definition bframe (H : gset Z) (s s' : bio) : Prop :=
  env_same (io_env s) (io_env s') /\
  (forall i x, x ∈ H -> slot s i x -> slot s' i x).

#[export] Instance bframe_preorder H : PreOrder (bframe H).
Proof.
  split.
  - intros s. split; [reflexivity|done].
  - intros s1 s2 s3 [E1 S1] [E2 S2]. split; [by etransitivity|auto].
Qed.

Lemma bframe_weaken H H' s s' : H' ⊆ H -> bframe H s s' -> bframe H' s s'.
Proof. intros Hs [E S]. split; [done|]. intros i x Hx. apply S. set_solver. Qed.

(** ** The cache as a finite map: pure lemmas on the array of cores *)

Section cache.
Context {pid : Z}.
Implicit Types (dk : disk) (H P : gset Z) (cs : list buf) (b : buf).

Lemma find_at dk H P cs i b :
  d <> 0 -> cache_ok pid dk H P cs -> cs !! i = Some b -> b_dev b = d ->
  List.find (matches (b_blockno b)) cs = Some b.
Proof.
  intros Hd C Hi Hb.
  destruct (List.find (matches (b_blockno b)) cs) as [b'|] eqn:E.
  - apply List.find_some in E as [Hin Hm].
    apply andb_true_iff in Hm as [H1%Z.eqb_eq H2%Z.eqb_eq].
    apply list_elem_of_In, list_elem_of_lookup in Hin as [j Hj].
    assert (i = j) as -> by by eapply (c_uniq _ _ _ _ _ C). congruence.
  - eapply List.find_none in E; [|by apply list_elem_of_In, list_elem_of_lookup; exists i].
    unfold matches in E. by rewrite Hb, !Z.eqb_refl in E.
Qed.

Lemma blk_of_at dk H P cs i b :
  d <> 0 -> cache_ok pid dk H P cs -> cs !! i = Some b -> b_dev b = d ->
  blk_of dk cs (b_blockno b) = b_data b.
Proof. intros Hd C Hi Hb. unfold blk_of. by erewrite find_at. Qed.

Lemma find_none_iff cs x :
  List.find (matches x) cs = None <->
  (forall i b, cs !! i = Some b -> ~ (b_dev b = d /\ b_blockno b = x)).
Proof.
  split.
  - intros Hf i b Hi [H1 H2].
    eapply List.find_none in Hf; [|by apply list_elem_of_In, list_elem_of_lookup; exists i].
    unfold matches in Hf. by rewrite H1, H2, !Z.eqb_refl in Hf.
  - intros Hn. destruct (List.find (matches x) cs) as [b'|] eqn:E; [|done].
    apply List.find_some in E as [Hin Hm].
    apply andb_true_iff in Hm as [H1%Z.eqb_eq H2%Z.eqb_eq].
    apply list_elem_of_In, list_elem_of_lookup in Hin as [j Hj].
    by destruct (Hn j b').
Qed.

Lemma blk_of_none dk cs x :
  (forall i b, cs !! i = Some b -> ~ (b_dev b = d /\ b_blockno b = x)) ->
  blk_of dk cs x = disk_read dk x.
Proof. intros Hn. unfold blk_of. by rewrite (proj2 (find_none_iff cs x)). Qed.

(** The contents of [x] depend only on the buffers that match [x]. *)
Lemma blk_of_frame dk dk' cs cs' x :
  (forall i b, matches x b = true -> cs !! i = Some b <-> cs' !! i = Some b) ->
  (forall i b i' b', cs !! i = Some b -> cs !! i' = Some b' ->
     matches x b = true -> matches x b' = true -> i = i') ->
  disk_read dk' x = disk_read dk x ->
  blk_of dk' cs' x = blk_of dk cs x.
Proof.
  intros Hcs Hu Hd. unfold blk_of.
  destruct (List.find (matches x) cs) as [b|] eqn:E;
    destruct (List.find (matches x) cs') as [b'|] eqn:E'; try done.
  - apply List.find_some in E as [Hi Hm], E' as [Hi' Hm'].
    apply list_elem_of_In, list_elem_of_lookup in Hi as [j Hj], Hi' as [j' Hj'].
    apply Hcs in Hj'; [|done].
    assert (j = j') as -> by by eapply Hu. congruence.
  - apply List.find_some in E as [Hi Hm].
    apply list_elem_of_In, list_elem_of_lookup in Hi as [j Hj].
    apply Hcs in Hj; [|done].
    eapply List.find_none in E'; [|by apply list_elem_of_In, list_elem_of_lookup; exists j].
    congruence.
  - apply List.find_some in E' as [Hi Hm].
    apply list_elem_of_In, list_elem_of_lookup in Hi as [j Hj].
    apply Hcs in Hj; [|done].
    eapply List.find_none in E; [|by apply list_elem_of_In, list_elem_of_lookup; exists j].
    congruence.
Qed.

Lemma cache_uniq_matches dk H P cs x i b i' b' :
  cache_ok pid dk H P cs -> cs !! i = Some b -> cs !! i' = Some b' ->
  matches x b = true -> matches x b' = true -> i = i'.
Proof.
  intros C Hi Hi' Hm Hm'.
  apply andb_true_iff in Hm as [?%Z.eqb_eq ?%Z.eqb_eq], Hm' as [?%Z.eqb_eq ?%Z.eqb_eq].
  eapply (c_uniq _ _ _ _ _ C); eauto; congruence.
Qed.

(** Replacing one buffer leaves the contents of the blocks it caches neither
    before nor after alone. *)
Lemma blk_of_insert_ne dk dk' H P cs i b b' x :
  cache_ok pid dk H P cs -> cs !! i = Some b ->
  matches x b = false -> matches x b' = false ->
  disk_read dk' x = disk_read dk x ->
  blk_of dk' (<[i:=b']> cs) x = blk_of dk cs x.
Proof.
  intros C Hi Hb Hb' Hd. apply blk_of_frame; [|by intros; eapply cache_uniq_matches|done].
  intros j c Hm. destruct (decide (j = i)) as [->|Hne].
  - rewrite list_lookup_insert_eq by by eapply lookup_lt_Some. split; congruence.
  - by rewrite list_lookup_insert_ne.
Qed.

Lemma blk_of_insert_eq dk H P cs i b x :
  d <> 0 -> cache_ok pid dk H P (<[i:=b]> cs) -> (i < length cs)%nat ->
  b_dev b = d -> b_blockno b = x ->
  blk_of dk (<[i:=b]> cs) x = b_data b.
Proof.
  intros Hd C Hi Hb <-. eapply blk_of_at; [done..| |done].
  by apply list_lookup_insert_eq.
Qed.

(** The general step: buffer [i], which caches [x] afterwards, is replaced;
    every other buffer keeps satisfying its invariant. *)
Lemma cache_insert dk dk' H P H' P' cs i b b' :
  cache_ok pid dk H P cs -> cs !! i = Some b -> i <> head ->
  b_dev b' = d -> buf_ok pid dk' H' P' b' ->
  (forall j c, j <> i -> cs !! j = Some c -> buf_ok pid dk' H' P' c) ->
  (forall j c, j <> i -> cs !! j = Some c -> b_dev c = d -> b_blockno c <> b_blockno b') ->
  (forall x, x ∈ H' ∪ P' -> x <> b_blockno b' ->
     x ∈ H ∪ P /\ ~ (b_dev b = d /\ b_blockno b = x)) ->
  cache_ok pid dk' H' P' (<[i:=b']> cs).
Proof.
  intros C Hi Hh Hd Hb' Hoth Hu Hp.
  pose proof (lookup_lt_Some _ _ _ Hi) as Hlt.
  split.
  - rewrite length_insert. apply C.
  - intros j c. destruct (decide (j = i)) as [->|Hne].
    + rewrite list_lookup_insert_eq by done. by intros [= <-].
    + rewrite list_lookup_insert_ne by done. by apply Hoth.
  - destruct (c_head _ _ _ _ _ C) as (h & ? & ?). exists h.
    by rewrite list_lookup_insert_ne.
  - intros j k c c'.
    destruct (decide (j = i)) as [->|Hj], (decide (k = i)) as [->|Hk]; try done.
    + rewrite list_lookup_insert_eq, list_lookup_insert_ne by done.
      intros [= <-] ???? . exfalso. by eapply (Hu k c').
    + rewrite list_lookup_insert_eq, list_lookup_insert_ne by done.
      intros ? [= <-] ???. exfalso. by eapply (Hu j c).
    + rewrite !list_lookup_insert_ne by done. apply (c_uniq _ _ _ _ _ C).
  - intros x Hx. destruct (decide (x = b_blockno b')) as [->|Hne].
    + exists i, b'. by rewrite list_lookup_insert_eq.
    + destruct (Hp x Hx Hne) as [Hx' Hnb].
      destruct (c_present _ _ _ _ _ C x Hx') as (j & c & Hj & ? & ?).
      exists j, c. rewrite list_lookup_insert_ne; [done|]. intros ->.
      apply Hnb. by simplify_eq.
Qed.

(** Changing the abstract state at one block only concerns its buffer. *)
Lemma buf_ok_other dk dk' H P H' P' c x :
  buf_ok pid dk H P c -> (b_dev c = d -> b_blockno c <> x) ->
  (forall y, y <> x -> (y ∈ H' <-> y ∈ H) /\ (y ∈ P' <-> y ∈ P) /\
                       disk_read dk' y = disk_read dk y) ->
  buf_ok pid dk' H' P' c.
Proof.
  intros (Hl & Hby & [(Hd & Hv & Hr & Hk & Hc)|Hun]) Hne Heq;
    (split; [done|split; [done|]]); [left|by right].
  destruct (Heq (b_blockno c)) as (E1 & E2 & E3); [by apply Hne|].
  split_and!; try done.
  - rewrite Hr. unfold refs. repeat case_decide; tauto || done.
  - rewrite Hk. repeat case_decide; tauto || done.
  - intros ??. rewrite E3. apply Hc; tauto.
Qed.

(** A change of the buffer caching [x] and of the abstract state at [x]. *)
Lemma cache_update dk dk' H P H' P' cs i b b' :
  d <> 0 -> cache_ok pid dk H P cs -> cs !! i = Some b -> b_dev b = d ->
  b_dev b' = d -> b_blockno b' = b_blockno b ->
  (forall y, y <> b_blockno b -> (y ∈ H' <-> y ∈ H) /\ (y ∈ P' <-> y ∈ P) /\
                       disk_read dk' y = disk_read dk y) ->
  buf_ok pid dk' H' P' b' ->
  cache_ok pid dk' H' P' (<[i:=b']> cs) /\
  (forall y, blk_of dk' (<[i:=b']> cs) y =
             if decide (y = b_blockno b) then b_data b' else blk_of dk cs y).
Proof.
  intros Hd C Hi Hb Hb' Hx Hoff Hok.
  assert (Hh : i <> head).
  { intros ->. destruct (c_head _ _ _ _ _ C) as (h & ? & ?). simplify_eq. congruence. }
  assert (C' : cache_ok pid dk' H' P' (<[i:=b']> cs)).
  { apply (cache_insert dk dk' H P H' P' cs i b b'); try done.
    - intros j c Hj Hc. eapply buf_ok_other; [by eapply (c_each _ _ _ _ _ C)| |done].
      intros Hcd Heq. apply Hj. by eapply (c_uniq _ _ _ _ _ C).
    - intros j c Hj Hc Hcd Heq. apply Hj. eapply (c_uniq _ _ _ _ _ C); eauto; congruence.
    - intros y Hy Hne. rewrite Hx in Hne. destruct (Hoff y Hne) as (E1 & E2 & _).
      split; [set_solver|]. intros [_ ?]. congruence. }
  split; [done|]. intros y. case_decide as Hy.
  - subst y. erewrite blk_of_insert_eq; try done. by eapply lookup_lt_Some.
  - apply (blk_of_insert_ne dk dk' H P cs i b b' y C Hi); [| |by apply Hoff];
      unfold matches; apply andb_false_iff; right; apply Z.eqb_neq; congruence.
Qed.

(** Recycling an unreferenced buffer for an uncached block. *)
Lemma cache_recycle dk H P cs i b b' x :
  d <> 0 -> cache_ok pid dk H P cs -> cs !! i = Some b -> i <> head -> b_refcnt b = 0 ->
  (forall j c, cs !! j = Some c -> ~ (b_dev c = d /\ b_blockno c = x)) ->
  b_dev b' = d -> b_blockno b' = x -> valid b' = true -> b_refcnt b' = 1 ->
  b_lock b' = held_by pid -> b_data b' = disk_read dk x -> disk_ok dk ->
  cache_ok pid dk ({[x]} ∪ H) P (<[i:=b']> cs) /\
  (forall y, blk_of dk (<[i:=b']> cs) y = blk_of dk cs y).
Proof.
  intros Hd C Hi Hh Hr Hun H1 H2 H3 H4 H5 H6 Hdk.
  assert (Hx : (x ∉ H) /\ (x ∉ P)).
  { split; intros Hin; destruct (c_present _ _ _ _ _ C x) as (j & c & Hj & ?);
      [set_solver|by eapply Hun|set_solver|by eapply Hun]. }
  assert (Hfree : b_dev b = d -> (b_blockno b ∉ H ∪ P) /\
                  b_data b = disk_read dk (b_blockno b)).
  { intros Hbd. destruct (c_each _ _ _ _ _ C _ _ Hi) as (_ & _ & [(_&_&Hrf&_&Hcl)|(?&_)]);
      [|congruence].
    rewrite Hr in Hrf. unfold refs in Hrf. repeat case_decide; try lia.
    split; [set_solver|by apply Hcl]. }
  assert (C' : cache_ok pid dk ({[x]} ∪ H) P (<[i:=b']> cs)).
  { apply (cache_insert dk dk H P _ _ cs i b b'); try done.
    - split; [rewrite H6; by apply disk_read_length|].
      split; [rewrite H6; by apply disk_read_bytes|]. left. rewrite H2, H3, H4, H5, H6.
      rewrite decide_True by set_solver. split_and!; try done.
      unfold refs. rewrite decide_True, decide_False by set_solver. done.
    - intros j c Hj Hc. eapply (buf_ok_other _ _ _ _ _ _ _ x);
        [by eapply (c_each _ _ _ _ _ C)|..].
      + intros ? ?. by eapply Hun.
      + set_solver.
    - intros j c Hj Hc Hcd Heq. eapply Hun; [done|]. split; [done|congruence].
    - intros y Hy Hne. split; [set_solver|]. intros [Hbd Hby].
      destruct (Hfree Hbd) as [Hn _]. set_solver. }
  split; [done|]. intros y. destruct (decide (y = x)) as [->|Hne].
  - erewrite blk_of_insert_eq; try done; [|by eapply lookup_lt_Some].
    by rewrite blk_of_none.
  - destruct (matches y b) eqn:Hm.
    + (* the evicted block was clean *)
      apply andb_true_iff in Hm as [Hbd%Z.eqb_eq <-%Z.eqb_eq].
      rewrite (blk_of_at dk H P cs i b) by done.
      rewrite (proj2 (Hfree Hbd)). apply blk_of_none.
      intros j c. destruct (decide (j = i)) as [->|Hj].
      * rewrite list_lookup_insert_eq by by eapply lookup_lt_Some. intros [= <-]. naive_solver.
      * rewrite list_lookup_insert_ne by done. intros Hc [? ?].
        apply Hj. by eapply (c_uniq _ _ _ _ _ C).
    + apply (blk_of_insert_ne dk dk H P cs i b b' y C Hi Hm); [|done].
      unfold matches. apply andb_false_iff. right. apply Z.eqb_neq. congruence.
Qed.

(** When every buffer is referenced, [NBUF] distinct blocks are held or
    pinned. *)
Lemma cache_full dk H P cs :
  d <> 0 -> cache_ok pid dk H P cs ->
  (forall i b, cs !! i = Some b -> i <> head -> b_refcnt b <> 0) ->
  (NBUF <= size (H ∪ P))%nat.
Proof.
  intros Hd C Hall.
  assert (Hl : length (take NBUF cs) = NBUF)
    by (rewrite length_take; pose proof (c_len _ _ _ _ _ C); lia).
  assert (Hin : forall i b, take NBUF cs !! i = Some b ->
            cs !! i = Some b /\ b_dev b = d /\ b_blockno b ∈ H ∪ P).
  { intros i b Hi. pose proof (lookup_lt_Some _ _ _ Hi) as Hlt. rewrite Hl in Hlt.
    rewrite lookup_take_lt in Hi by done. split; [done|].
    assert (Hne : i <> head) by (unfold head; lia).
    destruct (c_each _ _ _ _ _ C _ _ Hi) as (_&_&[(Hbd&_&Hr&_)|(_&_&Hr&_)]);
      specialize (Hall _ _ Hi Hne); [|congruence].
    split; [done|]. rewrite Hr in Hall. unfold refs in Hall.
    repeat case_decide; set_solver. }
  rewrite <- Hl at 1. rewrite <- (length_fmap b_blockno).
  rewrite <- (size_list_to_set (C := gset Z)).
  - apply subseteq_size. intros x. rewrite elem_of_list_to_set, list_elem_of_fmap.
    intros (b & -> & Hb). apply list_elem_of_lookup in Hb as [i Hi]. by apply Hin in Hi as (_&_&?).
  - apply NoDup_alt. intros i j x. rewrite !list_lookup_fmap, !fmap_Some.
    intros (b & Hi & ->) (c & Hj & Heq). apply Hin in Hi as (?&?&_), Hj as (?&?&_).
    by eapply (c_uniq _ _ _ _ _ C).
Qed.
End cache.
End spec.
