(* ===== verification/BioOps.v ===== *)
(** * Specifications of the buffer-cache operations

    [bread], [bwrite], [brelse], [bpin], [bunpin] and assignments to a held
    buffer's data, on the abstract state of [BioSpec].  *)

From S2P Require Import Prelude Param Spinlock Sleeplock Dlist Bio BioSpec.
From Stdlib Require Import Permutation.

(** Assigning to the bytes of a buffer: [memmove(b->data, ...)] and the like. *)
Definition bdata (i : nat) : M bio block := gets (fun s => b_data (bc_buf s !!! i)).
Definition set_bdata (i : nat) (v : block) : M bio unit := updb i (set_data v).

Ltac link_free := intros []; done.

Section ops.
Context (d : Z).
Implicit Types (H P : gset Z) (s : bio) (i : nat) (x : Z).
#[local] Abbreviation bio_inv := (bio_inv d).
#[local] Abbreviation blk := (blk d).
#[local] Abbreviation slot := (slot d).
#[local] Abbreviation bframe := (bframe d).

Lemma bi_len H P s : bio_inv H P s -> length (bc_buf s) = S NBUF.
Proof. intros I. rewrite <- cores_length. apply I. Qed.

Lemma lru_ext s s' :
  (forall j, nx s' j = nx s j) -> (forall j, pv s' j = pv s j) -> lru_ok s -> lru_ok s'.
Proof.
  intros Hn Hp (order & Hperm & Hr). exists order. split; [done|].
  eapply ring_ext; [|done]. intros j _. by rewrite Hn, Hp.
Qed.

(** Two updates of one buffer, as an insertion in the array of cores. *)
Lemma cores_alter2 s i b f g :
  link_free f -> link_free g -> cores s !! i = Some b ->
  core <$> alter f i (alter g i (bc_buf s)) = <[i := f (g b)]> (cores s).
Proof.
  intros Hf Hg Hi. rewrite !fmap_core_alter by done. fold (cores s).
  rewrite (alter_at g i (cores s) b) by done.
  rewrite (alter_at f i _ (g b)); [apply list_insert_insert_eq|].
  apply list_lookup_insert_eq. by eapply lookup_lt_Some.
Qed.

Lemma cores_alter1 s i b f :
  link_free f -> cores s !! i = Some b ->
  core <$> alter f i (bc_buf s) = <[i := f b]> (cores s).
Proof.
  intros Hf Hi. rewrite fmap_core_alter by done. by apply alter_at.
Qed.

Lemma lru_alter s e l dk f i :
  (forall b, b_next (f b) = b_next b) -> (forall b, b_prev (f b) = b_prev b) ->
  lru_ok s -> lru_ok (mkBio e l (alter f i (bc_buf s)) dk).
Proof.
  intros Hn Hp. apply lru_ext; intros j; unfold nx, pv; simpl.
  - by apply alter_total_same.
  - by apply alter_total_same.
Qed.

(** Facts about a slot. *)
Lemma slot_lt H P s i x : bio_inv H P s -> slot s i x -> (i < S NBUF)%nat /\ i <> head.
Proof.
  intros I (b & Hi & Hd & _). pose proof (lookup_lt_Some _ _ _ Hi) as Hl.
  rewrite cores_length, (bi_len H P) in Hl by done. split; [done|]. intros ->.
  destruct (c_head _ _ _ _ _ _ (bi_cache _ _ _ _ I)) as (h & Hh & Hz).
  pose proof (bi_dev _ _ _ _ I). congruence.
Qed.

Lemma slot_buf H P s i x :
  bio_inv H P s -> slot s i x ->
  exists b, cores s !! i = Some b /\ b = core (bc_buf s !!! i) /\ b_dev b = d /\
    b_blockno b = x /\ buf_ok d (e_pid (io_env s)) (io_disk s) H P b.
Proof.
  intros I (b & Hi & Hd & Hx). exists b. split_and!; try done.
  - destruct (slot_lt H P s i x) as [Hl _]; [done|by exists b|].
    rewrite cores_lookup in Hi by (rewrite (bi_len H P); done). congruence.
  - by eapply (c_each _ _ _ _ _ _ (bi_cache _ _ _ _ I)).
Qed.

Lemma slot_data H P s i x :
  bio_inv H P s -> slot s i x -> b_data (bc_buf s !!! i) = blk s x.
Proof.
  intros I Hs. destruct (slot_buf H P s i x I Hs) as (b & Hi & Hb & Hd & Hx & _).
  unfold BioSpec.blk. rewrite <- Hx.
  erewrite blk_of_at; [| |apply I|done|done]; [by subst b|apply I].
Qed.

Lemma slot_uniq H P s i j x : bio_inv H P s -> slot s i x -> slot s j x -> i = j.
Proof.
  intros I (b & Hi & Hd & Hx) (c & Hj & Hd' & Hx').
  eapply (c_uniq _ _ _ _ _ _ (bi_cache _ _ _ _ I)); eauto; congruence.
Qed.

Lemma held_slot H P s x : bio_inv H P s -> x ∈ H ∪ P -> exists i, slot s i x.
Proof.
  intros I Hx. destruct (c_present _ _ _ _ _ _ (bi_cache _ _ _ _ I) x Hx) as (i & b & ?).
  by exists i, b.
Qed.

Lemma blk_length H P s x : bio_inv H P s -> length (blk s x) = bsize.
Proof.
  intros I. unfold BioSpec.blk, blk_of.
  destruct (List.find _ _) as [b|] eqn:E; [|apply disk_read_length, I].
  apply List.find_some in E as [Hin _].
  apply list_elem_of_In, list_elem_of_lookup in Hin as [i Hi].
  by destruct (c_each _ _ _ _ _ _ (bi_cache _ _ _ _ I) _ _ Hi).
Qed.

Lemma blk_bytes H P s x : bio_inv H P s -> Forall is_byte (blk s x).
Proof.
  intros I. unfold BioSpec.blk, blk_of.
  destruct (List.find _ _) as [b|] eqn:E; [|apply disk_read_bytes, I].
  apply List.find_some in E as [Hin _].
  apply list_elem_of_In, list_elem_of_lookup in Hin as [i Hi].
  by destruct (c_each _ _ _ _ _ _ (bi_cache _ _ _ _ I) _ _ Hi) as (_ & ? & _).
Qed.

(** A block that is neither held nor pinned reads the same from the disk. *)
Lemma blk_clean H P s x : bio_inv H P s -> (x ∉ H) -> (x ∉ P) -> blk s x = disk_read (io_disk s) x.
Proof.
  intros I HH HP. unfold BioSpec.blk, blk_of.
  destruct (List.find _ _) as [b|] eqn:E; [|done].
  apply List.find_some in E as [Hin Hm].
  apply andb_true_iff in Hm as [Hd%Z.eqb_eq <-%Z.eqb_eq].
  apply list_elem_of_In, list_elem_of_lookup in Hin as [i Hi].
  destruct (c_each _ _ _ _ _ _ (bi_cache _ _ _ _ I) _ _ Hi) as (_&_&[(_&_&_&_&Hc)|(Hz&_)]); [auto|].
  pose proof (bi_dev _ _ _ _ I). congruence.
Qed.

(** ** One buffer changes: invariant, contents and frame *)

(** The state after a change of the buffer caching [x] that touches neither
    the list pointers nor any other buffer. *)
Lemma inv_change H P H' P' s i x e dk f :
  bio_inv H P s -> slot s i x -> env_same (io_env s) e ->
  (forall b, b_next (f b) = b_next b /\ b_prev (f b) = b_prev b /\
             b_dev (f b) = b_dev b /\ b_blockno (f b) = b_blockno b) ->
  link_free f -> disk_ok dk ->
  (forall y, y <> x -> (y ∈ H' <-> y ∈ H) /\ (y ∈ P' <-> y ∈ P) /\
                       disk_read dk y = disk_read (io_disk s) y) ->
  (forall b, cores s !! i = Some b -> b_blockno b = x -> b_dev b = d ->
     buf_ok d (e_pid (io_env s)) (io_disk s) H P b ->
     buf_ok d (e_pid (io_env s)) dk H' P' (f b)) ->
  let s' := mkBio e initlock (alter f i (bc_buf s)) dk in
  bio_inv H' P' s' /\
  (forall y, blk s' y = if decide (y = x) then b_data (f (bc_buf s !!! i)) else blk s y) /\
  (forall j y, slot s j y -> slot s' j y).
Proof.
  intros I Hs He Hf Hlf Hdk Hoff Hok s'.
  destruct (slot_buf H P s i x I Hs) as (b & Hi & Hb & Hd & Hx & Hbok).
  assert (Hc : cores s' = <[i := f b]> (cores s)) by by apply cores_alter1.
  assert (Hpid : e_pid e = e_pid (io_env s)) by apply He.
  destruct (cache_update d (pid := e_pid (io_env s)) (io_disk s) dk H P H' P' (cores s) i b (f b)) as [C' Hblk];
    try done; [apply I|apply I|by destruct (Hf b) as (_&_&->&_)|by destruct (Hf b) as (_&_&_&->)
              |by rewrite Hx|by apply Hok|].
  split_and!.
  - split; simpl; try done; [by rewrite Hpid, Hc|..].
    + apply lru_alter; [apply Hf|apply Hf|apply I].
    + eapply env_same_ok; [done|apply I].
    + apply I.
  - intros y. unfold BioSpec.blk at 1. rewrite Hc. simpl. rewrite Hblk, Hx.
    case_decide; [|done]. rewrite Hb. destruct (Hlf (bc_buf s !!! i)) as (_&_&<-). done.
  - intros j y (c & Hj & Hcd & Hcy). unfold BioSpec.slot. rewrite Hc.
    destruct (decide (j = i)) as [->|Hne].
    + exists (f b). rewrite list_lookup_insert_eq by by eapply lookup_lt_Some.
      assert (c = b) as -> by congruence. by destruct (Hf b) as (_&_&->&->).
    + exists c. by rewrite list_lookup_insert_ne.
Qed.

(** The effect of an operation that leaves every block's contents alone. *)
Definition quiet (H : gset Z) (s s' : bio) : Prop :=
  bframe H s s' /\ io_disk s' = io_disk s /\ (forall y, blk s' y = blk s y).

#[export] Instance quiet_preorder H : PreOrder (quiet H).
Proof.
  split.
  - intros s. split_and!; reflexivity || done.
  - intros s1 s2 s3 (F1 & D1 & B1) (F2 & D2 & B2). split_and!.
    + by etransitivity.
    + congruence.
    + intros y. by rewrite B2, B1.
Qed.

Lemma quiet_weaken H H' s s' : H' ⊆ H -> quiet H s s' -> quiet H' s s'.
Proof. intros Hs (F & D & B). split_and!; try done. by eapply bframe_weaken. Qed.

Lemma push_pop_env e : env_ok e -> env_same e (pop_env (push_env e)).
Proof. intros He. apply pop_push_same; [done|reflexivity]. Qed.

(** A critical section of bcache.lock that updates one buffer. *)
Lemma wp_locked_updb s i f Q :
  env_ok (io_env s) -> bc_lock s = initlock ->
  (forall e, env_same (io_env s) e ->
     Q tt (mkBio e initlock (alter f i (bc_buf s)) (io_disk s))) ->
  wp (with_env bcache_lock acquire ;; updb i f ;; with_env bcache_lock release) Q s.
Proof.
  intros Hok Hl HQ. wp_step. apply wp_acquire; [by simpl; rewrite Hl|].
  simpl. wp_step. unfold updb. wp_steps. simpl.
  destruct (push_env_fields (io_env s)) as (Hc & _ & _ & Hs).
  apply wp_release; simpl.
  - by rewrite Hc.
  - done.
  - rewrite push_env_noff. destruct Hok. lia.
  - apply HQ. by apply push_pop_env.
Qed.

Lemma refs_bound H P x : 0 <= refs H P x <= 2.
Proof. unfold refs. repeat case_decide; lia. Qed.

Lemma wp_bpin H P s i x :
  bio_inv H P s -> slot s i x -> (x ∉ P) ->
  wp (bpin i) (fun _ s' => bio_inv H ({[x]} ∪ P) s' /\ quiet (H ∪ P) s s') s.
Proof.
  intros I Hs HxP. unfold bpin.
  apply wp_locked_updb; [apply I|apply I|]. intros e He.
  destruct (inv_change H P H ({[x]} ∪ P) s i x e (io_disk s)
              (fun b => set_refcnt (u32 (b_refcnt b + 1)) b)) as (I' & B' & S');
    try done; [apply I|set_solver|..].
  - intros b _ Hbx Hbd (Hl & Hby & [(_ & Hv & Hr & Hk & Hc)|(?&_)]);
      [|by destruct (bi_dev _ _ _ _ I); congruence].
    split; [done|]. split; [done|]. left. simpl. rewrite Hbx in *.
    split_and!; try done; [|set_solver].
    rewrite Hr, u32_small by (pose proof (refs_bound H P x); lia).
    unfold refs. rewrite (decide_True (P := x ∈ {[x]} ∪ P)) by set_solver.
    rewrite (decide_False (P := x ∈ P)) by done. lia.
  - split; [done|]. split_and!; try done; [by split; auto|].
    intros y. rewrite B'. case_decide; [|done]. subst. by apply (slot_data H P).
Qed.

Lemma wp_bunpin H P s i x :
  bio_inv H P s -> slot s i x -> x ∈ H -> x ∈ P ->
  wp (bunpin i) (fun _ s' => bio_inv H (P ∖ {[x]}) s' /\ quiet (H ∪ P) s s') s.
Proof.
  intros I Hs HxH HxP. unfold bunpin.
  apply wp_locked_updb; [apply I|apply I|]. intros e He.
  destruct (inv_change H P H (P ∖ {[x]}) s i x e (io_disk s)
              (fun b => set_refcnt (u32 (b_refcnt b - 1)) b)) as (I' & B' & S');
    try done; [apply I|set_solver|..].
  - intros b _ Hbx Hbd (Hl & Hby & [(_ & Hv & Hr & Hk & Hc)|(?&_)]);
      [|by destruct (bi_dev _ _ _ _ I); congruence].
    split; [done|]. split; [done|]. left. simpl. rewrite Hbx in *.
    split_and!; try done.
    rewrite Hr. unfold refs.
    rewrite (decide_True (P := x ∈ P)), (decide_True (P := x ∈ H)) by done.
    rewrite (decide_False (P := x ∈ P ∖ {[x]})) by set_solver. done.
  - split; [done|]. split_and!; try done; [by split; auto|].
    intros y. rewrite B'. case_decide; [|done]. subst. by apply (slot_data H P).
Qed.

(** Assigning to a held buffer changes the contents of its block. *)
Lemma wp_set_bdata H P s i x v :
  bio_inv H P s -> slot s i x -> x ∈ H -> length v = bsize -> Forall is_byte v ->
  wp (set_bdata i v) (fun _ s' => bio_inv H P s' /\ bframe (H ∪ P) s s' /\
    io_disk s' = io_disk s /\
    (forall y, blk s' y = if decide (y = x) then v else blk s y)) s.
Proof.
  intros I Hs HxH Hv Hby. unfold set_bdata, updb. wp_step.
  rewrite (bi_lock _ _ _ _ I).
  destruct (inv_change H P H P s i x (io_env s) (io_disk s) (set_data v)) as (I' & B' & S');
    try done; [apply I|..].
  - intros b _ Hbx Hbd (Hl & _ & [(_ & Hvl & Hr & Hk & Hc)|(?&_)]);
      [|by destruct (bi_dev _ _ _ _ I); congruence].
    split; [done|]. split; [done|]. left. simpl. rewrite Hbx in *. by split_and!.
  - split_and!; try done. by split; auto.
Qed.

Lemma wp_bdata H P s i x Q :
  bio_inv H P s -> slot s i x -> Q (blk s x) s -> wp (bdata i) Q s.
Proof. intros I Hs HQ. unfold bdata. wp_step. by rewrite (slot_data H P s i x). Qed.

(** ** bwrite *)

Lemma held_lock H P s i x :
  bio_inv H P s -> slot s i x -> x ∈ H ->
  b_lock (bc_buf s !!! i) = held_by (e_pid (io_env s)).
Proof.
  intros I Hs Hx. destruct (slot_buf H P s i x I Hs) as (b & _ & -> & Hd & Hbx & Hok).
  destruct Hok as (_ & _ & [(_&_&_&Hk&_)|(Hz&_)]).
  - simpl in *. rewrite Hk, Hbx. by rewrite decide_True.
  - destruct (bi_dev _ _ _ _ I). congruence.
Qed.

Lemma wp_holding H P s i x Q :
  bio_inv H P s -> slot s i x -> x ∈ H ->
  (forall e, env_same (io_env s) e -> Q true (mkBio e initlock (bc_buf s) (io_disk s))) ->
  wp (with_env (buf_lock i) holdingsleep) Q s.
Proof.
  intros I Hs Hx HQ.
  apply wp_holdingsleep; [apply I|by apply (held_lock H P s i x)|].
  intros e He. simpl. rewrite alter_same; [rewrite (bi_lock _ _ _ _ I); by apply HQ|].
  pose proof (held_lock H P s i x I Hs Hx) as Hk.
  destruct (bc_buf s !!! i). simpl in *. by rewrite <- Hk.
Qed.

Lemma wp_bwrite H P s i x :
  bio_inv H P s -> slot s i x -> x ∈ H ->
  wp (bwrite i) (fun _ s' => bio_inv H P s' /\ bframe (H ∪ P) s s' /\
    io_disk s' = disk_write x (blk s x) (io_disk s) /\ (forall y, blk s' y = blk s y)) s.
Proof.
  intros I Hs Hx. unfold bwrite. wp_step.
  apply (wp_holding H P s i x); [done..|]. intros e He. simpl.
  destruct (slot_buf H P s i x I Hs) as (b & _ & Hb & Hbd & Hbx & Hbok).
  destruct (slot_lt H P s i x I Hs) as [Hlt _].
  assert (Hlen : (i < length (bc_buf s))%nat) by by rewrite (bi_len H P).
  unfold virtio_disk_rw, updb, getb. wp_steps. simpl. wp_steps. simpl.
  rewrite alter_alter. rewrite !alter_total, !decide_True by done. simpl.
  rewrite (slot_data H P s i x I Hs).
  assert (b_blockno (bc_buf s !!! i) = x) as -> by by subst b.
  assert (Hdk : disk_ok (disk_write x (blk s x) (io_disk s))).
  { constructor; [|apply I]. split; [by eapply blk_length|by eapply blk_bytes]. }
  destruct (inv_change H P H P s i x e (disk_write x (blk s x) (io_disk s))
              (fun b => set_bdisk false (set_bdisk true b))) as (I' & B' & S'); try done.
  - intros y Hy. split; [done|]. split; [done|]. by apply disk_read_write_ne.
  - intros c _ Hcx Hcd (Hl & Hby & [(_ & Hv & Hr & Hk & Hc)|(?&_)]);
      [|by destruct (bi_dev _ _ _ _ I); congruence].
    split; [done|]. split; [done|]. left. simpl. rewrite Hcx in *. by split_and!.
  - split_and!; try done; [by split; auto|].
    intros y. rewrite B'. case_decide; [|done]. subst y. simpl. by apply (slot_data H P).
Qed.

(** ** Moving a buffer to the front of the list *)

Definition move_front (i : nat) (bs : list buf) : list buf :=
  let x := bs !!! i in
  let bs1 := alter (set_prev (b_prev x)) (b_next x) bs in
  let x1 := bs1 !!! i in
  let bs2 := alter (set_next (b_next x1)) (b_prev x1) bs1 in
  let bs3 := alter (set_next (b_next (bs2 !!! head))) i bs2 in
  let bs4 := alter (set_prev head) i bs3 in
  let bs5 := alter (set_prev i) (b_next (bs4 !!! head)) bs4 in
  alter (set_next i) head bs5.

Lemma move_front_core i bs : core <$> move_front i bs = core <$> bs.
Proof. unfold move_front. by rewrite !fmap_core_alter_links by link_free. Qed.

Lemma next_set_prev v k (l : list buf) j :
  b_next (alter (set_prev v) k l !!! j) = b_next (l !!! j).
Proof. by apply alter_total_same. Qed.
Lemma prev_set_next v k (l : list buf) j :
  b_prev (alter (set_next v) k l !!! j) = b_prev (l !!! j).
Proof. by apply alter_total_same. Qed.
Lemma next_set_next v k (l : list buf) j :
  (k < length l)%nat ->
  b_next (alter (set_next v) k l !!! j) = fupd (fun j => b_next (l !!! j)) k v j.
Proof. intros. rewrite alter_total by done. unfold fupd. by case_decide. Qed.
Lemma prev_set_prev v k (l : list buf) j :
  (k < length l)%nat ->
  b_prev (alter (set_prev v) k l !!! j) = fupd (fun j => b_prev (l !!! j)) k v j.
Proof. intros. rewrite alter_total by done. unfold fupd. by case_decide. Qed.

Lemma move_front_ring i bs l1 l2 :
  length bs = S NBUF -> Permutation (l1 ++ i :: l2) (seq 0 NBUF) ->
  ring (fun j => b_next (bs !!! j)) (fun j => b_prev (bs !!! j)) head (l1 ++ i :: l2) ->
  ring (fun j => b_next (move_front i bs !!! j)) (fun j => b_prev (move_front i bs !!! j))
       head (i :: l1 ++ l2).
Proof.
  intros Hlen Hperm Hring.
  set (N := fun j => b_next (bs !!! j)). set (Pr := fun j => b_prev (bs !!! j)).
  assert (Hin : forall j, j ∈ l1 ++ i :: l2 -> (j < NBUF)%nat).
  { intros j. rewrite Hperm. rewrite elem_of_seq. lia. }
  assert (Hnd : NoDup (head :: l1 ++ i :: l2)).
  { constructor; [intros Hh%Hin; unfold head in *; lia|]. rewrite Hperm. apply NoDup_seq. }
  (* the neighbours of [i] are nodes of the ring *)
  destruct (ring_neighbours N Pr head l1 i l2 Hring) as [HNi HPi].
  assert (Hrange : forall j, j ∈ head :: l1 ++ i :: l2 -> (j < length bs)%nat).
  { intros j [->|Hj]%elem_of_cons; rewrite Hlen; [unfold head; lia|]. apply Hin in Hj. lia. }
  assert (HNlt : (N i < length bs)%nat) by (apply Hrange; set_solver).
  assert (HPlt : (Pr i < length bs)%nat) by (apply Hrange; set_solver).
  assert (Hilt : (i < length bs)%nat) by (apply Hrange; set_solver).
  assert (Hhlt : (head < length bs)%nat) by (apply Hrange; set_solver).
  assert (Hih : i <> head).
  { intros ->. apply NoDup_cons in Hnd as [Hh _]. set_solver. }
  assert (HiN : N i <> i).
  { intros E. apply NoDup_cons in Hnd as [_ Hnd'].
    apply NoDup_app in Hnd' as (_ & Hd & Hni). apply NoDup_cons in Hni as [Hni _].
    rewrite E in HNi. set_solver. }
  pose proof (ring_unlink N Pr head l1 i l2 Hnd Hring) as R1.
  assert (Hnd2 : NoDup (head :: i :: l1 ++ l2)).
  { assert (Permutation (head :: i :: l1 ++ l2) (head :: l1 ++ i :: l2)) as ->; [|done].
    constructor. apply Permutation_middle. }
  pose proof (dring_push _ _ head (l1 ++ l2) i Hnd2 R1) as R2.
  eapply ring_ext; [|exact R2]. intros j _.
  (* the pointers after each pair of assignments *)
  unfold move_front.
  set (bs1 := alter (set_prev _) _ bs).
  assert (L1 : length bs1 = length bs) by apply length_alter.
  assert (N1 : forall j, b_next (bs1 !!! j) = N j) by (intros; apply next_set_prev).
  assert (P1 : forall j, b_prev (bs1 !!! j) = fupd Pr (N i) (Pr i) j)
    by (intros; by apply prev_set_prev).
  assert (P1i : b_prev (bs1 !!! i) = Pr i) by (rewrite P1; by apply fupd_ne).
  rewrite P1i, N1. set (bs2 := alter (set_next (N i)) (Pr i) bs1).
  assert (L2 : length bs2 = length bs) by (rewrite <- L1; apply length_alter).
  assert (N2 : forall j, b_next (bs2 !!! j) = fupd N (Pr i) (N i) j).
  { intros k. unfold bs2. rewrite next_set_next by lia. unfold fupd. by rewrite N1. }
  assert (P2 : forall j, b_prev (bs2 !!! j) = fupd Pr (N i) (Pr i) j).
  { intros k. unfold bs2. by rewrite prev_set_next. }
  assert (Hnh : (fupd N (Pr i) (N i) head < length bs)%nat).
  { unfold fupd. case_decide; [done|]. apply Hrange. right.
    destruct (l1 ++ i :: l2) as [|a l] eqn:E; [by destruct l1|].
    destruct Hring as (Hring & _). unfold N. rewrite Hring. left. }
  rewrite N2. set (n1 := fupd N (Pr i) (N i) head) in *.
  rewrite !next_set_prev. rewrite !next_set_next by (rewrite ?length_alter; lia).
  rewrite (fupd_ne _ i n1 head) by done. rewrite N2. fold n1.
  split.
  - destruct (decide (j = head)) as [->|Hj]; [by rewrite !fupd_eq|].
    rewrite !(fupd_ne _ head) by done. rewrite !next_set_prev, next_set_next by lia.
    destruct (decide (j = i)) as [->|Hji]; [by rewrite !fupd_eq|].
    rewrite !(fupd_ne _ i) by done. apply N2.
  - rewrite prev_set_next, prev_set_prev by (rewrite !length_alter; lia).
    destruct (decide (j = n1)) as [->|Hj]; [by rewrite !fupd_eq|].
    rewrite !(fupd_ne _ n1) by done. rewrite prev_set_prev by (rewrite !length_alter; lia).
    destruct (decide (j = i)) as [->|Hji]; [by rewrite !fupd_eq|].
    rewrite !(fupd_ne _ i) by done. by rewrite prev_set_next.
Qed.

Lemma inv_move H P X e l dk i bs :
  (i < NBUF)%nat -> bio_inv H P (mkBio e l bs dk) ->
  let s' := mkBio e l (move_front i bs) dk in
  bio_inv H P s' /\ quiet X (mkBio e l bs dk) s'.
Proof.
  intros Hi I s'.
  assert (Hc : cores s' = cores (mkBio e l bs dk)) by apply move_front_core.
  split; [|split_and!; [split; [reflexivity|]|done|]].
  2: { intros j y _ (b & Hb). exists b. by rewrite Hc. }
  2: { intros y. unfold BioSpec.blk. by rewrite Hc. }
  destruct I as [C (order & Hperm & Hring) He Hl Hd Hdk].
  assert (Hlen : length bs = S NBUF).
  { pose proof (c_len _ _ _ _ _ _ C) as HC. by rewrite cores_length in HC. }
  split; try done; [by rewrite Hc|].
  assert (Hin : i ∈ order) by (rewrite Hperm; apply elem_of_seq; lia).
  apply list_elem_of_split in Hin as (l1 & l2 & ->).
  exists (i :: l1 ++ l2). split.
  - rewrite <- Hperm. apply Permutation_middle.
  - by apply move_front_ring.
Qed.

(** The first, reference-counting half of [brelse]. *)
Lemma inv_unref H P s i x e :
  bio_inv H P s -> slot s i x -> x ∈ H ->
  x ∈ P \/ blk s x = disk_read (io_disk s) x -> env_same (io_env s) e ->
  let s' := mkBio e initlock
    (alter (fun b => set_refcnt (u32 (b_refcnt b - 1)) (set_lk initsleeplock b)) i (bc_buf s))
    (io_disk s) in
  bio_inv (H ∖ {[x]}) P s' /\ quiet (H ∪ P) s s'.
Proof.
  intros I Hs HxH HxP He s'.
  destruct (inv_change H P (H ∖ {[x]}) P s i x e (io_disk s)
    (fun b => set_refcnt (u32 (b_refcnt b - 1)) (set_lk initsleeplock b))) as (I' & B' & S');
    try done; [apply I|set_solver|..].
  - intros b Hi Hbx Hbd (Hl & Hby & [(_ & Hv & Hr & Hk & Hc)|(?&_)]);
      [|by destruct (bi_dev _ _ _ _ I); congruence].
    split; [done|]. split; [done|]. left. simpl. rewrite Hbx in *.
    rewrite (decide_False (P := x ∈ H ∖ {[x]})) by set_solver.
    split_and!; try done.
    + rewrite Hr. unfold refs.
      rewrite (decide_True (P := x ∈ H)), (decide_False (P := x ∈ H ∖ {[x]})) by set_solver.
      by destruct (decide (x ∈ P)).
    + intros _ HnP. destruct HxP as [|<-]; [done|]. symmetry. unfold BioSpec.blk.
      rewrite <- Hbx. eapply blk_of_at; [|apply I|done|done]. apply I.
  - split; [done|]. split_and!; try done; [by split; auto|].
    intros y. rewrite B'. case_decide; [|done]. subst. by apply (slot_data H P).
Qed.

Lemma wp_brelse H P s i x :
  bio_inv H P s -> slot s i x -> x ∈ H ->
  x ∈ P \/ blk s x = disk_read (io_disk s) x ->
  wp (brelse i) (fun _ s' => bio_inv (H ∖ {[x]}) P s' /\ quiet (H ∪ P) s s') s.
Proof.
  intros I Hs HxH HxP. unfold brelse. wp_step.
  apply (wp_holding H P s i x); [done..|]. intros e1 He1. simpl. wp_step.
  assert (Hok1 : env_ok e1) by (eapply env_same_ok; [done|apply I]).
  assert (Hpid : e_pid e1 = e_pid (io_env s)) by apply He1.
  apply wp_releasesleep; [done|simpl; rewrite Hpid; by apply (held_lock H P s i x)|].
  intros e2 He2. simpl in *.
  assert (Hok2 : env_ok e2) by by eapply env_same_ok.
  wp_step. apply wp_acquire; [done|]. simpl. wp_step. unfold updb at 1. wp_step.
  cbn [bc_buf io_env bc_lock io_disk]. rewrite alter_alter. wp_step. unfold getb at 1. wp_step.
  cbn [bc_buf io_env bc_lock io_disk].
  destruct (push_env_fields e2) as (Hc & _ & _ & Hsie).
  assert (He : env_same (io_env s) (pop_env (push_env e2))).
  { etransitivity; [apply He1|]. etransitivity; [apply He2|]. by apply push_pop_env. }
  destruct (inv_unref H P s i x _ I Hs HxH HxP He) as [I' Q'].
  destruct (slot_lt H P s i x I Hs) as [Hlt Hnh].
  assert (Hrel : 1 <= e_noff (push_env e2)) by (rewrite push_env_noff; destruct Hok2; lia).
  wp_step. match goal with |- wp (if ?c then _ else _) _ _ => destruct c end.
  - unfold getb, updb. wp_steps. cbn [bc_buf io_env bc_lock io_disk].
    apply wp_release; simpl; [by rewrite Hc|done|done|].
    destruct (inv_move _ _ (H ∪ P) _ _ _ i _ ltac:(unfold head in *; lia) I') as [I'' Q''].
    split; [exact I''|]. etransitivity; [exact Q'|exact Q''].
  - wp_step. apply wp_release; simpl; [by rewrite Hc|done|done|]. done.
Qed.

(** ** bread *)

(** What the two scans of [bget] find, on any state with the same array. *)
Lemma scan_cached H P s s1 x :
  bio_inv H P s -> bc_buf s1 = bc_buf s ->
  exists r, find_cached (S NBUF) (b_next (bc_buf s1 !!! head)) d x s1 = Ok r s1 /\
    match r with Some i => slot s i x | None => forall i, ~ slot s i x end.
Proof.
  intros I Hb. destruct (bi_lru _ _ _ _ I) as (order & Hperm & Hring).
  assert (Hlen : length order = NBUF) by (rewrite Hperm; apply length_seq).
  assert (Hin : forall j, j ∈ order <-> (j < NBUF)%nat).
  { intros j. rewrite Hperm, elem_of_seq. lia. }
  assert (Hh : head ∉ order) by (rewrite Hin; unfold head; lia).
  assert (Hc : chain (nx s1) (pv s1) (order ++ [head]) /\
               nx s1 head = List.hd head (order ++ [head])).
  { unfold nx, pv. rewrite Hb. unfold ring in Hring.
    destruct (order ++ [head]) as [|a l] eqn:E; [by destruct order|].
    destruct Hring as (? & _ & ?). done. }
  destruct Hc as [Hc Hn].
  rewrite Hb. fold (nx s head). unfold nx in Hn. rewrite Hb in Hn. unfold nx. rewrite Hn.
  rewrite find_cached_spec; [|done|done|lia]. rewrite Hb. eexists. split; [done|].
  destruct (List.find _ _) as [i|] eqn:E.
  - apply List.find_some in E as [Hi Hm].
    apply andb_true_iff in Hm as [H1%Z.eqb_eq H2%Z.eqb_eq].
    apply list_elem_of_In, Hin in Hi.
    exists (core (bc_buf s !!! i)). rewrite cores_lookup; [done|].
    rewrite (bi_len H P) by done. lia.
  - intros i Hs. destruct (slot_lt H P s i x I Hs) as [Hl Hne].
    destruct (slot_buf H P s i x I Hs) as (b & _ & Hb' & Hd & Hx & _).
    eapply (List.find_none _ _) with (x := i) in E;
      [|apply list_elem_of_In, Hin; unfold head in *; lia].
    subst b. simpl in *. by rewrite Hd, Hx, !Z.eqb_refl in E.
Qed.

Lemma scan_unused H P s s1 :
  bio_inv H P s -> bc_buf s1 = bc_buf s ->
  exists r, find_unused (S NBUF) (b_prev (bc_buf s1 !!! head)) s1 = Ok r s1 /\
    match r with
    | Some i => (i < NBUF)%nat /\ b_refcnt (bc_buf s !!! i) = 0
    | None => forall i, (i < NBUF)%nat -> b_refcnt (bc_buf s !!! i) <> 0
    end.
Proof.
  intros I Hb. destruct (bi_lru _ _ _ _ I) as (order & Hperm & Hring).
  assert (Hlen : length order = NBUF) by (rewrite Hperm; apply length_seq).
  assert (Hin : forall j, j ∈ order <-> (j < NBUF)%nat).
  { intros j. rewrite Hperm, elem_of_seq. lia. }
  assert (Hh : head ∉ order) by (rewrite Hin; unfold head; lia).
  destruct (exists_last (l := head :: order)) as (pre & a & Ha); [done|].
  assert (Hc : chain (nx s1) (pv s1) (head :: order) /\ pv s1 head = a).
  { unfold nx, pv. rewrite Hb. unfold ring in Hring.
    change (head :: order ++ [head]) with ((head :: order) ++ [head]) in Hring.
    rewrite Ha in *. rewrite <- app_assoc in Hring. simpl in Hring.
    rewrite chain_app in Hring. destruct Hring as [? (_ & ? & _)]. done. }
  destruct Hc as [Hc Hp].
  assert (Hl : b_prev (bc_buf s1 !!! head) = List.last (head :: order) head).
  { rewrite Ha, List.last_last. done. }
  rewrite Hl, find_unused_spec; [|done|done|lia]. rewrite Hb. eexists. split; [done|].
  destruct (List.find _ _) as [i|] eqn:E.
  - apply List.find_some in E as [Hi Hm%Z.eqb_eq].
    apply in_rev, list_elem_of_In, Hin in Hi. done.
  - intros i Hi. eapply (List.find_none _ _) with (x := i) in E; [by apply Z.eqb_neq in E|].
    rewrite <- in_rev. by apply list_elem_of_In, Hin.
Qed.

(** [release(&bcache.lock)] then [acquiresleep(&b->lock)]. *)
Lemma wp_release_acquiresleep s e0 i (Q : unit -> bio -> Prop) :
  env_ok e0 -> io_env s = push_env e0 -> bc_lock s = mkSpinlock true (Some (e_cpu e0)) ->
  b_lock (bc_buf s !!! i) = initsleeplock ->
  (forall e, env_same e0 e ->
     Q tt (mkBio e initlock (alter (set_lk (held_by (e_pid e0))) i (bc_buf s)) (io_disk s))) ->
  wp (with_env bcache_lock release ;;
      with_env (buf_lock i) (acquiresleep (buf_chan i))) Q s.
Proof.
  intros Hok He Hl Hlk HQ.
  destruct (push_env_fields e0) as (Hc & Hp & _ & Hsie).
  wp_step. apply wp_release; simpl; rewrite He.
  - by rewrite Hl, Hc.
  - done.
  - rewrite push_env_noff. destruct Hok. lia.
  - pose proof (push_pop_env e0 Hok) as Hpp.
    apply wp_acquiresleep; [by eapply env_same_ok|done|]. simpl. intros e He'.
    assert (e_pid (pop_env (push_env e0)) = e_pid e0) as -> by apply Hpp.
    apply HQ. by etransitivity.
Qed.

Lemma inv_ref H P s i x e :
  bio_inv H P s -> slot s i x -> (x ∉ H) -> env_same (io_env s) e ->
  let s' := mkBio e initlock (alter (fun b => set_lk (held_by (e_pid (io_env s)))
              (set_refcnt (u32 (b_refcnt b + 1)) b)) i (bc_buf s)) (io_disk s) in
  bio_inv ({[x]} ∪ H) P s' /\ slot s' i x /\ quiet (H ∪ P) s s'.
Proof.
  intros I Hs HxH He s'.
  destruct (inv_change H P ({[x]} ∪ H) P s i x e (io_disk s)
    (fun b => set_lk (held_by (e_pid (io_env s))) (set_refcnt (u32 (b_refcnt b + 1)) b)))
    as (I' & B' & S'); try done; [apply I|set_solver|..].
  - intros b Hi Hbx Hbd (Hl & Hby & [(_ & Hv & Hr & Hk & Hc)|(?&_)]);
      [|by destruct (bi_dev _ _ _ _ I); congruence].
    split; [done|]. split; [done|]. left. simpl. rewrite Hbx in *.
    rewrite (decide_True (P := x ∈ {[x]} ∪ H)) by set_solver.
    split_and!; try done; [|set_solver].
    rewrite Hr, u32_small by (pose proof (refs_bound H P x); lia). unfold refs.
    rewrite (decide_False (P := x ∈ H)), (decide_True (P := x ∈ {[x]} ∪ H)) by set_solver. lia.
  - split; [done|]. split; [by apply S'|]. split_and!; try done; [by split; auto|].
    intros y. rewrite B'. case_decide; [|done]. subst. by apply (slot_data H P).
Qed.

Lemma inv_recycle H P s i x e f :
  bio_inv H P s -> (i < NBUF)%nat -> b_refcnt (bc_buf s !!! i) = 0 ->
  (forall j, ~ slot s j x) -> env_same (io_env s) e -> link_free f ->
  (forall b, b_dev (f b) = d /\ b_blockno (f b) = x /\ valid (f b) = true /\
     b_refcnt (f b) = 1 /\ b_lock (f b) = held_by (e_pid (io_env s)) /\
     b_data (f b) = disk_read (io_disk s) x) ->
  let s' := mkBio e initlock (alter f i (bc_buf s)) (io_disk s) in
  bio_inv ({[x]} ∪ H) P s' /\ slot s' i x /\ quiet (H ∪ P) s s'.
Proof.
  intros I Hi Hr Hun He Hlf Hf s'.
  set (b := core (bc_buf s !!! i)).
  assert (Hlen : (i < length (bc_buf s))%nat) by (rewrite (bi_len H P) by done; lia).
  assert (Hib : cores s !! i = Some b) by by apply cores_lookup.
  assert (Hc : cores s' = <[i := f b]> (cores s)) by by apply cores_alter1.
  assert (Hpid : e_pid e = e_pid (io_env s)) by apply He.
  destruct (Hf b) as (F1 & F2 & F3 & F4 & F5 & F6).
  assert (Hun' : forall j c, cores s !! j = Some c -> ~ (b_dev c = d /\ b_blockno c = x)).
  { intros j c Hj [??]. apply (Hun j). by exists c. }
  destruct (cache_recycle d (pid := e_pid (io_env s)) (io_disk s) H P (cores s) i b (f b) x)
    as [C' B']; try done; [apply I|apply I|unfold head; lia|apply I|].
  split; [|split].
  - split; simpl; try done; [by rewrite Hpid, Hc|..]; try apply I.
    + apply lru_alter; [apply Hlf|apply Hlf|apply I].
    + eapply env_same_ok; [done|apply I].
  - exists (f b). rewrite Hc, list_lookup_insert_eq by by eapply lookup_lt_Some. done.
  - split_and!; [split; [done|]|done|].
    + intros j y Hy (c & Hj & Hcd & Hcy). unfold BioSpec.slot. rewrite Hc.
      exists c. rewrite list_lookup_insert_ne; [done|]. intros ->.
      assert (c = b) as -> by congruence.
      destruct (c_each _ _ _ _ _ _ (bi_cache _ _ _ _ I) _ _ Hib) as (_&_&[(_&_&Hrf&_)|(Hz&_)]).
      * change (b_refcnt b) with (b_refcnt (bc_buf s !!! j)) in Hrf.
        rewrite Hr, Hcy in Hrf. unfold refs in Hrf. repeat case_decide; set_solver || lia.
      * destruct (bi_dev _ _ _ _ I). congruence.
    + intros y. unfold BioSpec.blk. rewrite Hc. apply B'.
Qed.

(** [bget] on a block that is cached. *)
Lemma wp_bget_hit H P s i x (Q : nat -> bio -> Prop) :
  bio_inv H P s -> slot s i x -> (x ∉ H) ->
  (forall e, env_same (io_env s) e ->
     Q i (mkBio e initlock (alter (fun b => set_lk (held_by (e_pid (io_env s)))
            (set_refcnt (u32 (b_refcnt b + 1)) b)) i (bc_buf s)) (io_disk s))) ->
  wp (bget d x) Q s.
Proof.
  intros I Hs HxH HQ. unfold bget. wp_step.
  apply wp_acquire; [by simpl; rewrite (bi_lock _ _ _ _ I)|].
  unfold bcache_lock at 1, env_of, HasEnv_bio. cbn [lget lset io_env bc_lock bc_buf io_disk].
  wp_step. unfold getb at 1. wp_step. wp_step. cbn [bc_buf].
  match goal with |- wp _ _ ?s1 => destruct (scan_cached H P s s1 x I) as (r & Hr & Hspec) end;
    [done|].
  eapply wp_intro; [exact Hr|]. destruct r as [j|]; [|by destruct (Hspec i)].
  assert (j = i) as -> by by eapply slot_uniq.
  wp_step. unfold updb at 1. wp_step. cbn [io_env bc_lock bc_buf io_disk].
  match goal with |- wp (bind ?a (fun _ => bind ?b (fun _ => ?c))) _ ?s1 =>
    cut (wp (bind (bind a (fun _ => b)) (fun _ => c)) Q s1);
      [unfold wp, bind; by destruct (a s1)|] end.
  wp_step. apply (wp_release_acquiresleep _ (io_env s)); try done; [apply I|..]; cbn [bc_buf].
  - rewrite (alter_total_same b_lock) by done.
    destruct (slot_buf H P s i x I Hs) as (b & _ & -> & Hd & Hbx & (_&_&[(_&_&_&Hk&_)|(Hz&_)])).
    + simpl in *. by rewrite Hk, Hbx, decide_False.
    + destruct (bi_dev _ _ _ _ I). congruence.
  - intros e He. wp_step. cbn [bc_buf io_disk]. rewrite alter_alter. by apply HQ.
Qed.

(** [bget] on a block that is not cached recycles an unreferenced buffer. *)
Lemma wp_bget_miss H P s x (Q : nat -> bio -> Prop) :
  bio_inv H P s -> (forall i, ~ slot s i x) ->
  (exists i, (i < NBUF)%nat /\ b_refcnt (bc_buf s !!! i) = 0) ->
  (forall i e, env_same (io_env s) e -> (i < NBUF)%nat -> b_refcnt (bc_buf s !!! i) = 0 ->
     Q i (mkBio e initlock (alter (fun b => set_lk (held_by (e_pid (io_env s)))
            (set_refcnt 1 (set_valid false (set_blockno x (set_dev d b))))) i (bc_buf s))
            (io_disk s))) ->
  wp (bget d x) Q s.
Proof.
  intros I Hns [k [Hk Hk0]] HQ. unfold bget. wp_step.
  apply wp_acquire; [by simpl; rewrite (bi_lock _ _ _ _ I)|].
  unfold bcache_lock at 1, env_of, HasEnv_bio. cbn [lget lset io_env bc_lock bc_buf io_disk].
  wp_step. unfold getb at 1. wp_step. wp_step. cbn [bc_buf].
  match goal with |- wp _ _ ?s1 => destruct (scan_cached H P s s1 x I) as (r & Hr & Hspec) end;
    [done|].
  eapply wp_intro; [exact Hr|]. destruct r as [j|]; [by destruct (Hns j)|].
  wp_step. unfold getb at 1. wp_step. wp_step. cbn [bc_buf].
  match goal with |- wp _ _ ?s1 => destruct (scan_unused H P s s1 I) as (r & Hr2 & Hspec2) end;
    [done|].
  eapply wp_intro; [exact Hr2|]. destruct r as [i|]; [|by destruct (Hspec2 k)].
  destruct Hspec2 as [Hi Hi0].
  do 4 (wp_step; unfold updb at 1; wp_step; cbn [io_env bc_lock bc_buf io_disk]).
  rewrite !alter_alter.
  match goal with |- wp (bind ?a (fun _ => bind ?b (fun _ => ?c))) _ ?s1 =>
    cut (wp (bind (bind a (fun _ => b)) (fun _ => c)) Q s1);
      [unfold wp, bind; by destruct (a s1)|] end.
  wp_step. apply (wp_release_acquiresleep _ (io_env s)); try done; [apply I|..]; cbn [bc_buf].
  - rewrite (alter_total_same b_lock) by done.
    assert (Hlen : (i < length (bc_buf s))%nat) by (rewrite (bi_len H P) by done; lia).
    destruct (c_each _ _ _ _ _ _ (bi_cache _ _ _ _ I) i (core (bc_buf s !!! i)))
      as (_&_&[(_&_&Hrf&Hkk&_)|(_&_&_&Hkk)]); [by apply cores_lookup| |done].
    simpl in *. rewrite Hi0 in Hrf. unfold refs in Hrf.
    rewrite Hkk. destruct (decide (b_blockno (bc_buf s !!! i) ∈ H)); [|done].
    destruct (decide (b_blockno (bc_buf s !!! i) ∈ P)); lia.
  - intros e He. wp_step. cbn [bc_buf io_disk]. rewrite alter_alter. by apply HQ.
Qed.

Lemma slot_dec H P s x : bio_inv H P s -> (exists i, slot s i x) \/ (forall i, ~ slot s i x).
Proof.
  intros I. destruct (scan_cached H P s s x I) as ([i|] & _ & Hs); eauto.
Qed.

Lemma unused_exists H P s :
  bio_inv H P s -> (size (H ∪ P) < NBUF)%nat ->
  exists i, (i < NBUF)%nat /\ b_refcnt (bc_buf s !!! i) = 0.
Proof.
  intros I Hsz. destruct (scan_unused H P s s I) as ([i|] & _ & Hs); [done|eauto|].
  exfalso. pose proof (cache_full d (io_disk s) H P (cores s) (bi_dev _ _ _ _ I)
    (bi_cache _ _ _ _ I)) as Hf.
  enough (NBUF <= size (H ∪ P))%nat by lia. apply Hf.
  intros i b Hi Hh Hr. pose proof (lookup_lt_Some _ _ _ Hi) as Hlt.
  rewrite cores_length, (bi_len H P) in Hlt by done.
  rewrite cores_lookup in Hi by (rewrite (bi_len H P); done). injection Hi as <-.
  apply (Hs i); [unfold head in *; lia|done].
Qed.

(** [bread] locks the block's buffer and returns its contents, provided a
    buffer can be found; no other block is affected. *)
Lemma wp_bread H P s x :
  bio_inv H P s -> (x ∉ H) -> (size (H ∪ P) < NBUF)%nat \/ x ∈ P ->
  wp (bread d x) (fun i s' => bio_inv ({[x]} ∪ H) P s' /\ slot s' i x /\
                              quiet (H ∪ P) s s') s.
Proof.
  intros I HxH Hroom. unfold bread. wp_step.
  destruct (slot_dec H P s x I) as [[i Hs]|Hns].
  - apply (wp_bget_hit H P s i x); [done..|]. intros e He.
    destruct (inv_ref H P s i x e I Hs HxH He) as (I' & S' & Q').
    wp_step. unfold getb at 1. wp_step. wp_step.
    destruct (slot_buf _ _ _ _ _ I' S') as (b & _ & Hb & Hd & _ & (_&_&[(_&Hv&_)|(Hz&_)])).
    + subst b. change (valid (core ?c)) with (valid c) in Hv. rewrite Hv. wp_steps. done.
    + destruct (bi_dev _ _ _ _ I). congruence.
  - assert (Hu : exists i, (i < NBUF)%nat /\ b_refcnt (bc_buf s !!! i) = 0).
    { destruct Hroom as [Hr|HxP]; [by eapply unused_exists|].
      destruct (held_slot H P s x I) as [i Hi]; [set_solver|]. by destruct (Hns i). }
    apply (wp_bget_miss H P s x); [done..|]. intros i e He Hi Hi0.
    assert (Hlen : (i < length (bc_buf s))%nat) by (rewrite (bi_len H P) by done; lia).
    wp_step. unfold getb at 1. wp_step. wp_step. cbn [bc_buf].
    rewrite (alter_total valid), decide_True by done. simpl.
    wp_step. unfold virtio_disk_rw, updb, getb. wp_steps. cbn [io_env bc_lock bc_buf io_disk].
    rewrite !alter_alter. rewrite (alter_total b_blockno), decide_True by done. simpl.
    apply (inv_recycle H P s i x e); try done.
Qed.

(** When every buffer is held or pinned, asking for another block panics. *)
Lemma bget_full_panics H P s x :
  bio_inv H P s -> (forall i, ~ slot s i x) ->
  (forall i, (i < NBUF)%nat -> b_refcnt (bc_buf s !!! i) <> 0) ->
  bread d x s = Panic "bget: no buffers".
Proof.
  intros I Hns Hfull. unfold bread. apply bind_Panic. unfold bget.
  assert (Ha : wp (with_env bcache_lock acquire) (fun _ s1 => bc_buf s1 = bc_buf s) s).
  { apply wp_acquire; [by simpl; rewrite (bi_lock _ _ _ _ I)|]. done. }
  apply wp_Ok in Ha as ([] & s1 & Hs1 & Hb).
  rewrite (bind_Ok _ _ _ _ _ Hs1).
  destruct (scan_cached H P s s1 x I Hb) as ([i|] & Hr & Hspec); [by destruct (Hns i)|].
  destruct (scan_unused H P s s1 I Hb) as ([i|] & Hr2 & Hspec2); [by destruct (Hfull i); tauto|].
  unfold bind at 1, getb at 1, gets at 1. rewrite (bind_Ok _ _ _ _ _ Hr).
  unfold bind at 1, getb at 1, gets at 1. by rewrite (bind_Ok _ _ _ _ _ Hr2).
Qed.
End ops.

(** ** binit

    Booting from any disk image establishes the invariant with no block held
    or pinned, whatever the image holds. *)

Definition boot_bufs : list buf :=
  (map (fun i => set_prev (if decide (i = 29) then head else S i)
                  (set_next (if decide (i = 0) then head else pred i) buf0)) (seq 0 30)
   ++ [set_prev 0 (set_next 29 buf0)])%nat.

Lemma binit_run e dk : binit (bio_boot e dk) = Ok tt (mkBio e initlock boot_bufs dk).
Proof. reflexivity. Qed.

Lemma boot_cores e dk : cores (mkBio e initlock boot_bufs dk) = replicate 31 (core buf0).
Proof. reflexivity. Qed.

Lemma boot_ring e dk : lru_ok (mkBio e initlock boot_bufs dk).
Proof.
  exists (rev (seq 0 NBUF)). split; [symmetry; apply Permutation_rev|].
  unfold ring, nx, pv. cbn [bc_buf]. repeat split.
Qed.

Lemma binit_spec d e dk :
  env_ok e -> d <> 0 -> disk_ok dk ->
  wp binit (fun _ s => bio_inv d ∅ ∅ s /\ io_disk s = dk /\ io_env s = e /\
                       forall x, blk d s x = disk_read dk x) (bio_boot e dk).
Proof.
  intros He Hd Hdk. eapply wp_intro; [apply binit_run|].
  assert (Hun : forall i b, replicate 31 (core buf0) !! i = Some b -> b = core buf0)
    by by intros i b [-> _]%lookup_replicate.
  assert (I : bio_inv d ∅ ∅ (mkBio e initlock boot_bufs dk)).
  { split; try done; [|apply boot_ring]. rewrite boot_cores. split.
    - done.
    - intros i b ->%Hun. split; [apply zero_block_length|].
      split; [apply zero_block_bytes|]. by right.
    - by exists (core buf0).
    - intros i j b c ->%Hun ->%Hun Hb. simpl in Hb. congruence.
    - set_solver. }
  split_and!; try done. intros x. apply (blk_clean d ∅ ∅); [done|set_solver..].
Qed.
