(* ===== verification/BioProps.v ===== *)
(** * The buffer cache as a service

    A client of the cache reads, modifies, writes, pins and releases blocks.
    [Spec] says what it may expect, with no mention of buffers, of the LRU
    list or of locks; the refinement theorem says that bio.c delivers it.  *)

From S2P Require Import Prelude Param Spinlock Sleeplock Bio BioSpec BioOps.

(** A client operation on a block. *)
Inductive cop :=
| CRead (x : Z)               (* bread, then look at the data *)
| CSet (x : Z) (v : block)    (* assign to the data of a held buffer *)
| CWrite (x : Z)              (* bwrite *)
| CRel (x : Z)                (* brelse *)
| CPin (x : Z)                (* bpin *)
| CUnpin (x : Z).             (* bunpin *)

Module Spec.

(** Held blocks, pinned blocks, current contents, contents on disk. *)
Record state := mkState {
  held : gset Z;
  pinned : gset Z;
  now : Z -> block;
  stable : Z -> block
}.

Definition upd (f : Z -> block) (x : Z) (v : block) : Z -> block :=
  fun y => if decide (y = x) then v else f y.

Definition good_block (v : block) : bool :=
  bool_decide (length v = bsize) && forallb (fun b => (0 <=? b) && (b <? 256)) v.

(** [None]: the client breaks the protocol of bio.c's header comment. *)
Definition step (s : state) (o : cop) : option (state * option block) :=
  match o with
  | CRead x =>
      if decide ((x ∉ held s) /\ (size (held s ∪ pinned s) < NBUF)%nat)
      then Some (mkState ({[x]} ∪ held s) (pinned s) (now s) (stable s), Some (now s x))
      else None
  | CSet x v =>
      if bool_decide (x ∈ held s) && good_block v
      then Some (mkState (held s) (pinned s) (upd (now s) x v) (stable s), None)
      else None
  | CWrite x =>
      if decide (x ∈ held s)
      then Some (mkState (held s) (pinned s) (now s) (upd (stable s) x (now s x)), None)
      else None
  | CRel x =>
      if decide (x ∈ held s /\ (x ∈ pinned s \/ now s x = stable s x))
      then Some (mkState (held s ∖ {[x]}) (pinned s) (now s) (stable s), None)
      else None
  | CPin x =>
      if decide (x ∈ held s /\ (x ∉ pinned s))
      then Some (mkState (held s) ({[x]} ∪ pinned s) (now s) (stable s), None)
      else None
  | CUnpin x =>
      if decide (x ∈ held s /\ x ∈ pinned s)
      then Some (mkState (held s) (pinned s ∖ {[x]}) (now s) (stable s), None)
      else None
  end.

Fixpoint run (s : state) (ops : list cop) : option (state * list (option block)) :=
  match ops with
  | [] => Some (s, [])
  | o :: ops' =>
      '(s1, r) ← step s o; '(s2, rs) ← run s1 ops'; Some (s2, r :: rs)
  end.

Definition init (dk : disk) : state := mkState ∅ ∅ (disk_read dk) (disk_read dk).
End Spec.

(** The same client on the real cache; [hs] are its [struct buf] pointers. *)
Definition cexec (d : Z) (hs : gmap Z nat) (o : cop) : M bio (gmap Z nat * option block) :=
  match o with
  | CRead x => i <- bread d x ;; v <- bdata i ;; ret (<[x := i]> hs, Some v)
  | CSet x v => set_bdata (hs !!! x) v ;; ret (hs, None)
  | CWrite x => bwrite (hs !!! x) ;; ret (hs, None)
  | CRel x => brelse (hs !!! x) ;; ret (hs, None)
  | CPin x => bpin (hs !!! x) ;; ret (hs, None)
  | CUnpin x => bunpin (hs !!! x) ;; ret (hs, None)
  end.

Fixpoint crun (d : Z) (hs : gmap Z nat) (ops : list cop) : M bio (list (option block)) :=
  match ops with
  | [] => ret []
  | o :: ops' =>
      r <- cexec d hs o ;;
      rs <- crun d (fst r) ops' ;;
      ret (snd r :: rs)
  end.

(** The simulation relation. *)
Record sim (d : Z) (a : Spec.state) (hs : gmap Z nat) (s : bio) : Prop := {
  sim_inv : bio_inv d (Spec.held a) (Spec.pinned a) s;
  sim_now : forall y, blk d s y = Spec.now a y;
  sim_stable : forall y, disk_read (io_disk s) y = Spec.stable a y;
  sim_hs : forall x, x ∈ Spec.held a -> slot d s (hs !!! x) x
}.

Lemma good_block_spec v : Spec.good_block v = true -> length v = bsize /\ Forall is_byte v.
Proof.
  unfold Spec.good_block. intros [Hl Hb]%andb_true_iff.
  apply bool_decide_eq_true in Hl. split; [done|].
  rewrite List.forallb_forall in Hb. apply List.Forall_forall. intros x Hx.
  specialize (Hb x Hx). unfold is_byte. lia.
Qed.

Lemma sim_quiet d a a' hs s s' H :
  sim d a hs s -> quiet d H s s' -> bio_inv d (Spec.held a') (Spec.pinned a') s' ->
  Spec.held a' ⊆ Spec.held a -> Spec.held a' ⊆ H ->
  Spec.now a' = Spec.now a -> Spec.stable a' = Spec.stable a -> sim d a' hs s'.
Proof.
  intros [I N S Hh] (F & D & B) I' Hsub HsubH Hn Hs. split; [done|..].
  - intros y. by rewrite B, N, Hn.
  - intros y. by rewrite D, S, Hs.
  - intros x Hx. apply F; [set_solver|]. apply Hh. set_solver.
Qed.

Lemma wp_cexec d a hs s o a' r :
  sim d a hs s -> Spec.step a o = Some (a', r) ->
  wp (cexec d hs o) (fun p s' => sim d a' (fst p) s' /\ snd p = r) s.
Proof.
  intros Hsim Hst. pose proof Hsim as [I N S Hh].
  destruct o as [x|x v|x|x|x|x]; simpl in Hst; case_match eqn:Hc; simplify_eq; simpl.
  - destruct_and?. clear Hc. wp_step. eapply wp_mono; [by apply wp_bread; [done..|left]|].
    intros i s1 (I1 & S1 & Q). wp_step. eapply wp_bdata; [done..|]. apply wp_ret. simpl.
    pose proof Q as (F & D & B). split; [|by rewrite B, N].
    split; simpl; [done|by intros y; rewrite B|by intros y; rewrite D|].
    intros y Hy. destruct (decide (y = x)) as [->|Hne]; [by rewrite lookup_total_insert_eq|].
    rewrite lookup_total_insert_ne by done. apply F; [set_solver|]. apply Hh. set_solver.
  - apply andb_true_iff in Hc as [Hx%bool_decide_eq_true Hv%good_block_spec].
    destruct Hv. wp_step. eapply wp_mono; [by eapply wp_set_bdata; eauto|].
    intros [] s1 (I1 & F & D & B). apply wp_ret. split; [|done]. split; simpl; [done| | |].
    + intros y. rewrite B. unfold Spec.upd. by rewrite N.
    + intros y. by rewrite D.
    + intros y Hy. apply F; [set_solver|auto].
  - clear Hc. wp_step. eapply wp_mono; [by eapply wp_bwrite; eauto|].
    intros [] s1 (I1 & F & D & B). apply wp_ret. split; [|done]. split; simpl; [done| | |].
    + intros y. by rewrite B.
    + intros y. rewrite D. unfold Spec.upd. destruct (decide (y = x)) as [->|Hne].
      * by rewrite disk_read_write_eq, N.
      * by rewrite disk_read_write_ne.
    + intros y Hy. apply F; [set_solver|auto].
  - clear Hc. destruct a0 as [Hx Hcl]. wp_step.
    eapply wp_mono; [eapply wp_brelse; [done|by apply Hh|done|by rewrite N, S]|].
    intros [] s1 (I1 & Q). apply wp_ret. split; [|done].
    eapply sim_quiet; [done..| | | |]; simpl; try done; set_solver.
  - clear Hc. destruct a0 as [Hx Hp]. wp_step.
    eapply wp_mono; [by apply wp_bpin; [|apply Hh|]|].
    intros [] s1 (I1 & Q). apply wp_ret. split; [|done].
    eapply sim_quiet; [done..| | | |]; simpl; try done; set_solver.
  - clear Hc. destruct a0 as [Hx Hp]. wp_step.
    eapply wp_mono; [by apply wp_bunpin; [|apply Hh|..]|].
    intros [] s1 (I1 & Q). apply wp_ret. split; [|done].
    eapply sim_quiet; [done..| | | |]; simpl; try done; set_solver.
Qed.

Lemma wp_crun d ops a hs s a' rs :
  sim d a hs s -> Spec.run a ops = Some (a', rs) ->
  wp (crun d hs ops) (fun rs' s' => rs' = rs /\ exists hs', sim d a' hs' s') s.
Proof.
  revert a hs s rs. induction ops as [|o ops IH]; intros a hs s rs Hsim Hr; simpl in Hr.
  - simplify_eq. apply wp_ret. eauto.
  - destruct (Spec.step a o) as [[a1 r]|] eqn:E1; simplify_eq/=.
    destruct (Spec.run a1 ops) as [[a2 rs2]|] eqn:E2; simplify_eq/=.
    wp_step. eapply wp_mono; [by eapply wp_cexec|]. intros [hs1 r'] s1 [Hs1 ->].
    wp_step. eapply wp_mono; [by eapply IH|]. intros rs' s2 [-> Hs2]. apply wp_ret. by split.
Qed.

(** C2: the cache implements its specification.  Boot the cache over any disk
    image, and run any sequence of client operations that keeps to the
    protocol (hold at most once, keep a buffer free, release clean or pinned).
    None of them panics, sleeps or diverges, every [bread] returns the latest
    contents of its block, and in the end the disk and the blocks are those of
    the specification: recycling a buffer never loses or mixes up data. *)
Theorem cache_refines_spec d e dk ops a' rs :
  env_ok e -> d <> 0 -> disk_ok dk ->
  Spec.run (Spec.init dk) ops = Some (a', rs) ->
  exists s', (binit ;; crun d ∅ ops) (bio_boot e dk) = Ok rs s' /\
    (forall y, blk d s' y = Spec.now a' y) /\
    (forall y, disk_read (io_disk s') y = Spec.stable a' y) /\
    bio_inv d (Spec.held a') (Spec.pinned a') s'.
Proof.
  intros He Hd Hok Hr.
  enough (wp (binit ;; crun d ∅ ops) (fun rs' s' => rs' = rs /\ exists hs', sim d a' hs' s')
            (bio_boot e dk)) as Hw.
  { apply wp_Ok in Hw as (rs' & s' & Hrun & -> & hs' & [I N S _]). eauto. }
  wp_step. eapply wp_mono; [by apply (binit_spec d)|]. intros [] s (I & D & _ & B).
  eapply wp_crun; [|done]. split; simpl; [done|done|by rewrite D|set_solver].
Qed.

Lemma cache_refines_spec_witness :
  exists s', (binit ;; crun 1 ∅ [CRead 7; CSet 7 zero_block; CWrite 7; CRel 7; CRead 9])
    (bio_boot (mkKenv 0 0 false true 1 false [] []) []) =
    Ok [Some zero_block; None; None; None; Some zero_block] s'.
Proof.
  destruct (Spec.run (Spec.init []) [CRead 7; CSet 7 zero_block; CWrite 7; CRel 7; CRead 9])
    as [[a' rs]|] eqn:E; [|by vm_compute in E].
  assert (rs = [Some zero_block; None; None; None; Some zero_block]) as ->
    by (vm_compute in E; by injection E).
  destruct (cache_refines_spec 1 (mkKenv 0 0 false true 1 false [] []) []
    [CRead 7; CSet 7 zero_block; CWrite 7; CRel 7; CRead 9] a'
    [Some zero_block; None; None; None; Some zero_block]) as (s' & Hs & _);
    [split; simpl; lia|lia|constructor|exact E|].
  by exists s'.
Defined.
