(* ===== verification/Log.v ===== *)
(** * The write-ahead log (kernel/log.c)

    The in-memory [struct log] over the buffer cache.  The on-disk log is a
    header block at [log.start] (a count and that many home block numbers,
    as little-endian 32-bit integers) followed by the logged blocks.  *)

From S2P Require Import Prelude Param Spinlock Sleeplock Bio BioSpec BioOps.

(** struct superblock (kernel/fs.h). *)
Record superblock := mkSb {
  sb_magic : Z;        (* Must be FSMAGIC *)
  sb_size : Z;         (* Size of file system image (blocks) *)
  sb_nblocks : Z;      (* Number of data blocks *)
  sb_ninodes : Z;      (* Number of inodes. *)
  sb_nlog : Z;         (* Number of log blocks *)
  sb_logstart : Z;     (* Block number of first log block *)
  sb_inodestart : Z;   (* Block number of first inode block *)
  sb_bmapstart : Z     (* Block number of first free map block *)
}.

(** struct log, with its struct logheader inlined. *)
Record logst := mkLog {
  lg_bio : bio;
  lg_lock : spinlock;
  lg_start : Z;
  lg_outstanding : Z;  (* how many FS sys calls are executing. *)
  lg_committing : bool;  (* in commit(), please wait. *)
  lg_dev : Z;
  lh_n : Z;
  lh_block : list Z    (* LOGBLOCKS entries *)
}.

Definition set_bio b s := mkLog b (lg_lock s) (lg_start s) (lg_outstanding s) (lg_committing s) (lg_dev s) (lh_n s) (lh_block s).
Definition set_lglock l s := mkLog (lg_bio s) l (lg_start s) (lg_outstanding s) (lg_committing s) (lg_dev s) (lh_n s) (lh_block s).
Definition set_start v s := mkLog (lg_bio s) (lg_lock s) v (lg_outstanding s) (lg_committing s) (lg_dev s) (lh_n s) (lh_block s).
Definition set_outstanding v s := mkLog (lg_bio s) (lg_lock s) (lg_start s) v (lg_committing s) (lg_dev s) (lh_n s) (lh_block s).
Definition set_committing v s := mkLog (lg_bio s) (lg_lock s) (lg_start s) (lg_outstanding s) v (lg_dev s) (lh_n s) (lh_block s).
Definition set_lgdev v s := mkLog (lg_bio s) (lg_lock s) (lg_start s) (lg_outstanding s) (lg_committing s) v (lh_n s) (lh_block s).
Definition set_n v s := mkLog (lg_bio s) (lg_lock s) (lg_start s) (lg_outstanding s) (lg_committing s) (lg_dev s) v (lh_block s).
Definition set_blocks v s := mkLog (lg_bio s) (lg_lock s) (lg_start s) (lg_outstanding s) (lg_committing s) (lg_dev s) (lh_n s) v.

Definition bio_l : lens logst bio := mkLens lg_bio set_bio.
Definition lift {A} : M bio A -> M logst A := zoom bio_l.
#[export] Instance HasEnv_log : HasEnv logst :=
  mkLens (fun s => io_env (lg_bio s)) (fun e s => set_bio (lset env_of e (lg_bio s)) s).
Definition log_lock : lens logst spinlock := mkLens lg_lock set_lglock.
Definition log_chan : chan := ("log", 0).

(** [log.lh.block[i]], and an assignment to it.  An index past the array is
    undefined behaviour in C. *)
Definition get_block (i : Z) : M logst Z := gets (fun s => lh_block s !!! Z.to_nat i).
Definition put_block (i v : Z) : M logst unit :=
  if (0 <=? i) && (i <? LOGBLOCKS)
  then modify (fun s => set_blocks (<[Z.to_nat i := v]> (lh_block s)) s)
  else panic "undefined: log.lh.block".

(** 32-bit words of a block seen as an array of ints. *)
Definition word_at (k : Z) (data : block) : Z :=
  s32 (le_decode (slice (4 * Z.to_nat k) 4 data)).
Definition put_word (k v : Z) (data : block) : block :=
  splice (4 * Z.to_nat k) (le_encode 4 v) data.

(** [memmove(to->data, from->data, BSIZE)]. *)
Definition bcopy (dst src : nat) : M bio unit := v <- bdata src ;; set_bdata dst v.

(** One turn of the loop of [install_trans]. *)
Definition install_one (recovering : bool) (tail : Z) : M logst unit :=
  (when recovering do
     (dst <- get_block tail ;; in_env (printf "recovering tail %d dst %d" [tail; dst]))) ;;
  dev <- gets lg_dev ;;
  start <- gets lg_start ;;
  lbuf <- lift (bread (u32 dev) (u32 (start + tail + 1))) ;;
  dst <- get_block tail ;;
  dbuf <- lift (bread (u32 dev) (u32 dst)) ;;
  lift (bcopy dbuf lbuf) ;;
  lift (bwrite dbuf) ;;
  (when (negb recovering) do lift (bunpin dbuf)) ;;
  lift (brelse lbuf) ;;
  lift (brelse dbuf).

Definition install_trans (recovering : bool) : M logst unit :=
  n <- gets lh_n ;;
  for_each (seqZ 0 n) (install_one recovering).

Definition read_head : M logst unit :=
  dev <- gets lg_dev ;;
  start <- gets lg_start ;;
  buf <- lift (bread (u32 dev) (u32 start)) ;;
  lh <- lift (bdata buf) ;;
  modify (set_n (word_at 0 lh)) ;;
  n <- gets lh_n ;;
  for_each (seqZ 0 n) (fun i =>
    lh <- lift (bdata buf) ;;
    put_block i (word_at (i + 1) lh)) ;;
  lift (brelse buf).

Definition write_head : M logst unit :=
  dev <- gets lg_dev ;;
  start <- gets lg_start ;;
  buf <- lift (bread (u32 dev) (u32 start)) ;;
  n <- gets lh_n ;;
  hb <- lift (bdata buf) ;;
  lift (set_bdata buf (put_word 0 n hb)) ;;
  for_each (seqZ 0 n) (fun i =>
    b <- get_block i ;;
    hb <- lift (bdata buf) ;;
    lift (set_bdata buf (put_word (i + 1) b hb))) ;;
  lift (bwrite buf) ;;
  lift (brelse buf).

Definition recover_from_log : M logst unit :=
  read_head ;;
  install_trans true ;;
  modify (set_n 0) ;;
  write_head.

Definition sizeof_logheader : Z := 4 + 4 * LOGBLOCKS.

Definition initlog (dev : Z) (sb : superblock) : M logst unit :=
  if BSIZE <=? sizeof_logheader then panic "initlog: too big logheader" else
  modify (set_lglock initlock) ;;
  modify (set_start (s32 (sb_logstart sb))) ;;
  modify (set_lgdev dev) ;;
  recover_from_log.

(** Called at the start of each FS system call; one turn of its loop either
    admits the operation or puts the caller to sleep on [&log] with the lock
    released. *)
Definition begin_op : M logst unit :=
  with_env log_lock acquire ;;
  s <- get ;;
  if lg_committing s then
    with_env log_lock release ;; block_on log_chan
  else if LOGBLOCKS <? lh_n s + (lg_outstanding s + 1) * MAXOPBLOCKS then
    with_env log_lock release ;; block_on log_chan
  else
    modify (fun s => set_outstanding (lg_outstanding s + 1) s) ;;
    with_env log_lock release.

(** One turn of the loop of [write_log]. *)
Definition write_log_one (tail : Z) : M logst unit :=
  dev <- gets lg_dev ;;
  start <- gets lg_start ;;
  to <- lift (bread (u32 dev) (u32 (start + tail + 1))) ;;
  src <- get_block tail ;;
  from <- lift (bread (u32 dev) (u32 src)) ;;
  lift (bcopy to from) ;;
  lift (bwrite to) ;;
  lift (brelse from) ;;
  lift (brelse to).

Definition write_log : M logst unit :=
  n <- gets lh_n ;;
  for_each (seqZ 0 n) write_log_one.

Definition commit : M logst unit :=
  n <- gets lh_n ;;
  when (0 <? n) do
    (write_log ;;
     write_head ;;
     install_trans false ;;
     modify (set_n 0) ;;
     write_head).

Definition end_op : M logst unit :=
  with_env log_lock acquire ;;
  modify (fun s => set_outstanding (lg_outstanding s - 1) s) ;;
  c <- gets lg_committing ;;
  if c : bool then panic "log.committing" else
  o <- gets lg_outstanding ;;
  do_commit <- (if o =? 0
                then modify (set_committing true) ;; ret true
                else in_env (wakeup log_chan) ;; ret false) ;;
  with_env log_lock release ;;
  when (do_commit : bool) do
    (commit ;;
     with_env log_lock acquire ;;
     modify (set_committing false) ;;
     in_env (wakeup log_chan) ;;
     with_env log_lock release).

(** The scan of [log_write]: the index of [blockno] in the first [n] entries,
    or [n]. *)
Fixpoint log_index (blockno : Z) (bl : list Z) : nat :=
  match bl with
  | [] => 0
  | b :: bl' => if u32 b =? blockno then 0 else S (log_index blockno bl')
  end.

Definition log_write (b : nat) : M logst unit :=
  with_env log_lock acquire ;;
  n <- gets lh_n ;;
  if LOGBLOCKS <=? n then panic "too big a transaction" else
  o <- gets lg_outstanding ;;
  if o <? 1 then panic "log_write outside of trans" else
  x <- lift (getb b) ;;
  bl <- gets lh_block ;;
  let i := Z.of_nat (log_index (b_blockno x) (take (Z.to_nat n) bl)) in
  put_block i (s32 (b_blockno x)) ;;
  (when (i =? n) do
     (lift (bpin b) ;; modify (fun s => set_n (lh_n s + 1) s))) ;;
  with_env log_lock release.

(** The log's state at boot, over a machine whose disk is [d]. *)
Definition log_boot (e : kenv) (d : disk) : logst :=
  mkLog (bio_boot e d) initlock 0 0 false 0 0 (replicate (Z.to_nat LOGBLOCKS) 0).
