(* ===== verification/LogDisk.v ===== *)
(** * The log as a data structure on disk

    What a disk image means: [logical st h y] is the contents of block [y]
    once the log at [st] has been replayed.  A crash cuts the history of
    writes, so the facts here are about suffixes of a history.  *)

From S2P Require Import Prelude Param Log.

(** ** Header words *)

Lemma word_at_put k v data :
  0 <= k -> 4 * k + 4 <= BSIZE -> length data = bsize -> - 2 ^ 31 <= v < 2 ^ 31 ->
  word_at k (put_word k v data) = v.
Proof.
  intros Hk Hb Hl Hv. unfold word_at, put_word.
  replace 4%nat with (length (le_encode 4 v)) at 2 by apply le_encode_length.
  rewrite slice_splice_eq.
  - rewrite le_decode_encode. unfold s32, swrap.
    change (8 * Z.of_nat 4) with 32. change (32 - 1) with 31.
    rewrite Z.add_mod_idemp_l by lia. rewrite Z.mod_small; lia.
  - rewrite le_encode_length, Hl. unfold bsize, BSIZE in *. lia.
Qed.

Lemma word_at_put_ne k k' v data :
  0 <= k -> 0 <= k' -> k <> k' -> word_at k (put_word k' v data) = word_at k data.
Proof.
  intros. unfold word_at, put_word. rewrite slice_splice_ne; [done|].
  rewrite le_encode_length. lia.
Qed.

Lemma put_word_length k v data : length (put_word k v data) = length data.
Proof. apply splice_length. Qed.

Lemma put_word_bytes k v data : Forall is_byte data -> Forall is_byte (put_word k v data).
Proof. intros. apply splice_Forall; [apply le_encode_bytes|done]. Qed.

#[global] Opaque put_word word_at.

(** ** Meaning of a log image *)

(** [hdr] is a header listing the home blocks [bl]. *)
Definition head_is (hdr : block) (bl : list Z) : Prop :=
  word_at 0 hdr = Z.of_nat (length bl) /\
  forall k x, bl !! k = Some x -> word_at (Z.of_nat k + 1) hdr = x.

Definition head_blocks (hdr : block) : list Z :=
  (fun i => word_at (i + 1) hdr) <$> seqZ 0 (word_at 0 hdr).

Lemma head_blocks_is hdr bl : head_is hdr bl -> head_blocks hdr = bl.
Proof.
  intros [H0 H]. apply list_eq. intros k. unfold head_blocks.
  rewrite list_lookup_fmap, H0.
  destruct (decide (k < length bl)%nat) as [Hk|Hk].
  - rewrite lookup_seqZ_lt by lia. simpl.
    destruct (lookup_lt_is_Some_2 bl k Hk) as [x Hx].
    rewrite Hx. f_equal. by apply H.
  - rewrite lookup_seqZ_ge by lia. by rewrite lookup_ge_None_2 by lia.
Qed.

(** The position of a block among the logged ones. *)
Definition index_of (y : Z) (bl : list Z) : option nat := fst <$> list_find (y =.) bl.

Definition logical (st : Z) (h : disk) (y : Z) : block :=
  match index_of y (head_blocks (disk_read h st)) with
  | Some k => disk_read h (st + 1 + Z.of_nat k)
  | None => disk_read h y
  end.

Lemma index_of_None y bl : (y ∉ bl) -> index_of y bl = None.
Proof.
  intros Hy. unfold index_of. destruct (list_find (y =.) bl) as [[k x]|] eqn:E; [|done].
  apply list_find_Some in E as (E & -> & _). by apply list_elem_of_lookup_2 in E.
Qed.

Lemma index_of_Some k y bl : NoDup bl -> bl !! k = Some y -> index_of y bl = Some k.
Proof.
  intros Hnd Hk. unfold index_of. destruct (list_find (y =.) bl) as [[j x]|] eqn:E.
  - apply list_find_Some in E as (E & -> & _). simpl. f_equal.
    by eapply NoDup_lookup.
  - apply list_find_None in E. rewrite Forall_lookup in E. by destruct (E k y Hk).
Qed.

(** ** Reading through a history *)

Lemma disk_read_cons_eq b data (h : disk) : disk_read ((b, data) :: h) b = data.
Proof. apply disk_read_write_eq. Qed.

Lemma disk_read_cons_ne b b' data (h : disk) :
  b <> b' -> disk_read ((b, data) :: h) b' = disk_read h b'.
Proof. apply disk_read_write_ne. Qed.

Lemma disk_read_skip (W : disk) h y :
  Forall (fun w => fst w <> y) W -> disk_read (W ++ h) y = disk_read h y.
Proof.
  induction 1 as [|[x v] W Hx _ IH]; [done|]. simpl in *.
  by rewrite (proj2 (Z.eqb_neq x y)).
Qed.

Lemma disk_read_hit (W : disk) h y v :
  NoDup (fst <$> W) -> (y, v) ∈ W -> disk_read (W ++ h) y = v.
Proof.
  induction W as [|[x w] W IH]; intros Hnd Hin; [by apply not_elem_of_nil in Hin|].
  apply NoDup_cons in Hnd as [Hx Hnd]. apply elem_of_cons in Hin as [[= <- <-]|Hin]; simpl.
  - by rewrite Z.eqb_refl.
  - rewrite (proj2 (Z.eqb_neq x y)); [by apply IH|].
    intros ->. apply Hx. exact (list_elem_of_fmap_2 fst W (y, v) Hin).
Qed.

Lemma disk_ok_app W h : disk_ok (W ++ h) <-> disk_ok W /\ disk_ok h.
Proof. apply Forall_app. Qed.

(** A crash cuts the history [W ++ h] inside or before [W]. *)
Lemma suffix_between (h W c : disk) :
  h `suffix_of` c -> c `suffix_of` (W ++ h) -> exists W', W' `suffix_of` W /\ c = W' ++ h.
Proof.
  intros [k ->] [j Hj]. exists k. split; [|done]. exists j.
  rewrite app_assoc in Hj. by apply app_inv_tail in Hj.
Qed.

Lemma suffix_Forall {A} (Q : A -> Prop) (l k : list A) :
  l `suffix_of` k -> Forall Q k -> Forall Q l.
Proof. intros [j ->] [_ H]%Forall_app. done. Qed.

Lemma suffix_cons_or (c : disk) w h :
  c `suffix_of` (w :: h) -> c = w :: h \/ c `suffix_of` h.
Proof. intros [[|a k] Hk]; simplify_eq/=; [by left|right; by exists k]. Qed.

Lemma suffix_app_or (c W h : disk) :
  c `suffix_of` (W ++ h) -> (exists W', W' `suffix_of` W /\ c = W' ++ h) \/ c `suffix_of` h.
Proof.
  induction W as [|w W IH]; simpl; [by right|].
  intros [->|Hc]%suffix_cons_or.
  - left. by exists (w :: W).
  - destruct (IH Hc) as [(W' & HW & ->)|]; [left|by right].
    exists W'. split; [by apply suffix_cons_r|done].
Qed.

(** ** Crash states *)

Section crash.
Context (st : Z).
Implicit Types (h W : disk) (bl : list Z) (v : Z -> block).

(** The log area: the header block and [LOGBLOCKS] data blocks. *)
Definition in_log (y : Z) : Prop := st <= y <= st + LOGBLOCKS.
Definition home (y : Z) : Prop := 0 <= y < 2 ^ 31 /\ ~ in_log y.

(** Block lists a transaction may have. *)
Definition loggable (bl : list Z) : Prop :=
  NoDup bl /\ Forall home bl /\ Z.of_nat (length bl) <= LOGBLOCKS.

(** [h] is a disk image whose log holds the blocks [bl]. *)
Definition log_holds (h : disk) (bl : list Z) : Prop :=
  disk_ok h /\ head_is (disk_read h st) bl /\ loggable bl.

(** Agreement outside the log area. *)
Definition same_home (v w : Z -> block) : Prop := forall y, home y -> v y = w y.

#[export] Instance same_home_equiv : Equivalence same_home.
Proof.
  split; unfold same_home.
  - done.
  - intros v w H y Hy. by rewrite H.
  - intros u v w H1 H2 y Hy. by rewrite H1, H2.
Qed.

Lemma loggable_nil : loggable [].
Proof. split_and!; [constructor..|]. unfold LOGBLOCKS, MAXOPBLOCKS. simpl. lia. Qed.

Lemma log_data_in bl k x : loggable bl -> bl !! k = Some x -> in_log (st + 1 + Z.of_nat k).
Proof. intros (_ & _ & Hl) Hk%lookup_lt_Some. unfold in_log. lia. Qed.

Lemma loggable_home bl x : loggable bl -> x ∈ bl -> home x.
Proof. intros (_ & Hh & _) Hx. rewrite Forall_forall in Hh. auto. Qed.

Lemma home_not_log y z : home y -> in_log z -> y <> z.
Proof. intros [_ Hy] Hz ->. done. Qed.

Lemma st_in_log : in_log st.
Proof. unfold in_log, LOGBLOCKS, MAXOPBLOCKS. lia. Qed.

Lemma logical_in h bl k y :
  log_holds h bl -> bl !! k = Some y -> logical st h y = disk_read h (st + 1 + Z.of_nat k).
Proof.
  intros (_ & Hh & Hl) Hk. unfold logical. rewrite (head_blocks_is _ bl) by done.
  rewrite (index_of_Some k) by (done || apply Hl). done.
Qed.

Lemma logical_out h bl y :
  log_holds h bl -> (y ∉ bl) -> logical st h y = disk_read h y.
Proof.
  intros (_ & Hh & Hl) Hy. unfold logical. rewrite (head_blocks_is _ bl) by done.
  by rewrite index_of_None.
Qed.

Lemma logical_empty h y : log_holds h [] -> logical st h y = disk_read h y.
Proof. intros H. eapply logical_out; [done|apply not_elem_of_nil]. Qed.

(** Two images with the same log list and the same relevant blocks. *)
Lemma logical_ext h h' bl :
  log_holds h bl -> log_holds h' bl ->
  (forall k x, bl !! k = Some x ->
     disk_read h' (st + 1 + Z.of_nat k) = disk_read h (st + 1 + Z.of_nat k)) ->
  (forall y, home y -> (y ∉ bl) -> disk_read h' y = disk_read h y) ->
  same_home (logical st h') (logical st h).
Proof.
  intros H H' Hin Hout y Hy. destruct (decide (y ∈ bl)) as [Hb|Hb].
  - apply list_elem_of_lookup_1 in Hb as [k Hk].
    rewrite !(logical_in _ bl k y) by done. eauto.
  - rewrite !(logical_out _ bl y) by done. auto.
Qed.

(** Writes to the data blocks of an empty log change nothing. *)
Lemma crash_logging h W :
  log_holds h [] -> disk_ok W -> Forall (fun w => in_log (fst w) /\ fst w <> st) W ->
  log_holds (W ++ h) [] /\ same_home (logical st (W ++ h)) (logical st h).
Proof.
  intros H HW Hin.
  assert (forall y, ~ in_log y \/ y = st -> disk_read (W ++ h) y = disk_read h y) as Hrd.
  { intros y Hy. apply disk_read_skip. eapply Forall_impl; [done|]. simpl.
    intros w [Hw1 Hw2] E. destruct Hy as [Hy| ->]; [by rewrite E in Hw1|done]. }
  assert (log_holds (W ++ h) []) as H'.
  { destruct H as (Hd & Hh & Hl). split_and!; [by apply disk_ok_app| |done..].
    by rewrite Hrd by auto. }
  split; [done|]. apply (logical_ext _ _ []); [done..|].
  intros y [_ Hy] _. apply Hrd. auto.
Qed.

(** Writes to home blocks that the log holds change nothing. *)
Lemma crash_installing h W bl :
  log_holds h bl -> disk_ok W -> Forall (fun w => fst w ∈ bl) W ->
  log_holds (W ++ h) bl /\ same_home (logical st (W ++ h)) (logical st h).
Proof.
  intros H HW Hin.
  assert (forall y, (y ∉ bl) -> disk_read (W ++ h) y = disk_read h y) as Hrd.
  { intros y Hy. apply disk_read_skip. eapply Forall_impl; [done|]. simpl. by intros w Hw <-. }
  assert (forall y, in_log y -> (y ∉ bl)) as Hout.
  { intros y Hy Hb. destruct H as (_ & _ & Hl). by eapply loggable_home in Hb as [_ ?]. }
  assert (log_holds (W ++ h) bl) as H'.
  { destruct H as (Hd & Hh & Hl). split_and!; [by apply disk_ok_app| |apply Hl..].
    rewrite Hrd; [done|]. apply Hout, st_in_log. }
  split; [done|]. apply (logical_ext _ _ bl); [done..| |auto].
  intros k x Hk. apply Hrd, Hout. eapply log_data_in; [apply H|done].
Qed.

(** The writes of [write_log] and of [install_trans], newest first. *)
Definition log_writes (v : Z -> block) (bl : list Z) : disk :=
  reverse (imap (fun k x => (st + 1 + Z.of_nat k, v x)) bl).
Definition home_writes (g : nat -> block) (bl : list Z) : disk :=
  reverse (imap (fun k x => (x, g k)) bl).

Lemma log_writes_snoc v bl x :
  log_writes v (bl ++ [x]) = (st + 1 + Z.of_nat (length bl), v x) :: log_writes v bl.
Proof. unfold log_writes. rewrite imap_app. simpl. by rewrite reverse_app, Nat.add_0_r. Qed.

Lemma home_writes_snoc g bl x :
  home_writes g (bl ++ [x]) = (x, g (length bl)) :: home_writes g bl.
Proof. unfold home_writes. rewrite imap_app. simpl. by rewrite reverse_app, Nat.add_0_r. Qed.

Lemma imap_fst {A} (g : nat -> A) bl : fst <$> imap (fun k x => (x, g k)) bl = bl.
Proof.
  apply list_eq. intros i. rewrite list_lookup_fmap, list_lookup_imap.
  by destruct (bl !! i).
Qed.

Lemma home_writes_fst g bl : fst <$> home_writes g bl = reverse bl.
Proof. unfold home_writes. by rewrite fmap_reverse, imap_fst. Qed.

Lemma home_writes_ext g g' bl :
  (forall k x, bl !! k = Some x -> g k = g' k) -> home_writes g bl = home_writes g' bl.
Proof.
  intros Hg. unfold home_writes. f_equal. apply imap_ext. intros k x Hk. simpl.
  f_equal. eauto.
Qed.

Lemma log_writes_keys v bl :
  Z.of_nat (length bl) <= LOGBLOCKS ->
  Forall (fun w => in_log (fst w) /\ fst w <> st) (log_writes v bl).
Proof.
  intros Hl. unfold log_writes. rewrite Forall_reverse, Forall_lookup.
  intros k w Hw. rewrite list_lookup_imap in Hw.
  destruct (bl !! k) eqn:E; simplify_eq/=. apply lookup_lt_Some in E.
  unfold in_log. lia.
Qed.

Lemma home_writes_keys g bl : Forall (fun w => fst w ∈ bl) (home_writes g bl).
Proof.
  apply (Forall_fmap fst (fun x => x ∈ bl)). rewrite home_writes_fst.
  rewrite Forall_reverse, Forall_forall. done.
Qed.

Lemma read_home_writes g bl h k y :
  NoDup bl -> bl !! k = Some y -> disk_read (home_writes g bl ++ h) y = g k.
Proof.
  intros Hnd Hk. apply disk_read_hit.
  - by rewrite home_writes_fst, reverse_Permutation.
  - unfold home_writes. rewrite elem_of_reverse.
    apply (list_elem_of_lookup_2 _ k). by rewrite list_lookup_imap, Hk.
Qed.

Lemma read_log_writes v bl h k y :
  bl !! k = Some y -> disk_read (log_writes v bl ++ h) (st + 1 + Z.of_nat k) = v y.
Proof.
  intros Hk. apply disk_read_hit.
  - unfold log_writes. rewrite fmap_reverse, reverse_Permutation.
    apply NoDup_alt. intros i j a. rewrite !list_lookup_fmap, !list_lookup_imap.
    destruct (bl !! i), (bl !! j); intros; simplify_eq/=. lia.
  - unfold log_writes. rewrite elem_of_reverse.
    apply (list_elem_of_lookup_2 _ k). by rewrite list_lookup_imap, Hk.
Qed.

(** Clearing the header once every logged block is at home. *)
Lemma crash_installed h bl g hdr :
  log_holds h bl -> (forall k x, bl !! k = Some x -> g k = disk_read h (st + 1 + Z.of_nat k)) ->
  disk_ok ((st, hdr) :: home_writes g bl) -> head_is hdr [] ->
  let h' := (st, hdr) :: home_writes g bl ++ h in
  log_holds h' [] /\ same_home (disk_read h') (logical st h).
Proof.
  intros H Hg HW Hhdr h'. split.
  - split_and!; [|unfold h'; by rewrite disk_read_cons_eq|apply loggable_nil].
    apply (disk_ok_app (_ :: _)). split; [done|apply H].
  - intros y Hy. unfold h'.
    rewrite disk_read_cons_ne by (intros <-; by destruct (home_not_log st st Hy st_in_log)).
    destruct (decide (y ∈ bl)) as [Hb|Hb].
    + apply list_elem_of_lookup_1 in Hb as [k Hk].
      rewrite (read_home_writes _ _ _ k), (logical_in _ bl k) by (done || apply H). eauto.
    + rewrite (logical_out _ bl) by done. apply disk_read_skip.
      eapply Forall_impl; [apply home_writes_keys|]. simpl. by intros w Hw <-.
Qed.

(** The commit point: writing the header makes the logged contents current. *)
Lemma crash_committed h bl v hdr :
  log_holds h [] -> loggable bl -> disk_ok ((st, hdr) :: log_writes v bl) -> head_is hdr bl ->
  (forall y, home y -> (y ∉ bl) -> v y = disk_read h y) ->
  let h' := (st, hdr) :: log_writes v bl ++ h in
  log_holds h' bl /\ same_home (logical st h') v.
Proof.
  intros H Hl HW Hhdr Hv h'.
  assert (log_holds h' bl) as H'.
  { split_and!; [|unfold h'; by rewrite disk_read_cons_eq|apply Hl..].
    apply (disk_ok_app (_ :: _)). split; [done|apply H]. }
  split; [done|]. intros y Hy. destruct (decide (y ∈ bl)) as [Hb|Hb].
  - apply list_elem_of_lookup_1 in Hb as [k Hk].
    rewrite (logical_in _ bl k) by done. unfold h'.
    rewrite disk_read_cons_ne by lia. by apply read_log_writes.
  - rewrite (logical_out _ bl), Hv by done. unfold h'.
    rewrite disk_read_cons_ne by (intros <-; by destruct (home_not_log st st Hy st_in_log)).
    apply disk_read_skip.
    eapply Forall_impl; [apply log_writes_keys, Hl|]. simpl.
    intros w [Hw _] E. by destruct (home_not_log y (fst w) Hy Hw).
Qed.

(** ** The two disk traces

    [commit_trace] is everything a commit writes, [recover_trace] everything
    recovery writes; both are cut by a crash at an arbitrary point. *)

Definition commit_trace (v : Z -> block) (bl : list Z) (hd1 hd0 : block) : disk :=
  (st, hd0) :: home_writes (fun k => v (bl !!! k)) bl ++ (st, hd1) :: log_writes v bl.

Definition recover_trace (h : disk) (bl : list Z) (hd0 : block) : disk :=
  (st, hd0) :: home_writes (fun k => disk_read h (st + 1 + Z.of_nat k)) bl.

(** A complete recovery leaves an empty log and the logical contents at
    home. *)
Lemma recover_done h bl hd0 :
  log_holds h bl -> disk_ok (recover_trace h bl hd0) -> head_is hd0 [] ->
  log_holds (recover_trace h bl hd0 ++ h) [] /\
  same_home (disk_read (recover_trace h bl hd0 ++ h)) (logical st h).
Proof.
  intros. by apply (crash_installed h bl (fun k => disk_read h (st + 1 + Z.of_nat k)) hd0).
Qed.

(** A complete commit: the header write makes [v] current, and it is at home
    with an empty log in the end. *)
Lemma commit_done h bl v hd1 hd0 :
  log_holds h [] -> loggable bl -> disk_ok (commit_trace v bl hd1 hd0) ->
  head_is hd1 bl -> head_is hd0 [] ->
  (forall y, home y -> (y ∉ bl) -> v y = disk_read h y) ->
  let g := (st, hd1) :: log_writes v bl ++ h in
  (log_holds g bl /\ same_home (logical st g) v) /\
  (log_holds (commit_trace v bl hd1 hd0 ++ h) [] /\
   same_home (disk_read (commit_trace v bl hd1 hd0 ++ h)) v).
Proof.
  intros H Hl Hok Hh1 Hh0 Hv g. unfold commit_trace in *.
  change ((st, hd0) :: ?W ++ ?V) with (((st, hd0) :: W) ++ V) in *.
  apply disk_ok_app in Hok as [Hok2 Hok1]. rewrite <- app_assoc.
  change (((st, hd1) :: log_writes v bl) ++ h) with g.
  destruct (crash_committed h bl v hd1) as [Hg Hgv]; [done..|]. fold g in Hg, Hgv.
  split; [done|].
  destruct (crash_installed g bl (fun k => v (bl !!! k)) hd0) as [Hl' Hs]; [done| |done..|].
  - intros k x Hk. rewrite (list_lookup_total_correct _ _ _ Hk). unfold g.
    rewrite disk_read_cons_ne by lia. by rewrite (read_log_writes _ _ _ _ x).
  - split; [done|]. intros y Hy. by rewrite <- Hgv, <- Hs.
Qed.

Lemma recover_crash h bl hd0 c :
  log_holds h bl -> disk_ok (recover_trace h bl hd0) -> head_is hd0 [] ->
  h `suffix_of` c -> c `suffix_of` (recover_trace h bl hd0 ++ h) ->
  (exists bl', log_holds c bl') /\ same_home (logical st c) (logical st h).
Proof.
  intros H Hok Hh0 Hc1 Hc2.
  destruct (suffix_between _ _ _ Hc1 Hc2) as (W' & HW & ->).
  apply suffix_cons_or in HW as [->|HW].
  - destruct (recover_done h bl hd0) as [Hl Hs]; [done..|].
    split; [by exists []|]. intros y Hy. rewrite <- Hs by done. by apply logical_empty.
  - destruct (crash_installing h W' bl) as [Hl Hs]; [done| | |by eauto].
    + inversion Hok. by eapply suffix_Forall.
    + eapply suffix_Forall; [done|apply home_writes_keys].
Qed.

Lemma commit_crash h bl v hd1 hd0 c :
  log_holds h [] -> loggable bl -> disk_ok (commit_trace v bl hd1 hd0) ->
  head_is hd1 bl -> head_is hd0 [] ->
  (forall y, home y -> (y ∉ bl) -> v y = disk_read h y) ->
  h `suffix_of` c -> c `suffix_of` (commit_trace v bl hd1 hd0 ++ h) ->
  (exists bl', log_holds c bl') /\
  (same_home (logical st c) (logical st h) \/ same_home (logical st c) v).
Proof.
  intros H Hl Hok Hh1 Hh0 Hv Hc1 Hc2.
  destruct (commit_done h bl v hd1 hd0) as [[Hg Hgv] [Hd Hdv]]; [done..|].
  unfold commit_trace in *. change ((st, hd0) :: ?W ++ ?V) with (((st, hd0) :: W) ++ V) in *.
  apply disk_ok_app in Hok as [Hok2 Hok1]. rewrite <- app_assoc in Hc2, Hd, Hdv.
  set (g := (st, hd1) :: log_writes v bl ++ h) in *.
  change (((st, hd1) :: log_writes v bl) ++ h) with g in *.
  destruct (suffix_app_or c _ g Hc2) as [(W' & HW & ->)|Hc].
  - apply suffix_cons_or in HW as [->|HW].
    + split; [by exists []|right]. intros y Hy. rewrite <- Hdv by done. by apply logical_empty.
    + destruct (crash_installing g W' bl) as [Hl' Hs]; [done| | |].
      * inversion Hok2. by eapply suffix_Forall.
      * eapply suffix_Forall; [done|apply home_writes_keys].
      * split; [by eauto|right]. by rewrite Hs.
  - apply suffix_cons_or in Hc as [->|Hc]; [split; [by eauto|by right]|].
    destruct (suffix_between _ _ _ Hc1 Hc) as (W' & HW & ->).
    destruct (crash_logging h W') as [Hl' Hs]; [done| | |by eauto].
    + inversion Hok1. by eapply suffix_Forall.
    + eapply suffix_Forall; [done|]. apply log_writes_keys, Hl.
Qed.
End crash.
