(* ===== verification/LogOps.v ===== *)
(** * Correctness of the log operations

    The log's invariant, and what each routine of log.c does to the cache and
    to the disk.  *)

From S2P Require Import Prelude Param Spinlock Sleeplock Bio BioSpec BioOps Log LogDisk.

Lemma wp_lift {A} (m : M bio A) (Q : A -> logst -> Prop) s :
  wp m (fun a b => Q a (set_bio b s)) (lg_bio s) -> wp (lift m) Q s.
Proof. apply (wp_zoom bio_l). Qed.

(** Replace a program by one with the same outcome. *)
Lemma wp_eq {S A} (m m' : M S A) Q s s1 : m s = m' s1 -> wp m' Q s1 -> wp m Q s.
Proof. unfold wp. by intros ->. Qed.

Lemma wp_get_block i Q s : Q (lh_block s !!! Z.to_nat i) s -> wp (get_block i) Q s.
Proof. exact id. Qed.


Lemma bframe_slot d H b b' i x : bframe d H b b' -> slot d b i x -> x ∈ H -> slot d b' i x.
Proof. intros [_ F] S Hx. by apply F. Qed.

(** [keep F S] carries the slot fact [S] across the frame [F]. *)
Ltac keep F S := eapply (bframe_slot _ _ _ _ _ _ F) in S; [|set_solver].

(** The home blocks in the in-memory header. *)
Definition lh_list (s : logst) : list Z := take (Z.to_nat (lh_n s)) (lh_block s).

Lemma lh_list_bio b s : lh_list (set_bio b s) = lh_list s.
Proof. done. Qed.

(** The device number and the position of the log, as initlog gets them. *)
Class LogGeom (d st : Z) : Prop := {
  geom_dev : 0 < d < 2 ^ 31;
  geom_start : 0 <= st < 2 ^ 31 - LOGBLOCKS
}.

Section ops.
Context (d st : Z) {G : LogGeom d st}.
Implicit Types (H P : gset Z) (s : logst) (b : bio).
#[local] Abbreviation blk := (blk d).
#[local] Abbreviation home := (home st).
#[local] Abbreviation in_log := (in_log st).

(** What never changes after [initlog]. *)
Record log_base (s : logst) : Prop := {
  lb_dev : lg_dev s = d;
  lb_start : lg_start s = st;
  lb_len : length (lh_block s) = Z.to_nat LOGBLOCKS
}.

Lemma log_base_bio b s : log_base s -> log_base (set_bio b s).
Proof. by intros []. Qed.

Lemma u32_dev : u32 d = d.
Proof. pose proof geom_dev. apply u32_small. lia. Qed.

Lemma u32_st : u32 st = st.
Proof. pose proof geom_start. apply u32_small. unfold LOGBLOCKS, MAXOPBLOCKS in *. lia. Qed.

Lemma u32_log k : 0 <= k < LOGBLOCKS -> u32 (st + k + 1) = st + 1 + k.
Proof. pose proof geom_start. intros. rewrite u32_small; lia. Qed.

Lemma u32_home x : home x -> u32 x = x.
Proof. intros [? _]. apply u32_small. lia. Qed.

(** What one turn of a copying loop does: block [x] of the disk is
    overwritten by the contents of block [y]. *)
Definition copied (x y : Z) (b b' : bio) : Prop :=
  env_same (io_env b) (io_env b') /\
  io_disk b' = disk_write x (blk b y) (io_disk b) /\
  (forall z, blk b' z = if decide (z = x) then blk b y else blk b z).

Lemma wp_bcopy H P b i j x y :
  bio_inv d H P b -> slot d b i x -> slot d b j y -> x ∈ H ->
  wp (bcopy i j) (fun _ b' => bio_inv d H P b' /\ bframe d (H ∪ P) b b' /\
    io_disk b' = io_disk b /\
    (forall z, blk b' z = if decide (z = x) then blk b y else blk b z)) b.
Proof.
  intros I Si Sj Hx. unfold bcopy. wp_step. eapply wp_bdata; [done..|].
  eapply wp_set_bdata; eauto using blk_length, blk_bytes.
Qed.

Lemma singleton_minus (x : Z) H : (x ∉ H) -> ({[x]} ∪ H) ∖ {[x]} = H.
Proof. set_solver. Qed.

(** The loop body of [write_log], on the cache. *)
Definition copy_up (l x : Z) : M bio unit :=
  to <- bread d l ;; from <- bread d x ;;
  bcopy to from ;; bwrite to ;; brelse from ;; brelse to.

Lemma wp_copy_up P b l x :
  bio_inv d ∅ P b -> (l ∉ P) -> x ∈ P -> (size P < NBUF)%nat ->
  wp (copy_up l x) (fun _ b' => bio_inv d ∅ P b' /\ copied l x b b') b.
Proof.
  intros I Hl Hx Hsz. unfold copy_up. assert (l <> x) as Hne by set_solver.
  wp_step. wp_use wp_bread; [done|set_solver|left; by rewrite union_empty_l_L|].
  intros i b1 (I1 & S1 & (F1 & D1 & B1)).
  wp_step. wp_use wp_bread; [done|set_solver|by right|].
  intros j b2 (I2 & S2 & (F2 & D2 & B2)). keep F2 S1.
  wp_step. wp_use wp_bcopy; [done..|set_solver|].
  intros [] b3 (I3 & F3 & D3 & B3). keep F3 S1. keep F3 S2.
  wp_step. wp_use wp_bwrite; [done..|set_solver|].
  intros [] b4 (I4 & F4 & D4 & B4). keep F4 S1. keep F4 S2.
  wp_step. wp_use wp_brelse; [done..|set_solver|by left|].
  intros [] b5 (I5 & (F5 & D5 & B5)). keep F5 S1.
  wp_use wp_brelse; [done..|set_solver| |].
  { right. by rewrite B5, D5, D4, B4, disk_read_write_eq. }
  intros [] b6 (I6 & (F6 & D6 & B6)). split.
  - replace (∅ : gset Z) with ((({[x]} ∪ ({[l]} ∪ ∅)) ∖ {[x]}) ∖ {[l]} : gset Z); [done|set_solver].
  - split_and!.
    + etransitivity; [apply F1|]. etransitivity; [apply F2|]. etransitivity; [apply F3|].
      etransitivity; [apply F4|]. etransitivity; [apply F5|apply F6].
    + rewrite D6, D5, D4, D3, D2, D1, B3, decide_True by done. by rewrite B2, B1.
    + intros z. by rewrite B6, B5, B4, B3, !B2, !B1.
Qed.

(** The loop body of [install_trans], on the cache. *)
Definition copy_down (recovering : bool) (l x : Z) : M bio unit :=
  lbuf <- bread d l ;; dbuf <- bread d x ;;
  bcopy dbuf lbuf ;; bwrite dbuf ;;
  (when (negb recovering) do bunpin dbuf) ;;
  brelse lbuf ;; brelse dbuf.

Definition unpinned (recovering : bool) (x : Z) (P : gset Z) : gset Z :=
  if recovering then P else P ∖ {[x]}.

Lemma wp_unpin_if r P H b i x :
  bio_inv d H P b -> slot d b i x -> x ∈ H -> (r = false -> x ∈ P) ->
  wp (when (negb r) do bunpin i)
     (fun _ b' => bio_inv d H (unpinned r x P) b' /\ quiet d (H ∪ P) b b') b.
Proof.
  intros I S Hx HP. destruct r; simpl.
  - apply wp_ret. split; [done|reflexivity].
  - apply wp_bunpin; auto.
Qed.

Lemma wp_copy_down r P b l x :
  bio_inv d ∅ P b -> (l ∉ P) -> l <> x -> (r = false -> x ∈ P) -> (x ∈ P -> r = false) ->
  (S (size P) < NBUF)%nat \/ (size P < NBUF)%nat /\ r = false ->
  wp (copy_down r l x) (fun _ b' => bio_inv d ∅ (unpinned r x P) b' /\ copied x l b b') b.
Proof.
  intros I Hl Hne Hx Hx' Hsz. unfold copy_down.
  wp_step. wp_use wp_bread; [done|set_solver|left; rewrite union_empty_l_L; lia|].
  intros i b1 (I1 & S1 & (F1 & D1 & B1)).
  wp_step. wp_use wp_bread; [done|set_solver| |].
  { destruct Hsz as [Hsz|[Hsz Hr]]; [left|right; auto].
    rewrite union_empty_r_L, size_union_alt, size_singleton.
    pose proof (subseteq_size (P ∖ {[l]}) P). set_solver by lia. }
  intros j b2 (I2 & S2 & (F2 & D2 & B2)). keep F2 S1.
  wp_step. wp_use wp_bcopy; [done..|set_solver|].
  intros [] b3 (I3 & F3 & D3 & B3). keep F3 S1. keep F3 S2.
  wp_step. wp_use wp_bwrite; [done..|set_solver|].
  intros [] b4 (I4 & F4 & D4 & B4). keep F4 S1. keep F4 S2.
  wp_step. wp_use wp_unpin_if; [done..|set_solver|done|].
  intros [] b5 (I5 & (F5 & D5 & B5)). keep F5 S1. keep F5 S2.
  assert (forall z, blk b5 z = if decide (z = x) then blk b l else blk b z) as B5'.
  { intros z. by rewrite B5, B4, B3, !B2, !B1. }
  wp_step. wp_use wp_brelse; [done..|set_solver| |].
  { right. rewrite D5, D4, D3, D2, D1, B5', decide_False by done.
    rewrite disk_read_write_ne by done. by eapply blk_clean. }
  intros [] b6 (I6 & (F6 & D6 & B6)). keep F6 S2.
  wp_use wp_brelse; [done..|set_solver| |].
  { right. by rewrite B6, D6, D5, D4, B5, B4, disk_read_write_eq. }
  intros [] b7 (I7 & (F7 & D7 & B7)). split.
  - replace (∅ : gset Z) with ((({[x]} ∪ ({[l]} ∪ ∅)) ∖ {[l]}) ∖ {[x]} : gset Z); [done|set_solver].
  - split_and!.
    + etransitivity; [apply F1|]. etransitivity; [apply F2|]. etransitivity; [apply F3|].
      etransitivity; [apply F4|]. etransitivity; [apply F5|]. etransitivity; [apply F6|apply F7].
    + rewrite D7, D6, D5, D4, D3, D2, D1, B3, decide_True by done. by rewrite B2, B1.
    + intros z. by rewrite B7, B6, B5'.
Qed.

(** The loop bodies of log.c are those copies. *)
Lemma write_log_one_eq s k x :
  log_base s -> 0 <= Z.of_nat k < LOGBLOCKS -> lh_block s !!! k = x -> home x ->
  write_log_one (Z.of_nat k) s = lift (copy_up (st + 1 + Z.of_nat k) x) s.
Proof.
  intros [Hdev Hstart _] Hk Hx Hh. rewrite <- (Nat2Z.id k) in Hx.
  unfold write_log_one, copy_up, lift, zoom, bind, gets, get_block. simpl.
  rewrite Hdev, Hstart, u32_dev, u32_log by done.
  destruct (bread d (st + 1 + Z.of_nat k) (lg_bio s)); [simpl|done..].
  rewrite Hx, u32_home by done.
  repeat (case_match; simplify_eq/=; try done).
Qed.

Lemma install_one_eq s k x r :
  log_base s -> 0 <= Z.of_nat k < LOGBLOCKS -> lh_block s !!! k = x -> home x ->
  install_one r (Z.of_nat k) s =
  lift ((when r do in_env (printf "recovering tail %d dst %d" [Z.of_nat k; x])) ;;
        copy_down r (st + 1 + Z.of_nat k) x) s.
Proof.
  intros [Hdev Hstart _] Hk Hx Hh. rewrite <- (Nat2Z.id k) in Hx.
  unfold install_one, copy_down, lift, zoom, bind, gets, get_block, in_env, zoom.
  destruct r; simpl; rewrite ?Hx, Hdev, Hstart, u32_dev, u32_log by done;
    (destruct (bread d (st + 1 + Z.of_nat k) _); [simpl|done..]);
    rewrite Hx, u32_home by done;
    repeat (case_match; simplify_eq/=; try done).
Qed.

(** A cache with nothing held, the blocks of [bl] pinned, and a buffer to
    spare. *)
Definition pinned (bl : list Z) : gset Z := list_to_set bl.

Lemma pinned_size bl : NoDup bl -> size (pinned bl) = length bl.
Proof. apply size_list_to_set. Qed.

Lemma pinned_log bl y : loggable st bl -> in_log y -> (y ∉ pinned bl).
Proof.
  intros Hl Hy Hin. unfold pinned in Hin. rewrite elem_of_list_to_set in Hin.
  by destruct (loggable_home _ _ _ Hl Hin).
Qed.

Lemma lh_list_block s k x : lh_list s !! k = Some x -> lh_block s !! k = Some x.
Proof. unfold lh_list. intros Hk. rewrite lookup_take in Hk. by case_decide. Qed.

Lemma lh_list_lookup s k x :
  lh_list s !! k = Some x -> lh_block s !!! k = x.
Proof. intros Hk. by apply list_lookup_total_correct, lh_list_block. Qed.

Lemma lh_list_length s :
  log_base s -> 0 <= lh_n s <= LOGBLOCKS -> length (lh_list s) = Z.to_nat (lh_n s).
Proof. intros [_ _ Hl] Hn. unfold lh_list. rewrite length_take, Hl. lia. Qed.

(** The in-memory header lists [bl]. *)
Record log_at (bl : list Z) (s : logst) : Prop := {
  la_base : log_base s;
  la_n : 0 <= lh_n s <= LOGBLOCKS;
  la_list : lh_list s = bl;
  la_ok : loggable st bl
}.

Lemma log_at_bio bl b s : log_at bl s -> log_at bl (set_bio b s).
Proof. intros [[] ? ? ?]. by split. Qed.

Lemma log_at_entry bl s k :
  log_at bl s -> (k < Z.to_nat (lh_n s))%nat ->
  exists x, bl !! k = Some x /\ lh_block s !!! k = x /\ home x /\
            0 <= Z.of_nat k < LOGBLOCKS.
Proof.
  intros [Hb Hn Hl Hok] Hk.
  destruct (lookup_lt_is_Some_2 bl k) as [x Hx].
  { by rewrite <- Hl, lh_list_length. }
  exists x. split_and!; [done|apply lh_list_lookup; by rewrite Hl| |lia..].
  eapply loggable_home; [done|]. by eapply list_elem_of_lookup_2.
Qed.

Lemma log_at_length bl s : log_at bl s -> length bl = Z.to_nat (lh_n s).
Proof. intros [Hb Hn Hl _]. by rewrite <- Hl, lh_list_length. Qed.

Lemma wp_write_log bl s :
  log_at bl s -> bio_inv d ∅ (pinned bl) (lg_bio s) -> (length bl < NBUF)%nat ->
  wp write_log (fun _ s' => exists b', s' = set_bio b' s /\ bio_inv d ∅ (pinned bl) b' /\
    env_same (io_env (lg_bio s)) (io_env b') /\
    io_disk b' = log_writes st (blk (lg_bio s)) bl ++ io_disk (lg_bio s) /\
    (forall y, ~ in_log y -> blk b' y = blk (lg_bio s) y)) s.
Proof.
  intros L I Hroom. unfold write_log. wp_step. wp_step. cbv beta.
  wp_use (wp_for_range (lh_n s) write_log_one (fun k s' => exists b', s' = set_bio b' s /\
    bio_inv d ∅ (pinned bl) b' /\ env_same (io_env (lg_bio s)) (io_env b') /\
    io_disk b' = log_writes st (blk (lg_bio s)) (take k bl) ++ io_disk (lg_bio s) /\
    (forall y, ~ in_log y -> blk b' y = blk (lg_bio s) y))).
  - exists (lg_bio s). split_and!; try done. by destruct s.
  - intros k s' Hk (b & -> & Ib & Eb & Db & Bb).
    destruct (log_at_entry bl s k L Hk) as (x & Hx & Hx' & Hh & Hk').
    eapply wp_eq; [by apply (write_log_one_eq _ k x); [apply log_base_bio, L|..]|].
    apply wp_lift. wp_use wp_copy_up.
    + done.
    + eapply pinned_log; [apply L|]. eapply log_data_in; [apply L|done].
    + unfold pinned. rewrite elem_of_list_to_set. by eapply list_elem_of_lookup_2.
    + rewrite pinned_size; [done|apply L].
    + intros [] b' (Ib' & E' & D' & B'). cbn [lg_bio set_bio] in E', D', B'.
      exists b'. split_and!; [done..| | |].
      * by etransitivity.
      * rewrite D', Db, (take_S_r _ _ x), log_writes_snoc, Bb by (done || apply Hh).
        by rewrite length_take_le by (apply lookup_lt_Some in Hx; lia).
      * intros y Hy. rewrite B', decide_False, Bb; [done..|].
        intros ->. apply Hy. eapply log_data_in; [apply L|done].
  - intros [] s' (b' & ? & ? & ? & HD & ?). exists b'.
    rewrite take_ge in HD by (rewrite (log_at_length bl s) by done; lia). eauto.
Qed.

(** The blocks still pinned before turn [k] of [install_trans]. *)
Definition pins (r : bool) (bl : list Z) (k : nat) : gset Z :=
  if r then ∅ else pinned (drop k bl).

Lemma pins_step r bl k x :
  NoDup bl -> bl !! k = Some x -> unpinned r x (pins r bl k) = pins r bl (S k).
Proof.
  intros Hnd Hk. destruct r; [done|]. simpl. unfold pinned.
  rewrite (drop_S _ _ _ Hk). simpl.
  assert (x ∉ drop (S k) bl); [|set_solver].
  rewrite <- (take_drop k bl), (drop_S _ _ _ Hk) in Hnd.
  apply NoDup_app in Hnd as (_ & _ & Hnd). by apply NoDup_cons in Hnd as [? _].
Qed.

Lemma pins_log r bl k y : loggable st bl -> in_log y -> (y ∉ pins r bl k).
Proof.
  intros Hl Hy. destruct r; [set_solver|]. simpl.
  intros Hin. eapply (pinned_log bl y Hl Hy). unfold pinned in *.
  rewrite elem_of_list_to_set in *. by eapply elem_of_drop_in.
Qed.

Lemma pins_head r bl k x :
  bl !! k = Some x -> (r = false -> x ∈ pins r bl k) /\ (x ∈ pins r bl k -> r = false).
Proof.
  intros Hk. destruct r; simpl; [split; [done|set_solver]|]. split; [|done].
  intros _. rewrite (drop_S _ _ _ Hk). unfold pinned. set_solver.
Qed.

Lemma pins_room r bl k :
  NoDup bl -> (length bl < NBUF)%nat \/ r = true ->
  (S (size (pins r bl k)) < NBUF)%nat \/ (size (pins r bl k) < NBUF)%nat /\ r = false.
Proof.
  intros Hnd Hr. destruct r; unfold pins; [left; rewrite size_empty; unfold NBUF; lia|].
  right. split; [|done]. destruct Hr as [Hr|?]; [|done].
  rewrite pinned_size by by apply NoDup_drop. rewrite length_drop. lia.
Qed.

(** State of the cache after [k] turns of [install_trans]. *)
Definition installed (bl : list Z) (k : nat) (b b' : bio) : Prop :=
  env_same (io_env b) (io_env b') /\
  io_disk b' = home_writes (fun j => blk b (st + 1 + Z.of_nat j)) (take k bl) ++ io_disk b /\
  (forall y, (y ∉ take k bl) -> blk b' y = blk b y) /\
  (forall j y, (j < k)%nat -> bl !! j = Some y -> blk b' y = blk b (st + 1 + Z.of_nat j)).

Lemma installed_0 bl b : installed bl 0 b b.
Proof. split_and!; [reflexivity|done|done|]. intros. lia. Qed.

Lemma installed_S bl k x b b1 b2 :
  loggable st bl -> bl !! k = Some x -> installed bl k b b1 ->
  copied x (st + 1 + Z.of_nat k) b1 b2 -> installed bl (S k) b b2.
Proof.
  intros Hl Hk (E & D & Bo & Bi) (E' & D' & B').
  assert (blk b1 (st + 1 + Z.of_nat k) = blk b (st + 1 + Z.of_nat k)) as Hlog.
  { apply Bo. intros Hin%elem_of_take_in. eapply loggable_home in Hin; [|done].
    destruct Hin as [_ []]. by eapply log_data_in. }
  split_and!.
  - by etransitivity.
  - rewrite D', D, (take_S_r _ _ x), home_writes_snoc, Hlog by done.
    by rewrite length_take_le by (apply lookup_lt_Some in Hk; lia).
  - intros y Hy. rewrite (take_S_r _ _ x) in Hy by done.
    rewrite B', decide_False by set_solver. apply Bo. set_solver.
  - intros j y Hj Hy. rewrite B'. destruct (decide (y = x)) as [->|Hne].
    + rewrite Hlog. do 2 f_equal. f_equal. by eapply NoDup_lookup; [apply Hl|..].
    + apply Bi; [|done]. assert (j <> k) by congruence. lia.
Qed.

(** Console output does not concern the cache. *)
Lemma bio_inv_env H P b e :
  bio_inv d H P b -> env_same (io_env b) e ->
  bio_inv d H P (mkBio e (bc_lock b) (bc_buf b) (io_disk b)).
Proof.
  intros [C L E K D O] Hs. split; simpl; [|done| |done..].
  - by rewrite (proj1 (proj2 (proj2 (proj2 Hs)))).
  - by eapply env_same_ok.
Qed.

Lemma wp_say (r : bool) m args H P b :
  bio_inv d H P b ->
  wp (when r do in_env (printf m args)) (fun _ b' => bio_inv d H P b' /\
    env_same (io_env b) (io_env b') /\ io_disk b' = io_disk b /\ bc_buf b' = bc_buf b) b.
Proof.
  intros I. destruct r.
  - unfold in_env. apply wp_zoom. apply wp_modify. simpl. split_and!; try done.
    apply bio_inv_env; [done|apply env_same_out].
  - apply wp_ret. by split_and!.
Qed.

Lemma copied_same x y b1 b2 b :
  env_same (io_env b) (io_env b1) -> io_disk b1 = io_disk b -> bc_buf b1 = bc_buf b ->
  copied x y b1 b2 -> copied x y b b2.
Proof.
  intros E D B (E' & D' & B').
  assert (forall z, blk b1 z = blk b z) as Hb.
  { intros z. unfold BioSpec.blk, cores. by rewrite D, B. }
  split_and!; [by etransitivity|by rewrite D', D, Hb|].
  intros z. by rewrite B', !Hb.
Qed.

Lemma wp_install_trans r bl s :
  log_at bl s -> bio_inv d ∅ (pins r bl 0) (lg_bio s) -> (length bl < NBUF)%nat \/ r = true ->
  wp (install_trans r) (fun _ s' => exists b', s' = set_bio b' s /\
    bio_inv d ∅ ∅ b' /\ installed bl (length bl) (lg_bio s) b') s.
Proof.
  intros L I Hroom. unfold install_trans. wp_step. wp_step. cbv beta.
  wp_use (wp_for_range (lh_n s) (install_one r) (fun k s' => exists b', s' = set_bio b' s /\
    bio_inv d ∅ (pins r bl k) b' /\ installed bl k (lg_bio s) b')).
  - exists (lg_bio s). split_and!; [by destruct s|done|apply installed_0].
  - intros k s' Hk (b & -> & Ib & Inst).
    destruct (log_at_entry bl s k L Hk) as (x & Hx & Hx' & Hh & Hk').
    eapply wp_eq; [by apply (install_one_eq _ k x); [apply log_base_bio, L|..]|].
    apply wp_lift. wp_step. wp_use wp_say; [done|]. intros [] b1 (I1 & E1 & D1 & B1).
    assert (in_log (st + 1 + Z.of_nat k)) as Hin by (eapply log_data_in; [apply L|done]).
    destruct (pins_head r bl k x Hx) as [Hp Hp'].
    wp_use wp_copy_down; [done|by eapply pins_log; [apply L|]| |done..| |].
    + intros <-. by destruct (home_not_log st _ _ Hh Hin).
    + apply pins_room; [apply L|done].
    + intros [] b2 [I2 C2]. exists b2. split_and!; [done| |].
      * by rewrite <- (pins_step r bl k x) by (done || apply L).
      * eapply installed_S; [apply L|done..|]. eapply copied_same; [..|done]; done.
  - intros [] s' (b' & ? & Ib & Inst). exists b'. rewrite (log_at_length bl s) by done.
    split_and!; [done| |done]. unfold pins in Ib.
    rewrite drop_ge in Ib by (rewrite (log_at_length bl s) by done; lia). by destruct r.
Qed.

(** The first [k] entries of a header being filled in. *)
Definition head_upto (bl : list Z) (k : nat) (hdr : block) : Prop :=
  word_at 0 hdr = Z.of_nat (length bl) /\
  forall j x, (j < k)%nat -> bl !! j = Some x -> word_at (Z.of_nat j + 1) hdr = x.

Lemma head_upto_S bl k x hdr :
  head_upto bl k hdr -> bl !! k = Some x -> home x -> Z.of_nat k < LOGBLOCKS ->
  length hdr = bsize -> head_upto bl (S k) (put_word (Z.of_nat k + 1) x hdr).
Proof.
  intros [H0 H] Hx [Hr _] Hk Hl. unfold LOGBLOCKS, MAXOPBLOCKS in Hk.
  split; [by rewrite word_at_put_ne by lia|].
  intros j y Hj Hy. destruct (decide (j = k)) as [->|Hne].
  - simplify_eq. apply word_at_put; [lia|unfold BSIZE; lia|done|lia].
  - rewrite word_at_put_ne by lia. apply H; [lia|done].
Qed.

Lemma head_upto_is bl hdr : head_upto bl (length bl) hdr -> head_is hdr bl.
Proof. intros [H0 H]. split; [done|]. intros k x Hk. eauto using lookup_lt_Some. Qed.

(** The loop that fills in the header block held in buffer [i]. *)
Lemma wp_fill_head bl P s i :
  log_at bl s -> bio_inv d {[st]} P (lg_bio s) -> slot d (lg_bio s) i st ->
  head_upto bl 0 (blk (lg_bio s) st) ->
  wp (for_each (seqZ 0 (lh_n s)) (fun i0 =>
        b <- get_block i0 ;; hb <- lift (bdata i) ;;
        lift (set_bdata i (put_word (i0 + 1) b hb))))
     (fun _ s' => exists b', s' = set_bio b' s /\ bio_inv d {[st]} P b' /\
        bframe d ({[st]} ∪ P) (lg_bio s) b' /\ io_disk b' = io_disk (lg_bio s) /\
        head_is (blk b' st) bl /\ (forall y, y <> st -> blk b' y = blk (lg_bio s) y)) s.
Proof.
  intros L I S Hup.
  eapply wp_mono; [apply wp_for_range with (I := fun k s' => exists b', s' = set_bio b' s /\
    bio_inv d {[st]} P b' /\ bframe d ({[st]} ∪ P) (lg_bio s) b' /\
    io_disk b' = io_disk (lg_bio s) /\ head_upto bl k (blk b' st) /\
    (forall y, y <> st -> blk b' y = blk (lg_bio s) y))|cbv beta].
  - exists (lg_bio s). split_and!; try done. by destruct s.
  - intros k s' Hk (b & -> & Ib & Fb & Db & Ub & Bb). keep Fb S.
    destruct (log_at_entry bl s k L Hk) as (x & Hx & Hx' & Hh & Hk').
    wp_step. apply wp_get_block. cbn [lh_block set_bio]. rewrite Nat2Z.id, Hx'.
    wp_step. apply wp_lift. eapply wp_bdata; [done..|].
    apply wp_lift. wp_use wp_set_bdata; [done..|set_solver| | |].
    + rewrite put_word_length. by eapply blk_length.
    + eapply put_word_bytes, blk_bytes. done.
    + intros [] b' (I' & F' & D' & B'). exists b'. split_and!; [done|done| | | |].
      * by etransitivity.
      * by rewrite D'.
      * rewrite B', decide_True by done.
        apply head_upto_S; [done..|lia|]. by eapply blk_length.
      * intros y Hy. by rewrite B', decide_False, Bb.
  - intros [] s' (b' & ? & ? & ? & ? & Hh & ?). exists b'. split_and!; try done.
    apply head_upto_is. by rewrite (log_at_length bl s).
Qed.

Lemma wp_write_head bl P s :
  log_at bl s -> bio_inv d ∅ P (lg_bio s) -> (st ∉ P) -> (size P < NBUF)%nat ->
  wp write_head (fun _ s' => exists b' hdr, s' = set_bio b' s /\ bio_inv d ∅ P b' /\
    env_same (io_env (lg_bio s)) (io_env b') /\ head_is hdr bl /\
    io_disk b' = (st, hdr) :: io_disk (lg_bio s) /\
    (forall y, y <> st -> blk b' y = blk (lg_bio s) y)) s.
Proof.
  intros L I Hp Hsz. unfold write_head. destruct (la_base _ _ L) as [Hdev Hstart _].
  wp_step. wp_step. cbv beta. wp_step. wp_step. cbv beta.
  rewrite Hdev, Hstart, u32_dev, u32_st.
  wp_step. apply wp_lift. wp_use wp_bread; [done|set_solver|left; by rewrite union_empty_l_L|].
  intros i b1 (I1 & S1 & (F1 & D1 & B1)). rewrite union_empty_r_L in I1.
  wp_step. wp_step. cbv beta.
  wp_step. apply wp_lift. eapply wp_bdata; [done..|].
  wp_step. apply wp_lift. wp_use wp_set_bdata; [done..|set_solver| | |].
  { rewrite put_word_length. by eapply blk_length. }
  { eapply put_word_bytes, blk_bytes. done. }
  intros [] b2 (I2 & F2 & D2 & B2). cbn [lg_bio set_bio] in F2, D2, B2. keep F2 S1.
  wp_step. wp_use (wp_fill_head bl P (set_bio b2 s) i); [by apply log_at_bio|done..| |].
  { cbn [lg_bio set_bio]. split; [|lia]. rewrite B2, decide_True by done.
    pose proof (la_n _ _ L). cbn [lh_n set_bio]. rewrite (log_at_length bl s) by done.
    unfold LOGBLOCKS, MAXOPBLOCKS in *.
    rewrite word_at_put; [lia|lia|unfold BSIZE; lia|by eapply blk_length|lia]. }
  intros [] s' (b3 & -> & I3 & F3 & D3 & H3 & B3). cbn [lg_bio set_bio] in *. keep F3 S1.
  wp_step. apply wp_lift. wp_use wp_bwrite; [done..|set_solver|].
  intros [] b4 (I4 & F4 & D4 & B4). cbn [lg_bio set_bio] in *. keep F4 S1.
  apply wp_lift. wp_use wp_brelse; [done..|set_solver| |].
  { right. cbn [lg_bio set_bio]. by rewrite B4, D4, disk_read_write_eq. }
  intros [] b5 (I5 & (F5 & D5 & B5)). cbn [lg_bio set_bio] in *.
  exists b5, (blk b3 st). split_and!; [done| | |done| |].
  - by rewrite difference_diag_L in I5.
  - etransitivity; [apply F1|]. etransitivity; [apply F2|]. etransitivity; [apply F3|].
    etransitivity; [apply F4|apply F5].
  - by rewrite D5, D4, D3, D2, D1.
  - intros y Hy. by rewrite B5, B4, B3, B2, decide_False, B1.
Qed.

(** After [log.lh.n = 0]. *)
Lemma log_at_clear bl s : log_at bl s -> log_at [] (set_n 0 s).
Proof.
  intros [[] Hn Hl Hok]. split; [by split| |done|apply loggable_nil].
  simpl. unfold LOGBLOCKS, MAXOPBLOCKS. lia.
Qed.

Lemma nonempty_room P : P = ∅ -> (st ∉ P) /\ (size P < NBUF)%nat.
Proof. intros ->. rewrite size_empty. split; [set_solver|unfold NBUF; lia]. Qed.

(** What a commit of [bl] does: its exact disk writes, in order. *)
Definition committed (bl : list Z) (b b' : bio) : Prop :=
  exists hd1 hd0, head_is hd1 bl /\ head_is hd0 [] /\
    io_disk b' = commit_trace st (blk b) bl hd1 hd0 ++ io_disk b.

Lemma wp_commit_some bl s :
  log_at bl s -> bio_inv d ∅ (pinned bl) (lg_bio s) -> (length bl < NBUF)%nat ->
  wp (write_log ;; write_head ;; install_trans false ;; modify (set_n 0) ;; write_head)
    (fun _ s' => exists b', s' = set_n 0 (set_bio b' s) /\ bio_inv d ∅ ∅ b' /\
      env_same (io_env (lg_bio s)) (io_env b') /\ committed bl (lg_bio s) b' /\
      (forall y, ~ in_log y -> blk b' y = blk (lg_bio s) y)) s.
Proof.
  intros L I Hroom. pose proof (la_ok _ _ L) as Hok.
  wp_step. wp_use wp_write_log; [done..|]. intros [] s1 (b1 & -> & I1 & E1 & D1 & B1).
  wp_step. wp_use (wp_write_head bl (pinned bl) (set_bio b1 s)); [by apply log_at_bio|done| | |].
  { apply pinned_log; [done|apply st_in_log]. }
  { rewrite pinned_size; [done|apply Hok]. }
  intros [] s2 (b2 & hd1 & -> & I2 & E2 & H2 & D2 & B2). cbn [lg_bio set_bio] in *.
  wp_step. wp_use (wp_install_trans false bl (set_bio b2 s)); [by apply log_at_bio|done|by left|].
  intros [] s3 (b3 & -> & I3 & (E3 & D3 & Bo & Bi)). cbn [lg_bio set_bio] in *.
  wp_step. wp_step. cbv beta.
  wp_use (wp_write_head [] ∅ (set_n 0 (set_bio b3 s)));
    [by eapply log_at_clear, log_at_bio|done|by apply nonempty_room..|].
  intros [] s4 (b4 & hd0 & -> & I4 & E4 & H4 & D4 & B4). cbn [lg_bio set_bio set_n] in *.
  assert (forall k x, bl !! k = Some x -> blk b2 (st + 1 + Z.of_nat k) = blk (lg_bio s) x) as Hk.
  { intros k x Hk. rewrite (blk_clean d ∅ (pinned bl)); [|done|set_solver|].
    - rewrite D2, disk_read_cons_ne, D1 by lia. by apply read_log_writes.
    - eapply pinned_log; [done|]. by eapply log_data_in. }
  rewrite firstn_all in D3, Bo.
  exists b4. split_and!; [done|done| | |].
  - etransitivity; [apply E1|]. etransitivity; [apply E2|]. etransitivity; [apply E3|apply E4].
  - exists hd1, hd0. split_and!; [done..|]. rewrite D4, D3, D2, D1. unfold commit_trace.
    rewrite (home_writes_ext _ (fun k => blk (lg_bio s) (bl !!! k))).
    + simpl. by rewrite <- app_assoc.
    + intros k x Hx. rewrite (Hk _ _ Hx). by rewrite (list_lookup_total_correct _ _ _ Hx).
  - intros y Hy. assert (y <> st) by (intros ->; apply Hy, st_in_log).
    rewrite B4 by done. destruct (decide (y ∈ bl)) as [Hin|Hout].
    + apply list_elem_of_lookup_1 in Hin as [k Hin].
      rewrite (Bi k y) by eauto using lookup_lt_Some. eauto.
    + by rewrite Bo, B2, B1.
Qed.

Lemma wp_commit bl s :
  log_at bl s -> bio_inv d ∅ (pinned bl) (lg_bio s) -> (length bl < NBUF)%nat ->
  wp commit (fun _ s' => exists b', s' = set_n 0 (set_bio b' s) /\ bio_inv d ∅ ∅ b' /\
      env_same (io_env (lg_bio s)) (io_env b') /\
      (bl = [] /\ io_disk b' = io_disk (lg_bio s) \/ committed bl (lg_bio s) b') /\
      (forall y, ~ in_log y -> blk b' y = blk (lg_bio s) y)) s.
Proof.
  intros L I Hroom. unfold commit. wp_step. wp_step. cbv beta.
  destruct (Z.ltb_spec 0 (lh_n s)) as [Hn|Hn].
  - wp_use wp_commit_some; [done..|]. naive_solver.
  - apply wp_ret. exists (lg_bio s). pose proof (log_at_length _ _ L) as Hl.
    pose proof (la_n _ _ L). assert (lh_n s = 0) as Hz by lia.
    assert (bl = []) as -> by (apply nil_length_inv; lia).
    split_and!; [by destruct s; simpl in *; subst|done|reflexivity|by left|done].
Qed.

(** ** Recovery *)

(** The fields that recovery and commit leave alone. *)
Definition same_ctl (s s' : logst) : Prop :=
  lg_lock s' = lg_lock s /\ lg_outstanding s' = lg_outstanding s /\
  lg_committing s' = lg_committing s.

(** [read_head] before turn [k] of its loop. *)
Definition head_read (bl : list Z) (k : nat) (s s' : logst) : Prop :=
  same_ctl s s' /\ lg_dev s' = lg_dev s /\ lg_start s' = lg_start s /\
  lg_bio s' = lg_bio s /\ lh_n s' = Z.of_nat (length bl) /\
  length (lh_block s') = length (lh_block s) /\ take k (lh_block s') = take k bl.

Lemma put_block_Ok i v s :
  0 <= i < LOGBLOCKS -> put_block i v s = Ok tt (set_blocks (<[Z.to_nat i := v]> (lh_block s)) s).
Proof.
  intros Hi. unfold put_block.
  by rewrite (proj2 (Z.leb_le _ _)), (proj2 (Z.ltb_lt _ _)) by lia.
Qed.

Lemma take_insert_next (k : nat) (x : Z) l bl :
  (k < length l)%nat -> bl !! k = Some x -> take k l = take k bl ->
  take (S k) (<[k := x]> l) = take (S k) bl.
Proof.
  intros Hk Hx Ht. rewrite (take_S_r bl _ x) by done.
  rewrite (take_S_r _ _ x) by by apply list_lookup_insert_eq.
  by rewrite take_insert_ge, Ht by lia.
Qed.

Lemma wp_read_entries bl H P s0 s i :
  loggable st bl -> length (lh_block s0) = Z.to_nat LOGBLOCKS ->
  bio_inv d H P (lg_bio s) -> slot d (lg_bio s) i st -> head_is (blk (lg_bio s) st) bl ->
  head_read bl 0 s0 s -> lg_bio s = lg_bio s0 ->
  wp (for_each (seqZ 0 (Z.of_nat (length bl))) (fun i0 =>
        lh <- lift (bdata i) ;; put_block i0 (word_at (i0 + 1) lh)))
     (fun _ s' => head_read bl (length bl) s0 s') s.
Proof.
  intros Hok Hlen I S Hhd Hr Hb.
  eapply wp_mono; [apply wp_for_range with (I := fun k s' => head_read bl k s0 s')|cbv beta].
  - done.
  - intros k s' Hk (C & Hdv & Hst & Hbio & Hn & Hl & Ht). rewrite Nat2Z.id in Hk.
    destruct (lookup_lt_is_Some_2 bl k Hk) as [x Hx]. destruct Hok as (_ & _ & Hok).
    wp_step. apply wp_lift.
    eapply wp_bdata; [rewrite Hbio, <- Hb; done..|]. rewrite Hbio, <- Hb.
    rewrite (proj2 Hhd k x Hx). eapply wp_intro; [apply put_block_Ok; lia|].
    destruct C as (? & ? & ?). split_and!; simpl; try done.
    + by rewrite length_insert.
    + rewrite Nat2Z.id. apply take_insert_next; [lia|done..].
  - intros [] s'. by rewrite Nat2Z.id.
Qed.

Lemma wp_read_head bl s :
  log_base s -> bio_inv d ∅ ∅ (lg_bio s) -> log_holds st (io_disk (lg_bio s)) bl ->
  wp read_head (fun _ s' => log_at bl s' /\ same_ctl s s' /\
    bio_inv d ∅ ∅ (lg_bio s') /\ quiet d ∅ (lg_bio s) (lg_bio s')) s.
Proof.
  intros [Hdev Hstart Hlen] I (_ & Hhd & Hok). unfold read_head.
  wp_step. wp_step. cbv beta. wp_step. wp_step. cbv beta.
  rewrite Hdev, Hstart, u32_dev, u32_st.
  wp_step. apply wp_lift. wp_use wp_bread; [done|set_solver|left; by apply nonempty_room, union_empty_l_L|].
  intros i b1 (I1 & S1 & Q1). rewrite union_empty_r_L in I1.
  assert (head_is (blk b1 st) bl) as Hb1.
  { rewrite (proj2 (proj2 Q1)), (blk_clean d ∅ ∅); [done..|set_solver|set_solver]. }
  wp_step. apply wp_lift. eapply wp_bdata; [done..|]. cbn [lg_bio set_bio].
  wp_step. wp_step. cbv beta. wp_step. wp_step. cbv beta.
  cbn [lh_n set_n]. rewrite (proj1 Hb1).
  set (s1 := set_n (Z.of_nat (length bl)) (set_bio b1 s)).
  wp_step. wp_use (wp_read_entries bl {[st]} ∅ s1 s1 i);
    [done..|by split_and!; try done|done|].
  intros [] s2 ((C1 & C2 & C3) & Hdv & Hst2 & Hbio & Hn & Hl & Ht).
  cbn [lg_bio s1 set_n set_bio lg_dev lg_start lh_block] in *.
  apply wp_lift. wp_use wp_brelse; [by rewrite Hbio|by rewrite Hbio|set_solver| |].
  { right. rewrite Hbio, (proj2 (proj2 Q1)), (proj1 (proj2 Q1)).
    apply (blk_clean d ∅ ∅); [done|set_solver..]. }
  intros [] b3 (I3 & Q3). rewrite Hbio in Q3. rewrite difference_diag_L in I3. split_and!.
  - split; [split; simpl; congruence| |unfold lh_list; simpl|done].
    + simpl. rewrite Hn. destruct Hok as (_ & _ & ?). lia.
    + rewrite Hn, Nat2Z.id, Ht. by rewrite firstn_all.
  - done.
  - done.
  - etransitivity; [|eapply quiet_weaken; [|done]; set_solver].
    eapply quiet_weaken; [|done]. set_solver.
Qed.

(** Recovery replays the log [bl] found on disk and clears it. *)
Lemma wp_recover_from_log bl s :
  log_base s -> bio_inv d ∅ ∅ (lg_bio s) -> log_holds st (io_disk (lg_bio s)) bl ->
  wp recover_from_log (fun _ s' => log_at [] s' /\ same_ctl s s' /\
    bio_inv d ∅ ∅ (lg_bio s') /\ env_same (io_env (lg_bio s)) (io_env (lg_bio s')) /\
    exists hd0, head_is hd0 [] /\
      io_disk (lg_bio s') =
        recover_trace st (io_disk (lg_bio s)) bl hd0 ++ io_disk (lg_bio s)) s.
Proof.
  intros Hb I Hh. unfold recover_from_log.
  wp_step. wp_use wp_read_head; [done..|]. intros [] s1 (L1 & C1 & I1 & (F1 & D1 & B1)).
  wp_step. wp_use (wp_install_trans true bl s1); [done..|by right|].
  intros [] s2 (b2 & -> & I2 & (E2 & D2 & _)).
  wp_step. wp_step. cbv beta.
  wp_use (wp_write_head [] ∅ (set_n 0 (set_bio b2 s1)));
    [by eapply log_at_clear, log_at_bio|done|by apply nonempty_room..|].
  intros [] s3 (b3 & hd0 & -> & I3 & E3 & H3 & D3 & _). cbn [lg_bio set_bio set_n] in *.
  split_and!; try done.
  - apply log_at_bio. by eapply log_at_clear, log_at_bio.
  - etransitivity; [apply F1|]. etransitivity; [apply E2|apply E3].
  - exists hd0. split; [done|]. rewrite D3, D2, D1, firstn_all. unfold recover_trace. simpl.
    f_equal. f_equal. apply home_writes_ext. intros k x Hk.
    rewrite B1. apply (blk_clean d ∅ ∅); [done|set_solver..].
Qed.

Lemma wp_initlog bl s sb :
  sb_logstart sb = st -> length (lh_block s) = Z.to_nat LOGBLOCKS ->
  bio_inv d ∅ ∅ (lg_bio s) -> log_holds st (io_disk (lg_bio s)) bl ->
  wp (initlog d sb) (fun _ s' => log_at [] s' /\ lg_lock s' = initlock /\
    lg_outstanding s' = lg_outstanding s /\ lg_committing s' = lg_committing s /\
    bio_inv d ∅ ∅ (lg_bio s') /\ env_same (io_env (lg_bio s)) (io_env (lg_bio s')) /\
    exists hd0, head_is hd0 [] /\
      io_disk (lg_bio s') =
        recover_trace st (io_disk (lg_bio s)) bl hd0 ++ io_disk (lg_bio s)) s.
Proof.
  intros Hsb Hlen I Hh. unfold initlog. change (BSIZE <=? sizeof_logheader) with false. cbv iota.
  wp_step. wp_step. cbv beta. wp_step. wp_step. cbv beta. wp_step. wp_step. cbv beta.
  wp_use (wp_recover_from_log bl); [|done..|].
  - split; simpl; [done| |done]. rewrite Hsb. pose proof geom_start. apply s32_small.
    unfold LOGBLOCKS, MAXOPBLOCKS in *. lia.
  - intros [] s' (L & (C1 & C2 & C3) & I' & E & D). by split_and!.
Qed.
End ops.
