(* ===== verification/LogTx.v ===== *)
(** * Transactions

    The invariant of the log between operations, and what [begin_op],
    [log_write] and [end_op] promise to the file system above.  *)

From S2P Require Import Prelude Param Spinlock Sleeplock Bio BioSpec BioOps Log LogDisk LogOps.

Section tx.
Context (d st : Z) {G : LogGeom d st}.
Implicit Types (H P : gset Z) (s : logst) (b : bio) (bl : list Z).
#[local] Abbreviation blk := (blk d).
#[local] Abbreviation home := (home st).
#[local] Abbreviation in_log := (in_log st).

(** [H] is the set of blocks whose buffers the running thread holds.  The
    transaction so far is [lh_list s]; the log on disk is empty. *)
Record log_inv (H : gset Z) (s : logst) : Prop := {
  li_at : log_at d st (lh_list s) s;
  li_bio : bio_inv d H (pinned (lh_list s)) (lg_bio s);
  li_lock : lg_lock s = initlock;
  li_disk : log_holds st (io_disk (lg_bio s)) [];
  li_idle : lg_committing s = false;
  li_out : 0 <= lg_outstanding s
}.

Lemma bio_inv_pid H P b e :
  bio_inv d H P b -> e_pid e = e_pid (io_env b) -> env_ok e ->
  bio_inv d H P (mkBio e (bc_lock b) (bc_buf b) (io_disk b)).
Proof. intros [C L E K D O] Hp Ho. split; simpl; try done. by rewrite Hp. Qed.

Lemma log_inv_env_ok H s : log_inv H s -> env_ok (io_env (lg_bio s)).
Proof. intros L. by apply L. Qed.

(** The state inside a critical section of [log.lock]. *)
Definition locked_state (s : logst) : logst :=
  set_lglock (mkSpinlock true (Some (e_cpu (io_env (lg_bio s)))))
    (set_bio (mkBio (push_env (io_env (lg_bio s))) (bc_lock (lg_bio s)) (bc_buf (lg_bio s))
                    (io_disk (lg_bio s))) s).

Lemma wp_log_acquire s Q :
  lg_lock s = initlock -> Q tt (locked_state s) -> wp (with_env log_lock acquire) Q s.
Proof. intros Hl HQ. apply wp_acquire; [simpl; by rewrite Hl|done]. Qed.

Lemma wp_log_release s s1 Q :
  env_ok (io_env (lg_bio s)) ->
  env_same (push_env (io_env (lg_bio s))) (io_env (lg_bio s1)) ->
  lg_lock s1 = mkSpinlock true (Some (e_cpu (io_env (lg_bio s)))) ->
  (forall e, env_same (io_env (lg_bio s)) e ->
     Q tt (set_lglock initlock (set_bio (mkBio e (bc_lock (lg_bio s1)) (bc_buf (lg_bio s1))
                                               (io_disk (lg_bio s1))) s1))) ->
  wp (with_env log_lock release) Q s1.
Proof. intros Ho Hs Hl HQ. by apply (wp_release_same log_lock s1 (io_env (lg_bio s))). Qed.

Lemma pinned_app bl x : pinned (bl ++ [x]) = {[x]} ∪ pinned bl.
Proof. unfold pinned. rewrite list_to_set_app_L. set_solver. Qed.

Lemma log_inv_bio_env H s e :
  log_inv H s -> env_same (io_env (lg_bio s)) e ->
  bio_inv d H (pinned (lh_list s)) (mkBio e (bc_lock (lg_bio s)) (bc_buf (lg_bio s))
                                           (io_disk (lg_bio s))).
Proof. intros L. apply bio_inv_env, L. Qed.

(** Nothing but [outstanding], the lock and the environment differ. *)
Definition tx_same (s s' : logst) : Prop :=
  lh_list s' = lh_list s /\ quiet d ∅ (lg_bio s) (lg_bio s') /\
  bc_buf (lg_bio s') = bc_buf (lg_bio s).

Lemma tx_same_env s s' e :
  lh_list s' = lh_list s -> env_same (io_env (lg_bio s)) e ->
  lg_bio s' = mkBio e (bc_lock (lg_bio s)) (bc_buf (lg_bio s)) (io_disk (lg_bio s)) ->
  tx_same s s'.
Proof.
  intros Hl He Hb. split_and!; [done| |by rewrite Hb]. rewrite Hb.
  split_and!; [|done|done]. split; [done|]. intros i x Hx. set_solver.
Qed.

Lemma wp_begin_op H s :
  log_inv H s -> lh_n s + (lg_outstanding s + 1) * MAXOPBLOCKS <= LOGBLOCKS ->
  wp begin_op (fun _ s' => log_inv H s' /\ tx_same s s' /\
                           lg_outstanding s' = lg_outstanding s + 1) s.
Proof.
  intros L Hroom. unfold begin_op. wp_step. apply wp_log_acquire; [apply L|].
  wp_step. apply wp_get. cbn [lg_committing locked_state set_lglock set_bio lh_n lg_outstanding].
  rewrite (li_idle _ _ L), (proj2 (Z.ltb_ge _ _)) by done.
  wp_step. wp_step. cbv beta. eapply (wp_log_release s); [by eapply log_inv_env_ok|reflexivity|done|].
  intros e He. cbn -[lh_list]. split_and!; [|by eapply tx_same_env|done].
  pose proof (log_inv_bio_env H s e L He). destruct L as [[[] ? ? ?] ? ? ? ? ?].
  split; try done. simpl. lia.
Qed.

(** Otherwise the caller sleeps on [&log], with everything as it was. *)
Lemma begin_op_sleeps H s :
  bio_inv d H (pinned (lh_list s)) (lg_bio s) -> lg_lock s = initlock ->
  lg_committing s = true \/ LOGBLOCKS < lh_n s + (lg_outstanding s + 1) * MAXOPBLOCKS ->
  exists s', begin_op s = Block log_chan s' /\ tx_same s s' /\ lg_lock s' = initlock /\
    lg_outstanding s' = lg_outstanding s /\ lg_committing s' = lg_committing s.
Proof.
  intros I Hl Hfull. unfold begin_op.
  destruct (wp_Ok _ _ _ (wp_log_acquire s (fun _ s1 => s1 = locked_state s) Hl eq_refl))
    as ([] & s1 & E1 & ->).
  destruct (wp_Ok (with_env log_lock release) (fun _ s1 => exists e, env_same (io_env (lg_bio s)) e /\
      s1 = set_lglock initlock (set_bio (mkBio e (bc_lock (lg_bio s)) (bc_buf (lg_bio s))
                                               (io_disk (lg_bio s))) s)) (locked_state s))
    as ([] & s2 & E2 & (e & He & ->)).
  { eapply (wp_log_release s); [apply I|reflexivity|done|eauto]. }
  set (s2 := set_lglock initlock _) in E2. exists s2.
  split; [|split; [by apply (tx_same_env s s2 e)|done]].
  erewrite bind_Ok by done. unfold bind at 1, get.
  cbn [lg_committing locked_state set_lglock set_bio lh_n lg_outstanding].
  destruct (lg_committing s) eqn:Ec.
  - erewrite bind_Ok by done. done.
  - destruct Hfull as [?|Hfull]; [done|]. rewrite (proj2 (Z.ltb_lt _ _)) by done.
    erewrite bind_Ok by done. done.
Qed.

(** ** log_write *)

Lemma log_index_spec x bl :
  Forall home bl ->
  (x ∈ bl /\ bl !! log_index x bl = Some x) \/ ((x ∉ bl) /\ log_index x bl = length bl).
Proof.
  induction 1 as [|y bl Hy _ IH]; simpl.
  - right. split; [apply not_elem_of_nil|done].
  - rewrite (u32_home st) by done. destruct (Z.eqb_spec y x) as [->|Hne].
    + left. split; [by left|done].
    + destruct IH as [[Hin Hi]|[Hout Hi]].
      * left. split; [by right|done].
      * right. split; [set_solver|by rewrite Hi].
Qed.

(** The transaction after block [x] has been logged (absorption: a block
    appears once). *)
Definition absorb (x : Z) (bl : list Z) : list Z :=
  if decide (x ∈ bl) then bl else bl ++ [x].

Lemma absorb_loggable x bl :
  loggable st bl -> home x -> Z.of_nat (length bl) < LOGBLOCKS -> loggable st (absorb x bl).
Proof.
  intros (Hnd & Hh & Hl) Hx Hlt. unfold absorb. case_decide; [done|]. split_and!.
  - apply NoDup_app. split_and!; [done|set_solver|apply NoDup_singleton].
  - apply Forall_app. split; [done|by constructor].
  - rewrite length_app. simpl. lia.
Qed.

Lemma slot_blockno H P b i x : bio_inv d H P b -> slot d b i x -> b_blockno (bc_buf b !!! i) = x.
Proof. intros I S. by destruct (slot_buf d H P b i x I S) as (? & _ & -> & _ & <- & _). Qed.

(** The header update of [log_write]. *)
Lemma log_entry_update s x :
  log_at d st (lh_list s) s -> lh_n s < LOGBLOCKS -> home x ->
  let i := log_index x (lh_list s) in
  let s' := set_blocks (<[i := x]> (lh_block s)) s in
  if decide (x ∈ lh_list s) then (i < Z.to_nat (lh_n s))%nat /\ s' = s
  else i = Z.to_nat (lh_n s) /\ log_at d st (lh_list s ++ [x]) (set_n (lh_n s + 1) s').
Proof.
  intros L Hn Hx i s'. pose proof (log_at_length _ _ _ _ L) as Hlen.
  destruct L as [[Hdv Hs Hl] Hn' _ Hok].
  destruct (log_index_spec x (lh_list s)) as [[Hin Hi]|[Hout Hi]]; [apply Hok|..].
  - rewrite decide_True by done. split.
    + rewrite <- Hlen. by eapply lookup_lt_Some.
    + unfold s'. rewrite list_insert_id; [by destruct s|by apply lh_list_block].
  - rewrite decide_False by done. subst i s'. rewrite Hi, Hlen. split; [done|].
    split; [split; simpl; [done..|by rewrite length_insert]|simpl; lia| |].
    + unfold lh_list. simpl. rewrite Z2Nat.inj_add, Nat.add_comm by lia. simpl.
      rewrite (take_S_r _ _ x) by (apply list_lookup_insert_eq; lia).
      by rewrite take_insert_ge by lia.
    + pose proof (absorb_loggable x (lh_list s) Hok Hx) as Ha. unfold absorb in Ha.
      rewrite decide_False in Ha by done. apply Ha. lia.
Qed.

(** Re-establishing the invariant when [log.lock] is released. *)
Lemma log_inv_released H s s1 e :
  log_at d st (lh_list s1) s1 -> bio_inv d H (pinned (lh_list s1)) (lg_bio s1) ->
  log_holds st (io_disk (lg_bio s1)) [] -> lg_committing s1 = false -> 0 <= lg_outstanding s1 ->
  env_ok (io_env (lg_bio s)) -> env_same (push_env (io_env (lg_bio s))) (io_env (lg_bio s1)) ->
  env_same (io_env (lg_bio s)) e ->
  log_inv H (set_lglock initlock
    (set_bio (mkBio e (bc_lock (lg_bio s1)) (bc_buf (lg_bio s1)) (io_disk (lg_bio s1))) s1)).
Proof.
  intros [[] ? ? ?] I Hd Hc Ho Hok Hs He. split; [by split| |done..].
  apply bio_inv_pid; [done| |by eapply env_same_ok].
  destruct Hs as (_ & _ & _ & Hp & _), He as (_ & _ & _ & Hp' & _).
  rewrite Hp, Hp'. symmetry. apply push_env_fields.
Qed.

Lemma locked_bio_inv H s :
  log_inv H s -> bio_inv d H (pinned (lh_list s)) (lg_bio (locked_state s)).
Proof.
  intros L. simpl. apply bio_inv_pid; [apply L|apply push_env_fields|].
  by eapply push_env_ok, log_inv_env_ok.
Qed.

Lemma quiet_of_bufs H b b' :
  env_same (io_env b) (io_env b') -> bc_buf b' = bc_buf b -> io_disk b' = io_disk b ->
  quiet d H b b'.
Proof.
  intros He Hb Hd. split_and!; [|done|].
  - split; [done|]. intros i x _. unfold slot, cores. by rewrite Hb.
  - intros y. unfold BioSpec.blk, cores. by rewrite Hb, Hd.
Qed.

(** The first half of [log_write]'s last step: a new block is pinned. *)
Lemma wp_log_add H s i x k :
  log_inv H s -> slot d (lg_bio s) i x -> (x ∉ lh_list s) ->
  log_at d st (lh_list s ++ [x]) (set_n (lh_n s + 1) (set_blocks (<[k := x]> (lh_block s)) s)) ->
  wp ((lift (bpin i) ;; modify (fun s => set_n (lh_n s + 1) s)) ;; with_env log_lock release)
    (fun _ s' => log_inv H s' /\ lh_list s' = lh_list s ++ [x] /\
       lg_outstanding s' = lg_outstanding s /\ quiet d H (lg_bio s) (lg_bio s'))
    (set_blocks (<[k := x]> (lh_block s)) (locked_state s)).
Proof.
  intros L S Hx Hat. pose proof (locked_bio_inv H s L) as I.
  wp_step. wp_step. apply wp_lift.
  eapply wp_mono; [apply (wp_bpin d H (pinned (lh_list s)) (lg_bio (locked_state s)) i x)|].
  { done. } { done. } { unfold pinned. by rewrite elem_of_list_to_set. }
  intros [] b2 [I2 (F2 & D2 & B2)]. wp_step.
  eapply (wp_log_release s); [by eapply log_inv_env_ok|apply F2|done|].
  intros e He. set (s1 := set_n _ _).
  assert (lh_list s1 = lh_list s ++ [x]) as Hl by apply (la_list _ _ _ _ Hat).
  split_and!; [|done|done|].
  - eapply (log_inv_released H s s1); try done.
    + rewrite Hl. destruct Hat as [[] ? ? ?]. by split.
    + by rewrite Hl, pinned_app.
    + cbn [lg_bio s1 set_n set_bio set_blocks]. rewrite D2. apply L.
    + apply L.
    + apply L.
    + by eapply log_inv_env_ok.
    + apply F2.
  - split_and!; [|exact D2|exact B2]. split; [done|].
    intros j y Hy Sy. apply F2; [set_solver|done].
Qed.

Lemma wp_log_write H s i x :
  log_inv H s -> slot d (lg_bio s) i x -> x ∈ H -> home x ->
  1 <= lg_outstanding s -> lh_n s < LOGBLOCKS ->
  wp (log_write i) (fun _ s' => log_inv H s' /\ lh_list s' = absorb x (lh_list s) /\
    lg_outstanding s' = lg_outstanding s /\ quiet d H (lg_bio s) (lg_bio s')) s.
Proof.
  intros L S Hx Hh Ho Hn. pose proof (la_n _ _ _ _ (li_at _ _ L)) as Hn0.
  pose proof (log_entry_update s x (li_at _ _ L) Hn Hh) as Hup. unfold log_write.
  wp_step. apply wp_log_acquire; [apply L|]. wp_step. wp_step. cbv beta.
  cbn [lh_n locked_state set_lglock set_bio]. rewrite (proj2 (Z.leb_gt _ _)) by done.
  wp_step. wp_step. cbv beta. cbn [lg_outstanding locked_state set_lglock set_bio].
  rewrite (proj2 (Z.ltb_ge _ _)) by done.
  wp_step. apply wp_lift. unfold getb. wp_step.
  cbn [lg_bio locked_state set_lglock set_bio bc_buf].
  wp_step. wp_step. cbv beta. cbn [lh_block locked_state set_lglock set_bio].
  rewrite (slot_blockno _ _ _ _ _ (li_bio _ _ L) S), s32_small by (destruct Hh; lia).
  fold (lh_list s). set (k := log_index x (lh_list s)) in *.
  assert (0 <= Z.of_nat k < LOGBLOCKS) as Hk.
  { revert Hup. case_decide; intros [? _]; lia. }
  wp_step. eapply wp_intro; [by apply put_block_Ok|].
  rewrite Nat2Z.id. cbn [lh_block locked_state set_lglock set_bio].
  revert Hup. cbv zeta. unfold absorb. case_decide as Hin; intros [Hi Hup].
  - rewrite (proj2 (Z.eqb_neq _ _)) by lia. wp_step. apply wp_ret.
    apply (f_equal lh_block) in Hup. cbn [lh_block set_blocks] in Hup. rewrite Hup.
    eapply (wp_log_release s); [by eapply log_inv_env_ok|reflexivity|done|].
    intros e He. split_and!; [|done|done|by apply quiet_of_bufs].
    eapply (log_inv_released H s (locked_state s));
      [|exact (locked_bio_inv H s L)|apply L|apply L|apply L|by eapply log_inv_env_ok|done|done].
    destruct (li_at _ _ L) as [[] ? ? ?]. by split.
  - rewrite (proj2 (Z.eqb_eq _ _)) by lia.
    by apply wp_log_add.
Qed.

Lemma log_write_too_big s i :
  lg_lock s = initlock -> LOGBLOCKS <= lh_n s -> panics (log_write i) "too big a transaction" s.
Proof.
  intros Hl Hn. unfold panics, log_write.
  destruct (wp_Ok _ _ _ (wp_log_acquire s (fun _ s1 => s1 = locked_state s) Hl eq_refl))
    as ([] & s1 & E1 & ->).
  erewrite bind_Ok by done. unfold bind at 1, gets.
  cbn [lh_n locked_state set_lglock set_bio]. by rewrite (proj2 (Z.leb_le _ _)).
Qed.

(** ** end_op *)

(** Waking the threads waiting for log space. *)
Lemma wp_wakeup_log s Q :
  (forall b, b = mkBio (add_woken log_chan (io_env (lg_bio s))) (bc_lock (lg_bio s))
                   (bc_buf (lg_bio s)) (io_disk (lg_bio s)) -> Q tt (set_bio b s)) ->
  wp (in_env (wakeup log_chan)) Q s.
Proof. intros HQ. unfold in_env. apply wp_zoom, wp_modify. by apply HQ. Qed.

Lemma wp_end_op_more H s :
  log_inv H s -> 1 < lg_outstanding s ->
  wp end_op (fun _ s' => log_inv H s' /\ lh_list s' = lh_list s /\
    lg_outstanding s' = lg_outstanding s - 1 /\ quiet d H (lg_bio s) (lg_bio s')) s.
Proof.
  intros L Ho. unfold end_op. wp_step. apply wp_log_acquire; [apply L|].
  wp_step. wp_step. cbv beta. wp_step. wp_step. cbv beta.
  cbn [lg_committing locked_state set_lglock set_bio set_outstanding].
  rewrite (li_idle _ _ L). wp_step. wp_step. cbv beta.
  cbn [lg_outstanding locked_state set_lglock set_bio set_outstanding].
  rewrite (proj2 (Z.eqb_neq _ _)) by lia.
  wp_step. wp_step. apply wp_wakeup_log. intros b ->. wp_step. cbv beta.
  wp_step. eapply (wp_log_release s); [by eapply log_inv_env_ok|apply env_same_woken|done|].
  intros e He. apply wp_ret. split_and!; [|done|done|by apply quiet_of_bufs].
  set (s1 := set_bio _ (set_outstanding _ _)).
  apply (log_inv_released H s s1); [| |apply L|apply L|simpl; lia|
    by eapply log_inv_env_ok|apply env_same_woken|done].
  - destruct (li_at _ _ L) as [[] ? ? ?]. by split.
  - exact (bio_inv_env d H _ _ _ (locked_bio_inv H s L) (env_same_woken _ _)).
Qed.

(** The commit in [end_op], run with [log.committing] set. *)
Definition last_out (s : logst) : logst := set_committing true (set_outstanding 0 s).

Definition end_op_commit : M logst unit :=
  commit ;; with_env log_lock acquire ;; modify (set_committing false) ;;
  in_env (wakeup log_chan) ;; with_env log_lock release.

Lemma end_op_last_eq H s :
  log_inv H s -> lg_outstanding s = 1 ->
  exists e, env_same (io_env (lg_bio s)) e /\
    end_op s = end_op_commit (set_lglock initlock (set_bio (mkBio e (bc_lock (lg_bio s))
                 (bc_buf (lg_bio s)) (io_disk (lg_bio s))) (last_out s))).
Proof.
  intros L Ho.
  destruct (wp_Ok _ _ _ (wp_log_acquire s (fun _ s1 => s1 = locked_state s) (li_lock _ _ L) eq_refl))
    as ([] & s1 & E1 & ->).
  destruct (wp_Ok (with_env log_lock release) (fun _ s1 => exists e, env_same (io_env (lg_bio s)) e /\
      s1 = set_lglock initlock (set_bio (mkBio e (bc_lock (lg_bio s)) (bc_buf (lg_bio s))
             (io_disk (lg_bio s))) (last_out s))) (last_out (locked_state s)))
    as ([] & s2 & E2 & (e & He & ->)).
  { eapply (wp_log_release s); [by eapply log_inv_env_ok|reflexivity|done|eauto]. }
  exists e. split; [done|]. unfold end_op. rewrite (bind_Ok _ _ _ _ _ E1).
  unfold bind at 1 2 3, modify, gets.
  cbn [lg_committing lg_outstanding locked_state set_lglock set_bio set_outstanding].
  rewrite (li_idle _ _ L), Ho. change (1 - 1 =? 0) with true. cbv iota.
  rewrite (bind_Ok _ _ _ true (last_out (locked_state s))) by done.
  by rewrite (bind_Ok _ _ _ _ _ E2).
Qed.

Lemma wp_end_op_epilogue s (Q : unit -> logst -> Prop) :
  env_ok (io_env (lg_bio s)) -> lg_lock s = initlock ->
  (forall e, env_same (io_env (lg_bio s)) e ->
     Q tt (set_lglock initlock (set_committing false (set_bio (mkBio e (bc_lock (lg_bio s))
             (bc_buf (lg_bio s)) (io_disk (lg_bio s))) s)))) ->
  wp (with_env log_lock acquire ;; modify (set_committing false) ;;
      in_env (wakeup log_chan) ;; with_env log_lock release) Q s.
Proof.
  intros Hok Hl HQ. wp_step. apply wp_log_acquire; [done|].
  wp_step. wp_step. cbv beta. wp_step. apply wp_wakeup_log. intros b ->.
  eapply (wp_log_release s); [done|apply env_same_woken|done|].
  intros e He. apply (HQ e He).
Qed.

(** What the last [end_op] of a transaction [bl] does to the disk. *)
Definition tx_written (bl : list Z) (b b' : bio) : Prop :=
  bl = [] /\ io_disk b' = io_disk b \/ committed d st bl b b'.

Lemma clean_outside bl b y :
  bio_inv d ∅ (pinned bl) b -> (y ∉ bl) -> blk b y = disk_read (io_disk b) y.
Proof.
  intros I Hy. eapply blk_clean; [done|set_solver|].
  unfold pinned. by rewrite elem_of_list_to_set.
Qed.

Lemma tx_written_done bl b b' :
  bio_inv d ∅ (pinned bl) b -> loggable st bl -> log_holds st (io_disk b) [] ->
  disk_ok (io_disk b') -> tx_written bl b b' ->
  log_holds st (io_disk b') [] /\ same_home st (disk_read (io_disk b')) (blk b).
Proof.
  intros I Hl Hh Hok [[-> Hd]|(hd1 & hd0 & H1 & H0 & Hd)]; rewrite Hd in *.
  - split; [done|]. intros y Hy. symmetry. apply (clean_outside []); [done|set_solver].
  - apply disk_ok_app in Hok as [Hok _].
    edestruct (commit_done st (io_disk b) bl (blk b) hd1 hd0) as [_ ?]; try done.
    intros y _ Hy. by eapply clean_outside.
Qed.

Lemma tx_written_crash bl b b' c :
  bio_inv d ∅ (pinned bl) b -> loggable st bl -> log_holds st (io_disk b) [] ->
  disk_ok (io_disk b') -> tx_written bl b b' ->
  io_disk b `suffix_of` c -> c `suffix_of` io_disk b' ->
  (exists bl', log_holds st c bl') /\
  (same_home st (logical st c) (disk_read (io_disk b)) \/ same_home st (logical st c) (blk b)).
Proof.
  intros I Hl Hh Hok Hw Hc1 Hc2.
  assert (same_home st (logical st (io_disk b)) (disk_read (io_disk b))) as Hlog.
  { intros y _. by apply logical_empty. }
  destruct Hw as [[-> Hd]|(hd1 & hd0 & H1 & H0 & Hd)].
  - rewrite Hd in Hc2. assert (c = io_disk b) as -> by by apply (anti_symm suffix).
    split; [by eexists|by left].
  - rewrite Hd in Hc2, Hok. apply disk_ok_app in Hok as [Hok _].
    destruct (commit_crash st (io_disk b) bl (blk b) hd1 hd0 c) as [? [Hs|Hs]]; try done.
    + intros y _ Hy. by eapply clean_outside.
    + split; [done|]. left. by rewrite Hs.
    + split; [done|]. by right.
Qed.

Lemma wp_end_op_last s :
  log_inv ∅ s -> lg_outstanding s = 1 -> (length (lh_list s) < NBUF)%nat ->
  wp end_op (fun _ s' => log_inv ∅ s' /\ lh_list s' = [] /\ lg_outstanding s' = 0 /\
    env_same (io_env (lg_bio s)) (io_env (lg_bio s')) /\
    tx_written (lh_list s) (lg_bio s) (lg_bio s') /\
    (forall y, ~ in_log y -> blk (lg_bio s') y = blk (lg_bio s) y)) s.
Proof.
  intros L Ho Hroom. destruct (end_op_last_eq ∅ s L Ho) as (e & He & Heq).
  eapply wp_eq; [exact Heq|]. set (s1 := set_lglock _ _). unfold end_op_commit.
  pose proof (log_inv_bio_env ∅ s e L He) as I1.
  wp_step. wp_use (wp_commit d st (lh_list s) s1); [|done..|].
  { destruct (li_at _ _ L) as [[] ? ? ?]. by split. }
  intros [] s2 (b2 & -> & I2 & E2 & W2 & B2). change (lg_bio s1) with
    (mkBio e (bc_lock (lg_bio s)) (bc_buf (lg_bio s)) (io_disk (lg_bio s))) in *.
  assert (tx_written (lh_list s) (lg_bio s) b2) as W2' by exact W2.
  assert (disk_ok (io_disk b2)) as Hok by apply I2.
  destruct (tx_written_done (lh_list s) (lg_bio s) b2) as [Hh _];
    [apply L|apply (la_ok _ _ _ _ (li_at _ _ L))|apply L|done..|].
  apply wp_end_op_epilogue; [apply I2|done|].
  intros e' He'. split_and!; [|done|done| |done|done].
  - split; try done.
    + split; [|simpl; unfold LOGBLOCKS, MAXOPBLOCKS; lia|done|apply loggable_nil].
      destruct (li_at _ _ L) as [[] ? ? ?]. by split.
    + exact (bio_inv_env d ∅ ∅ _ _ I2 He').
  - simpl. etransitivity; [done|]. etransitivity; [apply E2|done].
Qed.

(** ** Reboot *)

(** What main() runs before the first process, as far as the log goes. *)
Definition log_reboot (sb : superblock) : M logst unit :=
  lift binit ;; initlog d sb.

Lemma wp_initlog_inv bl s sb :
  sb_logstart sb = st -> length (lh_block s) = Z.to_nat LOGBLOCKS -> lg_outstanding s = 0 -> lg_committing s = false ->
  bio_inv d ∅ ∅ (lg_bio s) -> log_holds st (io_disk (lg_bio s)) bl ->
  wp (initlog d sb) (fun _ s' => log_inv ∅ s' /\ lh_list s' = [] /\ lg_outstanding s' = 0 /\
    env_same (io_env (lg_bio s)) (io_env (lg_bio s')) /\
    same_home st (blk (lg_bio s')) (logical st (io_disk (lg_bio s))) /\
    exists hd0, head_is hd0 [] /\ io_disk (lg_bio s') = recover_trace st (io_disk (lg_bio s)) bl hd0 ++ io_disk (lg_bio s)) s.
Proof.
  intros Hsb Hlen Ho0 Hc0 I Hh. wp_use (wp_initlog d st bl s sb); [done..|].
  intros [] s' (L & Hl & Ho & Hc & I' & E' & (hd0 & H0 & D')).
  assert (disk_ok (io_disk (lg_bio s'))) as Hok by apply I'.
  rewrite D' in Hok. apply disk_ok_app in Hok as [Hok _].
  destruct (recover_done st (io_disk (lg_bio s)) bl hd0 Hh Hok H0) as [Hh' Hs].
  assert (lh_list s' = []) as Hnil by apply (la_list _ _ _ _ L).
  split_and!; [|done|congruence|done| |by eauto].
  - split; rewrite ?Hnil; try done; [by rewrite D'|congruence|by rewrite Ho, Ho0].
  - rewrite <- Hs. intros y Hy. rewrite (blk_clean d ∅ ∅) by (done || set_solver).
    by rewrite D'.
Qed.

Lemma wp_log_reboot e c bl sb :
  sb_logstart sb = st -> env_ok e -> log_holds st c bl ->
  wp (log_reboot sb) (fun _ s => log_inv ∅ s /\ lh_list s = [] /\ lg_outstanding s = 0 /\
    env_same e (io_env (lg_bio s)) /\
    same_home st (blk (lg_bio s)) (logical st c) /\
    exists hd0, head_is hd0 [] /\ io_disk (lg_bio s) = recover_trace st c bl hd0 ++ c)
    (log_boot e c).
Proof.
  intros Hsb He Hh. unfold log_reboot. wp_step. apply wp_lift.
  pose proof geom_dev as Hd0.
  wp_use (binit_spec d); [done|lia|apply Hh|].
  intros [] b (I & D & E & B). subst e c.
  by apply (wp_initlog_inv bl (set_bio b (log_boot (io_env b) (io_disk b))) sb).
Qed.

(** ** Cache operations inside a transaction *)

(** What an operation on the cache alone leaves: the transaction, the
    disk and the blocks in [H]. *)
Definition tx_quiet (H : gset Z) (s s' : logst) : Prop :=
  lh_list s' = lh_list s /\ lg_outstanding s' = lg_outstanding s /\
  quiet d H (lg_bio s) (lg_bio s').

#[export] Instance tx_quiet_preorder H : PreOrder (tx_quiet H).
Proof.
  split.
  - intros s. split_and!; [done..|reflexivity].
  - intros s1 s2 s3 (? & ? & ?) (? & ? & ?).
    split_and!; [congruence..|]. by etransitivity.
Qed.

Lemma tx_quiet_weaken H H' s s' : H' ⊆ H -> tx_quiet H s s' -> tx_quiet H' s s'.
Proof. intros Hs (? & ? & ?). split_and!; [done..|]. by eapply quiet_weaken. Qed.

Lemma log_inv_set_bio H H' s b :
  log_inv H s -> bio_inv d H' (pinned (lh_list s)) b -> io_disk b = io_disk (lg_bio s) ->
  log_inv H' (set_bio b s).
Proof.
  intros [L I K D C O] Ib Hb. split; try done; [by apply log_at_bio|]. simpl. by rewrite Hb.
Qed.

Lemma wp_tx_bread H s x :
  log_inv H s -> (x ∉ H) ->
  (size (H ∪ pinned (lh_list s)) < NBUF)%nat \/ x ∈ lh_list s ->
  wp (lift (bread d x)) (fun i s' => log_inv ({[x]} ∪ H) s' /\ slot d (lg_bio s') i x /\
    tx_quiet H s s') s.
Proof.
  intros L Hx Hsz. apply wp_lift. wp_use wp_bread; [apply L|done| |].
  { unfold pinned. by rewrite elem_of_list_to_set. }
  intros i b (I & S & Q). split_and!; [|done|].
  - eapply log_inv_set_bio; [done|done|apply Q].
  - split_and!; [done..|]. eapply quiet_weaken; [|done]. set_solver.
Qed.

Lemma wp_tx_bdata H s i x Q :
  log_inv H s -> slot d (lg_bio s) i x -> Q (blk (lg_bio s) x) s -> wp (lift (bdata i)) Q s.
Proof.
  intros L S HQ. apply wp_lift. eapply wp_bdata; [apply L|done|]. by destruct s.
Qed.

Lemma wp_tx_set_bdata H s i x v :
  log_inv H s -> slot d (lg_bio s) i x -> x ∈ H -> length v = bsize -> Forall is_byte v ->
  wp (lift (set_bdata i v)) (fun _ s' => log_inv H s' /\ lh_list s' = lh_list s /\
    lg_outstanding s' = lg_outstanding s /\ bframe d H (lg_bio s) (lg_bio s') /\
    io_disk (lg_bio s') = io_disk (lg_bio s) /\
    (forall y, blk (lg_bio s') y = if decide (y = x) then v else blk (lg_bio s) y)) s.
Proof.
  intros L S Hx Hl Hv. apply wp_lift. wp_use wp_set_bdata; [apply L|done..|].
  intros [] b (I & F & D & B). split_and!; try done.
  - by eapply log_inv_set_bio.
  - eapply bframe_weaken; [|done]. set_solver.
Qed.

Lemma wp_tx_brelse H s i x :
  log_inv H s -> slot d (lg_bio s) i x -> x ∈ H ->
  x ∈ lh_list s \/ blk (lg_bio s) x = disk_read (io_disk (lg_bio s)) x ->
  wp (lift (brelse i)) (fun _ s' => log_inv (H ∖ {[x]}) s' /\ tx_quiet (H ∖ {[x]}) s s') s.
Proof.
  intros L S Hx Hc. apply wp_lift. wp_use wp_brelse; [apply L|done|done| |].
  { unfold pinned. by rewrite elem_of_list_to_set. }
  intros [] b (I & Q). split.
  - eapply log_inv_set_bio; [done|done|apply Q].
  - split_and!; [done..|]. eapply quiet_weaken; [|done]. set_solver.
Qed.
End tx.
