(* ===== verification/LogProps.v ===== *)
(** * Crash safety of the log

    The theorems about log.c: a system call's writes reach the file system
    all together or not at all, wherever the machine stops, and recovery can
    itself be interrupted any number of times.  *)

From S2P Require Import Prelude Param Spinlock Sleeplock Bio BioSpec BioOps Log LogDisk LogOps LogTx.

(** ** A full cache *)

Section full.
Context (d : Z).

Lemma slots_of H P s (l : list Z) :
  bio_inv d H P s -> Forall (fun x => x ∈ H ∪ P) l ->
  exists idx, Forall2 (slot d s) idx l.
Proof.
  intros I. induction 1 as [|x l Hx _ [idx IH]]; [by exists []|].
  destruct (held_slot d H P s x I Hx) as [i Hi]. exists (i :: idx). by constructor.
Qed.

Lemma slot_inj s i x y : slot d s i x -> slot d s i y -> x = y.
Proof. intros (b & Hb & _ & <-) (b' & Hb' & _ & <-). by simplify_eq. Qed.

Lemma slots_NoDup s idx l : Forall2 (slot d s) idx l -> NoDup l -> NoDup idx.
Proof.
  induction 1 as [|i x idx l Hs HF IH]; intros Hnd; [constructor|].
  apply NoDup_cons in Hnd as [Hx Hnd]. apply NoDup_cons. split; [|auto].
  intros Hin. apply list_elem_of_lookup_1 in Hin as [k Hk].
  destruct (Forall2_lookup_l _ _ _ _ _ HF Hk) as (y & Hy & Hs').
  apply Hx. rewrite (slot_inj s i x y) by done. by eapply list_elem_of_lookup_2.
Qed.

(** When as many blocks are in use as there are buffers, every buffer caches
    one of them. *)
Lemma cache_exhausted H P s i :
  bio_inv d H P s -> (NBUF <= size (H ∪ P))%nat -> (i < NBUF)%nat ->
  exists y, y ∈ H ∪ P /\ slot d s i y.
Proof.
  intros I Hsz Hi. destruct (slots_of H P s (elements (H ∪ P)) I) as [idx HF].
  { apply Forall_forall. intros x. by rewrite elem_of_elements. }
  assert (NoDup idx) as Hnd by (eapply slots_NoDup; [done|apply NoDup_elements]).
  pose proof (Forall2_length _ _ _ HF) as Hlen.
  assert (idx ⊆+ seq 0 NBUF) as Hsub.
  { apply NoDup_submseteq; [done|]. intros j Hj.
    apply list_elem_of_lookup_1 in Hj as [k Hk].
    destruct (Forall2_lookup_l _ _ _ _ _ HF Hk) as (y & _ & Hs).
    destruct (slot_lt d H P s j y I Hs). apply elem_of_seq. unfold head in *. lia. }
  assert (i ∈ idx) as Hin.
  { rewrite (submseteq_length_Permutation _ _ Hsub), elem_of_seq; [lia|].
    rewrite length_seq, Hlen. done. }
  apply list_elem_of_lookup_1 in Hin as [k Hk].
  destruct (Forall2_lookup_l _ _ _ _ _ HF Hk) as (y & Hy & Hs). exists y. split; [|done].
  apply elem_of_elements. by eapply list_elem_of_lookup_2.
Qed.

Lemma bread_exhausted H P s x :
  bio_inv d H P s -> (NBUF <= size (H ∪ P))%nat -> (x ∉ H ∪ P) ->
  bread d x s = Panic "bget: no buffers".
Proof.
  intros I Hsz Hx. apply (bget_full_panics d H P); [done| |].
  - intros i Hs. destruct (slot_lt d H P s i x I Hs). destruct (cache_exhausted H P s i) as (y & Hy & Hs');
      [done..|unfold head in *; lia|]. by rewrite (slot_inj s i x y) in Hx.
  - intros i Hi. destruct (cache_exhausted H P s i) as (y & Hy & Hs); [done..|].
    destruct (slot_buf d H P s i y I Hs) as (b & _ & -> & Hd & Hb & _ & _ & [(_ & _ & Hr & _)|(Hz & _)]).
    + change (b_refcnt (core ?b)) with (b_refcnt b) in Hr. rewrite Hr, Hb. unfold refs.
      apply elem_of_union in Hy. repeat case_decide; naive_solver lia.
    + destruct (bi_dev _ _ _ _ I). congruence.
Qed.
End full.

(** ** A transaction, end to end *)

Section props.
Context (d st : Z) {G : LogGeom d st}.
#[local] Abbreviation blk := (blk d).

(** One crash while recovering from the image [c]: the machine booted, ran
    some of the disk writes of recovery, and stopped at [c']. *)
Definition crash_in_recovery (c c' : disk) : Prop :=
  exists e sb s', env_ok e /\ sb_logstart sb = st /\
    log_reboot d sb (log_boot e c) = Ok tt s' /\
    c `suffix_of` c' /\ c' `suffix_of` io_disk (lg_bio s').

Lemma crash_in_recovery_same c c' bl :
  log_holds st c bl -> crash_in_recovery c c' ->
  (exists bl', log_holds st c' bl') /\ same_home st (logical st c') (logical st c).
Proof.
  intros Hh (e & sb & s' & He & Hsb & Hrun & Hc1 & Hc2).
  destruct (wp_Ok _ _ _ (wp_log_reboot d st e c bl sb Hsb He Hh))
    as ([] & s'' & Hrun' & L & _ & _ & _ & _ & hd0 & H0 & D).
  rewrite Hrun in Hrun'. injection Hrun' as <-. rewrite D in Hc2.
  eapply recover_crash; [done| |done..].
  assert (disk_ok (io_disk (lg_bio s'))) as Hok by apply L.
  rewrite D in Hok. by apply disk_ok_app in Hok as [? _].
Qed.

Lemma crashes_in_recovery_same c c' bl :
  log_holds st c bl -> rtc crash_in_recovery c c' ->
  (exists bl', log_holds st c' bl') /\ same_home st (logical st c') (logical st c).
Proof.
  intros Hh Hr. revert bl Hh. induction Hr as [c|c1 c2 c3 Hs _ IH]; intros bl Hh.
  - split; [by eexists|done].
  - destruct (crash_in_recovery_same _ _ _ Hh Hs) as [[bl2 H2] S2].
    destruct (IH bl2 H2) as [? S3]. split; [done|]. by rewrite S3.
Qed.

(** Boot from any image with a well-formed log. *)
Definition boots_to (c : disk) (v : Z -> block) : Prop :=
  forall e sb, env_ok e -> sb_logstart sb = st ->
  exists s, log_reboot d sb (log_boot e c) = Ok tt s /\ log_inv d st ∅ s /\
            lg_outstanding s = 0 /\ same_home st (blk (lg_bio s)) v.

Lemma boots_logical c bl v :
  log_holds st c bl -> same_home st (logical st c) v -> boots_to c v.
Proof.
  intros Hh Hv e sb He Hsb.
  destruct (wp_Ok _ _ _ (wp_log_reboot d st e c bl sb Hsb He Hh))
    as ([] & s & Hrun & L & _ & Ho & _ & Hs & _).
  exists s. split_and!; [done..|]. by rewrite Hs.
Qed.
End props.

(** ** Log space

    Threads interleave: between two operations on the log, anything may
    happen to the cache and the running thread changes ([ls_other]).  Each
    operation between [begin_op] and [end_op] has a budget of [MAXOPBLOCKS]
    calls of [log_write]; [rem] lists what is left of the budgets. *)

Definition space := (logst * list Z)%type.

Inductive lstep : space -> space -> Prop :=
| ls_other s b rem : lstep (s, rem) (set_bio b s, rem)
| ls_begin s s' rem :
    begin_op s = Ok tt s' -> lstep (s, rem) (s', MAXOPBLOCKS :: rem)
| ls_write s s' i l1 k l2 :
    0 < k -> log_write i s = Ok tt s' -> lstep (s, l1 ++ k :: l2) (s', l1 ++ (k - 1) :: l2)
| ls_end s s' l1 k l2 :
    end_op s = Ok tt s' -> lstep (s, l1 ++ k :: l2) (s', l1 ++ l2).

(** The part of the log the space argument is about. *)
Definition counts (s : logst) : Z * Z := (lh_n s, lg_outstanding s).

Lemma keeps_lift {A} (m : M bio A) : keeps counts (lift m).
Proof. apply keeps_zoom. done. Qed.

Lemma keeps_with_lock {A} (m : M (kenv * spinlock) A) : keeps counts (with_env log_lock m).
Proof. apply keeps_with_env. done. Qed.

Lemma keeps_in_env {A} (m : M kenv A) : keeps counts (in_env m : M logst A).
Proof. apply keeps_zoom. done. Qed.

Lemma keeps_put_block i v : keeps counts (put_block i v).
Proof. unfold put_block. case_match; [by apply keeps_modify|by intros ? ? ?]. Qed.

#[local] Hint Resolve keeps_lift keeps_with_lock keeps_in_env keeps_put_block : keeps.

Lemma keeps_install r : keeps counts (install_trans r).
Proof. unfold install_trans, install_one, get_block. keeps_auto. Qed.

Lemma keeps_write_log : keeps counts write_log.
Proof. unfold write_log, write_log_one, get_block. keeps_auto. Qed.

Lemma keeps_write_head : keeps counts write_head.
Proof. unfold write_head, get_block. keeps_auto. Qed.

Lemma counts_eq s s' : counts s' = counts s -> lh_n s' = lh_n s /\ lg_outstanding s' = lg_outstanding s.
Proof. by intros [= -> ->]. Qed.

Lemma begin_op_counts s s' :
  begin_op s = Ok tt s' ->
  lh_n s + (lg_outstanding s + 1) * MAXOPBLOCKS <= LOGBLOCKS /\
  lh_n s' = lh_n s /\ lg_outstanding s' = lg_outstanding s + 1.
Proof.
  intros H. unfold begin_op in H. inv_bind H as u s1 E1. apply keeps_with_lock in E1.
  apply counts_eq in E1 as [<- <-]. inv_bind H as s2 s3 E2. injection E2 as <- <-.
  case_match; [inv_bind H as u' s4 E4; done|].
  case_match eqn:Er; [inv_bind H as u' s4 E4; done|].
  inv_bind H as u' s4 E4. injection E4 as _ <-. apply keeps_with_lock in H.
  apply counts_eq in H as [-> ->]. simpl. apply Z.ltb_ge in Er. lia.
Qed.

Lemma log_write_counts i s s' :
  log_write i s = Ok tt s' ->
  lh_n s <= lh_n s' <= lh_n s + 1 /\ lg_outstanding s' = lg_outstanding s.
Proof.
  intros H. unfold log_write in H. inv_bind H as u s1 E1. apply keeps_with_lock in E1.
  apply counts_eq in E1 as [<- <-]. inv_bind H as n s2 E2. injection E2 as <- <-.
  case_match; [done|]. inv_bind H as o s2 E2. injection E2 as <- <-.
  case_match; [done|]. inv_bind H as x s2 E2. apply keeps_lift in E2.
  apply counts_eq in E2 as [<- <-]. inv_bind H as bl s3 E3. injection E3 as <- <-.
  inv_bind H as u1 s3 E3. apply keeps_put_block in E3. apply counts_eq in E3 as [<- <-].
  inv_bind H as u2 s4 E4. apply keeps_with_lock in H. apply counts_eq in H as [-> ->].
  case_match; [|injection E4 as _ <-; lia].
  inv_bind E4 as u3 s5 E5. apply keeps_lift in E5. apply counts_eq in E5 as [<- <-].
  injection E4 as _ <-. simpl. lia.
Qed.

Lemma commit_counts s s' :
  commit s = Ok tt s' ->
  (lh_n s' = lh_n s \/ lh_n s' = 0) /\ lg_outstanding s' = lg_outstanding s.
Proof.
  intros H. unfold commit in H. inv_bind H as n s1 E1. injection E1 as <- <-.
  case_match; [|injection H as <-; auto].
  inv_bind H as u1 s1 E1. apply keeps_write_log in E1. apply counts_eq in E1 as [<- <-].
  inv_bind H as u2 s2 E2. apply keeps_write_head in E2. apply counts_eq in E2 as [<- <-].
  inv_bind H as u3 s3 E3. apply keeps_install in E3. apply counts_eq in E3 as [<- <-].
  inv_bind H as u4 s4 E4. injection E4 as _ <-. apply keeps_write_head in H.
  apply counts_eq in H as [-> ->]. auto.
Qed.

Lemma end_op_counts s s' :
  end_op s = Ok tt s' ->
  (lh_n s' = lh_n s \/ lh_n s' = 0) /\ lg_outstanding s' = lg_outstanding s - 1.
Proof.
  intros H. unfold end_op in H. inv_bind H as u s1 E1. apply keeps_with_lock in E1.
  apply counts_eq in E1 as [<- <-]. inv_bind H as u1 s2 E2. injection E2 as _ <-.
  inv_bind H as c s2 E2. injection E2 as <- <-. case_match; [done|].
  inv_bind H as o s2 E2. injection E2 as <- <-. inv_bind H as b s2 E2.
  assert (lh_n s2 = lh_n s1 /\ lg_outstanding s2 = lg_outstanding s1 - 1) as [<- <-].
  { revert E2. destruct (Z.eqb _ _); intros E2; inv_bind E2 as u2 s3 E3; injection E2 as _ <-.
    - by injection E3 as _ <-.
    - apply keeps_in_env in E3. by apply counts_eq in E3 as [-> ->]. }
  inv_bind H as u3 s3 E3. apply keeps_with_lock in E3. apply counts_eq in E3 as [<- <-].
  case_match; [|injection H as <-; auto].
  inv_bind H as u4 s4 E4. destruct u4. apply commit_counts in E4 as [E4 <-].
  inv_bind H as u5 s5 E5. apply keeps_with_lock in E5. apply counts_eq in E5 as [E5 <-].
  inv_bind H as u6 s6 E6. injection E6 as _ <-.
  inv_bind H as u7 s7 E7. apply keeps_in_env in E7. apply counts_eq in E7 as [E7 E7'].
  apply keeps_with_lock in H. apply counts_eq in H as [-> ->]. simpl in *.
  rewrite E7, E7', E5. auto.
Qed.

(** Enough space is reserved for what every admitted operation may still
    write. *)
Definition reserved (c : space) : Prop :=
  let '(s, rem) := c in
  0 <= lh_n s /\ lg_outstanding s = Z.of_nat (length rem) /\
  Forall (fun k => 0 <= k <= MAXOPBLOCKS) rem /\ lh_n s + foldr Z.add 0 rem <= LOGBLOCKS.

Lemma sum_app l1 l2 : foldr Z.add 0 (l1 ++ l2) = foldr Z.add 0 l1 + foldr Z.add 0 l2.
Proof. induction l1; simpl; lia. Qed.

Lemma sum_budget l :
  Forall (fun k => 0 <= k <= MAXOPBLOCKS) l ->
  0 <= foldr Z.add 0 l <= Z.of_nat (length l) * MAXOPBLOCKS.
Proof. induction 1; simpl; lia. Qed.

Lemma reserved_step c c' : lstep c c' -> reserved c -> reserved c'.
Proof.
  intros [s b rem|s s' rem H|s s' i l1 k l2 Hk H|s s' l1 k l2 H]; simpl;
    intros (Hn & Ho & Hf & Hr).
  - done.
  - apply begin_op_counts in H as (Hroom & -> & ->). pose proof (sum_budget rem Hf).
    split_and!; [done|lia| |lia]. constructor; [unfold MAXOPBLOCKS; lia|done].
  - apply log_write_counts in H as (Hw & ->). rewrite Ho.
    rewrite !length_app, !sum_app in *. simpl in *.
    apply Forall_app in Hf as [Hf1 Hf2]. inversion Hf2; subst.
    split_and!; [lia|lia| |lia]. apply Forall_app. split; [done|]. constructor; [lia|done].
  - apply end_op_counts in H as (Hw & ->).
    rewrite !length_app, !sum_app in *. simpl in *.
    apply Forall_app in Hf as [Hf1 Hf2]. inversion Hf2 as [|? ? Hb Hf3]; subst.
    pose proof (sum_budget l1 Hf1). pose proof (sum_budget l2 Hf3).
    split_and!; [lia|lia| |lia]. by apply Forall_app.
Qed.

(** ** A concrete machine, for the witnesses *)

Module Demo.

Definition env0 : kenv := mkKenv 0 0 false true 1 false [] [].
Definition sb0 : superblock := mkSb FSMAGIC 2000 1953 200 31 2 33 46.

#[export] Instance geom0 : LogGeom 1 2.
Proof. split; [lia|unfold LOGBLOCKS, MAXOPBLOCKS; lia]. Qed.

Lemma env0_ok : env_ok env0.
Proof. split; simpl; lia. Qed.

(** A zeroed disk has an empty log. *)
Lemma zero_log : log_holds 2 [] [].
Proof. split_and!; [constructor| |apply loggable_nil]. split; [by vm_compute|]. intros k x. by rewrite lookup_nil. Qed.

(** Modify block [x] inside a transaction, as the file system does. *)
Definition touch (x : Z) : M logst unit :=
  i <- lift (bread 1 x) ;;
  lift (set_bdata i zero_block) ;;
  log_write i ;;
  lift (brelse i).

Lemma wp_touch s x :
  log_inv 1 2 ∅ s -> home 2 x -> 1 <= lg_outstanding s -> lh_n s < LOGBLOCKS ->
  (length (lh_list s) < NBUF)%nat ->
  wp (touch x) (fun _ s' => log_inv 1 2 ∅ s' /\ lh_list s' = absorb x (lh_list s) /\
                            lg_outstanding s' = lg_outstanding s) s.
Proof.
  intros L Hx Ho Hn Hroom. unfold touch. wp_step.
  assert (size (pinned (lh_list s)) < NBUF)%nat as Hsz.
  { rewrite pinned_size; [done|apply (li_at _ _ _ _ L)]. }
  wp_use (wp_tx_bread 1 2); [done|set_solver|left; by rewrite union_empty_l_L|].
  intros i s1 (L1 & S1 & (Hl1 & Ho1 & Q1)).
  wp_step. wp_use (wp_tx_set_bdata 1 2); [done..|set_solver|apply zero_block_length|apply zero_block_bytes|].
  intros [] s2 (L2 & Hl2 & Ho2 & F2 & _). keep F2 S1.
  assert (lh_n s2 = lh_n s) as Hn2.
  { pose proof (log_at_length _ _ _ _ (li_at _ _ _ _ L)). pose proof (log_at_length _ _ _ _ (li_at _ _ _ _ L2)).
    pose proof (la_n _ _ _ _ (li_at _ _ _ _ L)). pose proof (la_n _ _ _ _ (li_at _ _ _ _ L2)).
    rewrite Hl2, Hl1 in *. lia. }
  wp_step. wp_use (wp_log_write 1 2); [done..|set_solver|done|lia|lia|].
  intros [] s3 (L3 & Hl3 & Ho3 & (F3 & _)). keep F3 S1. rewrite Hl2, Hl1 in Hl3.
  wp_use (wp_tx_brelse 1 2); [done..|set_solver| |].
  { left. rewrite Hl3. unfold absorb. case_decide; [done|]. set_solver. }
  intros [] s4 (L4 & (Hl4 & Ho4 & _)). split_and!; [|congruence..].
  by replace (∅ : gset Z) with (({[x]} ∪ ∅) ∖ {[x]} : gset Z) by set_solver.
Qed.

(** The blocks [100, 101, ...] logged one after the other. *)
Lemma wp_touches n s :
  log_inv 1 2 ∅ s -> 1 <= lg_outstanding s -> lh_list s = seqZ 100 (Z.of_nat n) ->
  forall m, (n + m <= NBUF)%nat ->
  wp (for_each (seqZ (100 + Z.of_nat n) (Z.of_nat m)) touch)
     (fun _ s' => log_inv 1 2 ∅ s' /\ lg_outstanding s' = lg_outstanding s /\
                  lh_list s' = seqZ 100 (Z.of_nat (n + m))) s.
Proof.
  intros L Ho Hl m. revert n s L Ho Hl. induction m as [|m IH]; intros n s L Ho Hl Hm.
  - simpl. apply wp_ret. by rewrite Nat.add_0_r.
  - rewrite seqZ_cons by lia. replace (Z.succ (100 + Z.of_nat n)) with (100 + Z.of_nat (S n)) by lia.
    replace (Z.pred (Z.of_nat (S m))) with (Z.of_nat m) by lia. cbn [for_each].
    pose proof (log_at_length _ _ _ _ (li_at _ _ _ _ L)) as Hlen.
    pose proof (la_n _ _ _ _ (li_at _ _ _ _ L)). rewrite Hl, length_seqZ in Hlen.
    unfold NBUF in Hm.
    wp_step. wp_use wp_touch; [done| |done|unfold LOGBLOCKS, MAXOPBLOCKS; lia| |].
    { unfold home, in_log, LOGBLOCKS, MAXOPBLOCKS. lia. }
    { rewrite Hl, length_seqZ. unfold NBUF. lia. }
    intros [] s1 (L1 & Hl1 & Ho1). wp_use (IH (S n) s1); [done|lia| |unfold NBUF; lia|].
    + rewrite Hl1, Hl. unfold absorb. rewrite decide_False by (rewrite elem_of_seqZ; lia).
      by rewrite Nat2Z.inj_succ, <- Z.add_1_r, seqZ_app by lia.
    + intros [] s2 (L2 & Ho2 & Hl2). split_and!; [done|congruence|].
      rewrite Hl2. f_equal. lia.
Qed.

(** Boot, and start one operation that logs [n] blocks. *)
Definition run (n : nat) : M logst unit :=
  log_reboot 1 sb0 ;; begin_op ;; for_each (seqZ 100 (Z.of_nat n)) touch.

Lemma run_spec n :
  (n <= NBUF)%nat ->
  exists s, run n (log_boot env0 []) = Ok tt s /\ log_inv 1 2 ∅ s /\
    lg_outstanding s = 1 /\ length (lh_list s) = n.
Proof.
  intros Hn.
  enough (wp (run n) (fun _ s => log_inv 1 2 ∅ s /\ lg_outstanding s = 1 /\
            length (lh_list s) = n) (log_boot env0 [])) as Hw.
  { apply wp_Ok in Hw as ([] & s & ?). eauto. }
  unfold run. wp_step. wp_use (wp_log_reboot 1 2 env0 [] [] sb0); [done|apply env0_ok|apply zero_log|].
  intros [] s1 (L1 & Hl1 & Ho1 & _).
  assert (lh_n s1 = 0) as Hn1.
  { pose proof (log_at_length _ _ _ _ (li_at _ _ _ _ L1)) as H1.
    pose proof (la_n _ _ _ _ (li_at _ _ _ _ L1)). rewrite Hl1 in H1. simpl in H1. lia. }
  wp_step. wp_use (wp_begin_op 1 2); [done|rewrite Hn1, Ho1; unfold LOGBLOCKS, MAXOPBLOCKS; lia|].
  intros [] s2 (L2 & (Hl2 & _) & Ho2).
  wp_use (wp_touches 0 s2); [done|lia|by rewrite Hl2|done|].
  intros [] s3 (L3 & Ho3 & Hl3). split_and!; [done|lia|]. rewrite Hl3, length_seqZ. lia.
Qed.
End Demo.
#[local] Existing Instance Demo.geom0.

(** ** The properties *)

(** C1: crash atomicity.  The last [end_op] of a transaction returns, leaves
    an empty log and the transaction's contents at home on disk; and wherever
    the machine stops during it (every write of [commit] may be the last one),
    also if it then stops any number of times during recovery, the next boot
    succeeds and finds either none or all of the transaction's writes. *)
Theorem transaction_crash_atomic d st (G : LogGeom d st) s :
  log_inv d st ∅ s -> lg_outstanding s = 1 -> (length (lh_list s) < NBUF)%nat ->
  exists s', end_op s = Ok tt s' /\ log_inv d st ∅ s' /\ lh_list s' = [] /\
    lg_outstanding s' = 0 /\
    same_home st (disk_read (io_disk (lg_bio s'))) (blk d (lg_bio s)) /\
    forall c c', io_disk (lg_bio s) `suffix_of` c -> c `suffix_of` io_disk (lg_bio s') ->
      rtc (crash_in_recovery d st) c c' ->
      boots_to d st c' (disk_read (io_disk (lg_bio s))) \/
      boots_to d st c' (blk d (lg_bio s)).
Proof.
  intros L Ho Hroom.
  destruct (wp_Ok _ _ _ (wp_end_op_last d st s L Ho Hroom))
    as ([] & s' & Hrun & L' & Hl & Ho' & _ & W & _).
  pose proof (la_ok _ _ _ _ (li_at _ _ _ _ L)) as Hok.
  assert (disk_ok (io_disk (lg_bio s'))) as Hdk by apply L'.
  exists s'. split_and!; [done..| |].
  - by apply (tx_written_done d st _ _ _ (li_bio _ _ _ _ L) Hok (li_disk _ _ _ _ L)).
  - intros c c' Hc1 Hc2 Hcr.
    destruct (tx_written_crash d st _ _ _ c (li_bio _ _ _ _ L) Hok (li_disk _ _ _ _ L) Hdk W Hc1 Hc2)
      as [[bl Hbl] Hv].
    destruct (crashes_in_recovery_same d st c c' bl Hbl Hcr) as [[bl' Hbl'] Hs].
    destruct Hv as [Hv|Hv]; [left|right]; (apply (boots_logical d st _ bl'); [done|by etransitivity]).
Qed.

Lemma transaction_crash_atomic_witness :
  exists s s', length (lh_list s) = 3%nat /\ end_op s = Ok tt s' /\
    same_home 2 (disk_read (io_disk (lg_bio s'))) (blk 1 (lg_bio s)).
Proof.
  destruct (Demo.run_spec 3) as (s & Hrun & L & Ho & Hlen); [unfold NBUF; lia|].
  destruct (transaction_crash_atomic 1 2 Demo.geom0 s L Ho) as (s' & He & _ & _ & _ & Hd & _);
    [rewrite Hlen; unfold NBUF; lia|].
  exists s, s'. by split_and!.
Defined.

(** C27: recovery is idempotent.  From an image whose log holds [bl], however
    often recovery is cut short by another crash, the boot that completes
    succeeds and sees the same file system contents: those the image's log
    describes. *)
Theorem recovery_idempotent d st (G : LogGeom d st) c bl c' :
  log_holds st c bl -> rtc (crash_in_recovery d st) c c' -> boots_to d st c' (logical st c).
Proof.
  intros Hh Hr. destruct (crashes_in_recovery_same d st c c' bl Hh Hr) as [[bl' Hh'] Hs].
  by apply (boots_logical d st _ bl').
Qed.

(** Log absorption.  Inside a transaction with log space left,
    [log_write] of a held buffer returns, pins the block and appends it to the
    transaction unless it is already there; contents, disk and the other
    buffers stay as they are. *)
Theorem log_write_absorbs d st (G : LogGeom d st) H s i x :
  log_inv d st H s -> slot d (lg_bio s) i x -> x ∈ H -> home st x ->
  1 <= lg_outstanding s -> lh_n s < LOGBLOCKS ->
  exists s', log_write i s = Ok tt s' /\ log_inv d st H s' /\
    lh_list s' = absorb x (lh_list s) /\ x ∈ lh_list s' /\ quiet d H (lg_bio s) (lg_bio s').
Proof.
  intros L S Hx Hh Ho Hn.
  destruct (wp_Ok _ _ _ (wp_log_write d st H s i x L S Hx Hh Ho Hn))
    as ([] & s' & ? & ? & Hl & ? & ?).
  exists s'. split_and!; try done. rewrite Hl. unfold absorb. case_decide; set_solver.
Qed.

(** C7: the log never overflows.  However threads interleave, as long as
    every operation keeps to its [MAXOPBLOCKS] calls of [log_write], the
    admission test of [begin_op] leaves room for each of them: [log_write]
    succeeds. *)
Theorem log_space_suffices d st (G : LogGeom d st) s0 s l1 k l2 H i x :
  lh_n s0 = 0 -> lg_outstanding s0 = 0 -> rtc lstep (s0, []) (s, l1 ++ k :: l2) -> 0 < k ->
  log_inv d st H s -> slot d (lg_bio s) i x -> x ∈ H -> home st x ->
  exists s', log_write i s = Ok tt s' /\ lh_n s' <= LOGBLOCKS.
Proof.
  intros Hn Ho Hr Hk L S Hx Hh.
  assert (reserved (s, l1 ++ k :: l2)) as (Hn' & Ho' & Hf & Hroom).
  { eapply (rtc_preserves lstep reserved); [apply reserved_step|done|].
    simpl. rewrite Hn, Ho. by split_and!. }
  rewrite !length_app, !sum_app in *. simpl in *.
  apply Forall_app in Hf as [Hf1 Hf2]. inversion Hf2 as [|? ? Hb Hf3]; subst.
  pose proof (sum_budget l1 Hf1). pose proof (sum_budget l2 Hf3).
  destruct (wp_Ok _ _ _ (wp_log_write d st H s i x L S Hx Hh ltac:(lia) ltac:(lia)))
    as ([] & s' & ? & L' & _).
  exists s'. split; [done|]. apply (la_n _ _ _ _ (li_at _ _ _ _ L')).
Qed.

(** C29: a transaction of [NBUF] blocks cannot commit.  The log admits
    [LOGBLOCKS = NBUF] blocks, but then every buffer is pinned and
    [write_log]'s first [bread] of a log block finds none: the kernel panics. *)
Theorem full_transaction_panics d st (G : LogGeom d st) s :
  log_inv d st ∅ s -> lg_outstanding s = 1 -> length (lh_list s) = NBUF ->
  panics end_op "bget: no buffers" s.
Proof.
  intros L Ho Hfull. destruct (end_op_last_eq d st ∅ s L Ho) as (e & He & Heq).
  unfold panics. rewrite Heq. set (s1 := set_lglock _ _). unfold end_op_commit.
  assert (log_at d st (lh_list s) s1) as Hat.
  { destruct (li_at _ _ _ _ L) as [[] ? ? ?]. by split. }
  pose proof (log_at_length _ _ _ _ Hat) as Hlen. rewrite Hfull in Hlen. unfold NBUF in Hlen.
  apply bind_Panic. unfold commit. unfold bind at 1, gets. cbv beta iota.
  rewrite (proj2 (Z.ltb_lt _ _)) by lia. apply bind_Panic.
  unfold write_log. unfold bind at 1, gets. cbv beta iota. rewrite seqZ_cons by lia.
  apply bind_Panic. unfold write_log_one, bind at 1 2, gets. cbv beta iota. apply bind_Panic.
  destruct Hat as [[-> -> _] _ _ Hok]. unfold lift, zoom. cbn [lget bio_l].
  rewrite (u32_dev d st), (u32_log d st) by (unfold LOGBLOCKS, MAXOPBLOCKS; lia).
  rewrite (bread_exhausted d ∅ (pinned (lh_list s))); [done| | |].
  - exact (log_inv_bio_env d st ∅ s e L He).
  - rewrite union_empty_l_L, pinned_size, Hfull by apply Hok. done.
  - rewrite union_empty_l_L. apply (pinned_log st); [done|].
    unfold in_log, LOGBLOCKS, MAXOPBLOCKS. lia.
Qed.

Lemma full_transaction_panics_witness :
  exists s, Demo.run 30 (log_boot Demo.env0 []) = Ok tt s /\
    panics end_op "bget: no buffers" s.
Proof.
  destruct (Demo.run_spec 30) as (s & Hrun & L & Ho & Hlen); [unfold NBUF; lia|].
  exists s. split; [exact Hrun|].
  exact (full_transaction_panics 1 2 Demo.geom0 s L Ho Hlen).
Defined.

Lemma recovery_idempotent_witness : boots_to 1 2 [] (logical 2 []).
Proof.
  apply (recovery_idempotent 1 2 Demo.geom0 [] [] []); [exact Demo.zero_log|apply rtc_refl].
Defined.

(** A thread inside an operation with block 100 held. *)
Lemma held_state :
  exists s0 s i, lh_n s0 = 0 /\ lg_outstanding s0 = 0 /\
    rtc lstep (s0, []) (s, [] ++ MAXOPBLOCKS :: []) /\
    log_inv 1 2 {[100]} s /\ slot 1 (lg_bio s) i 100 /\ lg_outstanding s = 1 /\ lh_n s = 0.
Proof.
  destruct (wp_Ok _ _ _ (wp_log_reboot 1 2 Demo.env0 [] [] Demo.sb0 eq_refl Demo.env0_ok Demo.zero_log))
    as ([] & s1 & _ & L1 & Hl1 & Ho1 & _).
  assert (forall s, log_inv 1 2 ∅ s -> lh_list s = [] -> lh_n s = 0) as Hzero.
  { intros s L Hl. pose proof (log_at_length _ _ _ _ (li_at _ _ _ _ L)) as Hs.
    pose proof (la_n _ _ _ _ (li_at _ _ _ _ L)). rewrite Hl in Hs. simpl in Hs. lia. }
  pose proof (Hzero s1 L1 Hl1) as Hn1.
  destruct (wp_Ok _ _ _ (wp_begin_op 1 2 ∅ s1 L1 ltac:(rewrite Hn1, Ho1; done)))
    as ([] & s2 & Hb & L2 & (Hl2 & _) & Ho2). rewrite Hl1 in Hl2. pose proof (Hzero s2 L2 Hl2) as Hn2.
  destruct (wp_Ok _ _ _ (wp_tx_bread 1 2 ∅ s2 100 L2 ltac:(set_solver)
              ltac:(left; rewrite Hl2; unfold NBUF; vm_compute; lia)))
    as (i & s3 & Hr & L3 & S3 & (Hl3 & Ho3 & _)).
  unfold lift, zoom in Hr. destruct (bread 1 100 _) as [a b| | |] eqn:Eb; simplify_eq/=.
  exists s1, (set_bio b s2), i. split_and!; try done.
  - apply rtc_l with (s2, [MAXOPBLOCKS]); [by apply ls_begin|]. apply rtc_once, ls_other.
  - simpl. lia.
Qed.

Lemma home_100 : home 2 100.
Proof. unfold home, in_log, LOGBLOCKS, MAXOPBLOCKS. lia. Qed.

Lemma log_write_absorbs_witness :
  exists s i s', log_write i s = Ok tt s' /\ 100 ∈ lh_list s'.
Proof.
  destruct held_state as (s0 & s & i & _ & _ & _ & L & S & Ho & Hn).
  destruct (log_write_absorbs 1 2 Demo.geom0 {[100]} s i 100 L S) as (s' & Hw & _ & _ & Hin & _);
    [set_solver|apply home_100|lia|rewrite Hn; done|].
  by exists s, i, s'.
Defined.

Lemma log_space_suffices_witness :
  exists s i s', log_write i s = Ok tt s' /\ lh_n s' <= LOGBLOCKS.
Proof.
  destruct held_state as (s0 & s & i & Hn0 & Ho0 & Hr & L & S & Ho & Hn).
  destruct (log_space_suffices 1 2 Demo.geom0 s0 s [] MAXOPBLOCKS [] {[100]} i 100 Hn0 Ho0 Hr)
    as (s' & Hw & Hle); [done|done|done|set_solver|apply home_100|].
  by exists s, i, s'.
Defined.
