(* ===== verification/Fs.v ===== *)
(** * The file system (kernel/fs.c, kernel/fs.h, kernel/file.h, kernel/stat.h)

    Block allocator, inodes, file contents, directories and paths, over the
    log.  A [struct inode] pointer is an index into [itable.inode]; a null
    pointer is [None].  A directory entry, an on-disk inode and the super
    block are read from and written to the bytes of their block.  *)

From S2P Require Import Prelude Param Spinlock Sleeplock Str Bio BioOps Log.

(** ** On-disk structures *)

Record dinode := mkDinode {
  d_type : Z;          (* File type *)
  d_major : Z;         (* Major device number (T_DEVICE only) *)
  d_minor : Z;         (* Minor device number (T_DEVICE only) *)
  d_nlink : Z;         (* Number of links to inode in file system *)
  d_size : Z;          (* Size of file (bytes) *)
  d_addrs : list Z     (* Data block addresses *)
}.

Definition NADDRS : nat := Z.to_nat (NDIRECT + 1).
Definition dinode_size : nat := 64.
Definition IPB : Z := BSIZE / 64.

Definition enc_u32s (l : list Z) : list Z := concat (le_encode 4 <$> l).
Definition get_u32 (off : nat) (bs : list Z) : Z := le_decode (slice off 4 bs).
Definition get_s16 (off : nat) (bs : list Z) : Z := s16 (le_decode (slice off 2 bs)).

Definition enc_dinode (di : dinode) : list Z :=
  le_encode 2 (d_type di) ++ le_encode 2 (d_major di) ++ le_encode 2 (d_minor di) ++
  le_encode 2 (d_nlink di) ++ le_encode 4 (d_size di) ++ enc_u32s (d_addrs di).

Definition dec_dinode (bs : list Z) : dinode :=
  mkDinode (get_s16 0 bs) (get_s16 2 bs) (get_s16 4 bs) (get_s16 6 bs) (get_u32 8 bs)
           ((fun k => get_u32 (12 + 4 * k) bs) <$> seq 0 NADDRS).

(** Entry [inum % IPB] of an inode block. *)
Definition get_dinode (inum : Z) (data : block) : dinode :=
  dec_dinode (slice (dinode_size * Z.to_nat (inum mod IPB)) dinode_size data).
Definition put_dinode (inum : Z) (di : dinode) (data : block) : block :=
  splice (dinode_size * Z.to_nat (inum mod IPB)) (enc_dinode di) data.

Record dirent := mkDirent { de_inum : Z; de_name : list Z }.
Definition dirent_size : Z := 16.
Definition enc_dirent (de : dirent) : list Z := le_encode 2 (de_inum de) ++ de_name de.
Definition dec_dirent (bs : list Z) : dirent :=
  mkDirent (le_decode (slice 0 2 bs)) (slice 2 (Z.to_nat DIRSIZ) bs).

Definition dec_superblock (bs : list Z) : superblock :=
  mkSb (get_u32 0 bs) (get_u32 4 bs) (get_u32 8 bs) (get_u32 12 bs)
       (get_u32 16 bs) (get_u32 20 bs) (get_u32 24 bs) (get_u32 28 bs).

(** ** In-memory state *)

Record inode := mkInode {
  i_dev : Z;           (* Device number *)
  i_inum : Z;          (* Inode number *)
  i_ref : Z;           (* Reference count *)
  i_lock : sleeplock;  (* protects everything below here *)
  i_valid : bool;      (* inode has been read from disk? *)
  i_type : Z;          (* copy of disk inode *)
  i_major : Z;
  i_minor : Z;
  i_nlink : Z;
  i_size : Z;
  i_addrs : list Z
}.

Definition inode0 : inode :=
  mkInode 0 0 0 initsleeplock false 0 0 0 0 0 (replicate NADDRS 0).
#[export] Instance inode_inhabited : Inhabited inode := populate inode0.

Definition set_id dev inum ip := mkInode dev inum (i_ref ip) (i_lock ip) (i_valid ip) (i_type ip) (i_major ip) (i_minor ip) (i_nlink ip) (i_size ip) (i_addrs ip).
Definition set_iref v ip := mkInode (i_dev ip) (i_inum ip) v (i_lock ip) (i_valid ip) (i_type ip) (i_major ip) (i_minor ip) (i_nlink ip) (i_size ip) (i_addrs ip).
Definition set_ilock v ip := mkInode (i_dev ip) (i_inum ip) (i_ref ip) v (i_valid ip) (i_type ip) (i_major ip) (i_minor ip) (i_nlink ip) (i_size ip) (i_addrs ip).
Definition set_ivalid v ip := mkInode (i_dev ip) (i_inum ip) (i_ref ip) (i_lock ip) v (i_type ip) (i_major ip) (i_minor ip) (i_nlink ip) (i_size ip) (i_addrs ip).
Definition set_itype v ip := mkInode (i_dev ip) (i_inum ip) (i_ref ip) (i_lock ip) (i_valid ip) v (i_major ip) (i_minor ip) (i_nlink ip) (i_size ip) (i_addrs ip).
Definition set_imajor v ip := mkInode (i_dev ip) (i_inum ip) (i_ref ip) (i_lock ip) (i_valid ip) (i_type ip) v (i_minor ip) (i_nlink ip) (i_size ip) (i_addrs ip).
Definition set_iminor v ip := mkInode (i_dev ip) (i_inum ip) (i_ref ip) (i_lock ip) (i_valid ip) (i_type ip) (i_major ip) v (i_nlink ip) (i_size ip) (i_addrs ip).
Definition set_inlink v ip := mkInode (i_dev ip) (i_inum ip) (i_ref ip) (i_lock ip) (i_valid ip) (i_type ip) (i_major ip) (i_minor ip) v (i_size ip) (i_addrs ip).
Definition set_isize v ip := mkInode (i_dev ip) (i_inum ip) (i_ref ip) (i_lock ip) (i_valid ip) (i_type ip) (i_major ip) (i_minor ip) (i_nlink ip) v (i_addrs ip).
Definition set_iaddrs v ip := mkInode (i_dev ip) (i_inum ip) (i_ref ip) (i_lock ip) (i_valid ip) (i_type ip) (i_major ip) (i_minor ip) (i_nlink ip) (i_size ip) v.

(** The on-disk copy of an in-memory inode, and its reverse. *)
Definition to_dinode (ip : inode) : dinode :=
  mkDinode (i_type ip) (i_major ip) (i_minor ip) (i_nlink ip) (i_size ip) (i_addrs ip).
Definition from_dinode (di : dinode) (ip : inode) : inode :=
  mkInode (i_dev ip) (i_inum ip) (i_ref ip) (i_lock ip) (i_valid ip)
          (d_type di) (d_major di) (d_minor di) (d_nlink di) (d_size di) (d_addrs di).

Record fs := mkFs {
  fs_log : logst;
  fs_sb : superblock;
  it_lock : spinlock;         (* itable.lock *)
  it_inode : list inode       (* itable.inode[NINODE] *)
}.

Definition set_log l s := mkFs l (fs_sb s) (it_lock s) (it_inode s).
Definition set_sb b s := mkFs (fs_log s) b (it_lock s) (it_inode s).
Definition set_itlock l s := mkFs (fs_log s) (fs_sb s) l (it_inode s).
Definition set_itable t s := mkFs (fs_log s) (fs_sb s) (it_lock s) t.

Definition log_l : lens fs logst := mkLens fs_log set_log.
Definition flog {A} : M logst A -> M fs A := zoom log_l.
#[export] Instance HasEnv_fs : HasEnv fs :=
  mkLens (fun s => io_env (lg_bio (fs_log s)))
         (fun e s => set_log (lset env_of e (fs_log s)) s).
Definition itable_lock : lens fs spinlock := mkLens it_lock set_itlock.
Definition inode_lock (i : nat) : lens fs sleeplock :=
  mkLens (fun s => i_lock (it_inode s !!! i))
         (fun l s => set_itable (alter (set_ilock l) i (it_inode s)) s).
Definition inode_chan (i : nat) : chan := ("inode.lock", Z.of_nat i).

Definition geti (i : nat) : M fs inode := gets (fun s => it_inode s !!! i).
Definition updi (i : nat) (f : inode -> inode) : M fs unit :=
  modify (fun s => set_itable (alter f i (it_inode s)) s).

(** The cache and the log as fs.c calls them. *)
Definition fbread (dev b : Z) : M fs nat := flog (lift (bread dev b)).
Definition fbrelse (bp : nat) : M fs unit := flog (lift (brelse bp)).
Definition fbdata (bp : nat) : M fs block := flog (lift (bdata bp)).
Definition fset_bdata (bp : nat) (v : block) : M fs unit := flog (lift (set_bdata bp v)).
Definition flog_write (bp : nat) : M fs unit := flog (log_write bp).

Definition IBLOCK (i : Z) (sb : superblock) : Z := u32 (i / IPB + sb_inodestart sb).
Definition BBLOCK (b : Z) (sb : superblock) : Z := u32 (b / BPB + sb_bmapstart sb).

Definition fs_boot (e : kenv) (d : disk) : fs :=
  mkFs (log_boot e d) (mkSb 0 0 0 0 0 0 0 0) initlock (replicate NINODE inode0).

(** ** Super block *)

Definition readsb (dev : Z) : M fs unit :=
  bp <- fbread dev 1 ;;
  data <- fbdata bp ;;
  modify (set_sb (dec_superblock (slice 0 32 data))) ;;
  fbrelse bp.

(** ** Blocks *)

Definition bzero (dev bno : Z) : M fs unit :=
  bp <- fbread dev (u32 bno) ;;
  fset_bdata bp (replicate bsize 0) ;;
  flog_write bp ;;
  fbrelse bp.

(** [(data[bi/8] & (1 << bi%8)) == 0] *)
Definition bit_free (data : block) (bi : Z) : bool :=
  Z.land (rd data (Z.to_nat (bi / 8))) (Z.shiftl 1 (bi mod 8)) =? 0.
Definition set_bit (data : block) (bi : Z) : block :=
  <[Z.to_nat (bi / 8) := Z.lor (rd data (Z.to_nat (bi / 8))) (Z.shiftl 1 (bi mod 8))]> data.
Definition clear_bit (data : block) (bi : Z) : block :=
  <[Z.to_nat (bi / 8) := Z.land (rd data (Z.to_nat (bi / 8)))
                               (u8 (Z.lnot (Z.shiftl 1 (bi mod 8))))]> data.

(** The inner loop of [balloc]: the first free bit of a bitmap block. *)
Fixpoint find_free (n : nat) (bi b size : Z) (data : block) : option Z :=
  match n with
  | O => None
  | S n' =>
      if b + bi <? size then
        if bit_free data bi then Some bi else find_free n' (bi + 1) b size data
      else None
  end.

(** The values [b] takes in the outer loop. *)
Definition bitmap_starts (size : Z) : list Z :=
  (fun k => k * BPB) <$> seqZ 0 ((size + BPB - 1) / BPB).

Definition balloc (dev : Z) : M fs Z :=
  sb <- gets fs_sb ;;
  r <- for_find (bitmap_starts (sb_size sb)) (fun b =>
    bp <- fbread dev (BBLOCK b sb) ;;
    data <- fbdata bp ;;
    match find_free (Z.to_nat BPB) 0 b (sb_size sb) data with
    | Some bi =>
        fset_bdata bp (set_bit data bi) ;;
        flog_write bp ;;
        fbrelse bp ;;
        bzero dev (b + bi) ;;
        ret (Some (b + bi))
    | None => fbrelse bp ;; ret None
    end) ;;
  match r with
  | Some b => ret b
  | None => in_env (printf "balloc: out of blocks" []) ;; ret 0
  end.

Definition bfree (dev b : Z) : M fs unit :=
  sb <- gets fs_sb ;;
  bp <- fbread dev (BBLOCK b sb) ;;
  data <- fbdata bp ;;
  let bi := b mod BPB in
  if bit_free data bi then panic "freeing free block" else
  fset_bdata bp (clear_bit data bi) ;;
  flog_write bp ;;
  fbrelse bp.

(** ** Inodes *)

Definition iinit : M fs unit :=
  modify (set_itlock initlock) ;;
  for_each (seq 0 NINODE) (fun i => updi i (set_ilock initsleeplock)).

(** The scan of [iget]: the entry for [(dev, inum)], or the first empty one. *)
Fixpoint iget_scan (l : list inode) (i : nat) (empty : option nat) (dev inum : Z)
  : nat + option nat :=
  match l with
  | [] => inr empty
  | ip :: l' =>
      if (0 <? i_ref ip) && (i_dev ip =? dev) && (i_inum ip =? inum) then inl i
      else iget_scan l' (S i)
             (match empty with
              | None => if i_ref ip =? 0 then Some i else None
              | Some e => Some e
              end) dev inum
  end.

Definition iget (dev inum : Z) : M fs nat :=
  with_env itable_lock acquire ;;
  t <- gets it_inode ;;
  match iget_scan t 0 None dev inum with
  | inl i =>
      updi i (fun ip => set_iref (i_ref ip + 1) ip) ;;
      with_env itable_lock release ;;
      ret i
  | inr None => panic "iget: no inodes"
  | inr (Some i) =>
      updi i (set_id dev inum) ;;
      updi i (set_iref 1) ;;
      updi i (set_ivalid false) ;;
      with_env itable_lock release ;;
      ret i
  end.

Definition ialloc (dev type : Z) : M fs (option nat) :=
  sb <- gets fs_sb ;;
  r <- for_find (seqZ 1 (sb_ninodes sb - 1)) (fun inum =>
    bp <- fbread dev (IBLOCK inum sb) ;;
    data <- fbdata bp ;;
    if d_type (get_dinode inum data) =? 0 then
      fset_bdata bp (put_dinode inum (mkDinode type 0 0 0 0 (replicate NADDRS 0)) data) ;;
      flog_write bp ;;
      fbrelse bp ;;
      i <- iget dev inum ;;
      ret (Some i)
    else fbrelse bp ;; ret None) ;;
  match r with
  | Some i => ret (Some i)
  | None => in_env (printf "ialloc: no inodes" []) ;; ret None
  end.

Definition iupdate (i : nat) : M fs unit :=
  sb <- gets fs_sb ;;
  ip <- geti i ;;
  bp <- fbread (i_dev ip) (IBLOCK (i_inum ip) sb) ;;
  data <- fbdata bp ;;
  fset_bdata bp (put_dinode (i_inum ip) (to_dinode ip) data) ;;
  flog_write bp ;;
  fbrelse bp.

Definition idup (i : nat) : M fs nat :=
  with_env itable_lock acquire ;;
  updi i (fun ip => set_iref (i_ref ip + 1) ip) ;;
  with_env itable_lock release ;;
  ret i.

Definition ilock (p : option nat) : M fs unit :=
  match p with
  | None => panic "ilock"
  | Some i =>
      ip <- geti i ;;
      if i_ref ip <? 1 then panic "ilock" else
      with_env (inode_lock i) (acquiresleep (inode_chan i)) ;;
      ip <- geti i ;;
      when (negb (i_valid ip)) do
        (sb <- gets fs_sb ;;
         bp <- fbread (i_dev ip) (IBLOCK (i_inum ip) sb) ;;
         data <- fbdata bp ;;
         updi i (from_dinode (get_dinode (i_inum ip) data)) ;;
         fbrelse bp ;;
         updi i (set_ivalid true) ;;
         ip <- geti i ;;
         if i_type ip =? 0 then panic "ilock: no type" else ret tt)
  end.

Definition iunlock (p : option nat) : M fs unit :=
  match p with
  | None => panic "iunlock"
  | Some i =>
      h <- with_env (inode_lock i) holdingsleep ;;
      ip <- geti i ;;
      if negb h || (i_ref ip <? 1) then panic "iunlock" else
      with_env (inode_lock i) (releasesleep (inode_chan i))
  end.

(** ** Inode content *)

Definition bmap (i : nat) (bn : Z) : M fs Z :=
  ip <- geti i ;;
  if bn <? NDIRECT then
    let addr := i_addrs ip !!! Z.to_nat bn in
    if addr =? 0 then
      addr <- balloc (i_dev ip) ;;
      if addr =? 0 then ret 0 else
      updi i (fun ip => set_iaddrs (<[Z.to_nat bn := addr]> (i_addrs ip)) ip) ;;
      ret addr
    else ret addr
  else
  let bn := bn - NDIRECT in
  if bn <? NINDIRECT then
    let k := Z.to_nat NDIRECT in
    addr <- (if i_addrs ip !!! k =? 0 then
               addr <- balloc (i_dev ip) ;;
               (when (negb (addr =? 0)) do
                  updi i (fun ip => set_iaddrs (<[k := addr]> (i_addrs ip)) ip)) ;;
               ret addr
             else ret (i_addrs ip !!! k)) ;;
    if addr =? 0 then ret 0 else
    bp <- fbread (i_dev ip) addr ;;
    a <- fbdata bp ;;
    addr <- (if get_u32 (4 * Z.to_nat bn) a =? 0 then
               addr <- balloc (i_dev ip) ;;
               (when (negb (addr =? 0)) do
                  (a <- fbdata bp ;;
                   fset_bdata bp (splice (4 * Z.to_nat bn) (le_encode 4 addr) a) ;;
                   flog_write bp)) ;;
               ret addr
             else ret (get_u32 (4 * Z.to_nat bn) a)) ;;
    fbrelse bp ;;
    ret addr
  else panic "bmap: out of range".

Definition itrunc (i : nat) : M fs unit :=
  for_each (seqZ 0 NDIRECT) (fun k =>
    ip <- geti i ;;
    when (negb (i_addrs ip !!! Z.to_nat k =? 0)) do
      (bfree (i_dev ip) (i_addrs ip !!! Z.to_nat k) ;;
       updi i (fun ip => set_iaddrs (<[Z.to_nat k := 0]> (i_addrs ip)) ip))) ;;
  ip <- geti i ;;
  let ind := i_addrs ip !!! Z.to_nat NDIRECT in
  (when (negb (ind =? 0)) do
    (bp <- fbread (i_dev ip) ind ;;
     for_each (seqZ 0 NINDIRECT) (fun j =>
       a <- fbdata bp ;;
       when (negb (get_u32 (4 * Z.to_nat j) a =? 0)) do
         bfree (i_dev ip) (get_u32 (4 * Z.to_nat j) a)) ;;
     fbrelse bp ;;
     bfree (i_dev ip) ind ;;
     updi i (fun ip => set_iaddrs (<[Z.to_nat NDIRECT := 0]> (i_addrs ip)) ip))) ;;
  updi i (set_isize 0) ;;
  iupdate i.

Definition iput (i : nat) : M fs unit :=
  with_env itable_lock acquire ;;
  ip <- geti i ;;
  (when ((i_ref ip =? 1) && i_valid ip && (i_nlink ip =? 0)) do
    (with_env (inode_lock i) (acquiresleep (inode_chan i)) ;;
     with_env itable_lock release ;;
     itrunc i ;;
     updi i (set_itype 0) ;;
     iupdate i ;;
     updi i (set_ivalid false) ;;
     with_env (inode_lock i) (releasesleep (inode_chan i)) ;;
     with_env itable_lock acquire)) ;;
  updi i (fun ip => set_iref (i_ref ip - 1) ip) ;;
  with_env itable_lock release.

Definition iunlockput (i : nat) : M fs unit := iunlock (Some i) ;; iput i.

Definition ireclaim (dev : Z) : M fs unit :=
  sb <- gets fs_sb ;;
  for_each (seqZ 1 (sb_ninodes sb - 1)) (fun inum =>
    bp <- fbread dev (IBLOCK inum sb) ;;
    data <- fbdata bp ;;
    let dip := get_dinode inum data in
    ip <- (if negb (d_type dip =? 0) && (d_nlink dip =? 0) then
             in_env (printf "ireclaim: orphaned inode %d" [inum]) ;;
             i <- iget dev inum ;; ret (Some i)
           else ret None) ;;
    fbrelse bp ;;
    match ip with
    | Some i =>
        flog begin_op ;;
        ilock (Some i) ;;
        iunlock (Some i) ;;
        iput i ;;
        flog end_op
    | None => ret tt
    end).

Definition fsinit (dev : Z) : M fs unit :=
  readsb dev ;;
  sb <- gets fs_sb ;;
  if negb (sb_magic sb =? FSMAGIC) then panic "invalid file system" else
  flog (initlog dev sb) ;;
  ireclaim dev.

Record stat := mkStat { st_dev : Z; st_ino : Z; st_type : Z; st_nlink : Z; st_size : Z }.

Definition stati (i : nat) : M fs stat :=
  ip <- geti i ;;
  ret (mkStat (s32 (i_dev ip)) (i_inum ip) (i_type ip) (i_nlink ip) (i_size ip)).

(** ** Reading and writing

    The destination of [readi] and the source of [writei] are user or kernel
    memory, which is outside the file system: the routines run in a state [K]
    that contains the file system, and [either_copyout off bs] /
    [either_copyin off m] move bytes at [dst + off] / from [src + off] there.
    A failing [either_copyin] may have delivered a prefix. *)

Section content.
Context {K : Type} (L : lens K fs).
Context (either_copyout : Z -> list Z -> M K bool).
Context (either_copyin : Z -> Z -> M K (bool * list Z)).

Fixpoint readi_loop (fuel : nat) (i : nat) (n tot off : Z) : M K Z :=
  match fuel with
  | O => no_fuel
  | S fuel' =>
      if tot <? n then
        addr <- zoom L (bmap i (off / BSIZE)) ;;
        if addr =? 0 then ret tot else
        ip <- zoom L (geti i) ;;
        bp <- zoom L (fbread (i_dev ip) addr) ;;
        let m := Z.min (n - tot) (BSIZE - off mod BSIZE) in
        data <- zoom L (fbdata bp) ;;
        ok <- either_copyout tot (slice (Z.to_nat (off mod BSIZE)) (Z.to_nat m) data) ;;
        if negb ok then zoom L (fbrelse bp) ;; ret (-1) else
        zoom L (fbrelse bp) ;;
        readi_loop fuel' i n (u32 (tot + m)) (u32 (off + m))
      else ret tot
  end.

(** Each turn but the first and the last moves a whole block. *)
Definition rw_fuel (n : Z) : nat := Z.to_nat (n / BSIZE) + 3.

Definition readi (i : nat) (off n : Z) : M K Z :=
  ip <- zoom L (geti i) ;;
  if (i_size ip <? off) || (u32 (off + n) <? off) then ret 0 else
  let n := if i_size ip <? u32 (off + n) then i_size ip - off else n in
  readi_loop (rw_fuel n) i n 0 off.

Fixpoint writei_loop (fuel : nat) (i : nat) (n tot off : Z) : M K (Z * Z) :=
  match fuel with
  | O => no_fuel
  | S fuel' =>
      if tot <? n then
        addr <- zoom L (bmap i (off / BSIZE)) ;;
        if addr =? 0 then ret (tot, off) else
        ip <- zoom L (geti i) ;;
        bp <- zoom L (fbread (i_dev ip) addr) ;;
        let m := Z.min (n - tot) (BSIZE - off mod BSIZE) in
        r <- either_copyin tot m ;;
        data <- zoom L (fbdata bp) ;;
        zoom L (fset_bdata bp (splice (Z.to_nat (off mod BSIZE)) (snd r) data)) ;;
        if negb (fst r) then zoom L (fbrelse bp) ;; ret (tot, off) else
        zoom L (flog_write bp) ;;
        zoom L (fbrelse bp) ;;
        writei_loop fuel' i n (u32 (tot + m)) (u32 (off + m))
      else ret (tot, off)
  end.

Definition writei (i : nat) (off n : Z) : M K Z :=
  ip <- zoom L (geti i) ;;
  if (i_size ip <? off) || (u32 (off + n) <? off) then ret (-1) else
  if MAXFILE * BSIZE <? u32 (off + n) then ret (-1) else
  r <- writei_loop (rw_fuel n) i n 0 off ;;
  ip <- zoom L (geti i) ;;
  (when (i_size ip <? snd r) do zoom L (updi i (set_isize (snd r)))) ;;
  zoom L (iupdate i) ;;
  ret (fst r).
End content.

(** With [user_dst = 0]: the destination is a local variable of [n] bytes. *)
Definition kbuf_l : lens (fs * list Z) fs := mkLens fst (fun s p => (s, snd p)).
Definition kcopyout (off : Z) (bs : list Z) : M (fs * list Z) bool :=
  modify (fun p => (fst p, splice (Z.to_nat off) bs (snd p))) ;; ret true.
Definition readi_kernel (i : nat) (off n : Z) : M fs (Z * list Z) :=
  fun s =>
    match readi kbuf_l kcopyout i off n (s, replicate (Z.to_nat n) 0) with
    | Ok r (s', buf) => Ok (r, buf) s'
    | Panic msg => Panic msg
    | Block c (s', _) => Block c s'
    | NoFuel => NoFuel
    end.

(** With [user_src = 0]: the source is the local variable [src]. *)
Definition id_l {S} : lens S S := mkLens id (fun s _ => s).
Definition writei_kernel (i : nat) (src : list Z) (off n : Z) : M fs Z :=
  writei id_l (fun o m => ret (true, slice (Z.to_nat o) (Z.to_nat m) src)) i off n.

(** ** Directories *)

Definition namecmp (s t : list Z) : Z := strncmp (Z.to_nat DIRSIZ) s t.

Definition dir_offsets (size : Z) : list Z :=
  (fun k => k * dirent_size) <$> seqZ 0 ((size + dirent_size - 1) / dirent_size).

Definition read_dirent (dp : nat) (off : Z) (msg : string) : M fs dirent :=
  r <- readi_kernel dp off dirent_size ;;
  if negb (fst r =? dirent_size) then panic msg else
  ret (dec_dirent (snd r)).

Definition dirlookup (dp : nat) (name : list Z) : M fs (option (nat * Z)) :=
  d <- geti dp ;;
  if negb (i_type d =? T_DIR) then panic "dirlookup not DIR" else
  for_find (dir_offsets (i_size d)) (fun off =>
    de <- read_dirent dp off "dirlookup read" ;;
    if de_inum de =? 0 then ret None else
    if namecmp name (de_name de) =? 0 then
      i <- iget (i_dev d) (de_inum de) ;;
      ret (Some (i, off))
    else ret None).

Definition dirlink (dp : nat) (name : list Z) (inum : Z) : M fs Z :=
  r <- dirlookup dp name ;;
  match r with
  | Some (i, _) => iput i ;; ret (-1)
  | None =>
      d <- geti dp ;;
      r <- for_find (dir_offsets (i_size d)) (fun off =>
        de <- read_dirent dp off "dirlink read" ;;
        ret (if de_inum de =? 0 then Some off else None)) ;;
      let off := match r with
                 | Some off => off
                 | None => dirent_size * ((i_size d + dirent_size - 1) / dirent_size)
                 end in
      let de := mkDirent (u16 inum) (strncpy (replicate (Z.to_nat DIRSIZ) 0) name DIRSIZ) in
      w <- writei_kernel dp (enc_dirent de) off dirent_size ;;
      ret (if w =? dirent_size then 0 else -1)
  end.

(** ** Paths: C strings without their NUL *)

Definition slash : Z := 47.

Fixpoint skip_slashes (path : list Z) : list Z :=
  match path with
  | c :: path' => if c =? slash then skip_slashes path' else path
  | [] => []
  end.

(** The characters up to the next slash, and what follows them. *)
Fixpoint span_elem (path : list Z) : list Z * list Z :=
  match path with
  | c :: path' =>
      if c =? slash then ([], path) else
      let '(s, rest) := span_elem path' in (c :: s, rest)
  | [] => ([], [])
  end.

Definition skipelem (path name : list Z) : option (list Z * list Z) :=
  let path := skip_slashes path in
  match path with
  | [] => None
  | _ =>
      let '(s, rest) := span_elem path in
      let name' := if DIRSIZ <=? Z.of_nat (length s)
                   then splice 0 (take (Z.to_nat DIRSIZ) s) name
                   else splice 0 (s ++ [0]) name in
      Some (skip_slashes rest, name')
  end.

Fixpoint namex_loop (fuel : nat) (i : nat) (path name : list Z) (nameiparent : bool)
  : M fs (option nat * list Z) :=
  match fuel with
  | O => no_fuel
  | S fuel' =>
      match skipelem path name with
      | None =>
          if nameiparent then iput i ;; ret (None, name) else ret (Some i, name)
      | Some (path', name') =>
          ilock (Some i) ;;
          ip <- geti i ;;
          if negb (i_type ip =? T_DIR) then iunlockput i ;; ret (None, name') else
          if nameiparent && bool_decide (path' = []) then
            iunlock (Some i) ;; ret (Some i, name')
          else
          next <- dirlookup i name' ;;
          match next with
          | None => iunlockput i ;; ret (None, name')
          | Some (j, _) =>
              iunlockput i ;;
              namex_loop fuel' j path' name' nameiparent
          end
      end
  end.

(** [cwd] is [myproc()->cwd]; every turn of the loop consumes a character of
    the path. *)
Definition namex (cwd : nat) (path : list Z) (nameiparent : bool) (name : list Z)
  : M fs (option nat * list Z) :=
  i <- (if rd path 0 =? slash then iget ROOTDEV ROOTINO else idup cwd) ;;
  namex_loop (S (length path)) i path name nameiparent.

Definition namei (cwd : nat) (path : list Z) : M fs (option nat) :=
  r <- namex cwd path false (replicate (Z.to_nat DIRSIZ) 0) ;; ret (fst r).

Definition nameiparent (cwd : nat) (path name : list Z) : M fs (option nat * list Z) :=
  namex cwd path true name.
