(* ===== verification/FsSpec.v ===== *)
(** * Block-level specification of the file system

    What one read or one logged update of a block does to a file system
    state inside a transaction, and the bitmap allocator on top of it.  *)

From S2P Require Import Prelude Param Spinlock Sleeplock Str Bio BioSpec BioOps Log LogDisk LogOps LogTx Fs.

(** ** Disk layout *)

(** The layout mkfs writes: log, inode blocks, bitmap, data. *)
Class FsGeom (d : Z) (sb : superblock) : Prop := {
  fg_log :: LogGeom d (sb_logstart sb);
  fg_inodes : sb_logstart sb + LOGBLOCKS < sb_inodestart sb;
  fg_ninodes : 0 < sb_ninodes sb;
  fg_bmap : sb_inodestart sb + sb_ninodes sb / IPB < sb_bmapstart sb;
  fg_data : sb_bmapstart sb + sb_size sb / BPB + 1 <= sb_size sb;
  fg_size : 0 <= sb_size sb < 2 ^ 31
}.

(** First data block. *)
Definition datastart (sb : superblock) : Z := sb_bmapstart sb + sb_size sb / BPB + 1.

Lemma wp_flog {A} (m : M logst A) (Q : A -> fs -> Prop) s :
  wp m (fun a l => Q a (set_log l s)) (fs_log s) -> wp (flog m) Q s.
Proof. apply (wp_zoom log_l). Qed.

(** [k] more blocks may be logged while up to three buffers are held; logging
    any takes a transaction. *)
Definition room (k : nat) (s : fs) : Prop :=
  (length (lh_list (fs_log s)) + k <= 26)%nat /\ (k = O \/ 1 <= lg_outstanding (fs_log s)).

Lemma room_weaken k k' s : (k' <= k)%nat -> room k s -> room k' s.
Proof. unfold room. lia. Qed.

Lemma absorb_in x bl : x ∈ absorb x bl.
Proof. unfold absorb. case_decide; set_solver. Qed.

Lemma absorb_length x bl : (length (absorb x bl) <= S (length bl))%nat.
Proof. unfold absorb. case_decide; [lia|]. rewrite length_app. simpl. lia. Qed.

Section spec.
Context (d : Z) (sb : superblock) {G : FsGeom d sb}.
Implicit Types (H : gset Z) (s : fs) (x : Z).
#[local] Abbreviation st := (sb_logstart sb).

(** Current contents of a block. *)
Definition cur (s : fs) (x : Z) : block := blk d (lg_bio (fs_log s)) x.
Definition tx (s : fs) : list Z := lh_list (fs_log s).

(** A consistent state in which the thread holds the buffers of the blocks
    [H]. *)
Record fs_tx (H : gset Z) (s : fs) : Prop := {
  ft_log : log_inv d st H (fs_log s);
  ft_sb : fs_sb s = sb;
  ft_held : (size H <= 3)%nat
}.

(** Everything but the log part of the state is the same. *)
Definition same_mem (s s' : fs) : Prop :=
  it_inode s' = it_inode s /\ it_lock s' = it_lock s /\ fs_sb s' = fs_sb s /\
  lg_outstanding (fs_log s') = lg_outstanding (fs_log s) /\
  env_same (io_env (lg_bio (fs_log s))) (io_env (lg_bio (fs_log s'))).

#[export] Instance same_mem_preorder : PreOrder same_mem.
Proof.
  split.
  - intros s. split_and!; [done..|reflexivity].
  - intros s1 s2 s3 (?&?&?&?&?) (?&?&?&?&?). split_and!; try congruence. by etransitivity.
Qed.

(** Slots of held buffers survive. *)
Definition keep_slots (H : gset Z) (s s' : fs) : Prop :=
  forall i x, x ∈ H -> slot d (lg_bio (fs_log s)) i x -> slot d (lg_bio (fs_log s')) i x.

#[export] Instance keep_slots_preorder H : PreOrder (keep_slots H).
Proof. split; [by intros s i x|]. intros s1 s2 s3 H1 H2 i x Hx Hs. eauto. Qed.

Lemma keep_slots_weaken H H' s s' : H' ⊆ H -> keep_slots H s s' -> keep_slots H' s s'.
Proof. intros Hs Hk i x Hx. apply Hk. by apply Hs. Qed.

(** [s'] is [s] after nothing happened to any block. *)
Definition calm (H : gset Z) (s s' : fs) : Prop :=
  same_mem s s' /\ keep_slots H s s' /\ tx s' = tx s /\
  (forall y, cur s' y = cur s y) /\
  (forall y, disk_read (io_disk (lg_bio (fs_log s'))) y =
             disk_read (io_disk (lg_bio (fs_log s))) y).

#[export] Instance calm_preorder H : PreOrder (calm H).
Proof.
  split.
  - intros s. split_and!; try done; reflexivity.
  - intros s1 s2 s3 (?&?&?&B&D) (?&?&?&B'&D').
    split_and!; [by etransitivity..|congruence| |].
    + intros y. by rewrite B', B.
    + intros y. by rewrite D', D.
Qed.

Lemma calm_weaken H H' s s' : H' ⊆ H -> calm H s s' -> calm H' s s'.
Proof.
  intros Hs (?&?&?&?&?). split_and!; try done. by eapply keep_slots_weaken.
Qed.

Lemma same_mem_log s l :
  lg_outstanding l = lg_outstanding (fs_log s) ->
  env_same (io_env (lg_bio (fs_log s))) (io_env (lg_bio l)) -> same_mem s (set_log l s).
Proof. intros Ho He. by split_and!. Qed.

Lemma room_size H s : fs_tx H s -> room 0 s -> (size (H ∪ pinned (tx s)) < NBUF)%nat.
Proof.
  intros T R. rewrite size_union_alt.
  pose proof (subseteq_size (pinned (tx s) ∖ H) (pinned (tx s)) ltac:(set_solver)).
  unfold tx in *. rewrite pinned_size in * by apply (li_at _ _ _ _ (ft_log _ _ T)).
  pose proof (ft_held _ _ T). destruct R as [R _]. unfold NBUF in *. lia.
Qed.

Lemma wp_fbread H s x :
  fs_tx H s -> (x ∉ H) -> (size H < 3)%nat -> room 0 s ->
  wp (fbread d x) (fun i s' => fs_tx ({[x]} ∪ H) s' /\ slot d (lg_bio (fs_log s')) i x /\
                               calm H s s') s.
Proof.
  intros T Hx Hsz R. unfold fbread. apply wp_flog.
  eapply wp_mono; [apply (wp_tx_bread d st H (fs_log s) x); [apply T|done|left; by apply room_size]|].
  intros i l (L & S & (Hl & Ho & (F & D & B))). split_and!; [|done|].
  - split; simpl; [done|apply T|].
    rewrite size_union, size_singleton by set_solver. lia.
  - split_and!; [apply same_mem_log; [done|apply F]|exact (proj2 F)|done|done|].
    intros y. simpl. by rewrite D.
Qed.

Lemma wp_fbdata H s i x (Q : block -> fs -> Prop) :
  fs_tx H s -> slot d (lg_bio (fs_log s)) i x -> Q (cur s x) s -> wp (fbdata i) Q s.
Proof.
  intros T S HQ. apply wp_flog. eapply (wp_tx_bdata d st H); [apply T|done|]. by destruct s.
Qed.

(** Assignment to the data of a held buffer. *)
Lemma wp_fset_bdata H s i x v :
  fs_tx H s -> slot d (lg_bio (fs_log s)) i x -> x ∈ H -> length v = bsize -> Forall is_byte v ->
  wp (fset_bdata i v) (fun _ s' => fs_tx H s' /\ same_mem s s' /\ keep_slots H s s' /\
    tx s' = tx s /\ (forall y, cur s' y = if decide (y = x) then v else cur s y) /\
    (forall y, disk_read (io_disk (lg_bio (fs_log s'))) y =
               disk_read (io_disk (lg_bio (fs_log s))) y)) s.
Proof.
  intros T S Hx Hl Hv. apply wp_flog.
  eapply wp_mono; [by apply (wp_tx_set_bdata d st H (fs_log s) i x v); [apply T|..]|].
  intros [] l (L & Hlh & Ho & F & D & B). split_and!; try done.
  - split; simpl; [done|apply T|apply T].
  - apply same_mem_log; [done|apply F].
  - exact (proj2 F).
  - intros y. simpl. by rewrite D.
Qed.

Lemma room_lh_n H s k : fs_tx H s -> room (S k) s -> lh_n (fs_log s) < LOGBLOCKS.
Proof.
  intros T R. pose proof (li_at _ _ _ _ (ft_log _ _ T)) as La.
  pose proof (log_at_length _ _ _ _ La). pose proof (la_n _ _ _ _ La).
  destruct R as [R _]. unfold LOGBLOCKS, MAXOPBLOCKS. lia.
Qed.

Lemma wp_flog_write H s i x k :
  fs_tx H s -> slot d (lg_bio (fs_log s)) i x -> x ∈ H -> home st x -> room (S k) s ->
  wp (flog_write i) (fun _ s' => fs_tx H s' /\ same_mem s s' /\ keep_slots H s s' /\
    tx s' = absorb x (tx s) /\ (forall y, cur s' y = cur s y) /\
    (forall y, disk_read (io_disk (lg_bio (fs_log s'))) y =
               disk_read (io_disk (lg_bio (fs_log s))) y)) s.
Proof.
  intros T S Hx Hh R. apply wp_flog.
  eapply wp_mono; [apply (wp_log_write d st H (fs_log s) i x);
    [apply T|done..|by destruct R as [_ [?|?]]|by eapply room_lh_n]|].
  intros [] l (L & Hl & Ho & (F & D & B)). split_and!; try done.
  - split; simpl; [done|apply T|apply T].
  - apply same_mem_log; [done|apply F].
  - exact (proj2 F).
  - intros y. simpl. by rewrite D.
Qed.

Lemma wp_fbrelse H s i x :
  fs_tx H s -> slot d (lg_bio (fs_log s)) i x -> x ∈ H ->
  x ∈ tx s \/ cur s x = disk_read (io_disk (lg_bio (fs_log s))) x ->
  wp (fbrelse i) (fun _ s' => fs_tx (H ∖ {[x]}) s' /\ calm (H ∖ {[x]}) s s') s.
Proof.
  intros T S Hx Hc. apply wp_flog.
  eapply wp_mono; [by apply (wp_tx_brelse d st H (fs_log s) i x); [apply T|..]|].
  intros [] l (L & (Hl & Ho & (F & D & B))). split.
  - split; simpl; [done|apply T|].
    pose proof (subseteq_size (H ∖ {[x]}) H ltac:(set_solver)). pose proof (ft_held _ _ T). lia.
  - split_and!; [apply same_mem_log; [done|apply F]|exact (proj2 F)|done|done|].
    intros y. simpl. by rewrite D.
Qed.

(** [s'] is [s] after block [x] got the contents [v] through the log. *)
Definition stored (H : gset Z) (x : Z) (v : block) (s s' : fs) : Prop :=
  same_mem s s' /\ keep_slots H s s' /\ tx s' = absorb x (tx s) /\
  (forall y, cur s' y = if decide (y = x) then v else cur s y) /\
  (forall y, disk_read (io_disk (lg_bio (fs_log s'))) y =
             disk_read (io_disk (lg_bio (fs_log s))) y).

Lemma room_same s s' k : same_mem s s' -> tx s' = tx s -> room k s -> room k s'.
Proof.
  intros (_ & _ & _ & Ho & _) Ht [R O]. unfold room. fold (tx s') (tx s) in *. by rewrite Ht, Ho.
Qed.

Lemma room_absorb x s s' k : same_mem s s' -> tx s' = absorb x (tx s) -> room (S k) s -> room k s'.
Proof.
  intros (_ & _ & _ & Ho & _) Ht [R O]. unfold room. fold (tx s') (tx s) in *. rewrite Ht, Ho.
  pose proof (absorb_length x (tx s)). lia.
Qed.

Lemma stored_room H x v s s' k : stored H x v s s' -> room (S k) s -> room k s'.
Proof. intros (M & _ & Ht & _). by eapply room_absorb. Qed.

Lemma calm_room H s s' k : calm H s s' -> room k s -> room k s'.
Proof. intros (M & _ & Ht & _). by apply room_same. Qed.

Lemma stored_calm H x v s1 s2 s3 : stored H x v s1 s2 -> calm H s2 s3 -> stored H x v s1 s3.
Proof.
  intros (M & K & T & B & D) (M' & K' & T' & B' & D'). split_and!; [by etransitivity..|congruence| |].
  - intros y. by rewrite B', B.
  - intros y. by rewrite D', D.
Qed.

Lemma calm_stored H x v s1 s2 s3 : calm H s1 s2 -> stored H x v s2 s3 -> stored H x v s1 s3.
Proof.
  intros (M & K & T & B & D) (M' & K' & T' & B' & D'). split_and!; [by etransitivity..|congruence| |].
  - intros y. rewrite B'. by rewrite B.
  - intros y. by rewrite D', D.
Qed.

(** A block good to be stored. *)
Definition good (v : block) : Prop := length v = bsize /\ Forall is_byte v.

Lemma cur_good H s x : fs_tx H s -> good (cur s x).
Proof.
  intros T. pose proof (li_bio _ _ _ _ (ft_log _ _ T)) as I.
  split; [by eapply blk_length|by eapply blk_bytes].
Qed.

(** Modify a held buffer, log it and let it go; then the rest. *)
Lemma wp_store_release {A} H s i x v k (c : M fs A) Q :
  fs_tx H s -> slot d (lg_bio (fs_log s)) i x -> x ∈ H -> home st x -> room (S k) s -> good v ->
  (forall s', fs_tx (H ∖ {[x]}) s' -> stored (H ∖ {[x]}) x v s s' -> room k s' -> wp c Q s') ->
  wp (fset_bdata i v ;; flog_write i ;; fbrelse i ;; c) Q s.
Proof.
  intros T S Hx Hh R [Hl Hv] HQ.
  wp_step. wp_use wp_fset_bdata; [done..|]. intros [] s1 (T1 & M1 & K1 & X1 & B1 & D1).
  wp_step. wp_use (wp_flog_write H s1 i x k); [done|by apply K1|done|done|by eapply room_same|].
  intros [] s2 (T2 & M2 & K2 & X2 & B2 & D2).
  wp_step. wp_use wp_fbrelse; [done|by apply K2, K1|done|left; rewrite X2; apply absorb_in|].
  intros [] s3 (T3 & C3).
  assert (stored (H ∖ {[x]}) x v s s3) as St.
  { eapply stored_calm; [|exact C3]. split_and!.
    - by etransitivity.
    - eapply (keep_slots_weaken H); [set_solver|]. by etransitivity.
    - by rewrite X2, X1.
    - intros y. by rewrite B2, B1.
    - intros y. by rewrite D2, D1. }
  apply HQ; [done|done|]. by eapply stored_room.
Qed.

Lemma bind_ret_r {A} (m : M fs A) s : bind m ret s = m s.
Proof. unfold bind, ret. by destruct (m s). Qed.

Lemma wp_store_release_end H s i x v k (Q : unit -> fs -> Prop) :
  fs_tx H s -> slot d (lg_bio (fs_log s)) i x -> x ∈ H -> home st x -> room (S k) s -> good v ->
  (forall s', fs_tx (H ∖ {[x]}) s' -> stored (H ∖ {[x]}) x v s s' -> room k s' -> Q tt s') ->
  wp (fset_bdata i v ;; flog_write i ;; fbrelse i) Q s.
Proof.
  intros T S Hx Hh R Hv HQ.
  eapply (wp_eq _ (fset_bdata i v ;; flog_write i ;; fbrelse i ;; ret tt) _ _ s).
  - unfold bind. destruct (fset_bdata i v s) as [a s1| | |]; try done.
    destruct (flog_write i s1) as [a2 s2| | |]; try done.
    by destruct (fbrelse i s2) as [[] s3| | |].
  - eapply wp_store_release; [done..|]. intros s' T' St R'. apply wp_ret. auto.
Qed.

(** Read a block and let it go; then the rest. *)
Lemma wp_read_release {A} H s i x s0 (c : M fs A) Q :
  fs_tx ({[x]} ∪ H) s -> (x ∉ H) -> slot d (lg_bio (fs_log s)) i x -> calm H s0 s ->
  fs_tx H s0 ->
  (forall s', fs_tx H s' -> calm H s0 s' -> wp c Q s') ->
  wp (fbrelse i ;; c) Q s.
Proof.
  intros T Hx S C T0 HQ. wp_step. wp_use wp_fbrelse; [done..|set_solver| |].
  { destruct (decide (x ∈ tx s)) as [|Hn]; [by left|]. right.
    pose proof C as (_ & _ & X & B & D). rewrite B, D.
    eapply (blk_clean d H (pinned (tx s0))); [apply T0|done|].
    unfold pinned. rewrite elem_of_list_to_set. by rewrite <- X. }
  intros [] s1 (T1 & C1).
  replace (({[x]} ∪ H) ∖ {[x]}) with H in T1, C1 by set_solver.
  apply HQ; [done|]. by etransitivity.
Qed.

Lemma wp_fprintf H s m args :
  fs_tx H s -> wp (in_env (printf m args)) (fun _ s' => fs_tx H s' /\ calm H s s') s.
Proof.
  intros T. unfold in_env. apply wp_zoom, wp_modify.
  pose proof (env_same_out (m, args) (io_env (lg_bio (fs_log s)))) as He.
  split.
  - split; try apply T. simpl. eapply log_inv_set_bio; [apply T| |done].
    apply bio_inv_env; [apply T|done].
  - split_and!; try done. by intros i x.
Qed.
End spec.
