(* ===== verification/FsBitmap.v ===== *)
(** * The block allocator: [balloc] and [bfree] against a set of free blocks *)

From S2P Require Import Prelude Param Spinlock Sleeplock Str Bio BioSpec BioOps Log LogDisk LogOps LogTx Fs FsSpec.

(** ** Bits of a bitmap block *)

Lemma land_bit a k : 0 <= k -> (Z.land a (Z.shiftl 1 k) =? 0) = negb (Z.testbit a k).
Proof.
  intros Hk. rewrite Z.shiftl_1_l. destruct (Z.testbit a k) eqn:E; simpl.
  - apply Z.eqb_neq. intros H0. assert (Z.testbit (Z.land a (2 ^ k)) k = true) as Ht.
    { by rewrite Z.land_spec, E, Z.pow2_bits_true. }
    rewrite H0, Z.bits_0 in Ht. done.
  - apply Z.eqb_eq. apply Z.bits_inj'. intros n Hn. rewrite Z.land_spec, Z.bits_0.
    destruct (decide (n = k)) as [->|Hne]; [by rewrite E|].
    rewrite Z.pow2_bits_false by done. apply andb_false_r.
Qed.

Lemma bit_free_testbit data bi :
  0 <= bi -> bit_free data bi = negb (Z.testbit (rd data (Z.to_nat (bi / 8))) (bi mod 8)).
Proof. intros. unfold bit_free. apply land_bit. apply Z.mod_pos_bound. lia. Qed.

Lemma rd_insert data i j v :
  (i < length data)%nat -> rd (<[i := v]> data) j = if decide (i = j) then v else rd data j.
Proof.
  intros Hi. unfold rd. case_decide; subst.
  - by rewrite list_lookup_insert_eq.
  - by rewrite list_lookup_insert_ne.
Qed.

Lemma byte_index bi : 0 <= bi < BPB -> (Z.to_nat (bi / 8) < bsize)%nat.
Proof. unfold BPB, bsize, BSIZE. intros. assert (bi / 8 < 1024) by (apply Z.div_lt_upper_bound; lia). lia. Qed.

Lemma bit_index_inj a b : 0 <= a -> 0 <= b -> Z.to_nat (a / 8) = Z.to_nat (b / 8) -> a mod 8 = b mod 8 -> a = b.
Proof.
  intros. pose proof (Z.div_mod a 8 ltac:(lia)). pose proof (Z.div_mod b 8 ltac:(lia)).
  assert (0 <= a / 8) by (apply Z.div_pos; lia). assert (0 <= b / 8) by (apply Z.div_pos; lia). lia.
Qed.

Lemma set_bit_free data bi bj :
  length data = bsize -> 0 <= bi < BPB -> 0 <= bj ->
  bit_free (set_bit data bi) bj = if decide (bj = bi) then false else bit_free data bj.
Proof.
  intros Hl Hi Hj. rewrite !bit_free_testbit by lia. unfold set_bit.
  rewrite rd_insert by (rewrite Hl; by apply byte_index).
  pose proof (Z.mod_pos_bound bi 8). pose proof (Z.mod_pos_bound bj 8).
  destruct (decide (bj = bi)) as [->|Hne].
  - rewrite decide_True by done. rewrite Z.lor_spec, Z.shiftl_1_l, Z.pow2_bits_true by lia.
    by rewrite orb_true_r.
  - case_decide as He; [|done]. rewrite Z.lor_spec, Z.shiftl_1_l, <- He.
    rewrite Z.pow2_bits_false; [by rewrite orb_false_r|].
    intros E. apply Hne. by apply bit_index_inj; [lia..|].
Qed.

Lemma clear_bit_free data bi bj :
  length data = bsize -> 0 <= bi < BPB -> 0 <= bj ->
  bit_free (clear_bit data bi) bj = if decide (bj = bi) then true else bit_free data bj.
Proof.
  intros Hl Hi Hj. rewrite !bit_free_testbit by lia. unfold clear_bit.
  rewrite rd_insert by (rewrite Hl; by apply byte_index).
  pose proof (Z.mod_pos_bound bi 8). pose proof (Z.mod_pos_bound bj 8).
  assert (forall k, 0 <= k < 8 -> Z.testbit (u8 (Z.lnot (Z.shiftl 1 (bi mod 8)))) k =
            negb (k =? bi mod 8)) as Hbit.
  { intros k Hk. unfold u8. rewrite Z.mod_pow2_bits_low by lia.
    rewrite Z.lnot_spec, Z.shiftl_1_l, Z.pow2_bits_eqb by lia. by rewrite Z.eqb_sym. }
  destruct (decide (bj = bi)) as [->|Hne].
  - rewrite decide_True by done. rewrite Z.land_spec, Hbit by lia.
    by rewrite Z.eqb_refl, andb_false_r.
  - case_decide as He; [|done]. rewrite Z.land_spec, Hbit, <- He by lia.
    rewrite (proj2 (Z.eqb_neq _ _)); [by rewrite andb_true_r|].
    intros E. apply Hne. by apply bit_index_inj; [lia..|].
Qed.

Lemma byte_lor a k : is_byte a -> 0 <= k < 8 -> is_byte (Z.lor a (Z.shiftl 1 k)).
Proof.
  unfold is_byte. intros Ha Hk. rewrite Z.shiftl_1_l.
  assert (0 <= 2 ^ k < 2 ^ 8) by (split; [lia|apply Z.pow_lt_mono_r; lia]).
  split; [apply Z.lor_nonneg; lia|].
  destruct (decide (Z.lor a (2 ^ k) = 0)) as [->|Hz]; [lia|].
  assert (0 <= Z.lor a (2 ^ k)) by (apply Z.lor_nonneg; lia).
  apply (Z.log2_lt_pow2 _ 8); [lia|].
  rewrite Z.log2_lor by lia. apply Z.max_lub_lt.
  - destruct (decide (a = 0)) as [->|]; [simpl; lia|]. apply Z.log2_lt_pow2; [lia|]. change (2 ^ 8) with 256. lia.
  - rewrite Z.log2_pow2 by lia. lia.
Qed.

Lemma byte_land a b : is_byte a -> 0 <= b -> is_byte (Z.land a b).
Proof.
  unfold is_byte. intros Ha Hb. split; [apply Z.land_nonneg; lia|].
  destruct (decide (Z.land a b = 0)) as [->|]; [lia|].
  assert (0 <= Z.land a b) by (apply Z.land_nonneg; lia).
  apply (Z.log2_lt_pow2 _ 8); [lia|].
  eapply Z.le_lt_trans; [apply Z.log2_land; lia|].
  eapply Z.le_lt_trans; [apply Z.le_min_l|].
  destruct (decide (a = 0)) as [->|]; [simpl; lia|].
  apply Z.log2_lt_pow2; [lia|]. change (2 ^ 8) with 256. lia.
Qed.

Lemma rd_byte data i : Forall is_byte data -> is_byte (rd data i).
Proof.
  intros Hb. unfold rd. destruct (data !! i) eqn:E; simpl; [|unfold is_byte; lia].
  by apply (Forall_lookup_1 _ _ _ _ Hb E).
Qed.

Lemma set_bit_good data bi : good data -> good (set_bit data bi).
Proof.
  intros [Hl Hb]. unfold set_bit. split; [by rewrite length_insert|].
  apply Forall_insert; [done|]. apply byte_lor; [by apply rd_byte|].
  apply Z.mod_pos_bound. lia.
Qed.

Lemma clear_bit_good data bi : good data -> good (clear_bit data bi).
Proof.
  intros [Hl Hb]. unfold clear_bit. split; [by rewrite length_insert|].
  apply Forall_insert; [done|]. apply byte_land; [by apply rd_byte|].
  apply Z.mod_pos_bound. lia.
Qed.

(** The inner loop finds the first free bit below the limit. *)
Lemma find_free_spec n bi b size data :
  match find_free n bi b size data with
  | Some r => bi <= r < bi + Z.of_nat n /\ b + r < size /\ bit_free data r = true /\
              forall k, bi <= k < r -> bit_free data k = false
  | None => forall k, bi <= k < bi + Z.of_nat n -> b + k < size -> bit_free data k = false
  end.
Proof.
  revert bi. induction n as [|n IH]; intros bi; cbn [find_free].
  - intros k Hk. lia.
  - destruct (Z.ltb_spec (b + bi) size) as [Hlt|Hge]; [|intros k Hk Hs; lia].
    destruct (bit_free data bi) eqn:E.
    + split_and!; [lia..|done|]. intros k Hk. lia.
    + specialize (IH (bi + 1)). destruct (find_free n (bi + 1) b size data) as [r|].
      * destruct IH as (H1 & H2 & H3 & H4). split_and!; [lia..|done|].
        intros k Hk. destruct (decide (k = bi)) as [->|]; [done|]. apply H4. lia.
      * intros k Hk Hs. destruct (decide (k = bi)) as [->|]; [done|]. apply IH; lia.
Qed.

(** ** The allocator *)

Section alloc.
Context (d : Z) (sb : superblock) {G : FsGeom d sb}.
Implicit Types (H : gset Z) (s : fs) (x b : Z).
#[local] Abbreviation st := (sb_logstart sb).
#[local] Abbreviation cur := (cur d).
#[local] Abbreviation fs_tx := (fs_tx d sb).

(** Block [b] is free according to the bitmap. *)
Definition free (s : fs) (b : Z) : bool := bit_free (cur s (BBLOCK b sb)) (b mod BPB).

(** The boot block, the log, the inodes and the bitmap are marked in use. *)
Definition meta_used (s : fs) : Prop := forall b, 0 <= b < datastart sb -> free s b = false.

Lemma geom_facts :
  0 <= st /\ st + LOGBLOCKS < sb_inodestart sb /\ 0 < sb_inodestart sb < sb_bmapstart sb /\ sb_inodestart sb < sb_bmapstart sb /\
  0 <= sb_size sb / BPB /\ datastart sb <= sb_size sb < 2 ^ 31.
Proof.
  destruct G as [Gl Hi Hn Hb Hd Hs]. pose proof (geom_start (d := d) (st := st)) as Hst.
  assert (0 <= sb_ninodes sb / IPB) by (apply Z.div_pos; [lia|done]).
  assert (0 <= sb_size sb / BPB) by (apply Z.div_pos; [lia|done]).
  unfold datastart, LOGBLOCKS, MAXOPBLOCKS in *. lia.
Qed.

Lemma BBLOCK_eq b : 0 <= b < sb_size sb -> BBLOCK b sb = b / BPB + sb_bmapstart sb.
Proof.
  intros Hb. pose proof geom_facts. unfold BBLOCK. apply u32_small.
  assert (0 <= b / BPB <= sb_size sb / BPB) by (split; [apply Z.div_pos; [lia|done]|apply Z.div_le_mono; [done|lia]]).
  unfold datastart in *. lia.
Qed.

Lemma BBLOCK_range b :
  0 <= b < sb_size sb -> sb_bmapstart sb <= BBLOCK b sb < datastart sb.
Proof.
  intros Hb. rewrite BBLOCK_eq by done.
  assert (0 <= b / BPB <= sb_size sb / BPB) by (split; [apply Z.div_pos; [lia|done]|apply Z.div_le_mono; [done|lia]]).
  unfold datastart in *. lia.
Qed.

Lemma high_home x : sb_inodestart sb <= x < sb_size sb -> home st x.
Proof. intros Hx. pose proof geom_facts. unfold home, in_log. lia. Qed.

Lemma bitmap_home b : 0 <= b < sb_size sb -> home st (BBLOCK b sb).
Proof. intros Hb. pose proof geom_facts. pose proof (BBLOCK_range b Hb). apply high_home. lia. Qed.

Lemma data_home x : datastart sb <= x < sb_size sb -> home st x.
Proof. intros Hx. pose proof geom_facts. unfold datastart in *. apply high_home. lia. Qed.

(** Bits of one bitmap block. *)
Lemma BBLOCK_split k bi :
  0 <= k -> 0 <= bi < BPB -> BBLOCK (k * BPB + bi) sb = BBLOCK (k * BPB) sb /\ (k * BPB + bi) mod BPB = bi.
Proof.
  intros Hk Hbi. unfold BBLOCK. rewrite Z.div_add_l, (Z.div_small bi), Z.add_0_r, Z.div_mul by lia.
  split; [done|]. rewrite Z.add_comm, Z.mod_add by lia. by apply Z.mod_small.
Qed.

(** What allocating block [r] does. *)
Definition allocated (H : gset Z) (r : Z) (s s' : fs) : Prop :=
  same_mem s s' /\ keep_slots d H s s' /\
  tx s' = absorb r (absorb (BBLOCK r sb) (tx s)) /\
  (forall y, cur s' y = if decide (y = r) then replicate bsize 0
                        else if decide (y = BBLOCK r sb) then set_bit (cur s y) (r mod BPB)
                        else cur s y).

Lemma zeros_good : good (replicate bsize 0).
Proof. split; [apply length_replicate|]. apply Forall_replicate. unfold is_byte. lia. Qed.

Lemma wp_bzero H s x k :
  fs_tx H s -> (x ∉ H) -> (size H < 3)%nat -> home st x -> room (S k) s ->
  wp (bzero d x) (fun _ s' => fs_tx H s' /\ stored d H x (replicate bsize 0) s s' /\ room k s') s.
Proof.
  intros T Hx Hsz Hh R. unfold bzero. rewrite u32_small by (destruct Hh; lia).
  wp_step. wp_use wp_fbread; [done..|eapply room_weaken; [|done]; lia|].
  intros i s1 (T1 & S1 & C1).
  eapply (wp_store_release_end d sb); [done|done|set_solver|done|by eapply calm_room|apply zeros_good|].
  replace (({[x]} ∪ H) ∖ {[x]}) with H by set_solver.
  intros s' T' St R'. split_and!; [done| |done]. by eapply calm_stored.
Qed.

(** Blocks that may be held while the bitmap is searched. *)
Definition held_ok (H : gset Z) (s : fs) : Prop :=
  forall x, x ∈ H -> datastart sb <= x /\ free s x = false.

Lemma held_not_bitmap H s b : held_ok H s -> 0 <= b < sb_size sb -> (BBLOCK b sb ∉ H).
Proof. intros Ho Hb Hin. pose proof (BBLOCK_range b Hb). destruct (Ho _ Hin). lia. Qed.

Lemma free_calm H s s' b : calm d H s s' -> free s' b = free s b.
Proof. intros (_ & _ & _ & B & _). unfold free. by rewrite B. Qed.

Definition balloc_ok (H : gset Z) (k : nat) (s : fs) (r : Z) (s' : fs) : Prop :=
  fs_tx H s' /\ room k s' /\ datastart sb <= r < sb_size sb /\ free s r = true /\ allocated H r s s'.

(** The allocating branch of [balloc]. *)
Lemma wp_balloc_take H s s1 i k0 bi k :
  fs_tx H s -> held_ok H s -> meta_used s -> (size H < 3)%nat -> room (S (S k)) s ->
  fs_tx ({[BBLOCK (k0 * BPB) sb]} ∪ H) s1 -> slot d (lg_bio (fs_log s1)) i (BBLOCK (k0 * BPB) sb) ->
  calm d H s s1 -> 0 <= k0 -> 0 <= bi < BPB -> k0 * BPB + bi < sb_size sb ->
  bit_free (cur s (BBLOCK (k0 * BPB) sb)) bi = true ->
  wp (fset_bdata i (set_bit (cur s (BBLOCK (k0 * BPB) sb)) bi) ;; flog_write i ;; fbrelse i ;;
      bzero d (k0 * BPB + bi) ;; ret (Some (k0 * BPB + bi)))
     (fun r s' => exists b, r = Some b /\ balloc_ok H k s b s') s1.
Proof.
  intros T Ho Hm Hsz R T1 S1 C1 Hk0 Hbi Hlt Hfree.
  destruct (BBLOCK_split k0 bi Hk0 Hbi) as [HB Hmod]. set (r := k0 * BPB + bi) in *.
  assert (0 <= r < sb_size sb) as Hr by (subst r; pose proof (Z.mul_nonneg_nonneg k0 BPB Hk0 ltac:(done)); lia).
  assert (free s r = true) as Hf by (unfold free; by rewrite HB, Hmod).
  assert (datastart sb <= r) as Hd.
  { destruct (decide (datastart sb <= r)); [done|]. rewrite Hm in Hf by lia. done. }
  pose proof (BBLOCK_range r Hr) as Hrange. rewrite <- HB in *.
  assert (BBLOCK r sb ∉ H) as HnB by by eapply held_not_bitmap.
  assert (r ∉ H) as Hnr by (intros Hin; destruct (Ho r Hin); congruence).
  eapply (wp_store_release d sb); [done|done|set_solver|by apply bitmap_home|by eapply calm_room
    |by eapply set_bit_good, cur_good|].
  replace (({[BBLOCK r sb]} ∪ H) ∖ {[BBLOCK r sb]}) with H by set_solver.
  intros s2 T2 St2 R2. wp_step. wp_use wp_bzero; [done|done|done|by apply data_home|done|].
  intros [] s3 (T3 & St3 & R3). apply wp_ret. exists r. split; [done|].
  split_and!; try done.
  pose proof (calm_stored d _ _ _ _ _ _ C1 St2) as (M2 & K2 & X2 & B2 & D2).
  destruct St3 as (M3 & K3 & X3 & B3 & D3). split_and!; [by etransitivity..|by rewrite X3, X2|].
  intros y. rewrite B3. destruct (decide (y = r)); [done|]. rewrite B2, Hmod.
  by destruct (decide (y = BBLOCK r sb)) as [->|].
Qed.

Lemma wp_balloc H s k :
  fs_tx H s -> held_ok H s -> meta_used s -> (size H < 3)%nat -> room (S (S k)) s ->
  wp (balloc d) (fun r s' =>
    (r = 0 /\ (forall b, 0 <= b < sb_size sb -> free s b = false) /\ fs_tx H s' /\ calm d H s s') \/
    balloc_ok H k s r s') s.
Proof.
  intros T Ho Hm Hsz R. unfold balloc. wp_step. wp_step. cbv beta. rewrite (ft_sb _ _ _ _ T).
  wp_step. eapply (wp_for_find _ (fun dn s' => fs_tx H s' /\ calm d H s s' /\
    forall b bi, b ∈ dn -> 0 <= bi < BPB -> b + bi < sb_size sb -> free s (b + bi) = false)).
  - split_and!; [done|reflexivity|]. intros b bi Hb. by apply not_elem_of_nil in Hb.
  - intros dn b rest s1 Hl (T1 & C1 & Hdn).
    assert (exists k0, b = k0 * BPB /\ 0 <= k0 /\ k0 * BPB < sb_size sb) as (k0 & -> & Hk0 & Hlt0).
    { assert (b ∈ bitmap_starts (sb_size sb)) as Hb by (rewrite Hl; set_solver).
      unfold bitmap_starts in Hb. apply list_elem_of_fmap in Hb as (k0 & -> & Hk0).
      apply elem_of_seqZ in Hk0. exists k0. split_and!; [done|lia|].
      unfold BPB, BSIZE in *. pose proof (Z.mul_div_le (sb_size sb + 1024 * 8 - 1) (1024 * 8)). lia. }
    pose proof (BBLOCK_range (k0 * BPB) ltac:(unfold BPB, BSIZE in *; lia)).
    wp_step. wp_use (wp_fbread d sb H s1 (BBLOCK (k0 * BPB) sb)); [done| |done|by eapply (room_weaken (S (S k))), calm_room; [lia|..]|].
    { eapply held_not_bitmap; [done|unfold BPB, BSIZE in *; lia]. }
    intros i s2 (T2 & S2 & C2). assert (calm d H s s2) as C by by etransitivity.
    wp_step. eapply wp_fbdata; [done..|]. rewrite (proj1 (proj2 (proj2 (proj2 C)))).
    pose proof (find_free_spec (Z.to_nat BPB) 0 (k0 * BPB) (sb_size sb) (cur s (BBLOCK (k0 * BPB) sb))) as Hff.
    rewrite Z2Nat.id in Hff by done. destruct (find_free _ _ _ _ _) as [bi|].
    + destruct Hff as (Hbi & Hlt & Hfr & _).
      wp_use (wp_balloc_take H s s2 i k0 bi k); try done.
      intros r s3 (b & -> & Hok). apply wp_ret. by right.
    + eapply (wp_read_release d sb); [done| |done|done|done|].
      { eapply held_not_bitmap; [done|unfold BPB, BSIZE in *; lia]. }
      intros s3 T3 C3. apply wp_ret. split_and!; [done..|]. intros b bi Hb Hbi Hlt.
      apply elem_of_app in Hb as [Hb|Hb%list_elem_of_singleton]; [by apply Hdn|subst b].
      destruct (BBLOCK_split k0 bi Hk0 Hbi) as [HB Hmod]. unfold free. rewrite HB, Hmod.
      apply Hff; lia.
  - intros s1 (T1 & C1 & Hall). wp_step. wp_use wp_fprintf; [done|]. intros [] s2 (T2 & C2).
    apply wp_ret. left. split_and!; [done| |done|by etransitivity].
    intros b Hb. pose proof (Z.div_mod b BPB ltac:(done)) as Hdm.
    pose proof (Z.mod_pos_bound b BPB ltac:(done)) as Hmb.
    replace b with (b / BPB * BPB + b mod BPB) by lia. apply Hall; [|lia|lia].
    unfold bitmap_starts. apply list_elem_of_fmap. exists (b / BPB). split; [done|].
    apply elem_of_seqZ. split; [apply Z.div_pos; [lia|done]|].
    rewrite Z.add_0_l. apply Z.div_lt_upper_bound; [done|]. unfold BPB, BSIZE in *.
    pose proof (Z.mul_succ_div_gt (sb_size sb + 1024 * 8 - 1) (1024 * 8) ltac:(lia)). lia.
Qed.

Lemma BBLOCK_mod_inj a b :
  0 <= a < sb_size sb -> 0 <= b < sb_size sb ->
  BBLOCK a sb = BBLOCK b sb -> a mod BPB = b mod BPB -> a = b.
Proof.
  intros Ha Hb. rewrite !BBLOCK_eq by done. intros Hd Hm.
  rewrite (Z.div_mod a BPB), (Z.div_mod b BPB) by done. rewrite Hm. f_equal.
  f_equal. lia.
Qed.

Lemma mod_bpb b : 0 <= b mod BPB < BPB.
Proof. by apply Z.mod_pos_bound. Qed.

(** The bitmap after an allocation. *)
Lemma free_allocated H s s' r b :
  fs_tx H s -> datastart sb <= r < sb_size sb -> allocated H r s s' -> 0 <= b < sb_size sb ->
  free s' b = if decide (b = r) then false else free s b.
Proof.
  intros T Hr (_ & _ & _ & B) Hb. unfold free. rewrite B.
  pose proof geom_facts. pose proof (BBLOCK_range b Hb). rewrite decide_False by lia.
  pose proof (cur_good d sb H s (BBLOCK b sb) T) as [Hl _].
  destruct (decide (b = r)) as [->|Hne].
  - rewrite decide_True by done. rewrite set_bit_free by (done || apply mod_bpb).
    by rewrite decide_True.
  - case_decide as HB; [|done]. rewrite set_bit_free by (done || apply mod_bpb).
    rewrite decide_False; [done|]. intros Hm. apply Hne. apply BBLOCK_mod_inj; [done|unfold datastart in *; lia|done..].
Qed.

Lemma meta_used_allocated H s s' r :
  fs_tx H s -> datastart sb <= r < sb_size sb -> allocated H r s s' -> meta_used s -> meta_used s'.
Proof.
  intros T Hr A Hm b Hb. pose proof geom_facts. rewrite (free_allocated H s s' r) by (done || lia).
  case_decide; [done|]. by apply Hm.
Qed.

(** ** bfree *)

Lemma wp_bfree H s b k :
  fs_tx H s -> (BBLOCK b sb ∉ H) -> (size H < 3)%nat -> 0 <= b < sb_size sb ->
  free s b = false -> room (S k) s ->
  wp (bfree d b) (fun _ s' => fs_tx H s' /\ room k s' /\
    stored d H (BBLOCK b sb) (clear_bit (cur s (BBLOCK b sb)) (b mod BPB)) s s') s.
Proof.
  intros T HB Hsz Hb Hf R. unfold bfree. wp_step. wp_step. cbv beta. rewrite (ft_sb _ _ _ _ T).
  wp_step. wp_use (wp_fbread d sb H s); [done..|by eapply (room_weaken (S k)); [lia|]|].
  intros i s1 (T1 & S1 & C1). wp_step. eapply wp_fbdata; [done..|].
  rewrite (proj1 (proj2 (proj2 (proj2 C1)))). fold (free s b). rewrite Hf.
  eapply (wp_store_release_end d sb); [done|done|set_solver|by apply bitmap_home|by eapply calm_room
    |by eapply clear_bit_good, cur_good|].
  replace (({[BBLOCK b sb]} ∪ H) ∖ {[BBLOCK b sb]}) with H by set_solver.
  intros s' T' St R'. split_and!; [done..|]. by eapply calm_stored.
Qed.

Lemma bfree_free_panics H s b :
  fs_tx H s -> (BBLOCK b sb ∉ H) -> (size H < 3)%nat -> room 0 s -> free s b = true ->
  panics (bfree d b) "freeing free block" s.
Proof.
  intros T HB Hsz R Hf. unfold panics, bfree. unfold bind at 1, gets. rewrite (ft_sb _ _ _ _ T).
  destruct (wp_Ok _ _ _ (wp_fbread d sb H s (BBLOCK b sb) T HB Hsz R)) as (i & s1 & E & T1 & S1 & C1).
  rewrite (bind_Ok _ _ _ _ _ E).
  destruct (wp_Ok (fbdata i) (fun v s2 => v = cur s1 (BBLOCK b sb) /\ s2 = s1) s1) as (v & s2 & E2 & -> & ->).
  { by eapply wp_fbdata. }
  rewrite (bind_Ok _ _ _ _ _ E2). rewrite (proj1 (proj2 (proj2 (proj2 C1)))).
  fold (free s b). by rewrite Hf.
Qed.

Lemma free_bfreed H s s' r b :
  fs_tx H s -> 0 <= r < sb_size sb ->
  stored d H (BBLOCK r sb) (clear_bit (cur s (BBLOCK r sb)) (r mod BPB)) s s' ->
  0 <= b < sb_size sb -> free s' b = if decide (b = r) then true else free s b.
Proof.
  intros T Hr (_ & _ & _ & B & _) Hb. unfold free. rewrite B.
  pose proof (cur_good d sb H s (BBLOCK r sb) T) as [Hl _].
  destruct (decide (b = r)) as [->|Hne].
  - rewrite decide_True, clear_bit_free by (done || apply mod_bpb). by rewrite decide_True.
  - case_decide as HB; [|done]. rewrite clear_bit_free by (done || apply mod_bpb).
    rewrite decide_False; [by rewrite HB|]. intros Hm. apply Hne. by apply BBLOCK_mod_inj.
Qed.
End alloc.
