(* ===== verification/FsFile.v ===== *)
(** * File contents: [bmap], [readi], [writei]

    An inode's address table maps the blocks of a file to disk blocks; the
    file is the byte sequence read through it.  *)

From S2P Require Import Prelude Param Spinlock Sleeplock Str Bio BioSpec BioOps Log LogDisk LogOps LogTx Fs FsSpec FsBitmap.

(** ** Words of an indirect block *)

Lemma get_u32_put off v data :
  (off + 4 <= length data)%nat -> 0 <= v < 2 ^ 32 ->
  get_u32 off (splice off (le_encode 4 v) data) = v.
Proof.
  intros Hl Hv. unfold get_u32.
  replace 4%nat with (length (le_encode 4 v)) at 1 by apply le_encode_length.
  rewrite slice_splice_eq by (rewrite le_encode_length; lia).
  rewrite le_decode_encode. by apply Z.mod_small.
Qed.

Lemma get_u32_put_ne off off' v data :
  (off + 4 <= off' \/ off' + 4 <= off)%nat ->
  get_u32 off (splice off' (le_encode 4 v) data) = get_u32 off data.
Proof.
  intros H. unfold get_u32. rewrite slice_splice_ne; [done|]. rewrite le_encode_length. lia.
Qed.

Lemma get_u32_range off data : Forall is_byte data -> 0 <= get_u32 off data < 2 ^ 32.
Proof.
  intros Hb. unfold get_u32. pose proof (le_decode_bound (slice off 4 data)) as Hr.
  assert (Forall is_byte (slice off 4 data)) as Hs by by apply Forall_take, Forall_drop.
  specialize (Hr Hs). assert (length (slice off 4 data) <= 4)%nat.
  { unfold slice. rewrite length_take. lia. }
  assert (2 ^ (8 * Z.of_nat (length (slice off 4 data))) <= 2 ^ 32); [|lia].
  apply Z.pow_le_mono_r; lia.
Qed.

Lemma get_u32_zeros off n : get_u32 off (replicate n 0) = 0.
Proof.
  unfold get_u32, slice. rewrite drop_replicate, take_replicate.
  induction (Nat.min 4 (n - off)) as [|m IH]; simpl; lia.
Qed.

Lemma put_u32_good off v data : good data -> good (splice off (le_encode 4 v) data).
Proof.
  intros [Hl Hb]. split; [by rewrite splice_length|].
  apply splice_Forall; [apply le_encode_bytes|done].
Qed.

Section file.
Context (d : Z) (sb : superblock) {G : FsGeom d sb}.
Implicit Types (H : gset Z) (s : fs) (x b bn : Z) (ip : inode).
#[local] Abbreviation st := (sb_logstart sb).
#[local] Abbreviation cur := (cur d).
#[local] Abbreviation fs_tx := (fs_tx d sb).
#[local] Abbreviation free := (free d sb).
#[local] Abbreviation meta_used := (meta_used d sb).

(** The indirect block, and the disk block of block [bn] of a file (0: none). *)
Definition ind (ip : inode) : Z := i_addrs ip !!! Z.to_nat NDIRECT.
Definition fblock (s : fs) (ip : inode) (bn : Z) : Z :=
  if bn <? NDIRECT then i_addrs ip !!! Z.to_nat bn
  else if ind ip =? 0 then 0
  else get_u32 (4 * Z.to_nat (bn - NDIRECT)) (cur s (ind ip)).

(** Block [x] is a data block in use. *)
Definition in_use (s : fs) (x : Z) : Prop := datastart sb <= x < sb_size sb /\ free s x = false.

(** A file's blocks are distinct data blocks in use. *)
Record inode_ok (s : fs) (ip : inode) : Prop := {
  ok_dev : i_dev ip = d;
  ok_len : length (i_addrs ip) = NADDRS;
  ok_ind : ind ip <> 0 -> in_use s (ind ip);
  ok_use : forall bn, 0 <= bn < MAXFILE -> fblock s ip bn <> 0 -> in_use s (fblock s ip bn);
  ok_inj : forall bn bn', 0 <= bn < MAXFILE -> 0 <= bn' < MAXFILE ->
    fblock s ip bn <> 0 -> fblock s ip bn = fblock s ip bn' -> bn = bn';
  ok_not_ind : forall bn, 0 <= bn < MAXFILE -> fblock s ip bn <> 0 -> fblock s ip bn <> ind ip
}.

(** Block [x] belongs to the file. *)
Definition owns (s : fs) (ip : inode) (x : Z) : Prop :=
  ind ip = x \/ exists bn, 0 <= bn < MAXFILE /\ fblock s ip bn = x.

(** The bytes of a file; a missing block reads as zeros. *)
Definition fbyte (s : fs) (ip : inode) (k : Z) : Z :=
  let a := fblock s ip (k / BSIZE) in
  if a =? 0 then 0 else rd (cur s a) (Z.to_nat (k mod BSIZE)).

(** No block below the size is missing. *)
Definition no_holes (s : fs) (ip : inode) : Prop :=
  forall bn, 0 <= bn -> bn * BSIZE < i_size ip -> fblock s ip bn <> 0.

(** ** Changes that keep a file as it is *)

(** Blocks in use, the inode blocks and what is below keep their contents,
    except those in [X]; nothing in use becomes free. *)
Definition preserves (X : gset Z) (s s' : fs) : Prop :=
  (forall x, in_use s x -> (x ∉ X) -> cur s' x = cur s x) /\
  (forall x, x < sb_bmapstart sb -> cur s' x = cur s x) /\
  (forall x, 0 <= x < sb_size sb -> free s x = false -> free s' x = false).

#[export] Instance preserves_refl X : Reflexive (preserves X).
Proof. intros s. by split_and!. Qed.

Lemma preserves_trans X Y s1 s2 s3 :
  preserves X s1 s2 -> preserves Y s2 s3 -> preserves (X ∪ Y) s1 s3.
Proof.
  intros (C1 & L1 & F1) (C2 & L2 & F2). split_and!.
  - intros x [Hr Hf] Hx. rewrite C2, C1; [done|done|set_solver| |set_solver].
    split; [done|]. apply F1; [|done]. pose proof (geom_facts d sb). unfold datastart in *. lia.
  - intros x Hx. by rewrite L2, L1.
  - auto.
Qed.

Lemma preserves_weaken X Y s s' : X ⊆ Y -> preserves X s s' -> preserves Y s s'.
Proof. intros Hs (C & L & F). split_and!; [|done..]. intros x Hu Hx. apply C; [done|set_solver]. Qed.

Lemma preserves_calm H s s' : calm d H s s' -> preserves ∅ s s'.
Proof.
  intros C. pose proof C as (_ & _ & _ & B & _). split_and!; [by intros; rewrite B..|].
  intros x _ Hf. by rewrite (free_calm d sb H s).
Qed.

Lemma in_use_preserved X s s' x : preserves X s s' -> in_use s x -> in_use s' x.
Proof.
  intros (_ & _ & F) [Hr Hf]. split; [done|]. apply F; [|done].
  pose proof (geom_facts d sb). unfold datastart in *. lia.
Qed.

Lemma preserves_allocated H r s s' :
  fs_tx H s -> datastart sb <= r < sb_size sb -> free s r = true -> allocated d sb H r s s' ->
  preserves ∅ s s'.
Proof.
  intros T Hr Hfr A. pose proof A as (_ & _ & _ & B). pose proof (geom_facts d sb) as Hg.
  pose proof (BBLOCK_range d sb r) as Hb.
  assert (0 <= r < sb_size sb) as Hr' by (unfold datastart in *; lia). specialize (Hb Hr').
  split_and!.
  - intros x [Hx Hf] _. rewrite B, decide_False by congruence. by rewrite decide_False by lia.
  - intros x Hx. rewrite B, !decide_False by (unfold datastart in *; lia). done.
  - intros x Hx Hf. rewrite (free_allocated d sb H s s' r) by done. by case_decide.
Qed.

Lemma fblock_preserved X s s' ip bn :
  preserves X s s' -> inode_ok s ip -> (ind ip ∉ X) -> fblock s' ip bn = fblock s ip bn.
Proof.
  intros (C & _) Ok Hi. unfold fblock. destruct (bn <? NDIRECT); [done|].
  destruct (Z.eqb_spec (ind ip) 0); [done|]. rewrite C; [done|by apply Ok|done].
Qed.

Lemma inode_ok_preserved X s s' ip :
  preserves X s s' -> inode_ok s ip -> (ind ip ∉ X) -> inode_ok s' ip.
Proof.
  intros Hp Ok Hi. destruct Ok as [H1 H2 H3 H4 H5 H6].
  assert (forall bn, fblock s' ip bn = fblock s ip bn) as Hb.
  { intros bn. by apply (fblock_preserved X). }
  split; try done; intros; rewrite ?Hb in *; eauto using in_use_preserved.
Qed.

(** ** Growing a file by one block *)

Lemma in_use_fresh s x r : in_use s x -> free s r = true -> x <> r.
Proof. intros [_ Hf] Hr ->. congruence. Qed.

Lemma inode_ok_extend X s s' ip ip' bn r :
  inode_ok s ip -> i_dev ip' = d -> length (i_addrs ip') = NADDRS -> ind ip' = ind ip ->
  preserves X s s' -> free s r = true -> in_use s' r ->
  fblock s ip bn = 0 ->
  (forall bn', 0 <= bn' < MAXFILE ->
     fblock s' ip' bn' = if decide (bn' = bn) then r else fblock s ip bn') ->
  inode_ok s' ip'.
Proof.
  intros Ok Hdv Hl Hind Hp Hfr Hu H0 Hfb. pose proof Ok as [O1 O2 O3 O4 O5 O6].
  assert (forall b', 0 <= b' < MAXFILE -> fblock s ip b' <> 0 -> fblock s ip b' <> r) as Hne.
  { intros b' Hb' Hnz. eapply in_use_fresh; [|done]. by apply O4. }
  split; [done|done| | | |]; rewrite ?Hind.
  - intros Hi. eapply in_use_preserved; [done|auto].
  - intros b' Hb'. rewrite Hfb by done. case_decide; [done|].
    intros Hnz. eapply in_use_preserved; [done|auto].
  - intros b1 b2 Hb1 Hb2. rewrite !Hfb by done. repeat case_decide; subst; intros Hnz He; auto.
    + destruct (decide (fblock s ip b2 = 0)); [congruence|]. by destruct (Hne b2).
    + by destruct (Hne b1).
  - intros b' Hb'. rewrite Hfb by done. case_decide; [|by auto]. intros Hnz He. subst r.
    destruct (decide (ind ip = 0)); [congruence|]. by eapply in_use_fresh; [apply O3|done|].
Qed.

(** A direct block. *)
Lemma fblock_set_direct s s' ip bn r bn' :
  length (i_addrs ip) = NADDRS -> 0 <= bn < NDIRECT -> 0 <= bn' < MAXFILE ->
  (ind ip <> 0 -> cur s' (ind ip) = cur s (ind ip)) ->
  fblock s' (set_iaddrs (<[Z.to_nat bn := r]> (i_addrs ip)) ip) bn' =
  if decide (bn' = bn) then r else fblock s ip bn'.
Proof.
  intros Hl Hbn Hbn' Hcur. unfold fblock, ind. cbn [i_addrs set_iaddrs].
  unfold NADDRS, NDIRECT in *.
  rewrite (list_lookup_total_insert_ne (i_addrs ip) (Z.to_nat bn) (Z.to_nat 12)) by lia.
  destruct (Z.ltb_spec bn' 12).
  - destruct (decide (bn' = bn)) as [->|Hne].
    + apply list_lookup_total_insert_eq. lia.
    + apply list_lookup_total_insert_ne. lia.
  - rewrite decide_False by lia. change (i_addrs ip !!! Z.to_nat 12) with (ind ip).
    destruct (Z.eqb_spec (ind ip) 0); [done|]. by rewrite Hcur.
Qed.

(** A new indirect block is all zeros. *)
Lemma fblock_set_ind s s' ip r bn :
  length (i_addrs ip) = NADDRS -> ind ip = 0 -> r <> 0 -> cur s' r = replicate bsize 0 -> 0 <= bn ->
  fblock s' (set_iaddrs (<[Z.to_nat NDIRECT := r]> (i_addrs ip)) ip) bn = fblock s ip bn.
Proof.
  intros Hl Hi Hr Hz Hbn. unfold fblock. unfold ind at 1 2. cbn [i_addrs set_iaddrs].
  unfold NADDRS, NDIRECT in *. rewrite list_lookup_total_insert_eq by lia.
  destruct (Z.ltb_spec bn 12).
  - apply list_lookup_total_insert_ne. lia.
  - rewrite Hi, Hz, get_u32_zeros. by rewrite (proj2 (Z.eqb_neq r 0)).
Qed.

(** An entry of the indirect block. *)
Lemma fblock_put_entry s s' ip r bn bn' :
  NDIRECT <= bn < MAXFILE -> 0 <= bn' < MAXFILE -> ind ip <> 0 -> 0 <= r < 2 ^ 32 ->
  length (cur s (ind ip)) = bsize ->
  cur s' (ind ip) = splice (4 * Z.to_nat (bn - NDIRECT)) (le_encode 4 r) (cur s (ind ip)) ->
  fblock s' ip bn' = if decide (bn' = bn) then r else fblock s ip bn'.
Proof.
  intros Hbn Hbn' Hi Hr Hl Hc. unfold fblock. rewrite Hc.
  unfold MAXFILE, NINDIRECT, NDIRECT, bsize, BSIZE in *.
  rewrite (proj2 (Z.eqb_neq (ind ip) 0)) by done.
  destruct (Z.ltb_spec bn' 12); [by rewrite decide_False by lia|].
  change (1024 / 4) with 256 in *. destruct (decide (bn' = bn)) as [->|Hne].
  - apply get_u32_put; [lia|done].
  - apply get_u32_put_ne. lia.
Qed.

Lemma fs_tx_itable H s t : fs_tx H s -> fs_tx H (set_itable t s).
Proof. by intros []. Qed.

(** The inode at [i] after an update of it. *)
Lemma geti_updi s i f :
  (i < length (it_inode s))%nat ->
  it_inode (set_itable (alter f i (it_inode s)) s) !!! i = f (it_inode s !!! i).
Proof. intros Hi. simpl. by rewrite list_lookup_total_alter, decide_True. Qed.

(** ** bmap *)

(** In memory, only the address table of inode [i] may have changed. *)
Definition mem_upd (i : nat) (s s' : fs) : Prop :=
  (exists al, it_inode s' = alter (set_iaddrs al) i (it_inode s)) /\
  it_lock s' = it_lock s /\ fs_sb s' = fs_sb s /\
  lg_outstanding (fs_log s') = lg_outstanding (fs_log s) /\
  env_same (io_env (lg_bio (fs_log s))) (io_env (lg_bio (fs_log s'))).

Lemma same_mem_upd i s s' : same_mem s s' -> mem_upd i s s'.
Proof.
  intros (Hi & ? & ? & ? & ?). split_and!; try done. exists (i_addrs (it_inode s !!! i)).
  rewrite Hi. symmetry. apply alter_same. by destruct (it_inode s !!! i).
Qed.

Lemma mem_upd_trans i s1 s2 s3 : mem_upd i s1 s2 -> mem_upd i s2 s3 -> mem_upd i s1 s3.
Proof.
  intros ([al Ha] & ? & ? & ? & ?) ([al' Hb] & ? & ? & ? & ?). split_and!; try congruence.
  - exists al'. rewrite Hb, Ha, alter_alter. done.
  - by etransitivity.
Qed.

Lemma mem_upd_iaddrs i s f :
  mem_upd i s (set_itable (alter (fun ip => set_iaddrs (f ip) ip) i (it_inode s)) s).
Proof.
  split_and!; try done. exists (f (it_inode s !!! i)). simpl. apply list_eq. intros j.
  destruct (decide (i = j)) as [->|Hne]; [|by rewrite !list_lookup_alter_ne].
  rewrite !list_lookup_alter_eq. destruct (it_inode s !! j) eqn:E; simpl; [|done].
  by rewrite (list_lookup_total_correct _ _ _ E).
Qed.

Lemma mem_upd_length i s s' : mem_upd i s s' -> length (it_inode s') = length (it_inode s).
Proof. intros ([al ->] & _). apply length_alter. Qed.

Lemma mem_upd_size i s s' : mem_upd i s s' -> i_size (it_inode s' !!! i) = i_size (it_inode s !!! i).
Proof.
  intros ([al ->] & _). rewrite list_lookup_total_alter. case_decide; [|done]. done.
Qed.

Definition no_space (s : fs) : Prop := forall b, 0 <= b < sb_size sb -> free s b = false.

Record bmapped (i : nat) (bn : Z) (k : nat) (s : fs) (a : Z) (s' : fs) : Prop := {
  bm_tx : fs_tx ∅ s';
  bm_room : room k s';
  bm_meta : meta_used s';
  bm_mem : mem_upd i s s';
  bm_ok : inode_ok s' (it_inode s' !!! i);
  bm_val : fblock s' (it_inode s' !!! i) bn = a;
  bm_other : forall bn', 0 <= bn' < MAXFILE -> bn' <> bn ->
    fblock s' (it_inode s' !!! i) bn' = fblock s (it_inode s !!! i) bn';
  bm_old : fblock s (it_inode s !!! i) bn <> 0 ->
    a = fblock s (it_inode s !!! i) bn /\ calm d ∅ s s';
  bm_new : fblock s (it_inode s !!! i) bn = 0 -> a <> 0 -> cur s' a = replicate bsize 0;
  bm_pres : preserves {[ind (it_inode s !!! i)]} s s';
  bm_full : a = 0 -> no_space s';
  bm_owns : forall x, datastart sb <= x < sb_size sb -> owns s' (it_inode s' !!! i) x ->
    owns s (it_inode s !!! i) x \/ free s x = true
}.

Lemma held_ok_empty s : held_ok d sb ∅ s.
Proof. intros x Hx. set_solver. Qed.

Lemma room_more j k s : room (j + k) s -> room k s.
Proof. apply room_weaken. lia. Qed.

Lemma datastart_pos : 0 < datastart sb.
Proof. pose proof (geom_facts d sb). unfold datastart. lia. Qed.

Lemma in_use_nz s x : in_use s x -> x <> 0.
Proof. intros [Hr _]. pose proof datastart_pos. lia. Qed.

Lemma no_space_calm H s s' : calm d H s s' -> no_space s -> no_space s'.
Proof. intros C Hn b Hb. rewrite (free_calm d sb H s) by done. auto. Qed.

(** Nothing to do: the block is there, or none could be had. *)
Lemma bmapped_calm i bn k s s' :
  fs_tx ∅ s' -> room k s' -> meta_used s -> inode_ok s (it_inode s !!! i) -> calm d ∅ s s' ->
  (fblock s (it_inode s !!! i) bn = 0 -> no_space s) ->
  bmapped i bn k s (fblock s (it_inode s !!! i) bn) s'.
Proof.
  intros T R Hm Ok C Hn. pose proof C as (M & _ & _ & B & _). pose proof M as (Hi & _).
  pose proof (preserves_calm _ _ _ C) as Hp.
  assert (forall bn', fblock s' (it_inode s !!! i) bn' = fblock s (it_inode s !!! i) bn') as Hb.
  { intros bn'. apply (fblock_preserved ∅); [done|done|set_solver]. }
  split; rewrite ?Hi; try done.
  - intros b Hb'. rewrite (free_calm d sb ∅ s) by done. auto.
  - by apply same_mem_upd.
  - apply (inode_ok_preserved ∅ s); [done|done|set_solver].
  - eapply preserves_weaken; [|done]. set_solver.
  - intros H0. eapply no_space_calm; [done|auto].
  - intros x _ [Hx|(bn' & Hbn' & Hx)]; left; [by left|right]. exists bn'. by rewrite <- Hb.
Qed.

Lemma wp_bmap_direct i bn k s :
  fs_tx ∅ s -> meta_used s -> inode_ok s (it_inode s !!! i) -> (i < length (it_inode s))%nat ->
  0 <= bn < NDIRECT -> room (5 + k) s ->
  wp (bmap i bn) (fun a s' => bmapped i bn k s a s') s.
Proof.
  intros T Hm Ok Hi Hbn R. set (ip := it_inode s !!! i) in *. unfold bmap.
  wp_step. unfold geti. wp_step. fold ip. rewrite (proj2 (Z.ltb_lt _ _)) by lia.
  assert (fblock s ip bn = i_addrs ip !!! Z.to_nat bn) as Hfb.
  { unfold fblock. by rewrite (proj2 (Z.ltb_lt _ _)) by lia. }
  rewrite <- Hfb. destruct (Z.eqb_spec (fblock s ip bn) 0) as [H0|Hnz].
  2:{ apply wp_ret. apply bmapped_calm; [done|by eapply room_more|done|done|reflexivity|done]. }
  rewrite (ok_dev _ _ Ok). wp_step.
  wp_use (wp_balloc d sb ∅ s (3 + k)); [done|apply held_ok_empty|done|rewrite size_empty; lia|done|].
  intros r s1 [(-> & Hn & T1 & C1)|(T1 & R1 & Hr & Hfr & A)].
  - apply wp_ret. rewrite <- H0. apply bmapped_calm; try done.
    eapply (room_more 5), calm_room; done.
  - pose proof datastart_pos. rewrite (proj2 (Z.eqb_neq r 0)) by lia.
    wp_step. unfold updi. wp_step. apply wp_ret.
    pose proof (preserves_allocated ∅ r s s1 T Hr Hfr A) as Hp.
    pose proof A as (M & _ & _ & B). pose proof M as (Hit & _).
    set (s2 := set_itable _ s1).
    assert (it_inode s2 !!! i = set_iaddrs (<[Z.to_nat bn := r]> (i_addrs ip)) ip) as Hip2.
    { unfold s2. rewrite geti_updi by by rewrite Hit. by rewrite Hit. }
    assert (forall bn', 0 <= bn' < MAXFILE -> fblock s2 (it_inode s2 !!! i) bn' =
              if decide (bn' = bn) then r else fblock s ip bn') as Hfb2.
    { intros bn' Hbn'. rewrite Hip2. apply fblock_set_direct; [apply Ok|done|done|].
      intros Hnz. exact (proj1 Hp _ (ok_ind _ _ Ok Hnz) (not_elem_of_empty _)). }
    assert (in_use s2 r) as Hu.
    { split; [done|]. change (free s2 r) with (free s1 r).
      rewrite (free_allocated d sb ∅ s s1 r r) by (done || lia). by rewrite decide_True. }
    split; try done.
    + by apply fs_tx_itable.
    + by eapply (room_more 3).
    + by eapply (meta_used_allocated d sb ∅ s s1).
    + eapply mem_upd_trans; [by apply same_mem_upd|]. apply mem_upd_iaddrs.
    + eapply (inode_ok_extend ∅ s s2 ip _ bn r); try done; rewrite ?Hip2.
      * by apply Ok.
      * simpl. rewrite length_insert. apply Ok.
      * unfold ind. simpl. apply list_lookup_total_insert_ne. unfold NDIRECT in *. lia.
    + rewrite Hfb2 by (change MAXFILE with 268; unfold NDIRECT in *; lia). by rewrite decide_True.
    + intros bn' Hbn' Hne. rewrite Hfb2 by done. by rewrite decide_False.
    + intros _ _. change (cur s2 r) with (cur s1 r). rewrite B. by rewrite decide_True.
    + eapply preserves_weaken; [|exact Hp]. set_solver.
    + lia.
    + intros x _ [Hx|(bn' & Hbn' & Hx)].
      * left. left. rewrite <- Hx, Hip2. unfold ind. simpl. symmetry.
        apply list_lookup_total_insert_ne. unfold NDIRECT in *. lia.
      * rewrite Hfb2 in Hx by done. case_decide; subst; [by right|]. left. right. eauto.
Qed.

(** The file is what it was, in a possibly different table. *)
Record grown (i : nat) (s s' : fs) : Prop := {
  gr_tx : fs_tx ∅ s';
  gr_meta : meta_used s';
  gr_mem : mem_upd i s s';
  gr_ok : inode_ok s' (it_inode s' !!! i);
  gr_blocks : forall bn, 0 <= bn -> fblock s' (it_inode s' !!! i) bn = fblock s (it_inode s !!! i) bn;
  gr_pres : preserves ∅ s s';
  gr_fresh : ind (it_inode s' !!! i) <> ind (it_inode s !!! i) -> free s (ind (it_inode s' !!! i)) = true
}.

(** [bmap] makes sure there is an indirect block. *)
Definition ensure_ind (i : nat) : M fs Z :=
  ip <- geti i ;;
  let k := Z.to_nat NDIRECT in
  if i_addrs ip !!! k =? 0 then
    addr <- balloc (i_dev ip) ;;
    (when (negb (addr =? 0)) do
       updi i (fun ip => set_iaddrs (<[k := addr]> (i_addrs ip)) ip)) ;;
    ret addr
  else ret (i_addrs ip !!! k).

Lemma wp_ensure_ind i k s :
  fs_tx ∅ s -> meta_used s -> inode_ok s (it_inode s !!! i) -> (i < length (it_inode s))%nat ->
  room (2 + k) s ->
  wp (ensure_ind i) (fun a s' =>
    room k s' /\ ((a = 0 /\ no_space s /\ ind (it_inode s !!! i) = 0 /\ fs_tx ∅ s' /\ calm d ∅ s s') \/
    (a <> 0 /\ ind (it_inode s' !!! i) = a /\ grown i s s' /\
     (ind (it_inode s !!! i) <> 0 -> s' = s)))) s.
Proof.
  intros T Hm Ok Hi R. set (ip := it_inode s !!! i) in *. unfold ensure_ind.
  wp_step. unfold geti. wp_step. fold ip. change (i_addrs ip !!! Z.to_nat NDIRECT) with (ind ip).
  destruct (Z.eqb_spec (ind ip) 0) as [H0|Hnz].
  2:{ apply wp_ret. split; [by eapply room_more|]. right. split_and!; try done. split; try done.
      apply same_mem_upd. reflexivity. }
  rewrite (ok_dev _ _ Ok). wp_step.
  wp_use (wp_balloc d sb ∅ s k); [done|apply held_ok_empty|done|rewrite size_empty; lia|done|].
  intros r s1 [(-> & Hn & T1 & C1)|(T1 & R1 & Hr & Hfr & A)].
  - wp_step. apply wp_ret. apply wp_ret. split; [eapply (room_more 2), calm_room; done|].
    left. by split_and!.
  - pose proof datastart_pos. rewrite (proj2 (Z.eqb_neq r 0)) by lia. simpl negb. cbv iota.
    wp_step. unfold updi. wp_step. apply wp_ret. split; [done|]. right.
    pose proof (preserves_allocated ∅ r s s1 T Hr Hfr A) as Hp.
    pose proof A as (M & _ & _ & B). pose proof M as (Hit & _). set (s2 := set_itable _ s1).
    assert (it_inode s2 !!! i = set_iaddrs (<[Z.to_nat NDIRECT := r]> (i_addrs ip)) ip) as Hip2.
    { unfold s2. rewrite geti_updi by by rewrite Hit. by rewrite Hit. }
    assert (cur s2 r = replicate bsize 0) as Hz.
    { change (cur s2 r) with (cur s1 r). rewrite B. by rewrite decide_True. }
    assert (ind (it_inode s2 !!! i) = r) as Hind.
    { rewrite Hip2. apply list_lookup_total_insert_eq. rewrite (ok_len _ _ Ok). unfold NADDRS, NDIRECT. lia. }
    assert (forall bn, 0 <= bn -> fblock s2 (it_inode s2 !!! i) bn = fblock s ip bn) as Hfb.
    { intros bn Hbn. rewrite Hip2. apply fblock_set_ind; [apply Ok|done|lia|done|done]. }
    assert (in_use s2 r) as Hu.
    { split; [done|]. change (free s2 r) with (free s1 r).
      rewrite (free_allocated d sb ∅ s s1 r r) by (done || lia). by rewrite decide_True. }
    split_and!; [lia|done| |done]. destruct Ok as [O1 O2 O3 O4 O5 O6].
    split; try done.
    + by apply fs_tx_itable.
    + by eapply (meta_used_allocated d sb ∅ s s1).
    + eapply mem_upd_trans; [by apply same_mem_upd|]. apply mem_upd_iaddrs.
    + split; rewrite ?Hind; try done.
      * by rewrite Hip2.
      * rewrite Hip2. simpl. by rewrite length_insert.
      * intros bn Hbn. rewrite Hfb by lia. intros Hn. eapply (in_use_preserved ∅ s s1); [done|auto].
      * intros bn bn' Hbn Hbn'. rewrite !Hfb by lia. auto.
      * intros bn Hbn. rewrite Hfb by lia. intros Hn. eapply in_use_fresh; [|done]. auto.
    + intros _. by rewrite Hind.
Qed.

(** The indirect part of [bmap]: entry [bn - NDIRECT] of indirect block [a]. *)
Definition ind_entry (a bn : Z) : M fs Z :=
  bp <- fbread d a ;;
  data <- fbdata bp ;;
  addr <- (if get_u32 (4 * Z.to_nat (bn - NDIRECT)) data =? 0 then
             addr <- balloc d ;;
             (when (negb (addr =? 0)) do
                (data <- fbdata bp ;;
                 fset_bdata bp (splice (4 * Z.to_nat (bn - NDIRECT)) (le_encode 4 addr) data) ;;
                 flog_write bp)) ;;
             ret addr
           else ret (get_u32 (4 * Z.to_nat (bn - NDIRECT)) data)) ;;
  fbrelse bp ;;
  ret addr.

Lemma fblock_entry s ip bn :
  NDIRECT <= bn -> ind ip <> 0 ->
  fblock s ip bn = get_u32 (4 * Z.to_nat (bn - NDIRECT)) (cur s (ind ip)).
Proof.
  intros Hbn Hi. unfold fblock. rewrite (proj2 (Z.ltb_ge _ _)) by lia.
  by rewrite (proj2 (Z.eqb_neq _ _)).
Qed.

Lemma held_ok_ind s ip : inode_ok s ip -> ind ip <> 0 -> held_ok d sb {[ind ip]} s.
Proof. intros Ok Hi x ->%elem_of_singleton. destruct (ok_ind _ _ Ok Hi) as [[? _] ?]. done. Qed.

Lemma held_ok_calm H s s' : calm d H s s' -> held_ok d sb H s -> held_ok d sb H s'.
Proof. intros C Ho x Hx. rewrite (free_calm d sb H s) by done. auto. Qed.

(** The new entry is written while the indirect block's buffer is held. *)
Lemma wp_put_entry s i a off r k (Q : Z -> fs -> Prop) :
  fs_tx {[a]} s -> slot d (lg_bio (fs_log s)) i a -> home st a -> room (S k) s ->
  (forall s', fs_tx ∅ s' -> room k s' -> same_mem s s' -> tx s' = absorb a (tx s) ->
     (forall y, cur s' y = if decide (y = a) then splice off (le_encode 4 r) (cur s a) else cur s y) ->
     Q r s') ->
  wp ((data <- fbdata i ;; fset_bdata i (splice off (le_encode 4 r) data) ;; flog_write i) ;; ret r)
     (fun a' s' => wp (fbrelse i ;; ret a') Q s') s.
Proof.
  intros T S Hh R HQ. pose proof (put_u32_good off r _ (cur_good d sb _ _ a T)) as [Hgl Hgb].
  wp_step. wp_step. eapply wp_fbdata; [done..|].
  wp_step. eapply wp_mono; [by apply (wp_fset_bdata d sb {[a]} s i a); [..|set_solver| |]|].
  intros [] s1 (T1 & M1 & K1 & X1 & B1 & D1). cbv beta.
  wp_use (wp_flog_write d sb {[a]} s1 i a k); [done|by apply K1; [set_solver|]|set_solver|done|by eapply room_same|].
  intros [] s2 (T2 & M2 & K2 & X2 & B2 & D2). apply wp_ret.
  wp_step. wp_use (wp_fbrelse d sb {[a]} s2 i a); [done|apply K2, K1; [set_solver..|done]|set_solver|left; rewrite X2; apply absorb_in|].
  intros [] s3 (T3 & C3). rewrite difference_diag_L in T3, C3.
  destruct C3 as (M3 & K3 & X3 & B3 & D3). apply wp_ret. assert (same_mem s s3) as M by (etransitivity; [done|by etransitivity]).
  apply HQ; [done| |done| |].
  - eapply (room_absorb a s); [done|by rewrite X3, X2, X1|done].
  - by rewrite X3, X2, X1.
  - intros y. by rewrite B3, B2, B1.
Qed.

(** A block allocated and entered in the indirect block. *)
Lemma bmapped_entry i bn k s s1 s2 s3 r :
  fs_tx ∅ s -> meta_used s -> inode_ok s (it_inode s !!! i) -> NDIRECT <= bn < MAXFILE ->
  ind (it_inode s !!! i) <> 0 -> fblock s (it_inode s !!! i) bn = 0 ->
  calm d ∅ s s1 -> fs_tx {[ind (it_inode s !!! i)]} s1 ->
  datastart sb <= r < sb_size sb -> free s1 r = true ->
  allocated d sb {[ind (it_inode s !!! i)]} r s1 s2 ->
  fs_tx ∅ s3 -> room k s3 -> same_mem s2 s3 ->
  (forall y, cur s3 y = if decide (y = ind (it_inode s !!! i))
     then splice (4 * Z.to_nat (bn - NDIRECT)) (le_encode 4 r) (cur s2 y) else cur s2 y) ->
  bmapped i bn k s r s3.
Proof.
  set (ip := it_inode s !!! i). set (a := ind ip).
  intros T Hm Ok Hbn Hi H0 C1 T1 Hr Hfr A T3 R3 M3 B3.
  pose proof datastart_pos. pose proof (geom_facts d sb) as Hg.
  pose proof A as (M2 & _ & _ & B2). pose proof C1 as (M1 & _ & _ & B1 & _).
  assert (same_mem s s3) as M by (etransitivity; [exact M1|by etransitivity]).
  assert (it_inode s3 = it_inode s) as Hit by apply M.
  pose proof (preserves_allocated _ r s1 s2 T1 Hr Hfr A) as P12.
  destruct (ok_ind _ _ Ok Hi) as [Har Haf]. fold a in Har, Haf.
  assert (in_use s2 a) as Ha2.
  { eapply in_use_preserved; [exact P12|]. split; [done|]. by rewrite (free_calm d sb ∅ s). }
  assert (forall x, 0 <= x < sb_size sb -> free s3 x = free s2 x) as Hfree3.
  { intros x Hx. unfold FsBitmap.free. rewrite B3, decide_False; [done|].
    pose proof (BBLOCK_range d sb x Hx). lia. }
  assert (preserves {[a]} s s3) as P.
  { eapply (preserves_weaken (∅ ∪ (∅ ∪ {[a]}))); [set_solver|].
    eapply preserves_trans; [by eapply preserves_calm|]. eapply preserves_trans; [exact P12|].
    split_and!.
    - intros x _ Hx. rewrite B3, decide_False; [done|set_solver].
    - intros x Hx. rewrite B3, decide_False; [done|]. unfold datastart in *. lia.
    - intros x Hx Hf. by rewrite Hfree3. }
  assert (cur s2 a = cur s a) as Hca.
  { rewrite <- B1. apply (proj1 P12); [|set_solver]. split; [done|]. by rewrite (free_calm d sb ∅ s). }
  assert (0 <= r < sb_size sb) as Hr' by (unfold datastart in *; lia).
  assert (forall bn', 0 <= bn' < MAXFILE -> fblock s3 ip bn' = if decide (bn' = bn) then r else fblock s ip bn') as Hfb.
  { intros bn' Hbn'. apply fblock_put_entry; try done; [lia|by eapply cur_good|].
    fold a. by rewrite B3, decide_True, Hca. }
  assert (free s r = true) as Hfrs by by rewrite <- (free_calm d sb ∅ s s1).
  split; rewrite ?Hit; fold ip; try done.
  - intros b Hb. rewrite Hfree3 by lia. eapply (meta_used_allocated d sb _ s1 s2 r); try done.
    intros b' Hb'. rewrite (free_calm d sb ∅ s) by done. auto.
  - by apply same_mem_upd.
  - eapply (inode_ok_extend {[a]} s s3 ip ip bn r); try done; [apply Ok..|].
    split; [done|]. rewrite Hfree3 by done.
    rewrite (free_allocated d sb {[a]} s1 s2 r r) by done. by rewrite decide_True.
  - rewrite Hfb by (unfold NDIRECT in *; lia). by rewrite decide_True.
  - intros bn' Hbn' Hne. rewrite Hfb by done. by rewrite decide_False.
  - intros _ _. rewrite B3, decide_False by (intros ->; unfold FsBitmap.free in *; congruence).
    rewrite B2. by rewrite decide_True.
  - lia.
  - intros x _ [Hx|(bn' & Hbn' & Hx)]; [left; by left|].
    rewrite Hfb in Hx by done. case_decide; subst; [by right|]. left. right. eauto.
Qed.

Lemma wp_ind_entry i bn k s :
  fs_tx ∅ s -> meta_used s -> inode_ok s (it_inode s !!! i) -> NDIRECT <= bn < MAXFILE ->
  ind (it_inode s !!! i) <> 0 -> room (3 + k) s ->
  wp (ind_entry (ind (it_inode s !!! i)) bn) (fun a s' => bmapped i bn k s a s') s.
Proof.
  intros T Hm Ok Hbn Hi R. set (ip := it_inode s !!! i) in *. set (a := ind ip) in *.
  pose proof (fblock_entry s ip bn ltac:(lia) Hi) as Hfb. fold a in Hfb.
  destruct (ok_ind _ _ Ok Hi) as [Har Haf]. fold a in Har, Haf.
  unfold ind_entry. wp_step. wp_use (wp_fbread d sb ∅ s a); [done|set_solver|rewrite size_empty; lia
    |by eapply room_weaken; [|exact R]; lia|].
  rewrite union_empty_r_L. intros bp s1 (T1 & S1 & C1).
  pose proof C1 as (M1 & _ & X1 & B1 & D1).
  wp_step. eapply wp_fbdata; [done..|]. rewrite B1, <- Hfb.
  destruct (Z.eqb_spec (fblock s ip bn) 0) as [H0|Hnz].
  2:{ wp_step. apply wp_ret. eapply (wp_read_release d sb ∅ s1 bp a s); [by rewrite union_empty_r_L|set_solver|done..|].
      intros s2 T2 C2. apply wp_ret. apply bmapped_calm; try done.
      eapply (room_more 3), calm_room; done. }
  wp_step. wp_step. wp_use (wp_balloc d sb {[a]} s1 (1 + k)).
  { done. } { intros x ->%elem_of_singleton. split; [lia|]. by rewrite (free_calm d sb ∅ s). }
  { intros b Hb. rewrite (free_calm d sb ∅ s) by done. auto. } { rewrite size_singleton. lia. }
  { eapply calm_room; [done|]. by eapply room_weaken; [|exact R]; lia. }
  intros r s2 [(-> & Hn & T2 & C2)|(T2 & R2 & Hr & Hfr & A)].
  - wp_step. apply wp_ret. apply wp_ret. assert (calm d ∅ s s2) as C.
    { etransitivity; [done|]. eapply calm_weaken; [|done]. set_solver. }
    eapply (wp_read_release d sb ∅ s2 bp a s); [by rewrite union_empty_r_L|set_solver| |done..|].
    { apply C2; [set_solver|done]. }
    intros s3 T3 C3. apply wp_ret. rewrite <- H0. apply bmapped_calm; try done.
    + eapply (room_more 3), calm_room; done.
    + intros _ b Hb. rewrite <- (free_calm d sb ∅ s s1) by done. auto.
  - pose proof datastart_pos. rewrite (proj2 (Z.eqb_neq r 0)) by lia. simpl negb. cbv iota.
    eapply (wp_put_entry s2 bp a _ r k); [done| |by apply (data_home d sb)|done|].
    { apply A; [set_solver|done]. }
    intros s3 T3 R3 M3 X3 B3. eapply (bmapped_entry i bn k s s1 s2 s3 r); try done.
    intros y. rewrite B3. fold ip a. by destruct (decide (y = a)) as [->|].
Qed.

Lemma bmap_indirect_eq i bn s :
  NDIRECT <= bn < MAXFILE -> i_dev (it_inode s !!! i) = d ->
  bmap i bn s = (a <- ensure_ind i ;; if a =? 0 then ret 0 else ind_entry a bn) s.
Proof.
  intros Hbn Hd. unfold bmap, ensure_ind, ind_entry, geti, gets.
  unfold bind. cbv beta iota. rewrite !Hd.
  rewrite (proj2 (Z.ltb_ge _ _)), (proj2 (Z.ltb_lt _ _)).
  - done.
  - change MAXFILE with 268 in *. change NINDIRECT with 256. unfold NDIRECT in *. lia.
  - lia.
Qed.

Lemma bmapped_grown i bn k s s1 a s' :
  fs_tx ∅ s -> grown i s s1 -> bmapped i bn k s1 a s' -> 0 <= bn ->
  (ind (it_inode s !!! i) <> 0 -> s1 = s) -> fblock s (it_inode s !!! i) bn = 0 \/ s1 = s ->
  bmapped i bn k s a s'.
Proof.
  intros T Gr Bm Hbn Hsame [H0|Heq]; [|by subst]. destruct (decide (ind (it_inode s !!! i) = 0)) as [Hi|Hi];
    [|by rewrite <- (Hsame Hi)].
  destruct Gr as [G1 G2 G3 G4 G5 G6 G7]. destruct Bm as [B1 B2 B3 B4 B5 B6 B7 B8 B9 B10 B11 B12].
  split; try done.
  - by eapply mem_upd_trans.
  - intros bn' Hbn' Hne. by rewrite B7, G5 by (done || lia).
  - intros _. apply B9. by rewrite G5.
  - split_and!.
    + intros x Hu Hx. rewrite (proj1 B10); [apply (proj1 G6); [done|set_solver]| |].
      * by eapply in_use_preserved.
      * intros Hin%elem_of_singleton.
        pose proof (in_use_nz _ _ Hu). destruct Hu as [_ Hf]. rewrite Hin in Hf. rewrite (G7 ltac:(congruence)) in Hf. done.
    + intros x Hx. rewrite (proj1 (proj2 B10)) by done. by apply (proj1 (proj2 G6)).
    + intros x Hx Hf. apply (proj2 (proj2 B10)); [done|]. by apply (proj2 (proj2 G6)).
  - intros x Hxr Hx. destruct (B12 x Hxr Hx) as [[Ho|(bn' & Hbn' & Ho)]|Hfr].
    + destruct (decide (ind (it_inode s1 !!! i) = ind (it_inode s !!! i))); [left; left; congruence|].
      right. rewrite <- Ho. auto.
    + left. right. exists bn'. by rewrite <- G5 by lia.
    + right. destruct (free s x) eqn:E; [done|]. pose proof datastart_pos.
      rewrite (proj2 (proj2 G6)) in Hfr; [done|lia|done].
Qed.

Lemma wp_bmap i bn k s :
  fs_tx ∅ s -> meta_used s -> inode_ok s (it_inode s !!! i) -> (i < length (it_inode s))%nat ->
  0 <= bn < MAXFILE -> room (5 + k) s ->
  wp (bmap i bn) (fun a s' => bmapped i bn k s a s') s.
Proof.
  intros T Hm Ok Hi Hbn R. destruct (decide (bn < NDIRECT)) as [Hlt|Hge].
  { apply wp_bmap_direct; try done. lia. }
  eapply wp_eq; [apply bmap_indirect_eq; [lia|apply Ok]|].
  wp_step. wp_use (wp_ensure_ind i (3 + k) s); [done..|].
  intros a s1 [R1 [(-> & Hn & Hz & T1 & C1)|(Ha & <- & Gr & Hsame)]].
  - apply wp_ret. assert (fblock s (it_inode s !!! i) bn = 0) as H0.
    { unfold fblock. rewrite (proj2 (Z.ltb_ge _ _)) by lia. by rewrite Hz. }
    rewrite <- H0. apply bmapped_calm; try done. by eapply (room_more 3).
  - rewrite (proj2 (Z.eqb_neq _ _)) by done.
    wp_use (wp_ind_entry i bn k s1); [apply Gr..|lia|done|done|].
    intros a s' Bm. eapply bmapped_grown; try done; [lia|].
    destruct (decide (ind (it_inode s !!! i) = 0)) as [H0|Hnz]; [|right; auto].
    left. unfold fblock. rewrite (proj2 (Z.ltb_ge _ _)) by lia. by rewrite H0.
Qed.
End file.
