(* ===== verification/FsRw.v ===== *)
(** * Reading and writing file contents *)

From S2P Require Import Prelude Param Spinlock Sleeplock Str Bio BioSpec BioOps Log LogDisk LogOps LogTx Fs FsSpec FsBitmap FsFile.

(** ** Where [readi] copies to

    [mem k x]: the byte at offset [x] of the destination, of [N] bytes.  A copy
    that fails may have stored some of its bytes. *)

Section landing.
Context {K : Type} (mem : K -> Z -> Z).

(** The bytes [f] are in place between [lo] and [hi], the rest is as before. *)
Definition landed_bytes (f : Z -> Z) (lo hi : Z) (k k' : K) : Prop :=
  forall x, mem k' x = if decide (lo <= x < hi) then f x else mem k x.
(** Some of them are. *)
Definition reached (f : Z -> Z) (lo hi : Z) (k k' : K) : Prop :=
  forall x, if decide (lo <= x < hi) then mem k' x = mem k x \/ mem k' x = f x else mem k' x = mem k x.
End landing.

Class Dest {K} (L : lens K fs) (out : Z -> list Z -> M K bool) (mem : K -> Z -> Z) (inv : K -> Prop) (N : Z) : Prop := {
  dest_mem s k x : mem (lset L s k) x = mem k x;
  dest_set s k : inv k -> inv (lset L s k);
  dest_copy o bs k : inv k -> 0 <= o -> o + Z.of_nat (length bs) <= N -> exists ok k', out o bs k = Ok ok k' /\ inv k' /\ lget L k' = lget L k /\
    let f x := rd bs (Z.to_nat (x - o)) in
    if ok : bool then landed_bytes mem f o (o + Z.of_nat (length bs)) k k' else reached mem f o (o + Z.of_nat (length bs)) k k'
}.
Definition copy_failed {K} (out : Z -> list Z -> M K bool) : Prop := exists o bs k k', out o bs k = Ok false k'.

Section rw.
Context (d : Z) (sb : superblock) {G : FsGeom d sb}.
Implicit Types (s : fs) (x b bn off n tot : Z) (ip : inode) (i : nat).
#[local] Abbreviation st := (sb_logstart sb).
#[local] Abbreviation cur := (cur d).
#[local] Abbreviation fs_tx := (fs_tx d sb).
#[local] Abbreviation free := (free d sb).
#[local] Abbreviation meta_used := (meta_used d sb).
#[local] Abbreviation fblock := (fblock d).
#[local] Abbreviation fbyte := (fbyte d).
#[local] Abbreviation inode_ok := (inode_ok d sb).

(** [bmap] of a block that is there changes nothing and needs no log space. *)
Lemma wp_bmap_present i bn s :
  fs_tx ∅ s -> inode_ok s (it_inode s !!! i) -> 0 <= bn < MAXFILE -> room 0 s ->
  fblock s (it_inode s !!! i) bn <> 0 ->
  wp (bmap i bn) (fun a s' => a = fblock s (it_inode s !!! i) bn /\ fs_tx ∅ s' /\ calm d ∅ s s') s.
Proof.
  intros T Ok Hbn R Hnz. set (ip := it_inode s !!! i) in *.
  destruct (decide (bn < NDIRECT)) as [Hlt|Hge].
  - unfold bmap. wp_step. unfold geti. wp_step. fold ip.
    rewrite (proj2 (Z.ltb_lt _ _)) by lia. unfold FsFile.fblock in *.
    rewrite (proj2 (Z.ltb_lt _ _)) in * by lia. rewrite (proj2 (Z.eqb_neq _ _)) by done.
    apply wp_ret. split_and!; [done..|reflexivity].
  - assert (ind ip <> 0) as Hi.
    { intros H0. apply Hnz. unfold FsFile.fblock. rewrite (proj2 (Z.ltb_ge _ _)) by lia. by rewrite H0. }
    rewrite (fblock_entry d) in Hnz |- * by (done || lia).
    eapply wp_eq; [apply (bmap_indirect_eq d); [lia|apply Ok]|]. unfold ensure_ind.
    wp_step. wp_step. unfold geti. wp_step. fold ip. change (i_addrs ip !!! Z.to_nat NDIRECT) with (ind ip).
    rewrite (proj2 (Z.eqb_neq _ _)) by done. apply wp_ret. rewrite (proj2 (Z.eqb_neq _ _)) by done.
    unfold ind_entry. wp_step.
    wp_use (wp_fbread d sb ∅ s (ind ip)); [done|set_solver|rewrite size_empty; lia|done|].
    intros bp s1 (T1 & S1 & C1). wp_step. eapply wp_fbdata; [done..|].
    rewrite (proj1 (proj2 (proj2 (proj2 C1)))). wp_step.
    rewrite (proj2 (Z.eqb_neq _ _)) by done. apply wp_ret.
    eapply (wp_read_release d sb ∅ s1); [done|set_solver|done..|].
    intros s2 T2 C2. by apply wp_ret.
Qed.

(** ** The bytes a write does not touch *)

Lemma block_of_byte k : 0 <= k < MAXFILE * BSIZE -> 0 <= k / BSIZE < MAXFILE.
Proof.
  intros Hk. split; [apply Z.div_pos; [lia|done]|]. apply Z.div_lt_upper_bound; [done|]. lia.
Qed.

Lemma rd_zeros (n : nat) j : rd (replicate n 0) j = 0.
Proof.
  unfold rd. destruct (replicate n 0 !! j) eqn:E; [|done].
  apply lookup_replicate in E as [-> _]. done.
Qed.

(** A file reads the same after [bmap]. *)
Lemma fbyte_bmapped i bn c s a s' k :
  bmapped d sb i bn c s a s' -> inode_ok s (it_inode s !!! i) -> 0 <= k < MAXFILE * BSIZE ->
  fbyte s' (it_inode s' !!! i) k = fbyte s (it_inode s !!! i) k.
Proof.
  intros Bm Ok Hk. pose proof (block_of_byte k Hk) as Hb. unfold FsFile.fbyte.
  destruct (decide (k / BSIZE = bn)) as [He|Hne].
  - rewrite He, (bm_val _ _ _ _ _ _ _ _ Bm).
    destruct (decide (fblock s (it_inode s !!! i) bn = 0)) as [H0|Hnz].
    + rewrite H0. destruct (Z.eqb_spec a 0); [done|].
      rewrite (bm_new _ _ _ _ _ _ _ _ Bm) by done. apply rd_zeros.
    + destruct (bm_old _ _ _ _ _ _ _ _ Bm Hnz) as [-> (_ & _ & _ & B & _)]. by rewrite B.
  - rewrite (bm_other _ _ _ _ _ _ _ _ Bm) by done.
    destruct (Z.eqb_spec (fblock s (it_inode s !!! i) (k / BSIZE)) 0) as [|Hnz]; [done|].
    rewrite (proj1 (bm_pres _ _ _ _ _ _ _ _ Bm)); [done|by apply Ok|].
    intros Hin%elem_of_singleton. by eapply (ok_not_ind _ _ _ _ Ok) in Hin.
Qed.

(** ** readi *)

(** The [m] bytes at [off], inside one block. *)
Lemma slice_fbyte s ip off m j :
  fblock s ip (off / BSIZE) <> 0 -> 0 <= off -> off mod BSIZE + m <= BSIZE -> 0 <= Z.of_nat j < m ->
  length (cur s (fblock s ip (off / BSIZE))) = bsize ->
  slice (Z.to_nat (off mod BSIZE)) (Z.to_nat m) (cur s (fblock s ip (off / BSIZE))) !! j =
  Some (fbyte s ip (off + Z.of_nat j)).
Proof.
  intros Hnz Hoff Hm Hj Hl. pose proof (Z.mod_pos_bound off BSIZE ltac:(done)).
  pose proof (Z.div_mod off BSIZE ltac:(done)).
  assert ((off + Z.of_nat j) / BSIZE = off / BSIZE) as Hdiv.
  { symmetry. apply (Z.div_unique _ _ _ (off mod BSIZE + Z.of_nat j)); lia. }
  assert ((off + Z.of_nat j) mod BSIZE = off mod BSIZE + Z.of_nat j) as Hmod.
  { symmetry. apply (Z.mod_unique _ _ (off / BSIZE)); lia. }
  rewrite lookup_slice by lia. unfold FsFile.fbyte. rewrite Hdiv, Hmod.
  rewrite (proj2 (Z.eqb_neq _ _)) by done. unfold rd.
  rewrite Z2Nat.inj_add, Nat2Z.id by lia.
  destruct (lookup_lt_is_Some_2 (cur s (fblock s ip (off / BSIZE)))
    (Z.to_nat (off mod BSIZE) + j)%nat) as [v Hv]; [|by rewrite Hv].
  rewrite Hl. unfold bsize. lia.
Qed.

(** The turns of the copying loop for [rest] bytes at [off]. *)
Definition turns (off rest : Z) : Z :=
  if rest <=? 0 then 0 else (off mod BSIZE + rest + BSIZE - 1) / BSIZE.

Lemma turns_nonneg off rest : 0 <= turns off rest.
Proof.
  unfold turns. destruct (Z.leb_spec rest 0); [lia|].
  pose proof (Z.mod_pos_bound off BSIZE ltac:(done)). apply Z.div_pos; [unfold BSIZE in *; lia|done].
Qed.

Lemma turns_step off rest :
  0 <= off -> 0 < rest ->
  let m := Z.min rest (BSIZE - off mod BSIZE) in turns (off + m) (rest - m) < turns off rest.
Proof.
  intros Hoff Hr m. unfold turns, BSIZE in *. pose proof (Z.mod_pos_bound off 1024 ltac:(done)).
  rewrite (proj2 (Z.leb_gt rest 0)) by done. destruct (Z.leb_spec (rest - m) 0).
  - apply Z.lt_le_trans with 1; [lia|]. apply Z.div_le_lower_bound; lia.
  - assert (m = 1024 - off mod 1024) as Hm by lia.
    assert ((off + m) mod 1024 = 0) as ->.
    { pose proof (Z.div_mod off 1024 ltac:(done)).
      replace (off + m) with ((off / 1024 + 1) * 1024) by lia. by apply Z.mod_mul. }
    replace (off mod 1024 + rest + 1024 - 1) with ((0 + (rest - m) + 1024 - 1) + 1 * 1024) by lia.
    rewrite Z.div_add by lia. lia.
Qed.

Lemma turns_fuel off n : 0 <= n -> turns off n < Z.of_nat (rw_fuel n).
Proof.
  intros Hn. unfold turns, rw_fuel, BSIZE. destruct (Z.leb_spec n 0); [lia|].
  pose proof (Z.mod_pos_bound off 1024 ltac:(done)).
  assert (0 <= n / 1024) by (apply Z.div_pos; lia).
  assert ((off mod 1024 + n + 1024 - 1) / 1024 < n / 1024 + 3); [|lia].
  apply Z.div_lt_upper_bound; [lia|]. pose proof (Z.mul_succ_div_gt n 1024 ltac:(lia)). lia.
Qed.

Lemma fbyte_calm s s' ip k : calm d ∅ s s' -> fbyte s' ip k = fbyte s ip k.
Proof.
  intros (_ & _ & _ & B & _).
  assert (forall bn, fblock s' ip bn = fblock s ip bn) as Hb.
  { intros bn. unfold FsFile.fblock. by rewrite B. }
  unfold FsFile.fbyte. by rewrite Hb, B.
Qed.

Lemma inode_ok_calm s s' ip : calm d ∅ s s' -> inode_ok s ip -> inode_ok s' ip.
Proof.
  intros C Ok. eapply (inode_ok_preserved d sb ∅ s); [by eapply preserves_calm|done|set_solver].
Qed.

Lemma fblock_calm s s' ip bn : calm d ∅ s s' -> fblock s' ip bn = fblock s ip bn.
Proof. intros (_ & _ & _ & B & _). unfold FsFile.fblock. by rewrite B. Qed.

(** The part of a file [readi] is asked for is there. *)
Definition readable (s : fs) (ip : inode) (off rest : Z) : Prop :=
  0 <= off /\ off + rest <= i_size ip /\ i_size ip <= MAXFILE * BSIZE /\ no_holes d s ip.

Lemma readable_block s ip off rest :
  readable s ip off rest -> 0 < rest ->
  0 <= off / BSIZE < MAXFILE /\ fblock s ip (off / BSIZE) <> 0.
Proof.
  intros (H0 & Hs & Hmax & Hh) Hr. split; [apply block_of_byte; lia|].
  apply Hh; [apply Z.div_pos; [lia|done]|]. pose proof (Z.mul_div_le off BSIZE ltac:(done)). lia.
Qed.

Section dest.
Context {K : Type} (L : lens K fs) `{!LensLaws L} (out : Z -> list Z -> M K bool).
Context (mem : K -> Z -> Z) (inv : K -> Prop) (N : Z) `{!Dest L out mem inv N}.
Implicit Types (k : K).

Lemma reached_set f lo hi k k' s s' : reached mem f lo hi (lset L s k) k' -> reached mem f lo hi k (lset L s' k').
Proof. intros H x. specialize (H x). by rewrite dest_mem in H |- *. Qed.

Lemma reached_step s s1 ip off m k k1 k2 tot n :
  calm d ∅ s s1 -> 0 < m -> tot + m <= n -> landed_bytes mem (fun x => fbyte s ip (off + (x - tot))) tot (tot + m) k k1 ->
  reached mem (fun x => fbyte s1 ip (off + m + (x - (tot + m)))) (tot + m) n k1 k2 ->
  reached mem (fun x => fbyte s ip (off + (x - tot))) tot n k k2.
Proof.
  intros C Hm Hn H1 H2 x. specialize (H1 x). specialize (H2 x).
  assert (fbyte s1 ip (off + m + (x - (tot + m))) = fbyte s ip (off + (x - tot))) as E by (rewrite (fbyte_calm s s1) by done; f_equal; lia).
  repeat case_decide; try lia; intuition congruence.
Qed.
Lemma landed_step s s1 ip off m k k1 k2 tot n :
  calm d ∅ s s1 -> 0 < m -> tot + m <= n -> landed_bytes mem (fun x => fbyte s ip (off + (x - tot))) tot (tot + m) k k1 ->
  landed_bytes mem (fun x => fbyte s1 ip (off + m + (x - (tot + m)))) (tot + m) n k1 k2 ->
  landed_bytes mem (fun x => fbyte s ip (off + (x - tot))) tot n k k2.
Proof.
  intros C Hm Hn H1 H2 x. specialize (H1 x). specialize (H2 x).
  assert (fbyte s1 ip (off + m + (x - (tot + m))) = fbyte s ip (off + (x - tot))) as E by (rewrite (fbyte_calm s s1) by done; f_equal; lia).
  repeat case_decide; try lia; congruence.
Qed.

(** One copy of [readi]: [m] bytes of one block. *)
Lemma wp_copyout s ip off tot m n k (Q : bool -> K -> Prop) :
  inv k -> 0 <= off -> 0 <= tot -> 0 < m -> tot + m <= n -> n <= N ->
  fblock s ip (off / BSIZE) <> 0 -> off mod BSIZE + m <= BSIZE -> length (cur s (fblock s ip (off / BSIZE))) = bsize ->
  (forall ok k', inv k' -> lget L k' = lget L k ->
     (if ok : bool then landed_bytes mem (fun x => fbyte s ip (off + (x - tot))) tot (tot + m) k k'
      else reached mem (fun x => fbyte s ip (off + (x - tot))) tot n k k' /\ copy_failed out) -> Q ok k') ->
  wp (out tot (slice (Z.to_nat (off mod BSIZE)) (Z.to_nat m) (cur s (fblock s ip (off / BSIZE))))) Q k.
Proof.
  intros Hi Hoff Ht Hm Hn HN Hnz Hb Hlc HQ. pose proof (Z.mod_pos_bound off BSIZE ltac:(done)). set (bs := slice _ _ _).
  assert (length bs = Z.to_nat m) as Hbs by (apply slice_length; rewrite Hlc; unfold bsize; lia).
  assert (forall x, tot <= x < tot + m -> rd bs (Z.to_nat (x - tot)) = fbyte s ip (off + (x - tot))) as Hrd.
  { intros x Hx. unfold rd, bs. rewrite slice_fbyte by (done || lia). cbn. do 2 f_equal. lia. }
  destruct (dest_copy (N := N) tot bs k Hi ltac:(lia) ltac:(lia)) as (ok & k' & E & Hi' & Hg & Hmem). unfold wp. rewrite E.
  apply HQ; [done|done|]. rewrite Hbs, Z2Nat.id in Hmem by lia. destruct ok.
  - intros x. specialize (Hmem x). case_decide; [|done]. by rewrite Hmem, Hrd.
  - split; [|by exists tot, bs, k, k']. intros x. specialize (Hmem x).
    destruct (decide (tot <= x < tot + m)), (decide (tot <= x < n)); try lia. by rewrite Hrd in Hmem.
Qed.

Lemma wp_readi_loop fuel i n tot off k :
  let s := lget L k in
  fs_tx ∅ s -> room 0 s -> inode_ok s (it_inode s !!! i) -> inv k -> 0 <= tot <= n -> n < 2 ^ 31 ->
  n <= N -> readable s (it_inode s !!! i) off (n - tot) ->
  turns off (n - tot) < Z.of_nat fuel ->
  wp (readi_loop L out fuel i n tot off) (fun r k' => fs_tx ∅ (lget L k') /\ calm d ∅ s (lget L k') /\ inv k' /\
    let byte x := fbyte s (it_inode s !!! i) (off + (x - tot)) in
    (r = n /\ landed_bytes mem byte tot n k k' \/ r = -1 /\ reached mem byte tot n k k' /\ copy_failed out)) k.
Proof.
  revert tot off k. induction fuel as [|fuel IH];
    intros tot off k s T R Ok Hi Ht Hn Hl Hrd Hf; [pose proof (turns_nonneg off (n - tot)); lia|].
  cbn [readi_loop]. destruct (Z.ltb_spec tot n) as [Hlt|Hge].
  2:{ apply wp_ret. split_and!; [done|reflexivity|done|]. left. split; [lia|]. intros x. by rewrite decide_False by lia. }
  destruct (readable_block _ _ _ _ Hrd ltac:(lia)) as [Hbn Hnz].
  set (ip := it_inode s !!! i) in *. set (a := fblock s ip (off / BSIZE)) in *.
  pose proof (Z.mod_pos_bound off BSIZE ltac:(done)).
  set (m := Z.min (n - tot) (BSIZE - off mod BSIZE)). pose proof Hrd as (Ho & Hs & Hmax & Hh).
  wp_step. apply wp_zoom. wp_use (wp_bmap_present i (off / BSIZE) s); [done..|].
  intros a' s1 (-> & T1 & C1). fold ip a. rewrite (proj2 (Z.eqb_neq a 0)) by done.
  pose proof C1 as ((Hit & _) & _ & _ & B1 & _).
  wp_step. apply wp_zoom. unfold geti. wp_step. rewrite lens_get_set, lens_set_set, Hit. fold ip.
  rewrite (ok_dev _ _ _ _ Ok). wp_step. apply wp_zoom. rewrite lens_get_set.
  wp_use (wp_fbread d sb ∅ s1 a); [done|set_solver|rewrite size_empty; lia|by eapply calm_room|].
  intros bp s2 (T2 & S2 & C2). assert (calm d ∅ s s2) as C by by etransitivity. rewrite lens_set_set.
  wp_step. apply wp_zoom. rewrite lens_get_set. eapply wp_fbdata; [done..|]. rewrite lens_set_set.
  rewrite (proj1 (proj2 (proj2 (proj2 C)))). fold m. wp_step.
  apply (wp_copyout s ip off tot m n); [by apply dest_set|lia..|done|lia|by eapply cur_good|].
  rewrite lens_get_set. intros ok k1 Hi1 Hg1 Hmem.
  assert (forall X (c : M K X) (Q : X -> K -> Prop),
    (forall s3, fs_tx ∅ s3 -> calm d ∅ s s3 -> wp c Q (lset L s3 k1)) -> wp (zoom L (fbrelse bp) ;; c) Q k1) as Hrel.
  { intros X c Q Hc. wp_step. apply wp_zoom. rewrite Hg1. eapply (wp_eq _ (fbrelse bp ;; ret tt) _ _ s2).
    { unfold bind. by destruct (fbrelse bp s2) as [[]| | |]. }
    eapply (wp_read_release d sb ∅ s2 bp a s); [done|set_solver|done..|]. intros s3 T3 C3. apply wp_ret. by apply Hc. }
  destruct ok; cbn [negb]; apply Hrel; intros s3 T3 C3.
  2:{ apply wp_ret. rewrite lens_get_set. split_and!; [done|done|by apply dest_set|]. right. destruct Hmem as [Hmem Hfail].
      split_and!; [done| |done]. by eapply reached_set. }
  rewrite !u32_small by (change MAXFILE with 268 in *; unfold BSIZE in *; lia).
  pose proof C3 as ((Hit3 & _) & _ & _ & B3 & _).
  wp_use (IH (tot + m) (off + m) (lset L s3 k1)); rewrite ?lens_get_set, ?Hit3; fold ip; try done; try lia.
  - by eapply calm_room.
  - by eapply inode_ok_calm.
  - by apply dest_set.
  - split_and!; [lia..|]. intros bn Hb1 Hb2. rewrite (fblock_calm s s3) by done. auto.
  - pose proof (turns_step off (n - tot) Ho ltac:(lia)) as Hts. cbv zeta in Hts. fold m in Hts.
    replace (n - (tot + m)) with (n - tot - m) by lia. lia.
  - intros r k4 (T4 & C4 & I4 & D4). split_and!; [done|by etransitivity|done|].
    assert (landed_bytes mem (fun x => fbyte s ip (off + (x - tot))) tot (tot + m) k (lset L s3 k1)) as Hl1.
    { intros x. specialize (Hmem x). rewrite !dest_mem in *. done. }
    destruct D4 as [(-> & D4)|(-> & D4 & Hfail)]; [left|right]; split_and!; try done.
    + eapply (landed_step s s3); try done; lia.
    + eapply (reached_step s s3); try done; lia.
Qed.
(** The number of bytes [readi] is to deliver. *)
Definition read_count (size off n : Z) : Z := if (size <? off) || (2 ^ 32 <=? off + n) then 0 else Z.min n (size - off).

Lemma wp_readi i off n k :
  let s := lget L k in let ip := it_inode s !!! i in let cnt := read_count (i_size ip) off n in
  fs_tx ∅ s -> room 0 s -> inode_ok s ip -> no_holes d s ip -> 0 <= i_size ip <= MAXFILE * BSIZE -> inv k ->
  0 <= off < 2 ^ 32 -> 0 <= n < 2 ^ 32 -> n <= N ->
  wp (readi L out i off n) (fun r k' => fs_tx ∅ (lget L k') /\ calm d ∅ s (lget L k') /\ inv k' /\
    let byte x := fbyte s ip (off + x) in
    (r = cnt /\ landed_bytes mem byte 0 cnt k k' \/ r = -1 /\ reached mem byte 0 cnt k k' /\ copy_failed out)) k.
Proof.
  intros s ip cnt T R Ok Hh Hsz Hi Ho Hn HN. pose proof Hsz as Hmax. change MAXFILE with 268 in Hmax. unfold BSIZE in Hmax.
  unfold readi. wp_step. apply wp_zoom. unfold geti. wp_step. rewrite lens_set_get. fold s ip.
  unfold read_count in cnt. assert ((i_size ip <? off) || (u32 (off + n) <? off) = (i_size ip <? off) || (2 ^ 32 <=? off + n)) as Hc.
  { destruct (Z.ltb_spec (i_size ip) off); [done|]. cbn [orb]. destruct (Z.leb_spec (2 ^ 32) (off + n)).
    - apply Z.ltb_lt. unfold u32. rewrite (Z.mod_eq _ (2 ^ 32)) by done. replace ((off + n) / 2 ^ 32) with 1; [lia|].
      apply (Z.div_unique _ _ _ (off + n - 2 ^ 32)); lia.
    - apply Z.ltb_ge. rewrite u32_small by lia. lia. }
  rewrite Hc. destruct (_ || _) eqn:E; subst cnt.
  { apply wp_ret. split_and!; [done|reflexivity|done|]. left. split; [done|]. intros x. by rewrite decide_False by lia. }
  apply orb_false_iff in E as [E1%Z.ltb_ge E2%Z.leb_gt]. rewrite u32_small by lia.
  assert ((if i_size ip <? off + n then i_size ip - off else n) = Z.min n (i_size ip - off)) as ->.
  { destruct (Z.ltb_spec (i_size ip) (off + n)); lia. }
  set (cnt := Z.min n (i_size ip - off)). wp_use (wp_readi_loop (rw_fuel cnt) i cnt 0 off k); try done; try lia.
  - split_and!; try done; fold s ip; lia.
  - rewrite Z.sub_0_r. apply turns_fuel. lia.
  - fold s ip. intros r k' (T' & C' & I' & D). split_and!; [done..|].
    destruct D as [(-> & D)|(-> & D & Hf)]; [left|right]; split_and!; try done; intros x; specialize (D x); cbv beta in D; case_decide; by rewrite ?Z.sub_0_r in D.
Qed.
End dest.

(** The bytes of a file between [off] and [off + n]. *)
Definition content (s : fs) (ip : inode) (off n : Z) : list Z :=
  (fun j => fbyte s ip (off + j)) <$> seqZ 0 n.

Lemma content_lookup s ip off n (j : nat) :
  (j < Z.to_nat n)%nat -> content s ip off n !! j = Some (fbyte s ip (off + Z.of_nat j)).
Proof. intros Hj. unfold content. rewrite list_lookup_fmap, lookup_seqZ_lt by lia. done. Qed.

Lemma content_length s ip off n : length (content s ip off n) = Z.to_nat n.
Proof. unfold content. by rewrite length_fmap, length_seqZ. Qed.

(** A local variable of [N] bytes as the destination: no copy fails. *)
Definition kmem (p : fs * list Z) (x : Z) : Z := if x <? 0 then 0 else rd (snd p) (Z.to_nat x).

#[export] Instance kbuf_laws : LensLaws kbuf_l.
Proof. split; [done|done|by intros []]. Qed.
#[export] Instance kbuf_dest (N : nat) : Dest kbuf_l kcopyout kmem (fun p => length (snd p) = N) (Z.of_nat N).
Proof.
  split; [done|done|]. intros o bs [s buf] Hl Ho HN. exists true, (s, splice (Z.to_nat o) bs buf). cbn [snd] in Hl.
  split_and!; [done|by cbn; rewrite splice_length by lia|done|]. cbv zeta. intros x. unfold kmem. cbn [snd].
  destruct (Z.ltb_spec x 0); [by rewrite decide_False by lia|]. unfold rd. rewrite splice_lookup by lia.
  destruct (decide (o <= x < o + Z.of_nat (length bs))); [rewrite decide_True by lia|by rewrite decide_False by lia].
  do 2 f_equal. lia.
Qed.

(** [readi] into a kernel buffer returns the part of the file that is there,
    without touching the file system. *)
Lemma wp_readi_kernel i off n s :
  fs_tx ∅ s -> room 0 s -> inode_ok s (it_inode s !!! i) -> 0 <= n < 2 ^ 31 ->
  readable s (it_inode s !!! i) off 0 ->
  let cnt := Z.min n (i_size (it_inode s !!! i) - off) in
  wp (readi_kernel i off n) (fun r s' => fst r = cnt /\ length (snd r) = Z.to_nat n /\
    take (Z.to_nat cnt) (snd r) = content s (it_inode s !!! i) off cnt /\
    fs_tx ∅ s' /\ calm d ∅ s s') s.
Proof.
  intros T R Ok Hn Hrd cnt. set (ip := it_inode s !!! i) in *.
  pose proof Hrd as (Ho & Hs & Hmax & Hh). pose proof Hmax as Hm. change MAXFILE with 268 in Hm. unfold BSIZE in Hm.
  set (k := (s, replicate (Z.to_nat n) 0)).
  pose proof (wp_readi kbuf_l kcopyout kmem (fun p => length (snd p) = Z.to_nat n) (Z.of_nat (Z.to_nat n)) i off n k) as Hw. cbv zeta in Hw.
  change (lget kbuf_l k) with s in Hw. fold ip in Hw. specialize (Hw T R Ok Hh ltac:(lia)).
  specialize (Hw (length_replicate _ _) ltac:(lia) ltac:(lia) ltac:(lia)).
  assert (read_count (i_size ip) off n = cnt) as Hcnt.
  { unfold read_count. rewrite (proj2 (Z.ltb_ge _ off)), (proj2 (Z.leb_gt _ (off + n))) by lia. done. }
  rewrite Hcnt in Hw. unfold wp, readi_kernel in *. fold k. destruct (readi _ _ _ _ _ _) as [r [s' buf]| | |]; try done.
  destruct Hw as (T' & C' & L' & [(-> & D)|(_ & _ & (o & bs & k0 & k1 & Hf))]); [|done]. cbn [snd lget kbuf_l fst] in *.
  split_and!; try done. apply list_eq. intros j. destruct (decide (j < Z.to_nat cnt)%nat).
  - rewrite lookup_take_lt, content_lookup by done. specialize (D (Z.of_nat j)). rewrite decide_True in D by lia.
    unfold kmem in D. rewrite (proj2 (Z.ltb_ge (Z.of_nat j) 0)), Nat2Z.id in D by lia. cbn [snd] in D. rewrite <- D. unfold rd.
    destruct (lookup_lt_is_Some_2 buf j) as [b Hb]; [lia|by rewrite Hb].
  - rewrite lookup_take_ge by lia. symmetry. apply lookup_ge_None_2. rewrite content_length. lia.
Qed.
End rw.
