(* ===== verification/FsWrite.v ===== *)
(** * Writing file contents *)

From S2P Require Import Prelude Param Spinlock Sleeplock Str Bio BioSpec BioOps Log LogDisk LogOps LogTx Fs FsSpec FsBitmap FsFile FsRw.

Lemma wp_id {S A} (m : M S A) Q s : wp m Q s -> wp (zoom id_l m) Q s.
Proof. unfold wp, zoom. simpl. by destruct (m s). Qed.

Lemma zoom_id {S A} (m : M S A) s : zoom id_l m s = m s.
Proof. unfold zoom. simpl. by destruct (m s). Qed.

(** ** Where [writei] copies from

    The source holds the bytes [src].  A copy may fail; this is the case in
    which it has delivered nothing by then. *)

Class Source {K} (L : lens K fs) (inp : Z -> Z -> M K (bool * list Z)) (inv : K -> Prop) (src : list Z) : Prop := {
  source_set s k : inv k -> inv (lset L s k);
  source_copy o m k : inv k -> 0 <= o -> 0 <= m -> o + m <= Z.of_nat (length src) ->
    exists (ok : bool) k', inp o m k = Ok (ok, if ok then slice (Z.to_nat o) (Z.to_nat m) src else []) k' /\ inv k' /\ lget L k' = lget L k
}.
Definition copyin_failed {K} (inp : Z -> Z -> M K (bool * list Z)) : Prop := exists o m bs k k', inp o m k = Ok (false, bs) k'.

(** Three steps of the layer below, then the rest. *)
Lemma wp_zoom3 {K T A} (L : lens K T) `{!LensLaws L} (m1 m2 m3 : M T unit) (c : M K A) Q k :
  wp (m1 ;; m2 ;; m3) (fun _ t => wp c Q (lset L t k)) (lget L k) ->
  wp (zoom L m1 ;; zoom L m2 ;; zoom L m3 ;; c) Q k.
Proof.
  unfold wp, bind, zoom. destruct (m1 (lget L k)) as [? t1| | |]; [|done..]. rewrite lens_get_set.
  destruct (m2 t1) as [? t2| | |]; [|done..]. rewrite lens_get_set. destruct (m3 t2); [|done..]. by rewrite !lens_set_set.
Qed.

Section write.
Context (d : Z) (sb : superblock) {G : FsGeom d sb}.
Implicit Types (s : fs) (x b bn off n tot : Z) (ip : inode) (i : nat).
#[local] Abbreviation st := (sb_logstart sb).
#[local] Abbreviation cur := (cur d).
#[local] Abbreviation fs_tx := (fs_tx d sb).
#[local] Abbreviation free := (free d sb).
#[local] Abbreviation meta_used := (meta_used d sb).
#[local] Abbreviation fblock := (fblock d).
#[local] Abbreviation fbyte := (fbyte d).
#[local] Abbreviation inode_ok := (inode_ok d sb).
#[local] Abbreviation in_use := (in_use d sb).

(** Overwriting part of block [a] of a file. *)
Definition patched (a : Z) (off : nat) (bs : list Z) (s s' : fs) : Prop :=
  same_mem s s' /\ (forall y, cur s' y = if decide (y = a) then splice off bs (cur s a) else cur s y).

Lemma patched_free a o bs s s' x :
  datastart sb <= a -> patched a o bs s s' -> 0 <= x < sb_size sb -> free s' x = free s x.
Proof.
  intros Ha [_ B] Hx. unfold FsBitmap.free. rewrite B, decide_False; [done|].
  pose proof (BBLOCK_range d sb x Hx). lia.
Qed.

Lemma patched_fblock a o bs s s' ip bn :
  a <> ind ip -> patched a o bs s s' -> fblock s' ip bn = fblock s ip bn.
Proof. intros Ha [_ B]. unfold FsFile.fblock. by rewrite B, decide_False by congruence. Qed.

Lemma patched_ok a o bs s s' ip bn :
  inode_ok s ip -> 0 <= bn < MAXFILE -> fblock s ip bn = a -> a <> 0 ->
  patched a o bs s s' -> inode_ok s' ip.
Proof.
  intros Ok Hbn Hfb Ha Hp. pose proof (ok_not_ind _ _ _ _ Ok bn Hbn) as Hni. rewrite Hfb in Hni.
  destruct (ok_use _ _ _ _ Ok bn Hbn) as [Hr _]; [congruence|]. rewrite Hfb in Hr.
  assert (forall bn', fblock s' ip bn' = fblock s ip bn') as He by (intros; by eapply patched_fblock; eauto).
  pose proof (geom_facts d sb). assert (forall x, in_use s x -> in_use s' x) as Hu.
  { intros x [Hx Hf]. split; [done|]. rewrite (patched_free a o bs s s'); [done|lia|done|].
    unfold datastart in *. lia. }
  destruct Ok as [O1 O2 O3 O4 O5 O6]. split; try done; intros; rewrite ?He in *; eauto.
Qed.

(** The bytes after an overwrite inside one block. *)
Lemma patched_fbyte s s' ip off bs k :
  inode_ok s ip -> 0 <= off -> 0 <= off / BSIZE < MAXFILE -> fblock s ip (off / BSIZE) <> 0 ->
  off mod BSIZE + Z.of_nat (length bs) <= BSIZE ->
  length (cur s (fblock s ip (off / BSIZE))) = bsize ->
  patched (fblock s ip (off / BSIZE)) (Z.to_nat (off mod BSIZE)) bs s s' ->
  0 <= k < MAXFILE * BSIZE ->
  fbyte s' ip k = if decide (off <= k < off + Z.of_nat (length bs))
                  then rd bs (Z.to_nat (k - off)) else fbyte s ip k.
Proof.
  intros Ok Hoff Hbn Hnz Hlen Hl Hp Hk. set (a := fblock s ip (off / BSIZE)) in *.
  pose proof (Z.mod_pos_bound off BSIZE ltac:(done)). pose proof (Z.div_mod off BSIZE ltac:(done)).
  pose proof (Z.mod_pos_bound k BSIZE ltac:(done)). pose proof (Z.div_mod k BSIZE ltac:(done)).
  unfold FsFile.fbyte. rewrite (patched_fblock a _ _ s s') by (done || by apply (ok_not_ind _ _ _ _ Ok)).
  destruct Hp as [_ B]. rewrite B. fold a. destruct (decide (k / BSIZE = off / BSIZE)) as [He|Hne].
  - rewrite He. fold a. rewrite (proj2 (Z.eqb_neq a 0)) by done. rewrite decide_True by done.
    unfold rd. rewrite splice_lookup by (rewrite Hl; unfold bsize; lia).
    destruct (decide (off <= k < off + Z.of_nat (length bs))).
    + rewrite decide_True by lia. do 2 f_equal. lia.
    + by rewrite decide_False by lia.
  - assert (~ off <= k < off + Z.of_nat (length bs)) as Hout.
    { intros Hin. apply Hne. symmetry. apply (Z.div_unique _ _ _ (off mod BSIZE + (k - off))); lia. }
    rewrite (decide_False (P := off <= k < _)) by done.
    destruct (Z.eqb_spec (fblock s ip (k / BSIZE)) 0) as [|Hn0]; [done|].
    rewrite decide_False; [done|]. intros He. apply Hne.
    by apply (ok_inj _ _ _ _ Ok); [apply block_of_byte|..].
Qed.

(** [s'] is [s] after [src[tot .. tot')] was written to file [i] at [off]. *)
Record written (i : nat) (src : list Z) (tot off : Z) (s : fs) (tot' : Z) (s' : fs) : Prop := {
  w_tx : fs_tx ∅ s';
  w_meta : meta_used s';
  w_mem : mem_upd i s s';
  w_ok : inode_ok s' (it_inode s' !!! i);
  w_bytes : forall k, 0 <= k < MAXFILE * BSIZE ->
    fbyte s' (it_inode s' !!! i) k =
    if decide (off <= k < off + (tot' - tot)) then rd src (Z.to_nat (tot + (k - off)))
    else fbyte s (it_inode s !!! i) k;
  w_kept : forall bn, 0 <= bn < MAXFILE -> fblock s (it_inode s !!! i) bn <> 0 ->
    fblock s' (it_inode s' !!! i) bn <> 0;
  w_there : forall k, off <= k < off + (tot' - tot) -> fblock s' (it_inode s' !!! i) (k / BSIZE) <> 0;
  w_others : forall x, in_use s x -> ~ owns d s (it_inode s !!! i) x -> cur s' x = cur s x;
  w_low : forall x, x < sb_bmapstart sb -> cur s' x = cur s x;
  w_mono : forall x, 0 <= x < sb_size sb -> free s x = false -> free s' x = false;
  w_owns : forall x, datastart sb <= x < sb_size sb -> owns d s' (it_inode s' !!! i) x ->
    owns d s (it_inode s !!! i) x \/ free s x = true
}.

Lemma written_bmap i bn c src tot off s a s' :
  bmapped d sb i bn c s a s' -> inode_ok s (it_inode s !!! i) -> 0 <= bn < MAXFILE ->
  written i src tot off s tot s'.
Proof.
  intros Bm Ok Hbn. pose proof Bm as [B1 B2 B3 B4 B5 B6 B7 B8 B9 B10 B11 B12]. split; try done.
  - intros k Hk. rewrite decide_False by lia. by eapply fbyte_bmapped.
  - intros bn' Hbn' Hnz. destruct (decide (bn' = bn)) as [->|Hne]; [|by rewrite B7].
    destruct (B8 Hnz) as [E _]. congruence.
  - intros k Hk. lia.
  - intros x Hu Ho. apply (proj1 B10); [done|]. intros Hin%elem_of_singleton. apply Ho. by left.
  - apply B10.
  - apply B10.
Qed.

Lemma written_patch i bs src tot off s m s' :
  fs_tx ∅ s -> meta_used s -> inode_ok s (it_inode s !!! i) -> fs_tx ∅ s' ->
  0 <= off -> 0 <= off / BSIZE < MAXFILE -> fblock s (it_inode s !!! i) (off / BSIZE) <> 0 ->
  off mod BSIZE + m <= BSIZE -> Z.of_nat (length bs) = m ->
  bs = slice (Z.to_nat tot) (Z.to_nat m) src -> 0 <= tot ->
  patched (fblock s (it_inode s !!! i) (off / BSIZE)) (Z.to_nat (off mod BSIZE)) bs s s' ->
  written i src tot off s (tot + m) s'.
Proof.
  intros T Hm Ok T' Hoff Hbn Hnz Hlen Hbs Hsl Ht Hp. set (ip := it_inode s !!! i) in *.
  pose proof (geom_facts d sb) as Hg. destruct (ok_use _ _ _ _ Ok _ Hbn Hnz) as [Har _].
  pose proof Hp as [M B]. pose proof M as (Hit & _).
  pose proof (ok_not_ind _ _ _ _ Ok _ Hbn Hnz) as Hni.
  assert (forall bn, fblock s' ip bn = fblock s ip bn) as Hfb by (intros; by eapply patched_fblock).
  assert (forall x, 0 <= x < sb_size sb -> free s' x = free s x) as Hfr.
  { intros x Hx. eapply patched_free; [|done..]. lia. }
  split; rewrite ?Hit; fold ip; try done.
  - intros x Hx. rewrite Hfr by lia. auto.
  - by apply same_mem_upd.
  - by eapply patched_ok.
  - intros k Hk. rewrite (patched_fbyte s s' ip off bs) by (done || lia || by eapply cur_good).
    rewrite Hbs. replace (tot + m - tot) with m by lia. case_decide as Hin; [|done].
    rewrite Hsl. unfold rd. rewrite lookup_slice by lia. do 2 f_equal. lia.
  - intros bn Hb. by rewrite Hfb.
  - intros k Hk. rewrite Hfb. replace (k / BSIZE) with (off / BSIZE); [done|].
    pose proof (Z.mod_pos_bound off BSIZE ltac:(done)). pose proof (Z.div_mod off BSIZE ltac:(done)).
    apply (Z.div_unique _ _ _ (off mod BSIZE + (k - off))); lia.
  - intros x Hu Ho. rewrite B, decide_False; [done|]. intros ->. apply Ho. right. eauto.
  - intros x Hx. rewrite B, decide_False; [done|]. unfold datastart in *. lia.
  - intros x Hx. by rewrite Hfr.
  - intros x _ [Hx|(bn' & Hbn' & Hx)]; left; [by left|right]. exists bn'. by rewrite <- Hfb.
Qed.

Lemma written_trans i src tot off s1 tot1 s2 tot2 s3 :
  0 <= off -> 0 <= tot <= tot1 -> tot1 <= tot2 -> off + (tot2 - tot) <= MAXFILE * BSIZE ->
  written i src tot off s1 tot1 s2 -> written i src tot1 (off + (tot1 - tot)) s2 tot2 s3 ->
  written i src tot off s1 tot2 s3.
Proof.
  intros Hoff Ht1 Ht2 Hmax W1 W2. pose proof (geom_facts d sb) as Hg.
  pose proof W1 as [A1 A2 A3 A4 A5 A6 A7 A8 A9 A10 A11].
  pose proof W2 as [B1 B2 B3 B4 B5 B6 B7 B8 B9 B10 B11]. split; try done.
  - by eapply mem_upd_trans.
  - intros k Hk. rewrite B5, A5 by done. repeat case_decide; try lia; try done. do 2 f_equal. lia.
  - auto.
  - intros k Hk. destruct (decide (k < off + (tot1 - tot))); [|apply B7; lia].
    apply B6; [apply block_of_byte; lia|]. apply A7. lia.
  - intros x Hu Ho. rewrite B8, A8; [done..| |].
    + destruct Hu as [Hr Hf]. split; [done|]. apply A10; [unfold datastart in *; lia|done].
    + intros Ho'. destruct Hu as [Hr Hf]. destruct (A11 x Hr Ho'); [done|congruence].
  - intros x Hx. by rewrite B9, A9.
  - auto.
  - intros x Hx Ho. destruct (B11 x Hx Ho) as [Ho'|Hf]; [by apply A11|]. right.
    destruct (free s1 x) eqn:E; [done|]. rewrite A10 in Hf; [done|unfold datastart in *; lia|done].
Qed.

Definition wcost (off rest : Z) : nat := 6 * Z.to_nat (turns off rest).

Lemma written_refl i src tot off s :
  fs_tx ∅ s -> meta_used s -> inode_ok s (it_inode s !!! i) -> written i src tot off s tot s.
Proof.
  intros T Hm Ok. split; try done.
  - apply same_mem_upd. reflexivity.
  - intros k Hk. by rewrite decide_False by lia.
  - intros k Hk. lia.
  - intros x _ Ho. by left.
Qed.

Lemma written_calm i src tot off s s' :
  meta_used s -> inode_ok s (it_inode s !!! i) -> fs_tx ∅ s' -> calm d ∅ s s' -> written i src tot off s tot s'.
Proof.
  intros Hm Ok T' C. pose proof C as (M & _ & _ & B & _). pose proof M as (Hit & _).
  assert (forall x, free s' x = free s x) as Hf by (intros x; unfold FsBitmap.free; by rewrite B).
  split; rewrite ?Hit; try done.
  - intros x Hx. rewrite Hf. auto.
  - by apply same_mem_upd.
  - by eapply inode_ok_calm.
  - intros k Hk. rewrite decide_False by lia. by apply fbyte_calm.
  - intros bn Hb. by rewrite (fblock_calm d s s').
  - intros k Hk. lia.
  - intros x Hx. by rewrite Hf.
  - intros x _ [Hx|(bn & Hbn & Hx)]; left; [by left|right]. exists bn. by rewrite (fblock_calm d s s') in Hx.
Qed.

Lemma slice_bytes (off n : nat) (l : list Z) : Forall is_byte l -> Forall is_byte (slice off n l).
Proof. intros. by apply Forall_take, Forall_drop. Qed.

Lemma splice_nothing (o : nat) (l : list Z) : (o <= length l)%nat -> splice o [] l = l.
Proof.
  intros Ho. apply list_eq. intros j. rewrite splice_lookup by (cbn; lia). by rewrite decide_False by (cbn; lia).
Qed.

Section source.
Context {K : Type} (L : lens K fs) `{!LensLaws L} (inp : Z -> Z -> M K (bool * list Z)) (inv : K -> Prop).
Context (src : list Z) (Hby : Forall is_byte src) `{!Source L inp inv src}.
Implicit Types (k : K).

(** One turn of [writei]'s loop after [bmap]: copy into the block and log it;
    or, when the copy fails, let it go. *)
Lemma wp_put_bytes {A} k a (o : nat) tot m c (rest stop : M K A) (Q : A -> K -> Prop) :
  let s := lget L k in
  fs_tx ∅ s -> room (S c) s -> home st a -> inv k -> 0 <= tot -> 0 <= m -> tot + m <= Z.of_nat (length src) -> (o <= bsize)%nat ->
  (forall k', inv k' -> fs_tx ∅ (lget L k') -> room c (lget L k') ->
     patched a o (slice (Z.to_nat tot) (Z.to_nat m) src) s (lget L k') -> wp rest Q k') ->
  (forall k', inv k' -> fs_tx ∅ (lget L k') -> calm d ∅ s (lget L k') -> copyin_failed inp -> wp stop Q k') ->
  wp (bp <- zoom L (fbread d a) ;;
      r <- inp tot m ;;
      data <- zoom L (fbdata bp) ;;
      zoom L (fset_bdata bp (splice o (snd r) data)) ;;
      if negb (fst r) then zoom L (fbrelse bp) ;; stop else
      zoom L (flog_write bp) ;; zoom L (fbrelse bp) ;; rest) Q k.
Proof.
  intros s T R Hh Hi Ht Hm Hsrc Ho HQ HF. wp_step. apply wp_zoom. fold s.
  wp_use (wp_fbread d sb ∅ s a); [done|set_solver|rewrite size_empty; lia|by eapply room_weaken; [|done]; lia|].
  rewrite union_empty_r_L. intros bp s1 (T1 & S1 & C1). wp_step.
  destruct (source_copy tot m (lset L s1 k) (source_set s1 k Hi) Ht Hm Hsrc) as (ok & k1 & E & Hi1 & Hg). rewrite lens_get_set in Hg.
  unfold wp at 1. rewrite E. wp_step. apply wp_zoom. rewrite Hg. eapply wp_fbdata; [done..|]. rewrite <- Hg, lens_set_get. cbn [fst snd].
  rewrite Hg, (proj1 (proj2 (proj2 (proj2 C1)))). pose proof (cur_good d sb ∅ s a T) as [Hl Hg']. destruct ok; cbn [negb].
  - apply wp_zoom3; [done|]. rewrite Hg.
    eapply (wp_store_release_end d sb); [done|done|set_solver|done|by eapply calm_room| |].
    { split; [by rewrite splice_length|apply splice_Forall; [by apply slice_bytes|done]]. }
    rewrite difference_diag_L. intros s2 T2 St R2. apply HQ; rewrite ?lens_get_set; [by apply source_set|done|done|].
    pose proof (calm_stored d _ _ _ _ _ _ C1 St) as (M & _ & _ & B & _). by split.
  - rewrite splice_nothing by (rewrite Hl; lia). wp_step. apply wp_zoom. rewrite Hg.
    wp_use (wp_fset_bdata d sb {[a]} s1 bp a (cur s a)); [done|done|set_solver|done|done|].
    intros [] s2 (T2 & M2 & K2 & X2 & B2 & D2).
    assert (calm d {[a]} s1 s2) as C2.
    { split_and!; try done. intros y. rewrite B2. case_decide; [subst y|done]. symmetry. apply C1. }
    wp_step. apply wp_zoom. rewrite lens_get_set.
    eapply (wp_eq _ (fbrelse bp ;; ret tt) _ _ s2). { unfold bind. by destruct (fbrelse bp s2) as [[]| | |]. }
    eapply (wp_read_release d sb ∅ s2 bp a s); [by rewrite union_empty_r_L|set_solver|by apply K2; [set_solver|]| |done|].
    { etransitivity; [exact C1|]. eapply calm_weaken; [|exact C2]. set_solver. }
    intros s3 T3 C3. apply wp_ret. rewrite lens_set_set. apply HF; rewrite ?lens_get_set; [by apply source_set|done|done|].
    by exists tot, m, [], (lset L s1 k), k1.
Qed.

Lemma wp_writei_loop fuel i n tot off c k :
  let s := lget L k in
  fs_tx ∅ s -> meta_used s -> inode_ok s (it_inode s !!! i) -> (i < length (it_inode s))%nat -> inv k ->
  0 <= tot <= n -> 0 <= off -> off + (n - tot) <= MAXFILE * BSIZE -> n < 2 ^ 31 ->
  n <= Z.of_nat (length src) ->
  turns off (n - tot) < Z.of_nat fuel -> room (wcost off (n - tot) + c) s ->
  wp (writei_loop L inp fuel i n tot off) (fun r k' =>
    written i src tot off s (fst r) (lget L k') /\ snd r = off + (fst r - tot) /\ tot <= fst r <= n /\ inv k' /\
    room c (lget L k') /\ (fst r < n -> no_space d sb (lget L k') \/ copyin_failed inp)) k.
Proof.
  revert tot off k. induction fuel as [|fuel IH];
    intros tot off k s T Hm Ok Hi Hinv Ht Hoff Hmax Hn Hl Hf R; [pose proof (turns_nonneg off (n - tot)); lia|].
  cbn [writei_loop]. destruct (Z.ltb_spec tot n) as [Hlt|Hge].
  2:{ apply wp_ret. cbn [fst snd]. split_and!; [by apply written_refl|lia..|done|by eapply room_more|lia]. }
  pose proof (Z.mod_pos_bound off BSIZE ltac:(done)) as Hmod.
  pose proof (block_of_byte off ltac:(lia)) as Hbn.
  pose proof (turns_step off (n - tot) Hoff ltac:(lia)) as Hts. cbv zeta in Hts.
  set (m := Z.min (n - tot) (BSIZE - off mod BSIZE)) in *.
  pose proof (turns_nonneg (off + m) (n - tot - m)) as Htn.
  set (c' := (wcost (off + m) (n - tot - m) + c)%nat).
  assert (room (6 + c') s) as R6 by (eapply room_weaken; [|exact R]; unfold c', wcost; lia).
  wp_step. apply wp_zoom. wp_use (wp_bmap d sb i (off / BSIZE) (1 + c') s); [done..|].
  intros a s1 Bm. pose proof (written_bmap i _ _ src tot off s a s1 Bm Ok Hbn) as W1.
  destruct (Z.eqb_spec a 0) as [Ha|Ha].
  { apply wp_ret. cbn [fst snd]. rewrite lens_get_set. split_and!; [done|lia..|by apply source_set| |].
    - eapply room_weaken; [|by apply (bm_room _ _ _ _ _ _ _ _ Bm)]. unfold c'. lia.
    - intros _. left. by apply (bm_full _ _ _ _ _ _ _ _ Bm). }
  pose proof (w_ok _ _ _ _ _ _ _ W1) as Ok1. pose proof (bm_val _ _ _ _ _ _ _ _ Bm) as Hval.
  wp_step. apply wp_zoom. unfold geti. wp_step. rewrite lens_get_set, lens_set_set, (ok_dev _ _ _ _ Ok1). fold m.
  assert (forall s2, written i src tot off s1 tot s2 -> written i src tot off s tot s2) as Wc.
  { intros s2 W2. eapply (written_trans i src tot off s tot s1); try done; try lia. by rewrite Z.sub_diag, Z.add_0_r. }
  apply (wp_put_bytes (lset L s1 k) a (Z.to_nat (off mod BSIZE)) tot m c'); rewrite ?lens_get_set; try lia.
  { apply W1. } { by apply (bm_room _ _ _ _ _ _ _ _ Bm). }
  { apply (data_home d sb). rewrite <- Hval. apply (ok_use _ _ _ _ Ok1); [done|congruence]. }
  { by apply source_set. } { unfold bsize. unfold BSIZE in *. lia. }
  2:{ intros k' Hi' T' C' Hfail. apply wp_ret. cbn [fst snd]. split_and!; [|lia..|done| |by right].
      - apply Wc. by apply written_calm; [apply W1|apply W1|..].
      - eapply calm_room; [done|]. eapply room_weaken; [|by apply (bm_room _ _ _ _ _ _ _ _ Bm)]. unfold c'. lia. }
  intros k2 Hi2 T2 R2 P2. rewrite <- Hval in P2. set (bs := slice (Z.to_nat tot) (Z.to_nat m) src) in *.
  assert (length bs = Z.to_nat m) as Hbs by (apply slice_length; lia).
  assert (written i src tot off s1 (tot + m) (lget L k2)) as W2.
  { eapply (written_patch i bs); try done; [apply W1|apply W1|congruence|lia..]. }
  pose proof (written_trans i src tot off s tot s1 (tot + m) (lget L k2) ltac:(lia) ltac:(lia) ltac:(lia) ltac:(lia) W1) as W12.
  rewrite Z.sub_diag, Z.add_0_r in W12. specialize (W12 W2).
  change MAXFILE with 268 in Hmax. unfold BSIZE in Hmax. rewrite !u32_small by lia.
  wp_use (IH (tot + m) (off + m) k2); try apply W2; try done; try lia.
  - rewrite (mem_upd_length _ _ _ (w_mem _ _ _ _ _ _ _ W12)). done.
  - change MAXFILE with 268. unfold BSIZE. lia.
  - replace (n - (tot + m)) with (n - tot - m) by lia. lia.
  - replace (n - (tot + m)) with (n - tot - m) by lia. done.
  - intros [tot' off'] k' (W3 & Hoff' & Ht' & Hi' & R' & Hfull). cbn [fst snd] in *.
    split_and!; [|lia..|done|done|done].
    eapply (written_trans i src tot off s (tot + m) (lget L k2)); try done; try lia.
    + change MAXFILE with 268. unfold BSIZE. lia.
    + by replace (tot + m - tot) with m by lia.
Qed.
End source.
End write.
