(* ===== verification/FsCodec.v ===== *)
(** * On-disk inodes and directory entries: encoding and decoding are inverse *)

From S2P Require Import Prelude Param Str Fs FsSpec.

(** A field in the middle of a record. *)
Lemma slice_field {A} (pre mid post : list A) off n :
  length pre = off -> length mid = n -> slice off n (pre ++ mid ++ post) = mid.
Proof.
  intros <- <-. unfold slice. by rewrite drop_app_length, take_app_length.
Qed.

Lemma slice_head {A} (mid post : list A) n : length mid = n -> slice 0 n (mid ++ post) = mid.
Proof. apply (slice_field []). done. Qed.

Lemma slice_shift {A} (pre l : list A) off n :
  slice (length pre + off) n (pre ++ l) = slice off n l.
Proof. unfold slice. by rewrite <- drop_drop, drop_app_length. Qed.

Lemma enc_u32s_cons x l : enc_u32s (x :: l) = le_encode 4 x ++ enc_u32s l.
Proof. done. Qed.

Lemma enc_u32s_slice l k x :
  l !! k = Some x -> slice (4 * k) 4 (enc_u32s l) = le_encode 4 x.
Proof.
  revert k. induction l as [|y l IH]; intros k Hk; [by rewrite lookup_nil in Hk|].
  rewrite enc_u32s_cons. destruct k as [|k]; simpl in Hk.
  - injection Hk as ->. by apply slice_head.
  - replace (4 * S k)%nat with (length (le_encode 4 y) + 4 * k)%nat by (rewrite le_encode_length; lia).
    rewrite slice_shift. by apply IH.
Qed.

Lemma enc_u32s_length l : length (enc_u32s l) = (4 * length l)%nat.
Proof.
  induction l as [|x l IH]; [done|]. rewrite enc_u32s_cons.
  rewrite length_app, le_encode_length, IH. simpl. lia.
Qed.

Lemma enc_u32s_bytes l : Forall is_byte (enc_u32s l).
Proof.
  induction l as [|x l IH]; [constructor|]. rewrite enc_u32s_cons.
  apply Forall_app. split; [apply le_encode_bytes|done].
Qed.

Definition is_s16 (v : Z) : Prop := - 2 ^ 15 <= v < 2 ^ 15.
Definition is_u32 (v : Z) : Prop := 0 <= v < 2 ^ 32.

(** Field values a [struct dinode] can hold. *)
Definition valid_dinode (di : dinode) : Prop :=
  is_s16 (d_type di) /\ is_s16 (d_major di) /\ is_s16 (d_minor di) /\ is_s16 (d_nlink di) /\
  is_u32 (d_size di) /\ length (d_addrs di) = NADDRS /\ Forall is_u32 (d_addrs di).

Lemma s16_decode v : is_s16 v -> s16 (le_decode (le_encode 2 v)) = v.
Proof.
  unfold is_s16. intros Hv. rewrite le_decode_encode. change (8 * Z.of_nat 2) with 16.
  unfold s16, swrap. change (16 - 1) with 15. rewrite Z.add_mod_idemp_l by lia.
  rewrite Z.mod_small; lia.
Qed.

Lemma u32_decode v : is_u32 v -> le_decode (le_encode 4 v) = v.
Proof. unfold is_u32. intros Hv. rewrite le_decode_encode. by apply Z.mod_small. Qed.

Lemma enc_dinode_length di : length (d_addrs di) = NADDRS -> length (enc_dinode di) = dinode_size.
Proof.
  intros Hl. unfold enc_dinode. rewrite !length_app, !le_encode_length, enc_u32s_length, Hl. done.
Qed.

Lemma enc_dinode_bytes di : Forall is_byte (enc_dinode di).
Proof.
  unfold enc_dinode. rewrite !Forall_app. split_and!; try apply le_encode_bytes. apply enc_u32s_bytes.
Qed.

Lemma dec_enc_dinode di : valid_dinode di -> dec_dinode (enc_dinode di) = di.
Proof.
  intros (Ht & Hma & Hmi & Hnl & Hs & Hl & Ha). destruct di as [t ma mi nl sz al]. simpl in *.
  unfold dec_dinode, enc_dinode, get_s16, get_u32. simpl d_type; simpl d_major; simpl d_minor.
  simpl d_nlink; simpl d_size; simpl d_addrs.
  set (A := le_encode 2 t). set (B := le_encode 2 ma). set (C := le_encode 2 mi).
  set (D := le_encode 2 nl). set (E := le_encode 4 sz).
  assert (length A = 2 /\ length B = 2 /\ length C = 2 /\ length D = 2 /\ length E = 4)%nat
    as (LA & LB & LC & LD & LE) by (unfold A, B, C, D, E; by rewrite !le_encode_length).
  f_equal.
  - rewrite (slice_head A) by done. by apply s16_decode.
  - rewrite (slice_field A B) by done. by apply s16_decode.
  - rewrite (app_assoc A B), (slice_field (A ++ B) C) by (rewrite ?length_app; lia). by apply s16_decode.
  - rewrite (app_assoc B C), (app_assoc A), (slice_field (A ++ B ++ C) D) by (rewrite ?length_app; lia).
    by apply s16_decode.
  - rewrite (app_assoc C D), (app_assoc B), (app_assoc A), (slice_field (A ++ B ++ C ++ D) E)
      by (rewrite ?length_app; lia). by apply u32_decode.
  - apply list_eq. intros k. rewrite list_lookup_fmap. destruct (decide (k < NADDRS)%nat) as [Hk|Hk].
    + rewrite lookup_seq_lt by done. cbn [fmap option_fmap option_map].
      destruct (lookup_lt_is_Some_2 al k ltac:(lia)) as [x Hx]. rewrite Hx. f_equal. rewrite Nat.add_0_l. rewrite (app_assoc D E), (app_assoc C), (app_assoc B), (app_assoc A).
      replace 12%nat with (length (A ++ B ++ C ++ D ++ E)) by (rewrite !length_app; lia).
      rewrite slice_shift, (enc_u32s_slice _ _ x) by done. apply u32_decode.
      by apply (Forall_lookup_1 _ _ _ _ Ha Hx).
    + rewrite lookup_seq_ge by lia. simpl. symmetry. apply lookup_ge_None_2. lia.
Qed.

(** ** Entries of an inode block *)

Lemma dinode_slot inum : (dinode_size * Z.to_nat (inum mod IPB) + dinode_size <= bsize)%nat.
Proof.
  pose proof (Z.mod_pos_bound inum IPB ltac:(done)). unfold dinode_size, bsize. change IPB with 16 in *.
  change BSIZE with 1024. lia.
Qed.

Lemma get_put_dinode inum di data :
  valid_dinode di -> length data = bsize -> get_dinode inum (put_dinode inum di data) = di.
Proof.
  intros Hv Hl. pose proof (dinode_slot inum). pose proof Hv as (_ & _ & _ & _ & _ & La & _).
  unfold get_dinode, put_dinode. rewrite <- (enc_dinode_length di La) at 2.
  rewrite slice_splice_eq by (rewrite Hl, enc_dinode_length; done). by apply dec_enc_dinode.
Qed.

Lemma get_put_dinode_ne inum inum' di data :
  length (d_addrs di) = NADDRS -> inum mod IPB <> inum' mod IPB ->
  get_dinode inum (put_dinode inum' di data) = get_dinode inum data.
Proof.
  intros La Hne. unfold get_dinode, put_dinode. rewrite slice_splice_ne; [done|].
  rewrite enc_dinode_length by done.
  pose proof (Z.mod_pos_bound inum IPB ltac:(done)). pose proof (Z.mod_pos_bound inum' IPB ltac:(done)).
  unfold dinode_size. lia.
Qed.

Lemma put_dinode_good inum di data : good data -> good (put_dinode inum di data).
Proof.
  intros [Hl Hb]. split; [unfold put_dinode; by rewrite splice_length|].
  apply splice_Forall; [apply enc_dinode_bytes|done].
Qed.

(** The on-disk inode format.  An inode written into its slot of an inode
    block by [iupdate] or [ialloc] is read back unchanged by [ilock], and the
    other fifteen inodes of the block are not disturbed. *)
Theorem dinode_roundtrip inum inum' di data :
  valid_dinode di -> length data = bsize ->
  get_dinode inum (put_dinode inum di data) = di /\
  length (put_dinode inum di data) = bsize /\
  (inum' mod IPB <> inum mod IPB ->
   get_dinode inum' (put_dinode inum di data) = get_dinode inum' data).
Proof.
  intros Hv Hl. split_and!; [by apply get_put_dinode|unfold put_dinode; by rewrite splice_length|].
  intros Hne. apply get_put_dinode_ne; [apply Hv|done].
Qed.

Lemma dinode_roundtrip_witness :
  get_dinode 5 (put_dinode 5 (mkDinode 2 0 0 1 77 (replicate NADDRS 9)) (replicate bsize 0)) =
  mkDinode 2 0 0 1 77 (replicate NADDRS 9).
Proof.
  apply (dinode_roundtrip 5 6 (mkDinode 2 0 0 1 77 (replicate NADDRS 9)) (replicate bsize 0)).
  - split_and!; simpl; try (unfold is_s16, is_u32; lia); [done|].
    repeat constructor; unfold is_u32; lia.
  - apply length_replicate.
Defined.
