(* ===== verification/FsWritei.v ===== *)
(** * [iupdate] and [writei] as operations on the contents of a file *)

From S2P Require Import Prelude Param Spinlock Sleeplock Str Bio BioSpec BioOps Log LogDisk LogOps LogTx Fs FsSpec FsBitmap FsFile FsRw FsWrite FsCodec.

(** [l] with the bytes [bs] written at [off], growing it if needed. *)
Definition write_at (off : nat) (bs l : list Z) : list Z :=
  take off l ++ bs ++ drop (off + length bs) l.

Lemma write_at_lookup off bs l j :
  (off <= length l)%nat ->
  write_at off bs l !! j =
  if decide (off <= j < off + length bs)%nat then bs !! (j - off)%nat else l !! j.
Proof.
  intros Hoff. unfold write_at. case_decide.
  - rewrite lookup_app_r by (rewrite length_take; lia). rewrite length_take, Nat.min_l by lia.
    by rewrite lookup_app_l by lia.
  - destruct (decide (j < off)%nat).
    + rewrite lookup_app_l by (rewrite length_take; lia). by rewrite lookup_take_lt.
    + rewrite lookup_app_r by (rewrite length_take; lia). rewrite length_take, Nat.min_l by lia.
      rewrite lookup_app_r by lia. rewrite lookup_drop. f_equal. lia.
Qed.

Section writei.
Context (d : Z) (sb : superblock) {G : FsGeom d sb}.
Implicit Types (s : fs) (x b bn off n : Z) (ip : inode) (i : nat).
#[local] Abbreviation st := (sb_logstart sb).
#[local] Abbreviation cur := (cur d).
#[local] Abbreviation fs_tx := (fs_tx d sb).
#[local] Abbreviation free := (free d sb).
#[local] Abbreviation meta_used := (meta_used d sb).
#[local] Abbreviation fblock := (fblock d).
#[local] Abbreviation fbyte := (fbyte d).
#[local] Abbreviation inode_ok := (inode_ok d sb).
#[local] Abbreviation in_use := (in_use d sb).
#[local] Abbreviation content := (content d).

(** An inode number of this file system. *)
Definition good_inum (inum : Z) : Prop := 0 < inum < sb_ninodes sb.

Lemma IBLOCK_range inum :
  good_inum inum -> sb_inodestart sb <= IBLOCK inum sb < sb_bmapstart sb.
Proof.
  intros Hi. pose proof (geom_facts d sb) as Hg. destruct G as [_ _ _ Hb _ _].
  assert (0 <= inum / IPB <= sb_ninodes sb / IPB) as Hd.
  { unfold good_inum in Hi. split; [apply Z.div_pos; [lia|done]|apply Z.div_le_mono; [done|lia]]. }
  unfold IBLOCK. rewrite u32_small by (unfold datastart in *; lia). lia.
Qed.

Lemma IBLOCK_home inum : good_inum inum -> home st (IBLOCK inum sb).
Proof.
  intros Hi. pose proof (IBLOCK_range inum Hi). pose proof (geom_facts d sb).
  apply (high_home d sb). unfold datastart in *. lia.
Qed.

(** The inode on disk. *)
Definition disk_inode (s : fs) (inum : Z) : dinode := get_dinode inum (cur s (IBLOCK inum sb)).

Lemma wp_iupdate i s c :
  fs_tx ∅ s -> i_dev (it_inode s !!! i) = d -> good_inum (i_inum (it_inode s !!! i)) -> room (S c) s ->
  let ip := it_inode s !!! i in
  wp (iupdate i) (fun _ s' => fs_tx ∅ s' /\ room c s' /\
    stored d ∅ (IBLOCK (i_inum ip) sb)
      (put_dinode (i_inum ip) (to_dinode ip) (cur s (IBLOCK (i_inum ip) sb))) s s') s.
Proof.
  intros T Hd Hi R ip. unfold iupdate. wp_step. wp_step. cbv beta. rewrite (ft_sb _ _ _ _ T).
  wp_step. unfold geti. wp_step. fold ip. fold ip in Hd, Hi. rewrite Hd. wp_step.
  wp_use (wp_fbread d sb ∅ s); [done|set_solver|rewrite size_empty; lia|by eapply room_weaken; [|done]; lia|].
  rewrite union_empty_r_L. intros bp s1 (T1 & S1 & C1). wp_step. eapply wp_fbdata; [done..|].
  rewrite (proj1 (proj2 (proj2 (proj2 C1)))).
  eapply (wp_store_release_end d sb); [done|done|set_solver|by apply IBLOCK_home|by eapply calm_room| |].
  { by eapply put_dinode_good, cur_good. }
  rewrite difference_diag_L. intros s' T' St R'. split_and!; [done..|]. by eapply calm_stored.
Qed.

(** Storing an inode block leaves every file's contents alone. *)
Lemma low_stored_cur x v s s' y :
  x < sb_bmapstart sb -> stored d ∅ x v s s' -> sb_bmapstart sb <= y -> cur s' y = cur s y.
Proof. intros Hx (_ & _ & _ & B & _) Hy. rewrite B, decide_False; [done|lia]. Qed.

Lemma low_stored_free x v s s' b :
  x < sb_bmapstart sb -> stored d ∅ x v s s' -> 0 <= b < sb_size sb -> free s' b = free s b.
Proof.
  intros Hx St Hb. unfold FsBitmap.free. rewrite (low_stored_cur x v s s'); [done..|].
  pose proof (BBLOCK_range d sb b Hb). lia.
Qed.

Lemma low_stored_preserves x v s s' :
  x < sb_bmapstart sb -> stored d ∅ x v s s' ->
  (forall y, in_use s y -> cur s' y = cur s y) /\
  (forall ip bn, inode_ok s ip -> fblock s' ip bn = fblock s ip bn) /\
  (forall ip, inode_ok s ip -> inode_ok s' ip) /\
  (forall ip k, inode_ok s ip -> 0 <= k < MAXFILE * BSIZE -> fbyte s' ip k = fbyte s ip k).
Proof.
  intros Hx St. pose proof (geom_facts d sb) as Hg.
  assert (forall y, in_use s y -> cur s' y = cur s y) as H1.
  { intros y [Hy _]. eapply low_stored_cur; [done..|]. unfold datastart in *. lia. }
  assert (forall ip bn, inode_ok s ip -> fblock s' ip bn = fblock s ip bn) as H2.
  { intros ip bn Ok. unfold FsFile.fblock. destruct (bn <? NDIRECT); [done|].
    destruct (Z.eqb_spec (ind ip) 0); [done|]. rewrite H1; [done|by apply Ok]. }
  split_and!; [done..| |].
  - intros ip Ok. assert (forall y, in_use s y -> in_use s' y) as Hu.
    { intros y [Hy Hf]. split; [done|]. rewrite (low_stored_free x v s s'); try done.
      unfold datastart in *. lia. }
    pose proof (H2 ip) as H2'. pose proof Ok as [O1 O2 O3 O4 O5 O6].
    split; try done; intros; rewrite ?H2' in * by done; eauto.
  - intros ip k Ok Hk. unfold FsFile.fbyte. rewrite H2 by done.
    destruct (Z.eqb_spec (fblock s ip (k / BSIZE)) 0); [done|]. rewrite H1; [done|].
    apply Ok; [by apply block_of_byte|done].
Qed.

(** ** A consistent, referenced and locked file *)

Record file_inv (s : fs) (i : nat) : Prop := {
  fi_tx : fs_tx ∅ s;
  fi_meta : meta_used s;
  fi_ok : inode_ok s (it_inode s !!! i);
  fi_idx : (i < length (it_inode s))%nat;
  fi_size : 0 <= i_size (it_inode s !!! i) <= MAXFILE * BSIZE;
  fi_full : no_holes d s (it_inode s !!! i);
  fi_inum : good_inum (i_inum (it_inode s !!! i));
  fi_valid : valid_dinode (to_dinode (it_inode s !!! i))
}.

(** The whole contents of a file. *)
Definition file_content (s : fs) (i : nat) : list Z :=
  content s (it_inode s !!! i) 0 (i_size (it_inode s !!! i)).

(** Block addresses fit in 32 bits. *)
Lemma ok_addrs_u32 s ip : inode_ok s ip -> Forall is_u32 (i_addrs ip).
Proof.
  intros Ok. apply Forall_lookup. intros j a Ha. pose proof (geom_facts d sb).
  pose proof (lookup_lt_Some _ _ _ Ha) as Hj. rewrite (ok_len _ _ _ _ Ok) in Hj.
  destruct (decide (a = 0)) as [->|Hnz]; [unfold is_u32; lia|].
  assert (in_use s a) as [Hr _]; [|unfold is_u32, datastart in *; lia].
  unfold NADDRS, NDIRECT in Hj. destruct (decide (j = 12%nat)) as [->|Hne].
  - assert (ind ip = a) as Hind.
    { unfold ind. apply list_lookup_total_correct. done. }
    rewrite <- Hind. apply Ok. congruence.
  - assert (fblock s ip (Z.of_nat j) = a) as Hb.
    { unfold FsFile.fblock, NDIRECT. rewrite (proj2 (Z.ltb_lt _ _)) by lia.
      apply list_lookup_total_correct. by rewrite Nat2Z.id. }
    rewrite <- Hb. apply Ok; [change MAXFILE with 268; lia|congruence].
Qed.

(** ** [writei] *)

(** Setting the length of an inode does not move its blocks. *)
Lemma isize_ok s i v :
  (i < length (it_inode s))%nat ->
  let s' := set_itable (alter (set_isize v) i (it_inode s)) s in
  it_inode s' !!! i = set_isize v (it_inode s !!! i) /\
  (inode_ok s (it_inode s !!! i) -> inode_ok s' (it_inode s' !!! i)) /\
  (forall k, fbyte s' (it_inode s' !!! i) k = fbyte s (it_inode s !!! i) k) /\
  (forall bn, fblock s' (it_inode s' !!! i) bn = fblock s (it_inode s !!! i) bn).
Proof.
  intros Hi s'. assert (it_inode s' !!! i = set_isize v (it_inode s !!! i)) as E by (by apply geti_updi).
  rewrite !E. split_and!; [done| |done|done]. by intros [O1 O2 O3 O4 O5 O6].
Qed.

(** [s'] is [s] after the loop of [writei] has stored [r] bytes and the length
    has been adjusted; what is left is [iupdate]. *)
Record sized (i : nat) (src : list Z) (off : Z) (s : fs) (r : Z) (s' : fs) : Prop := {
  z_tx : fs_tx ∅ s';
  z_meta : meta_used s';
  z_idx : length (it_inode s') = length (it_inode s);
  z_inode : exists al, it_inode s' !!! i =
    set_isize (Z.max (i_size (it_inode s !!! i)) (off + r)) (set_iaddrs al (it_inode s !!! i));
  z_ok : inode_ok s' (it_inode s' !!! i);
  z_full : no_holes d s' (it_inode s' !!! i);
  z_bytes : forall k, 0 <= k < MAXFILE * BSIZE ->
    fbyte s' (it_inode s' !!! i) k =
    if decide (off <= k < off + r) then rd src (Z.to_nat (k - off)) else fbyte s (it_inode s !!! i) k;
  z_others : forall x, in_use s x -> ~ owns d s (it_inode s !!! i) x -> cur s' x = cur s x;
  z_low : forall x, x < sb_bmapstart sb -> cur s' x = cur s x;
  z_mono : forall x, 0 <= x < sb_size sb -> free s x = false -> free s' x = false
}.

Lemma written_inode i src tot off s r s' :
  (i < length (it_inode s))%nat -> written d sb i src tot off s r s' ->
  exists al, it_inode s' !!! i = set_iaddrs al (it_inode s !!! i).
Proof.
  intros Hi W. destruct (w_mem _ _ _ _ _ _ _ _ _ W) as ([al E] & _). exists al.
  by rewrite E, list_lookup_total_alter, decide_True.
Qed.

Lemma written_full i src off s r s' size' :
  file_inv s i -> written d sb i src 0 off s r s' -> 0 <= off <= i_size (it_inode s !!! i) -> 0 <= r ->
  off + r <= MAXFILE * BSIZE -> size' = Z.max (i_size (it_inode s !!! i)) (off + r) ->
  forall bn, 0 <= bn -> bn * BSIZE < size' -> fblock s' (it_inode s' !!! i) bn <> 0.
Proof.
  intros F W Ho Hr Hm -> bn Hbn Hs. pose proof (fi_size _ _ F) as Hsz.
  destruct (decide (bn * BSIZE < i_size (it_inode s !!! i))) as [Hin|Hout].
  - apply (w_kept _ _ _ _ _ _ _ _ _ W); [|by apply F]. change MAXFILE with 268 in *. unfold BSIZE in *. lia.
  - pose proof (w_there _ _ _ _ _ _ _ _ _ W (bn * BSIZE)) as Ht.
    rewrite Z.div_mul in Ht by done. apply Ht. lia.
Qed.

Lemma written_sized {K} (L : lens K fs) `{!LensLaws L} i src off s r k1 :
  file_inv s i -> written d sb i src 0 off s r (lget L k1) -> 0 <= off <= i_size (it_inode s !!! i) -> 0 <= r ->
  off + r <= MAXFILE * BSIZE ->
  wp (ip <- zoom L (geti i) ;;
      (when (i_size ip <? off + r) do zoom L (updi i (set_isize (off + r)))))
    (fun _ k2 => exists s2, k2 = lset L s2 k1 /\ sized i src off s r s2 /\ fs_log s2 = fs_log (lget L k1)) k1.
Proof.
  intros F W Ho Hr Hm. set (s1 := lget L k1) in *. pose proof W as [W1 W2 W3 W4 W5 W6 W7 W8 W9 W10 W11].
  pose proof (mem_upd_length _ _ _ W3) as Hlen. pose proof (fi_idx _ _ F) as Hi.
  pose proof (mem_upd_size _ _ _ W3) as Hsz.
  destruct (written_inode _ _ _ _ _ _ _ Hi W) as [al Eal].
  pose proof (written_full _ _ _ _ _ _ _ F W Ho Hr Hm eq_refl) as Hfull.
  wp_step. apply wp_zoom. unfold geti. wp_step. rewrite lens_set_get. fold s1. rewrite Hsz.
  destruct (Z.ltb_spec (i_size (it_inode s !!! i)) (off + r)) as [Hlt|Hge].
  - apply wp_zoom. fold s1. unfold updi. wp_step. eexists. split; [done|]. split; [|done].
    destruct (isize_ok s1 i (off + r) ltac:(lia)) as (E1 & E2 & E3 & E4). cbv zeta in *.
    split; try done; try (by auto).
    + by apply fs_tx_itable.
    + simpl. by rewrite length_alter.
    + exists al. rewrite E1, Eal. f_equal. lia.
    + intros bn Hbn Hs. rewrite E4. apply Hfull; [done|]. rewrite E1 in Hs. simpl in Hs. lia.
    + intros k Hk. rewrite E3, W5 by done. rewrite Z.sub_0_r. done.
  - wp_step. exists s1. split; [symmetry; apply lens_set_get|]. split; [|done]. split; try done.
    + exists al. rewrite Eal, Z.max_l by done. by destruct (it_inode s !!! i).
    + intros bn Hbn Hs. apply Hfull; [done|]. lia.
    + intros k Hk. rewrite W5 by done. rewrite Z.sub_0_r. done.
Qed.

Lemma content_write_at s s' ip ip' src off r :
  0 <= off <= i_size ip -> 0 <= r <= Z.of_nat (length src) -> off + r <= MAXFILE * BSIZE ->
  0 <= i_size ip <= MAXFILE * BSIZE -> i_size ip' = Z.max (i_size ip) (off + r) ->
  (forall k, 0 <= k < MAXFILE * BSIZE ->
    fbyte s' ip' k = if decide (off <= k < off + r) then rd src (Z.to_nat (k - off)) else fbyte s ip k) ->
  content s' ip' 0 (i_size ip') =
  write_at (Z.to_nat off) (take (Z.to_nat r) src) (content s ip 0 (i_size ip)).
Proof.
  intros Ho Hr Hm Hs Hs' Hb. set (old := content s ip 0 (i_size ip)).
  assert (length old = Z.to_nat (i_size ip)) as Lo by (unfold old, FsRw.content; by rewrite length_fmap, length_seqZ).
  assert (length (take (Z.to_nat r) src) = Z.to_nat r) as Lt by (rewrite length_take; lia).
  apply list_eq. intros j. rewrite write_at_lookup, Lt by lia.
  destruct (decide (j < Z.to_nat (i_size ip'))%nat) as [Hj|Hj].
  2:{ rewrite lookup_ge_None_2 by (unfold FsRw.content; rewrite length_fmap, length_seqZ; lia).
      rewrite decide_False by lia. rewrite lookup_ge_None_2; [done|lia]. }
  rewrite content_lookup, Hb by (done || lia). rewrite Z.add_0_l.
  destruct (decide (off <= Z.of_nat j < off + r)).
  - rewrite decide_True by lia. rewrite lookup_take_lt by lia. unfold rd.
    replace (Z.to_nat (Z.of_nat j - off)) with (j - Z.to_nat off)%nat by lia.
    destruct (lookup_lt_is_Some_2 src (j - Z.to_nat off)) as [v Hv]; [lia|]. by rewrite Hv.
  - rewrite decide_False by lia. unfold old. by rewrite content_lookup by lia.
Qed.

(** What a finished [writei] of [r] bytes leaves. *)
Record write_done (i : nat) (src : list Z) (off : Z) (s : fs) (r : Z) (s' : fs) : Prop := {
  wd_inv : file_inv s' i;
  wd_content : file_content s' i =
    write_at (Z.to_nat off) (take (Z.to_nat r) src) (file_content s i);
  wd_disk : disk_inode s' (i_inum (it_inode s !!! i)) = to_dinode (it_inode s' !!! i);
  wd_others : forall x, in_use s x -> ~ owns d s (it_inode s !!! i) x -> cur s' x = cur s x;
  wd_inodes : forall inum, good_inum inum -> inum <> i_inum (it_inode s !!! i) ->
    disk_inode s' inum = disk_inode s inum;
  wd_mono : forall x, 0 <= x < sb_size sb -> free s x = false -> free s' x = false
}.

Lemma stored_inodes s s' inum di inum' :
  good_inum inum -> good_inum inum' -> inum' <> inum -> length (d_addrs di) = NADDRS ->
  stored d ∅ (IBLOCK inum sb) (put_dinode inum di (cur s (IBLOCK inum sb))) s s' ->
  disk_inode s' inum' = disk_inode s inum'.
Proof.
  intros Hi Hi' Hne Hl (_ & _ & _ & B & _). unfold disk_inode. rewrite B. case_decide as He; [|done].
  pose proof (geom_facts d sb) as Hg. destruct G as [_ _ _ Hbm _ _].
  unfold good_inum, IBLOCK in *.
  assert (0 <= inum / IPB <= sb_ninodes sb / IPB) by
    (split; [apply Z.div_pos; [lia|done]|apply Z.div_le_mono; [done|lia]]).
  assert (0 <= inum' / IPB <= sb_ninodes sb / IPB) by
    (split; [apply Z.div_pos; [lia|done]|apply Z.div_le_mono; [done|lia]]).
  rewrite !u32_small in * by (unfold datastart in *; lia).
  assert (inum' / IPB = inum / IPB) as Hd by lia. rewrite He, get_put_dinode_ne; [by rewrite <- Hd|done|].
  intros Hm. apply Hne. rewrite (Z.div_mod inum' IPB), (Z.div_mod inum IPB) by done. congruence.
Qed.

Lemma sized_inv i src off s r s1 s2 :
  file_inv s i -> sized i src off s r s1 -> 0 <= off -> 0 <= r -> off + r <= MAXFILE * BSIZE ->
  let ip := it_inode s1 !!! i in
  stored d ∅ (IBLOCK (i_inum ip) sb) (put_dinode (i_inum ip) (to_dinode ip) (cur s1 (IBLOCK (i_inum ip) sb))) s1 s2 ->
  fs_tx ∅ s2 -> file_inv s2 i /\ it_inode s2 !!! i = ip /\ i_inum ip = i_inum (it_inode s !!! i).
Proof.
  intros F Z Ho Hr Hm ip St T2. destruct Z as [Z1 Z2 Z3 [al Z4] Z5 Z6 Z7 Z8 Z9 Z10].
  fold ip in Z4, Z5, Z6, Z7. destruct F as [F1 F2 F3 F4 F5 F6 F7 F8].
  assert (i_inum ip = i_inum (it_inode s !!! i)) as Hin by (by rewrite Z4).
  assert (it_inode s2 !!! i = ip) as Hip by (unfold ip; by rewrite (proj1 (proj1 St))).
  assert (IBLOCK (i_inum ip) sb < sb_bmapstart sb) as Hlow by (apply IBLOCK_range; by rewrite Hin).
  destruct (low_stored_preserves _ _ _ _ Hlow St) as (_ & P2 & P3 & _).
  assert (i_size ip = Z.max (i_size (it_inode s !!! i)) (off + r)) as Hsz by (by rewrite Z4).
  split_and!; [|done..]. split; rewrite ?Hip; try done.
  - intros b Hb. rewrite (low_stored_free _ _ _ _ _ Hlow St); [by apply Z2|].
    pose proof (geom_facts d sb). lia.
  - by apply P3.
  - rewrite (proj1 (proj1 St)), Z3. done.
  - lia.
  - intros bn H0 H1. rewrite P2 by done. by apply Z6.
  - by rewrite Hin.
  - pose proof (ok_addrs_u32 _ _ Z5). destruct F8 as (V1 & V2 & V3 & V4 & V5 & V6 & V7).
    change MAXFILE with 268 in *. unfold BSIZE in *.
    assert (is_u32 (i_size ip)) by (unfold is_u32; lia).
    split_and!; try (rewrite Z4; done); try done. apply Z5.
Qed.

Lemma sized_done i src off s r s1 s2 :
  file_inv s i -> sized i src off s r s1 -> 0 <= off <= i_size (it_inode s !!! i) ->
  0 <= r <= Z.of_nat (length src) -> off + r <= MAXFILE * BSIZE ->
  let ip := it_inode s1 !!! i in
  stored d ∅ (IBLOCK (i_inum ip) sb) (put_dinode (i_inum ip) (to_dinode ip) (cur s1 (IBLOCK (i_inum ip) sb))) s1 s2 ->
  fs_tx ∅ s2 -> write_done i src off s r s2.
Proof.
  intros F Z Ho Hr Hm ip St T2.
  destruct (sized_inv i src off s r s1 s2 F Z) as (F2 & Hip & Hin); [lia..|done|done|]. fold ip in Hip, Hin.
  assert (good_inum (i_inum ip)) as Hg by (rewrite Hin; apply F).
  assert (IBLOCK (i_inum ip) sb < sb_bmapstart sb) as Hlow by (by apply IBLOCK_range).
  destruct (low_stored_preserves _ _ _ _ Hlow St) as (P1 & _ & _ & P4).
  destruct Z as [Z1 Z2 Z3 [al Z4] Z5 Z6 Z7 Z8 Z9 Z10]. fold ip in Z4, Z5, Z6, Z7.
  assert (valid_dinode (to_dinode ip)) as Hv by (rewrite <- Hip; apply F2).
  assert (forall x, in_use s x -> in_use s1 x) as Hu.
  { intros x [Hx Hf]. split; [done|]. apply Z10; [|done]. pose proof (geom_facts d sb).
    unfold datastart in *. lia. }
  split; try done.
  - unfold file_content. rewrite Hip. apply content_write_at; [done|lia|done|apply F|by rewrite Z4|].
    intros k Hk. rewrite P4, Z7; done.
  - rewrite Hip, <- Hin. unfold disk_inode. destruct St as (_ & _ & _ & B & _).
    rewrite B, decide_True by done. apply get_put_dinode; [done|]. by eapply cur_good.
  - intros x Hx Ho'. rewrite P1 by auto. auto.
  - intros inum Hgi Hne. rewrite (stored_inodes s1 s2 (i_inum ip) (to_dinode ip)); try done.
    + unfold disk_inode. rewrite Z9; [done|]. pose proof (IBLOCK_range inum Hgi). lia.
    + by rewrite Hin.
    + apply Hv.
  - intros x Hx Hf. rewrite (low_stored_free _ _ _ _ _ Hlow St) by done. auto.
Qed.

(** What [writei] does when it is not refused. *)
Lemma wp_writei_go {K} (L : lens K fs) `{!LensLaws L} inp inv src `{!Source L inp inv src} i off n c k :
  let s := lget L k in
  file_inv s i -> inv k -> Forall is_byte src -> 0 <= off <= i_size (it_inode s !!! i) -> 0 <= n ->
  off + n <= MAXFILE * BSIZE -> n <= Z.of_nat (length src) -> room (wcost off n + S c) s ->
  wp (writei L inp i off n) (fun r k' => let s' := lget L k' in
    0 <= r <= n /\ write_done i src off s r s' /\ (r < n -> no_space d sb s' \/ copyin_failed inp) /\ room c s' /\ inv k') k.
Proof.
  intros s F Hinv Hby Ho Hn Hm Hl R. pose proof (fi_size _ _ F) as Hsz.
  change MAXFILE with 268 in *. unfold BSIZE in Hsz, Hm.
  unfold writei. wp_step. apply wp_zoom. unfold geti. wp_step. rewrite lens_set_get. fold s. rewrite u32_small by lia.
  rewrite (proj2 (Z.ltb_ge (i_size _) off)), (proj2 (Z.ltb_ge (off + n) off)) by lia. cbn [orb].
  rewrite (proj2 (Z.ltb_ge _ (off + n))) by (change MAXFILE with 268; unfold BSIZE; lia). wp_step.
  wp_use (wp_writei_loop d sb L inp inv src Hby (rw_fuel n) i n 0 off (S c) k); try apply F; try done; try lia.
  { change MAXFILE with 268. unfold BSIZE. lia. }
  { rewrite Z.sub_0_r. apply turns_fuel; lia. }
  { by rewrite Z.sub_0_r. }
  intros [r o] k1 (W & Ho' & Hr & I1 & R1 & Hns). cbn [fst snd] in *. rewrite Z.sub_0_r in Ho'. subst o. fold s in W.
  eapply (wp_eq _ ((ip <- zoom L (geti i) ;;
    (when (i_size ip <? off + r) do zoom L (updi i (set_isize (off + r))))) ;;
    zoom L (iupdate i) ;; ret r)); [unfold bind; by destruct (zoom L (geti i) k1)|].
  wp_step. wp_use (written_sized L i src off s r k1); [done|done|done|lia|change MAXFILE with 268; unfold BSIZE; lia|].
  intros [] k2 (s2 & -> & Z & E2). wp_step. apply wp_zoom. rewrite lens_get_set.
  pose proof Z as [Z1 Z2 Z3 [al Z4] Z5 Z6 Z7 Z8 Z9 Z10].
  wp_use (wp_iupdate i s2 c); [done|apply Z5| |unfold room in *; by rewrite E2|].
  { rewrite Z4. apply F. }
  intros _ s3 (T3 & R3 & St). wp_step. cbv zeta. rewrite lens_set_set, lens_get_set.
  assert (write_done i src off s r s3) as D.
  { eapply sized_done; [done|done|done|lia|change MAXFILE with 268; unfold BSIZE; lia|done|done]. }
  split_and!; [lia|lia|done| |done|by apply source_set].
  intros Hlt. destruct (Hns Hlt) as [Hsp|]; [left|by right]. intros b Hb. assert (FsBitmap.free d sb (lget L k1) b = false) as Hf by (by apply Hsp).
  rewrite (low_stored_free _ _ _ _ _ (proj2 (IBLOCK_range (i_inum (it_inode s2 !!! i)) ltac:(rewrite Z4; apply F))) St) by done.
  revert Hf. unfold FsBitmap.free, FsSpec.cur. by rewrite E2.
Qed.

(** An offset past the end, or an end past the largest file: refused. *)
Lemma wp_writei_refused {K} (L : lens K fs) `{!LensLaws L} inp i off n k :
  let s := lget L k in
  0 <= i_size (it_inode s !!! i) <= MAXFILE * BSIZE -> 0 <= off < 2 ^ 32 -> 0 <= n < 2 ^ 32 ->
  i_size (it_inode s !!! i) < off \/ MAXFILE * BSIZE < off + n ->
  wp (writei L inp i off n) (fun r k' => r = -1 /\ k' = k) k.
Proof.
  intros s Hsz Ho Hn Hbad. unfold writei. wp_step. apply wp_zoom. unfold geti. wp_step. rewrite lens_set_get. fold s.
  destruct (Z.ltb_spec (i_size (it_inode s !!! i)) off); [by apply wp_ret|]. destruct Hbad as [?|Hbad]; [lia|]. cbn [orb].
  destruct (Z.ltb_spec (u32 (off + n)) off) as [|Hov]; [by apply wp_ret|].
  change MAXFILE with 268 in *. unfold BSIZE in *.
  rewrite (proj2 (Z.ltb_lt (268 * 1024) _)); [by apply wp_ret|]. destruct (decide (off + n < 2 ^ 32)) as [|Hge]; [by rewrite u32_small by lia|].
  exfalso. unfold u32 in Hov. rewrite (Z.mod_eq _ (2 ^ 32)) in Hov by done.
  assert ((off + n) / 2 ^ 32 = 1) as Hd by (symmetry; apply (Z.div_unique _ _ _ (off + n - 2 ^ 32)); lia). lia.
Qed.

(** A local variable as the source: no copy fails. *)
Definition from_kernel (src : list Z) (o m : Z) : M fs (bool * list Z) :=
  ret (true, slice (Z.to_nat o) (Z.to_nat m) src).
#[export] Instance id_laws : LensLaws (@id_l fs).
Proof. by split. Qed.
#[export] Instance kernel_source src : Source id_l (from_kernel src) (fun _ => True) src.
Proof. split; [done|]. intros o m s _ _ _ _. by exists true, s. Qed.

Lemma wp_writei_kernel i src off n c s :
  file_inv s i -> 0 <= off <= i_size (it_inode s !!! i) -> 0 <= n < 2 ^ 31 ->
  off + n <= MAXFILE * BSIZE -> n <= Z.of_nat (length src) -> Forall is_byte src ->
  room (wcost off n + S c) s ->
  wp (writei_kernel i src off n) (fun r s' =>
    0 <= r <= n /\ write_done i src off s r s' /\ (r < n -> no_space d sb s') /\ room c s') s.
Proof.
  intros F Ho Hn Hm Hl Hby R.
  eapply wp_mono; [by apply (wp_writei_go id_l (from_kernel src) (fun _ => True) src i off n c s); try lia|].
  cbn. intros r s' (Hr & W & Hs & R' & _). split_and!; try done; try lia.
  intros Hlt. destruct (Hs Hlt) as [|(o & m & bs & k & k' & E)]; done.
Qed.
End writei.
