(* ===== verification/FsProps.v ===== *)
(** * What the file system layer guarantees

    The block allocator, reading and writing a file. *)

From S2P Require Import Prelude Param Spinlock Sleeplock Str Bio BioSpec BioOps Log LogDisk LogOps LogTx LogProps Fs FsSpec FsBitmap FsFile FsRw FsWrite FsCodec FsWritei.

(** ** A freshly made file system, booted, with a transaction open

    Blocks [0 .. 46] are taken by the metadata; inode 1 is an empty file, inode
    2 a file of two bytes in block 47. *)
Module FsDemo.
Import Demo.

Definition bitmap0 : block := replicate 6 255 ++ replicate (bsize - 6) 0.
Definition hi : block := [104; 105] ++ replicate (bsize - 2) 0.
Definition image : disk := [(46, bitmap0); (47, hi)].
Definition file0 : inode := mkInode 1 1 1 initsleeplock true T_FILE 0 0 1 0 (replicate NADDRS 0).
Definition file1 : inode := mkInode 1 2 1 initsleeplock true T_FILE 0 0 1 2 (47 :: replicate 12 0).
Definition fs0 (l : logst) : fs := mkFs l sb0 initlock [file0; file1].

#[export] Instance fsgeom0 : FsGeom 1 sb0.
Proof. split; [exact geom0|by vm_compute..|]. split; by vm_compute. Qed.

Lemma image_log : log_holds 2 image [].
Proof.
  split_and!; [|split; [by vm_compute|intros k x; by rewrite lookup_nil]|apply loggable_nil].
  constructor; [|constructor; [|constructor]]; (split; [done|]); cbn [snd]; unfold bitmap0, hi;
    (apply Forall_app; split); try (apply Forall_replicate; by unfold is_byte). by repeat constructor.
Qed.

(** Boot and begin an operation. *)
Lemma fs_booted :
  exists l, log_inv 1 2 ∅ l /\ lg_outstanding l = 1 /\ lh_list l = [] /\
            blk 1 (lg_bio l) 46 = bitmap0 /\ blk 1 (lg_bio l) 47 = hi.
Proof.
  destruct (wp_Ok _ _ _ (wp_log_reboot 1 2 env0 image [] sb0 eq_refl env0_ok image_log))
    as ([] & s1 & _ & L1 & Hl1 & Ho1 & _ & Hs & _).
  assert (lh_n s1 = 0) as Hn1.
  { pose proof (log_at_length _ _ _ _ (li_at _ _ _ _ L1)) as Hs1.
    pose proof (la_n _ _ _ _ (li_at _ _ _ _ L1)). rewrite Hl1 in Hs1. simpl in Hs1. lia. }
  destruct (wp_Ok _ _ _ (wp_begin_op 1 2 ∅ s1 L1 ltac:(rewrite Hn1, Ho1; done)))
    as ([] & s2 & _ & L2 & (Hl2 & Q & Hb) & Ho2).
  exists s2. split_and!; [done|lia|congruence| |].
  - transitivity (blk 1 (lg_bio s1) 46); [apply Q|]. rewrite Hs by (unfold home, in_log, LOGBLOCKS, MAXOPBLOCKS; lia). by vm_compute.
  - transitivity (blk 1 (lg_bio s1) 47); [apply Q|]. rewrite Hs by (unfold home, in_log, LOGBLOCKS, MAXOPBLOCKS; lia). by vm_compute.
Qed.
End FsDemo.
#[local] Existing Instance FsDemo.fsgeom0.

Lemma demo_bits b : 0 <= b < 2000 -> bit_free FsDemo.bitmap0 b = negb (b <? 48).
Proof.
  intros Hb. assert (forallb (fun b => eqb (bit_free FsDemo.bitmap0 b) (negb (b <? 48))) (seqZ 0 2000) = true)
    as Hall by by vm_compute.
  rewrite forallb_forall in Hall. apply eqb_prop, Hall, list_elem_of_In, elem_of_seqZ. lia.
Qed.

Lemma demo_valid : valid_dinode (to_dinode FsDemo.file0) /\ valid_dinode (to_dinode FsDemo.file1).
Proof.
  unfold valid_dinode, is_s16, is_u32. cbn [to_dinode FsDemo.file0 FsDemo.file1 d_type d_major d_minor d_nlink d_size d_addrs
    i_type i_major i_minor i_nlink i_size i_addrs]. unfold T_FILE. split; split_and!; try lia; try reflexivity.
  - apply Forall_replicate. lia.
  - constructor; [lia|]. apply Forall_replicate. lia.
Qed.

(** The booted file system: what is free, what the two files are. *)
Lemma demo_booted :
  exists s, fs_tx 1 Demo.sb0 ∅ s /\ room 26 s /\ it_inode s = [FsDemo.file0; FsDemo.file1] /\ cur 1 s 47 = FsDemo.hi /\
    (forall b, 0 <= b < 2000 -> free 1 Demo.sb0 s b = negb (b <? 48)) /\ meta_used 1 Demo.sb0 s.
Proof.
  destruct FsDemo.fs_booted as (l & L & Ho & Hl & Hb & Hb'). exists (FsDemo.fs0 l).
  assert (forall b, 0 <= b < 2000 -> free 1 Demo.sb0 (FsDemo.fs0 l) b = negb (b <? 48)) as Hfree.
  { intros b Hr. unfold free, cur. simpl. unfold BBLOCK, BPB, BSIZE. simpl sb_bmapstart.
    rewrite Z.div_small, Z.mod_small by lia. change (u32 (0 + 46)) with 46. rewrite Hb. by apply demo_bits. }
  split_and!; [|split; [simpl; rewrite Hl; simpl; lia|right; simpl; lia]|done|done|done|].
  - split; [done|done|rewrite size_empty; lia].
  - intros b Hd. change (datastart Demo.sb0) with 47 in Hd. rewrite Hfree by lia. by rewrite (proj2 (Z.ltb_lt b 48)) by lia.
Qed.

Lemma demo_state :
  exists s, file_inv 1 Demo.sb0 s 0 /\ room 26 s /\ file_content 1 s 0 = [] /\
    (forall b, 0 <= b < 2000 -> free 1 Demo.sb0 s b = negb (b <? 48)) /\
    it_inode s !!! 0%nat = FsDemo.file0.
Proof.
  destruct demo_booted as (s & T & R & Hit & _ & Hfree & Hm). exists s.
  assert (it_inode s !!! 0%nat = FsDemo.file0) as Hip by (by rewrite Hit).
  assert (forall bn, 0 <= bn < MAXFILE -> fblock 1 s FsDemo.file0 bn = 0) as Hnone.
  { intros bn Hbn. unfold fblock. change (ind FsDemo.file0) with 0. destruct (Z.ltb_spec bn NDIRECT); [|done].
    change (i_addrs FsDemo.file0) with (replicate NADDRS 0). apply list_lookup_total_correct, lookup_replicate_2. unfold NDIRECT in *. change NADDRS with 13%nat. lia. }
  split_and!; [|done|unfold file_content; by rewrite Hip|done|done]. split; rewrite ?Hip; try done.
  - split; try done; intros; rewrite ?Hnone in * by done; done.
  - rewrite Hit. cbn. lia.
  - intros bn H0 H1. simpl in H1. unfold BSIZE in H1. lia.
  - apply demo_valid.
Qed.

Lemma demo_file : exists s, file_inv 1 Demo.sb0 s 1 /\ room 26 s /\ file_content 1 s 1 = [104; 105] /\ i_size (it_inode s !!! 1%nat) = 2.
Proof.
  destruct demo_booted as (s & T & R & Hit & H47 & Hfree & Hm). exists s.
  assert (it_inode s !!! 1%nat = FsDemo.file1) as Hip by (by rewrite Hit).
  assert (forall bn, 0 <= bn < MAXFILE -> fblock 1 s FsDemo.file1 bn = if bn =? 0 then 47 else 0) as Hblk.
  { intros bn Hbn. unfold fblock. change (ind FsDemo.file1) with 0. destruct (Z.eqb_spec bn 0) as [->|]; [done|].
    destruct (Z.ltb_spec bn NDIRECT); [|done]. change (i_addrs FsDemo.file1) with (47 :: replicate 12 0). unfold NDIRECT in *.
    replace (Z.to_nat bn) with (S (Z.to_nat (bn - 1))) by lia. apply list_lookup_total_correct. cbn [lookup list_lookup].
    apply lookup_replicate_2. lia. }
  assert (forall k, 0 <= k < 2 -> fbyte 1 s FsDemo.file1 k = rd FsDemo.hi (Z.to_nat k)) as Hby.
  { intros k Hk. unfold fbyte. rewrite Z.div_small, Z.mod_small by (unfold BSIZE; lia). rewrite Hblk by (split; [done|by vm_compute]). cbn [Z.eqb]. by rewrite H47. }
  split_and!; [|done| |by rewrite Hip].
  - split; rewrite ?Hip; try done.
    + split; try done; intros bn; try intros bn'; intros; rewrite ?Hblk in * by done; repeat case_match; try done; try lia.
      split; [by vm_compute|]. by rewrite Hfree by lia.
    + rewrite Hit. cbn. lia.
    + intros bn H0 H1. simpl in H1. unfold BSIZE in H1. rewrite Hblk by (change MAXFILE with 268; lia). by rewrite (proj2 (Z.eqb_eq bn 0)) by lia.
    + apply demo_valid.
  - unfold file_content. rewrite Hip. change (i_size FsDemo.file1) with 2. unfold content. change (seqZ 0 2) with [0; 1]. cbn [fmap list_fmap].
    by rewrite !Hby by lia.
Qed.

Section claims.
Context (d : Z) (sb : superblock) {G : FsGeom d sb}.
#[local] Abbreviation free := (free d sb).


Lemma readable_file s i off :
  file_inv d sb s i -> 0 <= off <= i_size (it_inode s !!! i) -> readable d s (it_inode s !!! i) off 0.
Proof. intros F Ho. split_and!; [lia|lia|apply F|apply F]. Qed.

Lemma content_sub s ip off n :
  0 <= off -> 0 <= n -> off + n <= i_size ip ->
  content d s ip off n = take (Z.to_nat n) (drop (Z.to_nat off) (content d s ip 0 (i_size ip))).
Proof.
  intros Ho Hn Hs. apply list_eq. intros j. destruct (decide (j < Z.to_nat n)%nat).
  - rewrite lookup_take_lt, lookup_drop, !content_lookup by lia. do 2 f_equal. lia.
  - rewrite !lookup_ge_None_2; [done| |].
    + rewrite length_take. lia.
    + unfold content. rewrite length_fmap, length_seqZ. lia.
Qed.

(** What a read of [n] bytes at [off] is to deliver. *)
Definition wanted (off n : Z) (l : list Z) : list Z := if 2 ^ 32 <=? off + n then [] else take (Z.to_nat n) (drop (Z.to_nat off) l).

Lemma wanted_spec s i off n :
  file_inv d sb s i -> 0 <= off -> 0 <= n ->
  let w := wanted off n (file_content d s i) in
  Z.of_nat (length w) = read_count (i_size (it_inode s !!! i)) off n /\
  forall x, 0 <= x < Z.of_nat (length w) -> rd w (Z.to_nat x) = fbyte d s (it_inode s !!! i) (off + x).
Proof.
  intros F Ho Hn. pose proof (fi_size _ _ _ _ F) as Hsz. unfold wanted, read_count. set (ip := it_inode s !!! i) in *.
  assert (length (file_content d s i) = Z.to_nat (i_size ip)) as Hlen by apply content_length.
  destruct (Z.leb_spec (2 ^ 32) (off + n)); [by rewrite orb_true_r; split; [|cbn; lia]|]. rewrite orb_false_r. cbv zeta.
  rewrite length_take, length_drop, Hlen. split.
  - destruct (Z.ltb_spec (i_size ip) off); lia.
  - intros x Hx. unfold rd. rewrite lookup_take_lt, lookup_drop by lia. unfold file_content. fold ip. rewrite content_lookup by lia. cbn. f_equal. lia.
Qed.


(** C34: the block allocator.  [balloc] fails with 0 only when no block is
    free; otherwise it returns a free data block, marks that block and no
    other as in use, fills it with zeros and changes no other block except
    the bitmap block that records it. *)
Theorem balloc_correct s :
  fs_tx d sb ∅ s -> meta_used d sb s -> room 2 s ->
  wp (balloc d) (fun b s' =>
    (b = 0 /\ no_space d sb s) \/
    (datastart sb <= b < sb_size sb /\ free s b = true /\
     cur d s' b = replicate bsize 0 /\ meta_used d sb s' /\
     (forall x, 0 <= x < sb_size sb -> free s' x = if decide (x = b) then false else free s x) /\
     (forall x, x <> b -> x <> BBLOCK b sb -> cur d s' x = cur d s x))) s.
Proof.
  intros T Hm R. eapply wp_mono; [apply (wp_balloc d sb ∅ s 0); [done|apply (held_ok_empty d sb)|done|rewrite size_empty; lia|done]|].
  intros b s' [(-> & Hn & _)|(T' & _ & Hb & Hf & A)]; [by left|right].
  pose proof A as (_ & _ & _ & B). split_and!; [lia|lia|done| | | |].
  - by rewrite B, decide_True.
  - by apply (meta_used_allocated d sb ∅ s s' b).
  - intros x Hx. by apply (free_allocated d sb ∅).
  - intros x Hx Hx'. by rewrite B, !decide_False.
Qed.

(** [bfree] of a block in use makes exactly that block free again and
    touches nothing but its bitmap block; [bfree] of a free block panics. *)
Theorem bfree_correct s b :
  fs_tx d sb ∅ s -> 0 <= b < sb_size sb -> room 1 s ->
  (free s b = false ->
   wp (bfree d b) (fun _ s' =>
     (forall x, 0 <= x < sb_size sb -> free s' x = if decide (x = b) then true else free s x) /\
     (forall x, x <> BBLOCK b sb -> cur d s' x = cur d s x)) s) /\
  (free s b = true -> panics (bfree d b) "freeing free block" s).
Proof.
  intros T Hb R. split.
  - intros Hf. eapply wp_mono; [apply (wp_bfree d sb ∅ s b 0); try done; rewrite size_empty; lia|].
    intros [] s' (T' & _ & St). split.
    + intros x Hx. by apply (free_bfreed d sb ∅).
    + intros x Hx. destruct St as (_ & _ & _ & B & _). by rewrite B, decide_False.
  - intros Hf. apply (bfree_free_panics d sb ∅); try done; [rewrite size_empty; lia|].
    eapply room_weaken; [|done]. lia.
Qed.

Lemma write_at_read off bs l :
  (off <= length l)%nat -> take (length bs) (drop off (write_at off bs l)) = bs.
Proof.
  intros Hoff. unfold write_at. rewrite drop_app_length' by (rewrite length_take; lia).
  by rewrite take_app_length.
Qed.

(** C32: reading back what was just written gives the bytes that were
    written. *)
Theorem read_after_write i src off n s :
  file_inv d sb s i -> 0 <= off <= i_size (it_inode s !!! i) -> 0 <= n < 2 ^ 31 ->
  off + n <= MAXFILE * BSIZE -> n <= Z.of_nat (length src) -> Forall is_byte src ->
  room (wcost off n + 1) s ->
  wp (w <- writei_kernel i src off n ;; r <- readi_kernel i off w ;; ret (w, r))
     (fun wr _ => let '(w, (r, buf)) := wr in r = w /\ buf = take (Z.to_nat w) src) s.
Proof.
  intros F Ho Hn Hm Hl Hby R. wp_step. wp_use (wp_writei_kernel d sb i src off n 0 s); [done..|].
  intros w s1 (Hw & [F1 C1 _ _ _ _] & _ & R1). wp_step. pose proof (fi_size _ _ _ _ F1) as Hs1.
  assert (length (file_content d s i) = Z.to_nat (i_size (it_inode s !!! i))) as L0
    by (unfold file_content, content; by rewrite length_fmap, length_seqZ).
  assert (length (file_content d s1 i) = Z.to_nat (i_size (it_inode s1 !!! i))) as L1
    by (unfold file_content, content; by rewrite length_fmap, length_seqZ).
  assert (length (take (Z.to_nat w) src) = Z.to_nat w) as Lt by (rewrite length_take; lia).
  pose proof (f_equal length C1) as HL. unfold write_at in HL.
  rewrite L1, !length_app, length_take, length_drop, Lt, L0 in HL.
  wp_use (wp_readi_kernel d sb i off w s1); [apply F1|done|apply F1|lia|apply readable_file; [done|lia]|].
  intros [r buf] s2 (Er & Hlb & Ht & _). wp_step. cbn [fst snd] in *. subst r.
  rewrite Z.min_l in * by lia. split; [done|]. rewrite take_ge in Ht by lia. rewrite Ht, content_sub by lia.
  fold (file_content d s1 i). rewrite C1. rewrite <- Lt at 1. apply write_at_read. lia.
Qed.
End claims.

(** A source that fails past its first [lim] bytes. *)
Definition from_upto (lim : Z) (src : list Z) (o m : Z) : M fs (bool * list Z) :=
  ret (if o + m <=? lim then (true, slice (Z.to_nat o) (Z.to_nat m) src) else (false, [])).
#[local] Instance upto_source lim src : Source id_l (from_upto lim src) (fun _ => True) src.
Proof. split; [done|]. intros o m s _ _ _ _. unfold from_upto. destruct (o + m <=? lim); [by exists true, s|by exists false, s]. Qed.



Lemma balloc_correct_witness :
  exists s, wp (balloc 1) (fun b s' => 47 <= b < 2000 /\ cur 1 s' b = replicate bsize 0) s.
Proof.
  destruct demo_state as (s & F & R & Hc & Hfree & Hip). exists s.
  eapply wp_mono; [apply (balloc_correct 1 Demo.sb0 s)|].
  - apply F.
  - apply F.
  - eapply room_weaken; [|exact R]. lia.
  - intros b s' [(_ & Hns)|(Hb & _ & Hz & _)].
    + specialize (Hns 100). rewrite Hfree in Hns by lia. by specialize (Hns ltac:(simpl; lia)).
    + change (datastart Demo.sb0) with 47 in Hb. simpl sb_size in Hb. done.
Defined.

Lemma bfree_correct_witness :
  exists s, wp (bfree 1 46) (fun _ s' => free 1 Demo.sb0 s' 46 = true) s /\
    panics (bfree 1 100) "freeing free block" s.
Proof.
  destruct demo_state as (s & F & R & Hc & Hfree & Hip). exists s.
  assert (room 1 s) as R1 by (eapply room_weaken; [|exact R]; lia). split.
  - eapply wp_mono; [apply (bfree_correct 1 Demo.sb0 s 46); [apply F|simpl; lia|done|by rewrite Hfree by lia]|].
    intros _ s' (Hx & _). by rewrite Hx, decide_True by (simpl; lia).
  - apply (bfree_correct 1 Demo.sb0 s 100); [apply F|simpl; lia|done|by rewrite Hfree by lia].
Defined.

Lemma read_after_write_witness :
  exists s, wp (w <- writei_kernel 0 [104; 105] 0 2 ;; r <- readi_kernel 0 0 w ;; ret (w, r))
    (fun wr _ => let '(w, (r, buf)) := wr in r = w /\ buf = take (Z.to_nat w) [104; 105]) s.
Proof.
  destruct demo_state as (s & F & R & Hc & Hfree & Hip). exists s.
  apply (read_after_write 1 Demo.sb0 0 [104; 105] 0 2 s).
  - done.
  - rewrite Hip. simpl. lia.
  - lia.
  - done.
  - done.
  - repeat constructor; done.
  - eapply room_weaken; [|exact R]. vm_compute. lia.
Defined.
