(* ===== verification/FsPath.v ===== *)
(** * Path names: [skipelem] splits a path into its elements *)

From S2P Require Import Prelude Param Str Fs.

(** The reference definition: the path cut at every slash, without the empty
    pieces. *)
Fixpoint split_slash (path : list Z) : list (list Z) :=
  match path with
  | [] => [[]]
  | c :: path' =>
      match split_slash path' with
      | s :: ss => if c =? slash then [] :: s :: ss else (c :: s) :: ss
      | [] => [[c]]
      end
  end.

Definition elements (path : list Z) : list (list Z) := filter (fun e => e <> []) (split_slash path).

Lemma split_slash_ne path : exists s ss, split_slash path = s :: ss.
Proof.
  induction path as [|c path (s & ss & E)]; simpl; [by eauto|]. rewrite E.
  destruct (c =? slash); eauto.
Qed.

Lemma elements_slash path : elements (slash :: path) = elements path.
Proof.
  unfold elements. simpl. destruct (split_slash_ne path) as (s & ss & ->).
  by rewrite filter_cons_False by naive_solver.
Qed.

Lemma elements_skip path : elements (skip_slashes path) = elements path.
Proof.
  induction path as [|c path IH]; [done|]. simpl. destruct (Z.eqb_spec c slash) as [->|]; [|done].
  by rewrite elements_slash.
Qed.

Lemma skip_slashes_head path : match skip_slashes path with c :: _ => c <> slash | [] => True end.
Proof. induction path as [|c path IH]; simpl; [done|]. by destruct (Z.eqb_spec c slash). Qed.

Lemma skip_slashes_length path : (length (skip_slashes path) <= length path)%nat.
Proof. induction path as [|c path IH]; simpl; [done|]. destruct (c =? slash); simpl; lia. Qed.

(** What [span_elem] cuts off is the first piece of the split. *)
Lemma span_elem_spec path s rest :
  span_elem path = (s, rest) ->
  path = s ++ rest /\ Forall (fun c => c <> slash) s /\
  exists ss, split_slash path = s :: ss /\
    filter (fun e => e <> []) ss = elements rest.
Proof.
  revert s rest. induction path as [|c path IH]; intros s rest; simpl.
  - intros [= <- <-]. split_and!; [done|constructor|by exists []].
  - destruct (Z.eqb_spec c slash) as [->|Hc].
    + intros [= <- <-]. split_and!; [done|constructor|]. rewrite elements_slash.
      destruct (split_slash_ne path) as (s' & ss & E). unfold elements. rewrite E. by exists (s' :: ss).
    + destruct (span_elem path) as [s' rest'] eqn:E. intros [= <- <-].
      destruct (IH _ _ eq_refl) as (-> & Hf & ss & Hs & He). split_and!; [done|by constructor|].
      rewrite Hs. eauto.
Qed.

(** The buffer after the element has been copied into it. *)
Lemma elem_name e name :
  nonul e -> length name = Z.to_nat DIRSIZ ->
  cstr (if DIRSIZ <=? Z.of_nat (length e) then splice 0 (take (Z.to_nat DIRSIZ) e) name
        else splice 0 (e ++ [0]) name) = take (Z.to_nat DIRSIZ) e.
Proof.
  intros Hn Hl. destruct (Z.leb_spec DIRSIZ (Z.of_nat (length e))) as [Hge|Hlt].
  - assert (splice 0 (take (Z.to_nat DIRSIZ) e) name = take (Z.to_nat DIRSIZ) e) as ->.
    { assert (length (take (Z.to_nat DIRSIZ) e) = length name) as Hlt by (rewrite length_take; lia).
      rewrite splice_in_bounds by lia. rewrite drop_ge by lia. by rewrite app_nil_r. }
    assert (nonul (take (Z.to_nat DIRSIZ) e)) as Hn' by by apply Forall_take.
    by induction Hn' as [|c l Hc Hl' IH]; [|rewrite cstr_cons_nz, IH].
  - rewrite take_ge by lia. rewrite splice_in_bounds by (rewrite length_app; simpl; lia).
    simpl. rewrite <- app_assoc. by apply cstr_app_nul.
Qed.

Lemma no_elements path :
  elements (skip_slashes path) = [] -> skip_slashes path = [].
Proof.
  pose proof (skip_slashes_head path) as Hh. destruct (skip_slashes path) as [|c p]; [done|].
  unfold elements. simpl. destruct (split_slash_ne p) as (s & ss & ->).
  rewrite (proj2 (Z.eqb_neq c slash)) by done. by rewrite filter_cons_True.
Qed.

(** C35: [skipelem] takes the path elements off one by one.  It returns 0
    exactly when no element is left; otherwise [name] receives the first
    element cut to [DIRSIZ] characters, NUL-terminated when it is shorter,
    the returned path holds exactly the elements after it, does not start
    with a slash (so it is empty when that was the last element), and is
    shorter, so the loop of [namex] ends. *)
Theorem skipelem_correct path name :
  nonul path -> length name = Z.to_nat DIRSIZ ->
  match skipelem path name with
  | None => elements path = []
  | Some (rest, name') =>
      exists e, elements path = e :: elements rest /\ e <> [] /\
        length name' = length name /\ cstr name' = take (Z.to_nat DIRSIZ) e /\
        (rest = [] <-> elements rest = []) /\ (length rest < length path)%nat
  end.
Proof.
  intros Hn Hl. unfold skipelem. rewrite <- (elements_skip path).
  pose proof (skip_slashes_length path) as Hlen. pose proof (skip_slashes_head path) as Hh.
  assert (nonul (skip_slashes path)) as Hn'.
  { clear -Hn. induction Hn as [|c p Hc Hp IH]; simpl; [constructor|].
    destruct (c =? slash); [done|by constructor]. }
  destruct (skip_slashes path) as [|c p]; [done|].
  destruct (span_elem (c :: p)) as [e rest] eqn:E.
  destruct (span_elem_spec _ _ _ E) as (Hp & Hns & ss & Hs & He).
  assert (e <> []) as Hne.
  { cbn [span_elem] in E. rewrite (proj2 (Z.eqb_neq c slash)) in E by done.
    destruct (span_elem p). by injection E as <- _. }
  assert (nonul e) as Hne' by (rewrite Hp in Hn'; by apply Forall_app in Hn' as [? _]).
  exists e. rewrite elements_skip. split_and!; [|done| | | |].
  - unfold elements at 1. rewrite Hs, filter_cons_True by done. by rewrite He.
  - destruct (DIRSIZ <=? _); by rewrite splice_length.
  - by apply elem_name.
  - split; [intros E'; rewrite <- elements_skip; by rewrite E'|]. rewrite <- elements_skip.
    by apply no_elements.
  - rewrite Hp, length_app in Hlen. pose proof (skip_slashes_length rest). destruct e; [done|].
    simpl in Hlen. lia.
Qed.

Lemma skipelem_correct_witness :
  exists rest name', skipelem [47; 97; 47; 47; 98] (replicate 14 0) = Some (rest, name') /\
    elements [47; 97; 47; 47; 98] = [97] :: elements rest /\ cstr name' = [97].
Proof.
  pose proof (skipelem_correct [47; 97; 47; 47; 98] (replicate 14 0)
    ltac:(repeat constructor; done) eq_refl) as H.
  destruct (skipelem [47; 97; 47; 47; 98] (replicate 14 0)) as [[rest name']|] eqn:E; [|done].
  exists rest, name'. destruct H as (e & He & _ & _ & Hc & _).
  vm_compute in He. injection He as <- He. split; [done|]. split; [|by rewrite Hc].
  vm_compute in E. by injection E as <- <-.
Defined.
