(* ===== verification/Mem.v ===== *)
(** * Physical memory and the constants of the RISC-V memory system
    (kernel/riscv.h, kernel/memlayout.h)

    Memory is a finite map from byte addresses to bytes; a byte that was never
    written reads as zero.  *)

From S2P Require Import Prelude.

(** ** riscv.h, memlayout.h *)

Definition PGSIZE : Z := 4096.
Definition PGSHIFT : Z := 12.
Definition PGROUNDUP (sz : Z) : Z := Z.land (u64 (sz + PGSIZE - 1)) (Z.lnot (PGSIZE - 1)).
Definition PGROUNDDOWN (a : Z) : Z := Z.land a (Z.lnot (PGSIZE - 1)).

Definition PTE_V : Z := Z.shiftl 1 0.
Definition PTE_R : Z := Z.shiftl 1 1.
Definition PTE_W : Z := Z.shiftl 1 2.
Definition PTE_X : Z := Z.shiftl 1 3.
Definition PTE_U : Z := Z.shiftl 1 4.

Definition PA2PTE (pa : Z) : Z := u64 (Z.shiftl (Z.shiftr pa 12) 10).
Definition PTE2PA (pte : Z) : Z := u64 (Z.shiftl (Z.shiftr pte 10) 12).
Definition PTE_FLAGS (pte : Z) : Z := Z.land pte 0x3FF.
Definition PXMASK : Z := 0x1FF.
Definition PXSHIFT (level : Z) : Z := PGSHIFT + 9 * level.
Definition PX (level va : Z) : Z := Z.land (Z.shiftr va (PXSHIFT level)) PXMASK.
Definition MAXVA : Z := Z.shiftl 1 (9 + 9 + 9 + 12 - 1).

Definition UART0 : Z := 0x10000000.
Definition VIRTIO0 : Z := 0x10001000.
Definition PLIC : Z := 0x0c000000.
Definition KERNBASE : Z := 0x80000000.
Definition PHYSTOP : Z := KERNBASE + 128 * 1024 * 1024.
Definition TRAMPOLINE : Z := MAXVA - PGSIZE.
Definition KSTACK (p : Z) : Z := TRAMPOLINE - (p + 1) * 2 * PGSIZE.
Definition TRAPFRAME : Z := TRAMPOLINE - PGSIZE.

(** ** Byte memory *)

Abbreviation mem := (gmap Z Z).

Definition mget (m : mem) (a : Z) : Z := default 0 (m !! a).
Definition mread (m : mem) (a n : Z) : list Z := (fun k => mget m (a + k)) <$> seqZ 0 n.
Fixpoint mwrite (a : Z) (bs : list Z) (m : mem) : mem :=
  match bs with
  | [] => m
  | b :: bs' => mwrite (a + 1) bs' (<[a := b]> m)
  end.

Definition load64 (m : mem) (a : Z) : Z := le_decode (mread m a 8).
Definition store64 (a v : Z) (m : mem) : mem := mwrite a (le_encode 8 v) m.

(** [memset] and [memmove] on memory. *)
Definition mset (a c n : Z) (m : mem) : mem := mwrite a (replicate (Z.to_nat n) (u8 c)) m.
Definition mmove (dst src n : Z) (m : mem) : mem := mwrite dst (mread m src n) m.

#[global] Arguments mget : simpl never.
#[global] Arguments load64 : simpl never.
#[global] Arguments store64 : simpl never.
#[global] Arguments mset : simpl never.
#[global] Arguments mmove : simpl never.
#[global] Arguments mread : simpl never.

(** ** Lemmas *)

Lemma mget_mwrite bs a m x :
  mget (mwrite a bs m) x =
  if decide (a <= x < a + Z.of_nat (length bs)) then default 0 (bs !! Z.to_nat (x - a)) else mget m x.
Proof.
  revert a m. induction bs as [|b bs IH]; intros a m; simpl.
  - by rewrite decide_False by lia.
  - rewrite IH. destruct (decide (x = a)) as [->|Hne].
    + rewrite decide_False by lia. rewrite decide_True by lia. unfold mget. rewrite lookup_insert_eq.
      by replace (Z.to_nat (a - a)) with O by lia.
    + repeat case_decide; try lia.
      * replace (Z.to_nat (x - a)) with (S (Z.to_nat (x - (a + 1)))) by lia. done.
      * unfold mget. by rewrite lookup_insert_ne.
Qed.

(** Two memories agree on an address range. *)
Definition agree (m m' : mem) (a n : Z) : Prop := forall x, a <= x < a + n -> mget m' x = mget m x.

Lemma mread_agree m m' a n : agree m m' a n -> mread m' a n = mread m a n.
Proof.
  intros H. unfold mread. apply list_fmap_ext. intros i x Hx.
  apply lookup_seqZ in Hx as [-> Hx]. apply H. lia.
Qed.

Lemma load64_agree m m' a : agree m m' a 8 -> load64 m' a = load64 m a.
Proof. intros H. unfold load64. by rewrite (mread_agree m m'). Qed.

Lemma agree_sub m m' a n a' n' : agree m m' a n -> a <= a' -> a' + n' <= a + n -> agree m m' a' n'.
Proof. intros H ? ? x Hx. apply H. lia. Qed.

Lemma agree_trans m1 m2 m3 a n : agree m1 m2 a n -> agree m2 m3 a n -> agree m1 m3 a n.
Proof. intros H1 H2 x Hx. by rewrite H2, H1. Qed.

Lemma agree_refl m a n : agree m m a n.
Proof. by intros x Hx. Qed.

Lemma agree_mwrite a bs m a' n' :
  a + Z.of_nat (length bs) <= a' \/ a' + n' <= a -> agree m (mwrite a bs m) a' n'.
Proof. intros H x Hx. by rewrite mget_mwrite, decide_False by lia. Qed.

Lemma agree_mset a c n m a' n' : 0 <= n -> a + n <= a' \/ a' + n' <= a -> agree m (mset a c n m) a' n'.
Proof. intros Hn H. apply agree_mwrite. rewrite length_replicate. lia. Qed.

Lemma agree_store64 a v m a' n' : a + 8 <= a' \/ a' + n' <= a -> agree m (store64 a v m) a' n'.
Proof. intros H. apply agree_mwrite. rewrite le_encode_length. lia. Qed.

Lemma mread_length m a n : length (mread m a n) = Z.to_nat n.
Proof. unfold mread. by rewrite length_fmap, length_seqZ. Qed.

Lemma mread_lookup m a n (i : nat) : (i < Z.to_nat n)%nat -> mread m a n !! i = Some (mget m (a + Z.of_nat i)).
Proof. intros Hi. unfold mread. rewrite list_lookup_fmap, lookup_seqZ_lt by lia. done. Qed.

Lemma mread_mwrite a bs m : mread (mwrite a bs m) a (Z.of_nat (length bs)) = bs.
Proof.
  apply list_eq. intros i. destruct (decide (i < length bs)%nat) as [Hi|Hi].
  - rewrite mread_lookup by lia. rewrite mget_mwrite, decide_True by lia.
    replace (Z.to_nat (a + Z.of_nat i - a)) with i by lia.
    destruct (lookup_lt_is_Some_2 bs i Hi) as [b ->]. done.
  - rewrite !lookup_ge_None_2; [done|lia|rewrite mread_length; lia].
Qed.

Lemma load_store64 a v m : load64 (store64 a v m) a = u64 v.
Proof.
  unfold load64, store64. change 8 with (Z.of_nat (length (le_encode 8 v))). rewrite mread_mwrite.
  by rewrite le_decode_encode.
Qed.

Lemma load_mset0 a n m x : 0 <= n -> a <= x -> x + 8 <= a + n -> load64 (mset a 0 n m) x = 0.
Proof.
  intros Hn H1 H2. unfold load64. replace (mread _ x 8) with (replicate 8 0); [done|].
  apply list_eq. intros i. destruct (decide (i < 8)%nat).
  - rewrite mread_lookup by lia. unfold mset. rewrite mget_mwrite, length_replicate, decide_True by lia.
    rewrite !lookup_replicate_2 by lia. done.
  - by rewrite !lookup_ge_None_2 by (rewrite ?mread_length, ?length_replicate; lia).
Qed.

Lemma mget_mset a c n m x :
  mget (mset a c n m) x = if decide (a <= x < a + Z.max 0 n) then u8 c else mget m x.
Proof.
  unfold mset. rewrite mget_mwrite, length_replicate. repeat case_decide; try lia.
  by rewrite lookup_replicate_2 by lia.
Qed.

Lemma mget_store64 a v m x : ~ a <= x < a + 8 -> mget (store64 a v m) x = mget m x.
Proof. intros Hx. unfold store64. by rewrite mget_mwrite, le_encode_length, decide_False by lia. Qed.

Lemma mget_mmove dst src n m x :
  mget (mmove dst src n m) x =
  if decide (dst <= x < dst + Z.max 0 n) then mget m (src + (x - dst)) else mget m x.
Proof.
  unfold mmove. rewrite mget_mwrite, mread_length. repeat case_decide; try lia.
  rewrite mread_lookup by lia. simpl. f_equal. lia.
Qed.

#[global] Opaque mget mread load64 store64 mset mmove.

(** ** Pages *)

Definition aligned (a : Z) : Prop := a mod PGSIZE = 0.

Lemma pages_apart a b : aligned a -> aligned b -> a <> b -> a + PGSIZE <= b \/ b + PGSIZE <= a.
Proof.
  unfold aligned, PGSIZE. intros Ha Hb Hne.
  pose proof (Z.div_mod a 4096 ltac:(lia)). pose proof (Z.div_mod b 4096 ltac:(lia)). lia.
Qed.

Lemma land_lnot_mask a : Z.land a (Z.lnot (PGSIZE - 1)) = a - a mod PGSIZE.
Proof.
  change (PGSIZE - 1) with (Z.ones 12). rewrite <- Z.ldiff_land, Z.ldiff_ones_r by lia.
  rewrite Z.shiftl_mul_pow2, Z.shiftr_div_pow2 by lia. change (2 ^ 12) with PGSIZE.
  pose proof (Z.div_mod a PGSIZE ltac:(done)). lia.
Qed.

Lemma PGROUNDDOWN_eq a : PGROUNDDOWN a = a - a mod PGSIZE.
Proof. apply land_lnot_mask. Qed.

Lemma PGROUNDDOWN_aligned a : aligned (PGROUNDDOWN a).
Proof.
  rewrite PGROUNDDOWN_eq. unfold aligned, PGSIZE. rewrite Zminus_mod_idemp_r. by rewrite Z.sub_diag.
Qed.

Lemma PGROUNDUP_eq a : 0 <= a -> a + PGSIZE <= 2 ^ 64 -> PGROUNDUP a = (a + PGSIZE - 1) / PGSIZE * PGSIZE.
Proof.
  intros Ha Hb. unfold PGROUNDUP. rewrite u64_small by (unfold PGSIZE in *; lia). rewrite land_lnot_mask.
  pose proof (Z.div_mod (a + PGSIZE - 1) PGSIZE ltac:(done)). lia.
Qed.

Lemma PX_range level va : 0 <= PX level va < 512.
Proof.
  unfold PX, PXMASK. change 0x1FF with (Z.ones 9). rewrite Z.land_ones by lia. apply Z.mod_pos_bound. lia.
Qed.
