(* ===== verification/Kalloc.v ===== *)
(** * Physical page allocator (kernel/kalloc.c)

    The free pages form a list threaded through the pages themselves: the
    first eight bytes of a free page hold the address of the next one.  *)

From S2P Require Import Prelude Spinlock Mem.

(** Addresses set by kernel.ld. *)
Record syms := mkSyms {
  ld_end : Z;         (* end[]: first address after the kernel *)
  ld_etext : Z;       (* etext[]: end of the kernel's code *)
  ld_trampoline : Z   (* trampoline[] *)
}.

Record kmem := mkKmem {
  km_env : kenv;
  km_lock : spinlock;     (* kmem.lock *)
  km_freelist : Z;        (* kmem.freelist, 0 for the null pointer *)
  km_mem : mem;           (* physical memory *)
  km_syms : syms
}.

Definition set_kenv e s := mkKmem e (km_lock s) (km_freelist s) (km_mem s) (km_syms s).
Definition set_klock l s := mkKmem (km_env s) l (km_freelist s) (km_mem s) (km_syms s).
Definition set_freelist p s := mkKmem (km_env s) (km_lock s) p (km_mem s) (km_syms s).
Definition set_mem m s := mkKmem (km_env s) (km_lock s) (km_freelist s) m (km_syms s).

#[export] Instance HasEnv_kmem : HasEnv kmem := mkLens km_env set_kenv.
Definition kmem_lock : lens kmem spinlock := mkLens km_lock set_klock.

(** Memory accesses of the kernel. *)
Definition memset_page (a c : Z) : M kmem unit := modify (fun s => set_mem (mset a c PGSIZE (km_mem s)) s).
Definition load (a : Z) : M kmem Z := gets (fun s => load64 (km_mem s) a).
Definition store (a v : Z) : M kmem unit := modify (fun s => set_mem (store64 a v (km_mem s)) s).

Definition kfree (pa : Z) : M kmem unit :=
  sy <- gets km_syms ;;
  if negb (pa mod PGSIZE =? 0) || (pa <? ld_end sy) || (PHYSTOP <=? pa) then panic "kfree" else
  memset_page pa 1 ;;
  with_env kmem_lock acquire ;;
  next <- gets km_freelist ;;
  store pa next ;;
  modify (set_freelist pa) ;;
  with_env kmem_lock release.

Definition kalloc : M kmem Z :=
  with_env kmem_lock acquire ;;
  r <- gets km_freelist ;;
  (when (negb (r =? 0)) do (next <- load r ;; modify (set_freelist next))) ;;
  with_env kmem_lock release ;;
  (when (negb (r =? 0)) do memset_page r 5) ;;
  ret r.

(** The pages that fit between two addresses. *)
Definition page_range (pa_start pa_end : Z) : list Z :=
  let p := PGROUNDUP pa_start in
  (fun k => p + k * PGSIZE) <$> seqZ 0 ((pa_end - p) / PGSIZE).

Definition freerange (pa_start pa_end : Z) : M kmem unit :=
  for_each (page_range pa_start pa_end) kfree.

Definition kinit : M kmem unit :=
  modify (set_klock initlock) ;;
  sy <- gets km_syms ;;
  freerange (ld_end sy) PHYSTOP.

(** ** The free list *)

Fixpoint chain (m : mem) (p : Z) (l : list Z) : Prop :=
  match l with
  | [] => p = 0
  | a :: l' => p = a /\ chain m (load64 m a) l'
  end.

(** A page the allocator manages. *)
Definition page_ok (sy : syms) (a : Z) : Prop := aligned a /\ ld_end sy <= a < PHYSTOP.

Definition syms_ok (sy : syms) : Prop := KERNBASE < ld_end sy <= PHYSTOP.

Record kmem_ok (s : kmem) (fl : list Z) : Prop := {
  ko_lock : km_lock s = initlock;
  ko_env : env_ok (km_env s);
  ko_syms : syms_ok (km_syms s);
  ko_chain : chain (km_mem s) (km_freelist s) fl;
  ko_nodup : NoDup fl;
  ko_pages : Forall (page_ok (km_syms s)) fl
}.

(** Memory outside the pages [ps] is the same. *)
Definition mframe (ps : list Z) (m m' : mem) : Prop :=
  forall x, (forall a, a ∈ ps -> ~ a <= x < a + PGSIZE) -> mget m' x = mget m x.

Definition kframe (ps : list Z) (s s' : kmem) : Prop :=
  mframe ps (km_mem s) (km_mem s') /\ env_same (km_env s) (km_env s') /\ km_syms s' = km_syms s.

Lemma mframe_agree ps m m' a :
  mframe ps m m' -> aligned a -> Forall aligned ps -> (a ∉ ps) -> agree m m' a PGSIZE.
Proof.
  intros H Ha Hps Hn x Hx. apply H. intros b Hb Hxb. rewrite Forall_forall in Hps.
  destruct (pages_apart a b Ha (Hps b Hb)); [set_solver|lia..].
Qed.

Lemma mframe_refl ps m : mframe ps m m.
Proof. by intros x Hx. Qed.

Lemma mframe_trans ps qs m1 m2 m3 : mframe ps m1 m2 -> mframe qs m2 m3 -> mframe (ps ++ qs) m1 m3.
Proof. intros H1 H2 x Hx. rewrite H2, H1; [done|intros a Ha; apply Hx; set_solver..]. Qed.

Lemma mframe_sub ps qs m m' : ps ⊆ qs -> mframe ps m m' -> mframe qs m m'.
Proof. intros Hs H x Hx. apply H. intros a Ha. apply Hx. by apply Hs. Qed.

Lemma chain_agree m m' p l :
  chain m p l -> (forall a, a ∈ l -> agree m m' a 8) -> chain m' p l.
Proof.
  revert p. induction l as [|a l IH]; intros p; [done|]. intros [-> Hc] Hag. split; [done|].
  rewrite (load64_agree m m') by (apply Hag; set_solver). apply IH; [done|]. set_solver.
Qed.

Lemma page_ok_nz sy a : syms_ok sy -> page_ok sy a -> 0 < a < 2 ^ 63.
Proof. unfold syms_ok, page_ok, KERNBASE, PHYSTOP. unfold KERNBASE. lia. Qed.

Lemma mframe_mset a c m : mframe [a] m (mset a c PGSIZE m).
Proof.
  intros x Hx. specialize (Hx a ltac:(set_solver)). rewrite mget_mset, decide_False; [done|].
  unfold PGSIZE in *. lia.
Qed.

Lemma mframe_store a v m b : b <= a -> a + 8 <= b + PGSIZE -> mframe [b] m (store64 a v m).
Proof.
  intros H1 H2 x Hx. specialize (Hx b ltac:(set_solver)). apply mget_store64. lia.
Qed.

(** The free list survives changes to pages that are not free. *)
Lemma chain_frame ps m m' p fl sy :
  chain m p fl -> mframe ps m m' -> Forall (page_ok sy) fl -> Forall aligned ps ->
  (forall a, a ∈ ps -> a ∉ fl) -> chain m' p fl.
Proof.
  intros Hc Hf Hp Ha Hd. eapply chain_agree; [done|]. intros a Hin. rewrite Forall_forall in Hp.
  eapply agree_sub; [eapply (mframe_agree ps); [done|by apply Hp|done|]|lia|unfold PGSIZE; lia].
  intros Hin'. by eapply Hd.
Qed.

Lemma kframe_refl ps s : kframe ps s s.
Proof. split_and!; [apply mframe_refl|done|done]. Qed.

Lemma kframe_trans ps qs s1 s2 s3 : kframe ps s1 s2 -> kframe qs s2 s3 -> kframe (ps ++ qs) s1 s3.
Proof.
  intros (M1 & E1 & S1) (M2 & E2 & S2). split_and!; [by eapply mframe_trans|by etransitivity|congruence].
Qed.

Lemma kframe_sub ps qs s s' : ps ⊆ qs -> kframe ps s s' -> kframe qs s s'.
Proof. intros H (M1 & E1 & S1). split_and!; [by eapply mframe_sub|done|done]. Qed.

(** What remains true of a state when only pages that are not free change. *)
Lemma kmem_ok_frame s m fl ps :
  kmem_ok s fl -> mframe ps (km_mem s) m -> Forall aligned ps -> (forall a, a ∈ ps -> a ∉ fl) ->
  kmem_ok (set_mem m s) fl.
Proof. intros [] Hf Ha Hd. split; try done. simpl. by eapply chain_frame. Qed.

Lemma wp_kfree s fl pa :
  kmem_ok s fl -> page_ok (km_syms s) pa -> (pa ∉ fl) ->
  wp (kfree pa) (fun _ s' => kmem_ok s' (pa :: fl) /\ kframe [pa] s s') s.
Proof.
  intros K [Hal Hr] Hn. unfold kfree. wp_step. wp_step. cbv beta.
  rewrite (proj2 (Z.eqb_eq _ _) Hal), (proj2 (Z.ltb_ge pa _)), (proj2 (Z.leb_gt PHYSTOP pa)) by lia. cbn [negb orb].
  unfold memset_page, store. wp_steps. apply wp_acquire; [simpl; by rewrite (ko_lock _ _ K)|]. cbn. wp_steps.
  eapply (wp_release_same _ _ (km_env s)); [by apply K|done|done|].
  intros e He. cbn. pose proof (page_ok_nz _ _ (ko_syms _ _ K) (conj Hal Hr)) as Hpa.
  assert (mframe [pa] (km_mem s) (store64 pa (km_freelist s) (mset pa 1 PGSIZE (km_mem s)))) as Hf.
  { apply (mframe_sub ([pa] ++ [pa])); [set_solver|]. eapply mframe_trans; [apply mframe_mset|].
    apply mframe_store; unfold PGSIZE; lia. }
  split; [|by split_and!]. destruct K as [K1 K2 K3 K4 K5 K6]. split; cbn; try done.
  - by eapply env_same_ok.
  - split; [done|]. rewrite load_store64.
    replace (u64 (km_freelist s)) with (km_freelist s).
    + eapply chain_frame; [exact K4|done|exact K6|by constructor|]. set_solver.
    + destruct fl as [|a fl]; [by rewrite K4|]. destruct K4 as [-> _]. apply Forall_cons in K6 as [Ha _].
      rewrite u64_small; [done|]. pose proof (page_ok_nz _ _ K3 Ha). lia.
  - by constructor.
  - constructor; [by split|done].
Qed.

(** A page handed out: it was the first of the free list, and is filled with
    junk. *)
Lemma wp_kalloc s fl :
  kmem_ok s fl ->
  wp kalloc (fun r s' =>
    match fl with
    | [] => r = 0 /\ kmem_ok s' [] /\ kframe [] s s'
    | a :: fl' => r = a /\ kmem_ok s' fl' /\ kframe [a] s s' /\
                  forall x, a <= x < a + PGSIZE -> mget (km_mem s') x = 5
    end) s.
Proof.
  intros K. unfold kalloc. wp_steps. apply wp_acquire; [simpl; by rewrite (ko_lock _ _ K)|]. cbn. wp_step. wp_step.
  destruct K as [K1 K2 K3 K4 K5 K6]. destruct fl as [|a fl]; cbn [chain] in K4.
  - cbn. rewrite K4. cbn. wp_steps.
    eapply (wp_release_same _ _ (km_env s)); [done|done|done|].
    intros e He. cbn. wp_steps. split_and!; [done| |split_and!; [apply mframe_refl|done|done]].
    split; cbn; try done. by eapply env_same_ok.
  - destruct K4 as [Hfl Hc]. apply Forall_cons in K6 as [Ha K6]. apply NoDup_cons in K5 as [Hn K5].
    pose proof (page_ok_nz _ _ K3 Ha). cbn. rewrite Hfl, (proj2 (Z.eqb_neq a 0)) by lia. cbn.
    unfold load, memset_page. wp_steps.
    eapply (wp_release_same _ _ (km_env s)); [done|done|done|].
    intros e He. cbn. wp_steps. split_and!; [done| |split_and!; [exact (mframe_mset a 5 (km_mem s))|done|done]|].
    + split; cbn; try done; [by eapply env_same_ok|].
      eapply chain_frame; [exact Hc|exact (mframe_mset a 5 (km_mem s))|exact K6|constructor; [apply Ha|done]|set_solver].
    + cbn. intros x Hx. rewrite mget_mset, decide_True by (unfold PGSIZE in *; lia). done.
Qed.

(** Freeing an address that is not a managed page panics. *)
Lemma kfree_bad_panics s pa : ~ page_ok (km_syms s) pa -> panics (kfree pa) "kfree" s.
Proof.
  intros Hn. unfold panics, kfree, bind, gets.
  destruct (negb (pa mod PGSIZE =? 0) || (pa <? ld_end (km_syms s)) || (PHYSTOP <=? pa)) eqn:E; [done|].
  exfalso. apply Hn. apply orb_false_iff in E as [[E1 E2]%orb_false_iff E3].
  apply negb_false_iff, Z.eqb_eq in E1. apply Z.ltb_ge in E2. apply Z.leb_gt in E3. by split.
Qed.

(** ** Boot *)

Definition kboot (e : kenv) (sy : syms) (m : mem) : kmem := mkKmem e initlock 0 m sy.

(** All the pages the allocator manages. *)
Definition all_pages (sy : syms) : list Z := page_range (ld_end sy) PHYSTOP.

Lemma page_range_ok sy : syms_ok sy -> NoDup (all_pages sy) /\ Forall (page_ok sy) (all_pages sy).
Proof.
  intros Hs. unfold syms_ok, KERNBASE in Hs. unfold all_pages, page_range. split.
  - apply NoDup_fmap_2; [intros x y; unfold PGSIZE; lia|apply NoDup_seqZ].
  - apply Forall_fmap, Forall_forall. intros k Hk%elem_of_seqZ. cbn. unfold page_ok, aligned.
    rewrite PGROUNDUP_eq in * by (unfold PGSIZE, PHYSTOP, KERNBASE in *; lia).
    rewrite <- Z.mul_add_distr_r. set (q := (ld_end sy + PGSIZE - 1) / PGSIZE) in *.
    pose proof (Z.div_mod (ld_end sy + PGSIZE - 1) PGSIZE ltac:(done)) as Hd. fold q in Hd.
    pose proof (Z.mod_pos_bound (ld_end sy + PGSIZE - 1) PGSIZE ltac:(done)).
    pose proof (Z.mul_div_le (PHYSTOP - q * PGSIZE) PGSIZE ltac:(done)).
    rewrite Z.mod_mul by done. unfold PGSIZE in *. lia.
Qed.

Lemma wp_kinit e sy m :
  env_ok e -> syms_ok sy ->
  wp kinit (fun _ s => kmem_ok s (reverse (all_pages sy)) /\ km_syms s = sy) (kboot e sy m).
Proof.
  intros He Hs. destruct (page_range_ok sy Hs) as [Hnd Hok]. unfold kinit. wp_steps. cbn.
  unfold freerange. fold (all_pages sy). revert Hnd Hok. generalize (all_pages sy). intros l Hnd Hok.
  eapply wp_mono; [eapply (wp_for_each _ (fun dn _ s => kmem_ok s (reverse dn) /\ km_syms s = sy))|].
  - split; [|done]. split; cbn; try done. constructor.
  - intros dn pa rest s Hl [K Hsy]. rewrite Hl in Hnd, Hok.
    apply Forall_app in Hok as [_ Hpa%Forall_cons_1]. apply NoDup_app in Hnd as (_ & Hnd & _).
    eapply wp_mono; [apply (wp_kfree s (reverse dn)); [done|rewrite Hsy; apply Hpa|]|].
    + rewrite elem_of_reverse. intros Hin. apply (Hnd pa Hin). set_solver.
    + intros [] s' (K' & _ & _ & E). rewrite reverse_app. simpl. split; [done|congruence].
  - by intros [] s [K E].
Qed.

(** ** Clients of the allocator

    [A] lists the pages handed out and not yet returned.  Clients call
    [kalloc], free pages they hold, and write anything they like into the
    pages they hold. *)

Inductive kstep : kmem * list Z -> kmem * list Z -> Prop :=
| ks_alloc s s' A r : kalloc s = Ok r s' -> r <> 0 -> kstep (s, A) (s', r :: A)
| ks_fail s s' A : kalloc s = Ok 0 s' -> kstep (s, A) (s', A)
| ks_free s s' A B pa : A ≡ₚ pa :: B -> kfree pa s = Ok tt s' -> kstep (s, A) (s', B)
| ks_write s m A : mframe A (km_mem s) m -> kstep (s, A) (set_mem m s, A).

(** Every page is either free or handed out, and exactly once. *)
Definition accounted (sy : syms) (s : kmem) (A : list Z) : Prop :=
  exists fl, kmem_ok s fl /\ km_syms s = sy /\ A ++ fl ≡ₚ all_pages sy.

Lemma accounted_parts sy A fl :
  syms_ok sy -> A ++ fl ≡ₚ all_pages sy ->
  Forall (page_ok sy) A /\ Forall (page_ok sy) fl /\ forall a, a ∈ A -> a ∉ fl.
Proof.
  intros Hs Hp. destruct (page_range_ok sy Hs) as [Hnd Hok].
  rewrite <- Hp in Hnd, Hok. apply Forall_app in Hok as [? ?]. by apply NoDup_app in Hnd as (_ & ? & _).
Qed.

Lemma accounted_step sy c c' :
  syms_ok sy -> kstep c c' -> accounted sy (fst c) (snd c) -> accounted sy (fst c') (snd c').
Proof.
  intros Hs St (fl & K & Hsy & Hp). destruct (accounted_parts sy _ _ Hs Hp) as (HA & Hfl & Hd).
  destruct St as [s s' A r E Hr|s s' A E|s s' A B pa HB E|s m A Hm]; cbn [fst snd] in *.
  - destruct (wp_Ok _ _ _ (wp_kalloc s fl K)) as (r' & s'' & E' & H). rewrite E in E'. injection E' as <- <-.
    destruct fl as [|a fl]; [by destruct H|]. destruct H as (-> & K' & (_ & _ & Hsy') & _).
    exists fl. split_and!; [done|congruence|]. rewrite <- Hp. simpl. by rewrite Permutation_middle.
  - destruct (wp_Ok _ _ _ (wp_kalloc s fl K)) as (r' & s'' & E' & H). rewrite E in E'. injection E' as <- <-.
    destruct fl as [|a fl].
    + destruct H as (_ & K' & _ & _ & Hsy'). exists []. split_and!; [done|congruence|done].
    + destruct H as (<- & _). apply Forall_cons in Hfl as [Hz _]. pose proof (page_ok_nz _ _ Hs Hz). lia.
  - assert (pa ∈ A) as Hin by (rewrite HB; set_solver). rewrite Forall_forall in HA.
    destruct (wp_Ok _ _ _ (wp_kfree s fl pa K ltac:(rewrite Hsy; by apply HA) (Hd _ Hin))) as ([] & s'' & E' & K' & F).
    rewrite E in E'. injection E' as <-. exists (pa :: fl). split_and!; [done|rewrite (proj2 (proj2 F)); done|].
    rewrite <- Hp, HB. simpl. by rewrite Permutation_middle.
  - exists fl. split_and!; [|done|done]. apply (kmem_ok_frame s m fl A); try done.
    eapply Forall_impl; [exact HA|]. by intros x [? _].
Qed.

(** C17: the page allocator.  After [kinit], whatever clients do with the pages
    they hold, every page of [end .. PHYSTOP) is at any time either handed out
    or free, exactly once; no call panics; [kalloc] returns a page nobody
    holds, and fails only when all pages are handed out; neither call changes
    the contents of a page another client holds. *)
Theorem allocator_correct e sy m s0 s A :
  env_ok e -> syms_ok sy -> kinit (kboot e sy m) = Ok tt s0 -> rtc kstep (s0, []) (s, A) ->
  NoDup A /\ Forall (page_ok sy) A /\
  wp kalloc (fun r s' =>
    (r = 0 /\ A ≡ₚ all_pages sy) \/
    (page_ok sy r /\ (r ∉ A) /\ forall a, a ∈ A -> agree (km_mem s) (km_mem s') a PGSIZE)) s /\
  (forall pa, pa ∈ A -> wp (kfree pa) (fun _ s' =>
     forall a, a ∈ A -> a <> pa -> agree (km_mem s) (km_mem s') a PGSIZE) s).
Proof.
  intros He Hs Hinit Hr.
  destruct (wp_Ok _ _ _ (wp_kinit e sy m He Hs)) as ([] & s1 & E & K & Hsy). rewrite Hinit in E. injection E as <-.
  assert (accounted sy s A) as (fl & K' & Hsy' & Hp).
  { refine (rtc_preserves kstep (fun c => accounted sy (fst c) (snd c)) _ _ _ Hr _).
    - intros x y St. by apply accounted_step.
    - exists (reverse (all_pages sy)). split_and!; [done|done|]. simpl. by rewrite reverse_Permutation. }
  destruct (accounted_parts sy _ _ Hs Hp) as (HA & Hfl & Hd).
  assert (forall ps s' a, mframe ps (km_mem s) (km_mem s') -> Forall aligned ps -> a ∈ A -> (a ∉ ps) ->
            agree (km_mem s) (km_mem s') a PGSIZE) as Hag.
  { intros ps s' a Hf Hps Ha Hn. eapply mframe_agree; try done. rewrite Forall_forall in HA. by apply HA. }
  split_and!; [|done| |].
  - destruct (page_range_ok sy Hs) as [Hnd _]. rewrite <- Hp in Hnd. by apply NoDup_app in Hnd as (? & _).
  - eapply wp_mono; [by apply (wp_kalloc s fl)|]. intros r s' H. destruct fl as [|b fl].
    + left. destruct H as (-> & _). by rewrite app_nil_r in Hp.
    + right. destruct H as (-> & _ & (Hf & _) & _). apply Forall_cons in Hfl as [Hb _].
      assert (b ∉ A) by (intros Hb'; apply (Hd b Hb'); set_solver).
      split_and!; [done|done|]. intros a Ha. eapply Hag; [done|constructor; [apply Hb|done]|done|set_solver].
  - intros pa Hpa. rewrite Forall_forall in HA. eapply wp_mono.
    + apply (wp_kfree s fl pa); [done|rewrite Hsy'; by apply HA|by apply Hd].
    + intros [] s' (_ & (Hf & _)) a Ha Hne. eapply Hag; [done|constructor; [by apply HA|done]|done|set_solver].
Qed.

(** Three pages of memory, one of them handed out. *)
Module KDemo.
Definition e0 : kenv := mkKenv 0 0 false true 1 false [] [].
Definition sy0 : syms := mkSyms (PHYSTOP - 3 * PGSIZE - 100) (KERNBASE + 0x8000) (KERNBASE + 0x7000).
End KDemo.

Lemma allocator_correct_witness :
  exists s0 s r, kinit (kboot KDemo.e0 KDemo.sy0 ∅) = Ok tt s0 /\ kalloc s0 = Ok r s /\
    rtc kstep (s0, []) (s, [r]) /\ wp (kfree r) (fun _ _ => True) s.
Proof.
  assert (env_ok KDemo.e0) as He by (split; simpl; lia).
  assert (syms_ok KDemo.sy0) as Hs by (unfold syms_ok; by vm_compute).
  destruct (wp_Ok _ _ _ (wp_kinit KDemo.e0 KDemo.sy0 ∅ He Hs)) as ([] & s0 & E0 & K0 & _).
  destruct (wp_Ok _ _ _ (wp_kalloc s0 _ K0)) as (r & s & E & H).
  assert (rtc kstep (s0, []) (s, [r])) as Hr.
  { apply rtc_once, ks_alloc; [exact E|]. revert H.
    replace (reverse (all_pages KDemo.sy0)) with
      [PHYSTOP - 1 * PGSIZE; PHYSTOP - 2 * PGSIZE; PHYSTOP - 3 * PGSIZE] by by vm_compute.
    intros (-> & _). done. }
  exists s0, s, r. split; [exact E0|]. split; [exact E|]. split; [exact Hr|].
  eapply wp_mono; [apply (allocator_correct KDemo.e0 KDemo.sy0 ∅ s0 s [r] He Hs E0 Hr); by apply list_elem_of_singleton|by intros].
Defined.
