(* ===== verification/Vm.v ===== *)
(** * Page tables and user memory (kernel/vm.c)

    Page tables live in physical memory; a [pagetable_t] is the address of a
    page, a [pte_t *] the address of an entry.  *)

From S2P Require Import Prelude Param Spinlock Mem Kalloc.

Definition memmove_page (dst src : Z) : M kmem unit :=
  modify (fun s => set_mem (mmove dst src PGSIZE (km_mem s)) s).

(** ** walk *)

(** The loop of [walk] over the levels above the leaf level. *)
Fixpoint walk_levels (levels : list Z) (pagetable va : Z) (alloc : bool) : M kmem (option Z) :=
  match levels with
  | [] => ret (Some pagetable)
  | level :: levels' =>
      let pte := pagetable + 8 * PX level va in
      v <- load pte ;;
      if negb (Z.land v PTE_V =? 0) then
        walk_levels levels' (PTE2PA v) va alloc
      else if negb alloc then ret None
      else
        pagetable' <- kalloc ;;
        if pagetable' =? 0 then ret None
        else
          memset_page pagetable' 0 ;;
          store pte (Z.lor (PA2PTE pagetable') PTE_V) ;;
          walk_levels levels' pagetable' va alloc
  end.

(** 0 is the null pointer. *)
Definition walk (pagetable va : Z) (alloc : bool) : M kmem Z :=
  if MAXVA <=? va then panic "walk" else
  r <- walk_levels [2; 1] pagetable va alloc ;;
  match r with
  | None => ret 0
  | Some pagetable' => ret (pagetable' + 8 * PX 0 va)
  end.

Definition walkaddr (pagetable va : Z) : M kmem Z :=
  if MAXVA <=? va then ret 0 else
  pte <- walk pagetable va false ;;
  if pte =? 0 then ret 0 else
  v <- load pte ;;
  if Z.land v PTE_V =? 0 then ret 0 else
  if Z.land v PTE_U =? 0 then ret 0 else
  ret (PTE2PA v).

(** ** mappages *)

Fixpoint mappages_loop (fuel : nat) (pagetable a last pa perm : Z) : M kmem Z :=
  match fuel with
  | O => no_fuel
  | S fuel' =>
      pte <- walk pagetable a true ;;
      if pte =? 0 then ret (-1) else
      v <- load pte ;;
      if negb (Z.land v PTE_V =? 0) then panic "mappages: remap" else
      store pte (Z.lor (Z.lor (PA2PTE pa) perm) PTE_V) ;;
      if a =? last then ret 0 else
      mappages_loop fuel' pagetable (u64 (a + PGSIZE)) last (u64 (pa + PGSIZE)) perm
  end.

(** The loop makes one turn per page. *)
Definition mappages (pagetable va size pa perm : Z) : M kmem Z :=
  if negb (va mod PGSIZE =? 0) then panic "mappages: va not aligned" else
  if negb (size mod PGSIZE =? 0) then panic "mappages: size not aligned" else
  if size =? 0 then panic "mappages: size" else
  mappages_loop (Z.to_nat (size / PGSIZE)) pagetable va (u64 (va + size - PGSIZE)) pa perm.

Definition kvmmap (kpgtbl va pa sz perm : Z) : M kmem unit :=
  r <- mappages kpgtbl va sz pa perm ;;
  if negb (r =? 0) then panic "kvmmap" else ret tt.

(** proc.c: a kernel stack for each process. *)
Definition proc_mapstacks (kpgtbl : Z) : M kmem unit :=
  for_each (seqZ 0 (Z.of_nat NPROC)) (fun i =>
    pa <- kalloc ;;
    if pa =? 0 then panic "kalloc" else
    kvmmap kpgtbl (KSTACK i) pa PGSIZE (Z.lor PTE_R PTE_W)).

Definition kvmmake : M kmem Z :=
  kpgtbl <- kalloc ;;
  memset_page kpgtbl 0 ;;
  sy <- gets km_syms ;;
  kvmmap kpgtbl UART0 UART0 PGSIZE (Z.lor PTE_R PTE_W) ;;
  kvmmap kpgtbl VIRTIO0 VIRTIO0 PGSIZE (Z.lor PTE_R PTE_W) ;;
  kvmmap kpgtbl PLIC PLIC 0x4000000 (Z.lor PTE_R PTE_W) ;;
  kvmmap kpgtbl KERNBASE KERNBASE (ld_etext sy - KERNBASE) (Z.lor PTE_R PTE_X) ;;
  kvmmap kpgtbl (ld_etext sy) (ld_etext sy) (PHYSTOP - ld_etext sy) (Z.lor PTE_R PTE_W) ;;
  kvmmap kpgtbl TRAMPOLINE (ld_trampoline sy) PGSIZE (Z.lor PTE_R PTE_X) ;;
  proc_mapstacks kpgtbl ;;
  ret kpgtbl.

(** ** User page tables *)

Definition uvmcreate : M kmem Z :=
  pagetable <- kalloc ;;
  if pagetable =? 0 then ret 0 else
  memset_page pagetable 0 ;;
  ret pagetable.

(** [for(a = lo; a < hi; a += PGSIZE)] *)
Definition va_range (lo hi : Z) : list Z :=
  (fun k => lo + k * PGSIZE) <$> seqZ 0 ((hi - lo + PGSIZE - 1) / PGSIZE).

Definition uvmunmap_one (pagetable : Z) (do_free : bool) (a : Z) : M kmem unit :=
  pte <- walk pagetable a false ;;
  if pte =? 0 then ret tt else
  v <- load pte ;;
  if Z.land v PTE_V =? 0 then ret tt else
  (when do_free do kfree (PTE2PA v)) ;;
  store pte 0.

Definition uvmunmap (pagetable va npages : Z) (do_free : bool) : M kmem unit :=
  if negb (va mod PGSIZE =? 0) then panic "uvmunmap: not aligned" else
  for_each (va_range va (u64 (va + u64 (npages * PGSIZE)))) (uvmunmap_one pagetable do_free).

Definition uvmdealloc (pagetable oldsz newsz : Z) : M kmem Z :=
  if oldsz <=? newsz then ret oldsz else
  (when (PGROUNDUP newsz <? PGROUNDUP oldsz) do
     let npages := s32 ((PGROUNDUP oldsz - PGROUNDUP newsz) / PGSIZE) in
     uvmunmap pagetable (PGROUNDUP newsz) npages true) ;;
  ret newsz.

(** [Some r] leaves the loop of [uvmalloc] with a [return r]. *)
Definition uvmalloc_one (pagetable oldsz xperm a : Z) : M kmem (option Z) :=
  mem <- kalloc ;;
  if mem =? 0 then uvmdealloc pagetable a oldsz ;; ret (Some 0) else
  memset_page mem 0 ;;
  r <- mappages pagetable a PGSIZE mem (Z.lor (Z.lor PTE_R PTE_U) xperm) ;;
  if negb (r =? 0) then
    kfree mem ;;
    uvmdealloc pagetable a oldsz ;;
    ret (Some 0)
  else ret None.

Definition uvmalloc (pagetable oldsz newsz xperm : Z) : M kmem Z :=
  if newsz <? oldsz then ret oldsz else
  let oldsz := PGROUNDUP oldsz in
  r <- for_find (va_range oldsz newsz) (uvmalloc_one pagetable oldsz xperm) ;;
  match r with
  | Some r => ret r
  | None => ret newsz
  end.

(** The depth of the recursion is the number of levels of the page table. *)
Fixpoint freewalk (fuel : nat) (pagetable : Z) : M kmem unit :=
  match fuel with
  | O => no_fuel
  | S fuel' =>
      for_each (seqZ 0 512) (fun i =>
        pte <- load (pagetable + 8 * i) ;;
        if negb (Z.land pte PTE_V =? 0) && (Z.land pte (Z.lor (Z.lor PTE_R PTE_W) PTE_X) =? 0) then
          freewalk fuel' (PTE2PA pte) ;;
          store (pagetable + 8 * i) 0
        else if negb (Z.land pte PTE_V =? 0) then panic "freewalk: leaf"
        else ret tt) ;;
      kfree pagetable
  end.
Definition levels : nat := 3.

Definition uvmfree (pagetable sz : Z) : M kmem unit :=
  (when (0 <? sz) do uvmunmap pagetable 0 (PGROUNDUP sz / PGSIZE) true) ;;
  freewalk levels pagetable.

(** [Some i] is the jump to [err]. *)
Definition uvmcopy_one (old new i : Z) : M kmem (option Z) :=
  pte <- walk old i false ;;
  if pte =? 0 then ret None else
  v <- load pte ;;
  if Z.land v PTE_V =? 0 then ret None else
  let pa := PTE2PA v in
  let flags := PTE_FLAGS v in
  mem <- kalloc ;;
  if mem =? 0 then ret (Some i) else
  memmove_page mem pa ;;
  r <- mappages new i PGSIZE mem flags ;;
  if negb (r =? 0) then kfree mem ;; ret (Some i) else ret None.

Definition uvmcopy (old new sz : Z) : M kmem Z :=
  r <- for_find (va_range 0 sz) (uvmcopy_one old new) ;;
  match r with
  | None => ret 0
  | Some i => uvmunmap new 0 (i / PGSIZE) true ;; ret (-1)
  end.

Definition uvmclear (pagetable va : Z) : M kmem unit :=
  pte <- walk pagetable va false ;;
  if pte =? 0 then panic "uvmclear" else
  v <- load pte ;;
  store pte (Z.land v (Z.lnot PTE_U)).

Definition ismapped (pagetable va : Z) : M kmem bool :=
  pte <- walk pagetable va false ;;
  if pte =? 0 then ret false else
  v <- load pte ;;
  ret (negb (Z.land v PTE_V =? 0)).

(** ** Page faults and copies between kernel and user memory *)

(** What these routines read of [myproc()]. *)
Record uproc := mkUproc { up_sz : Z; up_pagetable : Z }.

Definition vmfault (p : uproc) (pagetable va : Z) : M kmem Z :=
  if up_sz p <=? va then ret 0 else
  let va := PGROUNDDOWN va in
  b <- ismapped pagetable va ;;
  if b : bool then ret 0 else
  mem <- kalloc ;;
  if mem =? 0 then ret 0 else
  memset_page mem 0 ;;
  r <- mappages (up_pagetable p) va PGSIZE mem (Z.lor (Z.lor PTE_W PTE_U) PTE_R) ;;
  if negb (r =? 0) then kfree mem ;; ret 0 else
  ret mem.

(** [pa0 = walkaddr(...)], faulting the page in when it is not there. *)
Definition user_page (p : uproc) (pagetable va0 : Z) : M kmem Z :=
  pa0 <- walkaddr pagetable va0 ;;
  if pa0 =? 0 then vmfault p pagetable va0 else ret pa0.

(** Turns of a copy loop: a page each, the first and the last possibly cut
    short, and the test that ends it. *)
Definition copy_fuel (len : Z) : nat := Z.to_nat (len / PGSIZE) + 3.

Fixpoint copyout_loop (fuel : nat) (p : uproc) (pagetable dstva : Z) (src : list Z) : M kmem Z :=
  match fuel with
  | O => no_fuel
  | S fuel' =>
      if bool_decide (src = []) then ret 0 else
      let va0 := PGROUNDDOWN dstva in
      if MAXVA <=? va0 then ret (-1) else
      pa0 <- user_page p pagetable va0 ;;
      if pa0 =? 0 then ret (-1) else
      pte <- walk pagetable va0 false ;;
      v <- load pte ;;
      if Z.land v PTE_W =? 0 then ret (-1) else
      let n := Z.min (PGSIZE - (dstva - va0)) (Z.of_nat (length src)) in
      modify (fun s => set_mem (mwrite (pa0 + (dstva - va0)) (take (Z.to_nat n) src) (km_mem s)) s) ;;
      copyout_loop fuel' p pagetable (va0 + PGSIZE) (drop (Z.to_nat n) src)
  end.

Definition copyout (p : uproc) (pagetable dstva : Z) (src : list Z) : M kmem Z :=
  copyout_loop (copy_fuel (Z.of_nat (length src))) p pagetable dstva src.

(** [copyin] returns its status and the bytes it has stored at [dst]. *)
Fixpoint copyin_loop (fuel : nat) (p : uproc) (pagetable srcva len : Z) (dst : list Z) : M kmem (Z * list Z) :=
  match fuel with
  | O => no_fuel
  | S fuel' =>
      if len <=? 0 then ret (0, dst) else
      let va0 := PGROUNDDOWN srcva in
      pa0 <- user_page p pagetable va0 ;;
      if pa0 =? 0 then ret (-1, dst) else
      let n := Z.min (PGSIZE - (srcva - va0)) len in
      bs <- gets (fun s => mread (km_mem s) (pa0 + (srcva - va0)) n) ;;
      copyin_loop fuel' p pagetable (va0 + PGSIZE) (len - n) (dst ++ bs)
  end.

Definition copyin (p : uproc) (pagetable srcva len : Z) : M kmem (Z * list Z) :=
  copyin_loop (copy_fuel len) p pagetable srcva len [].

(** The bytes [bs] up to and including the first NUL, and whether there is
    one. *)
Fixpoint to_null (bs : list Z) : list Z * bool :=
  match bs with
  | [] => ([], false)
  | c :: bs' =>
      if c =? 0 then ([0], true) else
      let '(t, b) := to_null bs' in (c :: t, b)
  end.

Fixpoint copyinstr_loop (fuel : nat) (pagetable srcva max : Z) (dst : list Z) : M kmem (Z * list Z) :=
  match fuel with
  | O => no_fuel
  | S fuel' =>
      if max <=? 0 then ret (-1, dst) else
      let va0 := PGROUNDDOWN srcva in
      pa0 <- walkaddr pagetable va0 ;;
      if pa0 =? 0 then ret (-1, dst) else
      let n := Z.min (PGSIZE - (srcva - va0)) max in
      bs <- gets (fun s => mread (km_mem s) (pa0 + (srcva - va0)) n) ;;
      let '(t, got_null) := to_null bs in
      if got_null : bool then ret (0, dst ++ t)
      else copyinstr_loop fuel' pagetable (va0 + PGSIZE) (max - n) (dst ++ t)
  end.

Definition copyinstr (pagetable srcva max : Z) : M kmem (Z * list Z) :=
  copyinstr_loop (copy_fuel max) pagetable srcva max [].

(** ** The kernel's own page table *)

Record vm := mkVm {
  vm_kmem : kmem;
  kernel_pagetable : Z;
  vm_satp : Z            (* the satp register *)
}.
Definition vm_l : lens vm kmem := mkLens vm_kmem (fun k v => mkVm k (kernel_pagetable v) (vm_satp v)).

Definition MAKE_SATP (pagetable : Z) : Z := Z.lor (Z.shiftl 8 60) (Z.shiftr pagetable 12).

Definition kvminit : M vm unit :=
  p <- zoom vm_l kvmmake ;;
  modify (fun v => mkVm (vm_kmem v) p (vm_satp v)).

Definition kvminithart : M vm unit :=
  modify (fun v => mkVm (vm_kmem v) (kernel_pagetable v) (MAKE_SATP (kernel_pagetable v))).
