(* ===== verification/VmSpec.v ===== *)
(** * What a page table in memory means

    The pages of a Sv39 page table are described by a finite map [T] from
    index prefixes ([[]] for the root, [[i2]] and [[i2; i1]] for the lower
    levels) to page addresses.  The leaf entries then give, for each virtual
    page number, a page table entry.  *)

From S2P Require Import Prelude Param Spinlock Mem Kalloc Vm.

(** ** Page table entries *)

Lemma shiftr_aligned c : aligned c -> Z.shiftl (Z.shiftr c 12) 12 = c.
Proof.
  unfold aligned, PGSIZE. intros Ha. rewrite Z.shiftl_mul_pow2, Z.shiftr_div_pow2 by lia.
  change (2 ^ 12) with 4096. pose proof (Z.div_mod c 4096 ltac:(lia)). lia.
Qed.

Lemma shiftr_small x n : 0 <= n -> 0 <= x < 2 ^ n -> Z.shiftr x n = 0.
Proof. intros Hn Hx. rewrite Z.shiftr_div_pow2 by lia. by apply Z.div_small. Qed.

Lemma lor_range x y n : 0 < n -> 0 <= x < 2 ^ n -> 0 <= y < 2 ^ n -> 0 <= Z.lor x y < 2 ^ n.
Proof.
  intros Hn Hx Hy. split; [apply Z.lor_nonneg; lia|]. apply Z.log2_lt_cancel. rewrite Z.log2_lor by lia.
  rewrite Z.log2_pow2 by lia.
  apply Z.max_lub_lt.
  - destruct (decide (x = 0)) as [->|]; [simpl; lia|]. apply Z.log2_lt_pow2; lia.
  - destruct (decide (y = 0)) as [->|]; [simpl; lia|]. apply Z.log2_lt_pow2; lia.
Qed.

(** An entry for page [pa] with the permission bits [perm]. *)
Definition mkpte (pa perm : Z) : Z := Z.lor (Z.lor (PA2PTE pa) perm) PTE_V.

Definition phys (pa : Z) : Prop := aligned pa /\ 0 <= pa < 2 ^ 56.

Lemma PA2PTE_eq pa : phys pa -> PA2PTE pa = Z.shiftl (Z.shiftr pa 12) 10 /\ 0 <= PA2PTE pa < 2 ^ 54.
Proof.
  intros [Ha Hr]. unfold PA2PTE.
  assert (0 <= Z.shiftl (Z.shiftr pa 12) 10 < 2 ^ 54) as H.
  { rewrite Z.shiftl_mul_pow2, Z.shiftr_div_pow2 by lia. change (2 ^ 12) with 4096. change (2 ^ 10) with 1024.
    assert (0 <= pa / 4096 < 2 ^ 44); [|lia]. split; [apply Z.div_pos; lia|apply Z.div_lt_upper_bound; lia]. }
  rewrite u64_small by lia. done.
Qed.

Lemma mkpte_spec pa perm :
  phys pa -> 0 <= perm < 1024 ->
  0 <= mkpte pa perm < 2 ^ 64 /\ Z.land (mkpte pa perm) PTE_V = PTE_V /\
  PTE2PA (mkpte pa perm) = pa /\ PTE_FLAGS (mkpte pa perm) = Z.lor perm PTE_V.
Proof.
  intros Hp Hperm. destruct (PA2PTE_eq pa Hp) as [E Hr]. unfold mkpte.
  assert (0 <= Z.lor (Z.lor (PA2PTE pa) perm) PTE_V < 2 ^ 54) as Hb.
  { apply lor_range; [lia| |by vm_compute]. apply lor_range; lia. }
  split_and!; try lia.
  - apply Z.bits_inj'. intros n Hn. rewrite Z.land_spec, Z.lor_spec.
    destruct (Z.testbit PTE_V n); [by rewrite orb_true_r|by rewrite andb_false_r].
  - unfold PTE2PA. rewrite !Z.shiftr_lor. rewrite (shiftr_small perm 10), (shiftr_small PTE_V 10) by (done || lia).
    rewrite !Z.lor_0_r, E, Z.shiftr_shiftl_l by lia. simpl (10 - 10). rewrite Z.shiftl_0_r.
    destruct Hp as [Ha Hr']. rewrite shiftr_aligned by done. apply u64_small. lia.
  - unfold PTE_FLAGS. change 0x3FF with (Z.ones 10). rewrite !Z.land_lor_distr_l.
    rewrite E. rewrite Z.land_ones, Z.shiftl_mul_pow2, Z.mod_mul by lia. rewrite Z.lor_0_l.
    rewrite !Z.land_ones, !Z.mod_small by (done || lia). done.
Qed.

Lemma mkpte_table pa : Z.lor (PA2PTE pa) PTE_V = mkpte pa 0.
Proof. unfold mkpte. by rewrite Z.lor_0_r. Qed.

Lemma mkpte_leaf pa perm : Z.lor (Z.lor (PA2PTE pa) perm) PTE_V = mkpte pa perm.
Proof. done. Qed.

#[global] Opaque mkpte.

(** ** Indices of a virtual page number *)

Definition vpn (va : Z) : Z := va / PGSIZE.
Definition idx (level v : Z) : Z := (v / 512 ^ level) mod 512.

Lemma PX_idx level va : 0 <= level -> PX level va = idx level (vpn va).
Proof.
  intros Hl. unfold PX, idx, vpn, PXMASK, PXSHIFT, PGSHIFT, PGSIZE. change 0x1FF with (Z.ones 9).
  rewrite Z.land_ones, Z.shiftr_div_pow2 by lia. change (2 ^ 9) with 512. f_equal.
  rewrite Z.div_div by lia. f_equal. rewrite Z.pow_add_r, Z.pow_mul_r by lia. done.
Qed.

Definition maxvpn : Z := MAXVA / PGSIZE.

Lemma vpn_range va : 0 <= va < MAXVA -> 0 <= vpn va < maxvpn.
Proof.
  intros Hva. unfold vpn, maxvpn. split; [apply Z.div_pos; [lia|done]|].
  apply Z.div_lt_upper_bound; [done|].
  change (MAXVA / PGSIZE) with 67108864. change MAXVA with 274877906944 in Hva. unfold PGSIZE. lia.
Qed.

Lemma idx_inj v w :
  0 <= v < maxvpn -> 0 <= w < maxvpn ->
  idx 2 v = idx 2 w -> idx 1 v = idx 1 w -> idx 0 v = idx 0 w -> v = w.
Proof.
  unfold idx. change maxvpn with 67108864. change (512 ^ 2) with 262144. change (512 ^ 1) with 512.
  change (512 ^ 0) with 1. rewrite !Z.div_1_r. intros Hv Hw H2 H1 H0.
  rewrite (Z.mod_small (v / _)), (Z.mod_small (w / _)) in H2
    by (split; [apply Z.div_pos; lia|apply Z.div_lt_upper_bound; lia]).
  assert (v / 512 = w / 512) as H1'.
  { rewrite (Z.div_mod (v / 512) 512), (Z.div_mod (w / 512) 512) by lia. rewrite H1.
    rewrite !Z.div_div by lia. change (512 * 512) with 262144. by rewrite H2. }
  rewrite (Z.div_mod v 512), (Z.div_mod w 512) by lia. congruence.
Qed.

Lemma idx_range level v : 0 <= idx level v < 512.
Proof. apply Z.mod_pos_bound. lia. Qed.

(** ** The tree of page-table pages *)

Abbreviation tree := (gmap (list Z) Z).

Definition path_ok (p : list Z) : Prop := (length p <= 2)%nat /\ Forall (fun i => 0 <= i < 512) p.

Record pt_ok (sy : syms) (m : mem) (root : Z) (T : tree) : Prop := {
  pt_root : T !! [] = Some root;
  pt_page : forall p a, T !! p = Some a -> page_ok sy a /\ path_ok p;
  pt_inj : forall p q a, T !! p = Some a -> T !! q = Some a -> p = q;
  pt_prefix : forall p i, is_Some (T !! (p ++ [i])) -> is_Some (T !! p);
  pt_child : forall p a i, T !! p = Some a -> (length p < 2)%nat -> 0 <= i < 512 ->
    match T !! (p ++ [i]) with
    | Some c => load64 m (a + 8 * i) = mkpte c 0
    | None => Z.land (load64 m (a + 8 * i)) PTE_V = 0
    end
}.

Definition tpages (T : tree) : list Z := (map_to_list T).*2.

Lemma elem_tpages T a : a ∈ tpages T <-> exists p, T !! p = Some a.
Proof.
  unfold tpages. rewrite list_elem_of_fmap. split.
  - intros ([p b] & -> & H%elem_of_map_to_list). eauto.
  - intros (p & H%elem_of_map_to_list). by exists (p, a).
Qed.

(** Address and value of the leaf entry of a virtual page. *)
Definition leaf_addr (T : tree) (v : Z) : option Z := (fun a => a + 8 * idx 0 v) <$> T !! [idx 2 v; idx 1 v].
Definition leaf (m : mem) (T : tree) (v : Z) : Z :=
  match leaf_addr T v with Some a => load64 m a | None => 0 end.
