(* ===== verification/VmWalk.v ===== *)
(** * [walk] finds, and on request builds, the path to a leaf entry *)

From S2P Require Import Prelude Param Spinlock Mem Kalloc Vm VmSpec.

(** A page table [T] at [root] beside the free pages [fl]. *)
Record vm_ok (s : kmem) (root : Z) (T : tree) (fl : list Z) : Prop := {
  vo_kmem : kmem_ok s fl;
  vo_pt : pt_ok (km_syms s) (km_mem s) root T;
  vo_sep : forall p a, T !! p = Some a -> a ∉ fl
}.

Lemma page_ok_phys sy a : syms_ok sy -> page_ok sy a -> phys a /\ 0 < a.
Proof. intros Hs [Ha Hr]. unfold syms_ok, PHYSTOP, KERNBASE in *. split; [split; [done|]|]; lia. Qed.

Lemma pt_phys s root T fl p a : vm_ok s root T fl -> T !! p = Some a -> phys a /\ 0 < a.
Proof.
  intros [K P _] Ha. apply (page_ok_phys (km_syms s)); [apply K|]. by eapply pt_page.
Qed.

(** Memory that agrees on the pages of the table holds the same table. *)
Lemma pt_ok_agree sy m m' root T :
  pt_ok sy m root T -> (forall p a, T !! p = Some a -> agree m m' a PGSIZE) -> pt_ok sy m' root T.
Proof.
  intros [P1 P2 P3 P4 P5] Hag. split; try done. intros p a i Ha Hp Hi. specialize (P5 p a i Ha Hp Hi).
  rewrite (load64_agree m m'); [done|]. eapply agree_sub; [by eapply Hag|lia|unfold PGSIZE; lia].
Qed.

Lemma leaf_agree m m' T v :
  (forall p a, T !! p = Some a -> agree m m' a PGSIZE) -> leaf m' T v = leaf m T v.
Proof.
  intros Hag. unfold leaf, leaf_addr. destruct (T !! _) as [a|] eqn:E; [|done]. simpl.
  apply load64_agree. pose proof (idx_range 0 v). eapply agree_sub; [by eapply Hag|lia|unfold PGSIZE; lia].
Qed.

(** ** One level of [walk] *)

Lemma walk_present s root T fl p a c level ls va alloc :
  vm_ok s root T fl -> T !! p = Some a -> (length p < 2)%nat -> T !! (p ++ [PX level va]) = Some c ->
  walk_levels (level :: ls) a va alloc s = walk_levels ls c va alloc s.
Proof.
  intros V Ha Hp Hc. pose proof (PX_range level va) as Hi.
  pose proof (pt_child _ _ _ _ (vo_pt _ _ _ _ V) p a _ Ha Hp Hi) as He. rewrite Hc in He.
  destruct (pt_phys _ _ _ _ _ _ V Hc) as [Hph _].
  destruct (mkpte_spec c 0 Hph ltac:(lia)) as (_ & HV & HP & _).
  cbn [walk_levels]. unfold bind, load, gets. rewrite He, HV, HP. done.
Qed.

Lemma walk_absent s root T fl p a level ls va alloc :
  vm_ok s root T fl -> T !! p = Some a -> (length p < 2)%nat -> T !! (p ++ [PX level va]) = None ->
  walk_levels (level :: ls) a va alloc s =
  (if negb alloc then ret None else
   pagetable' <- kalloc ;;
   if pagetable' =? 0 then ret None
   else memset_page pagetable' 0 ;;
        store (a + 8 * PX level va) (Z.lor (PA2PTE pagetable') PTE_V) ;;
        walk_levels ls pagetable' va alloc) s.
Proof.
  intros V Ha Hp Hc. pose proof (PX_range level va) as Hi.
  pose proof (pt_child _ _ _ _ (vo_pt _ _ _ _ V) p a _ Ha Hp Hi) as He. rewrite Hc in He.
  cbn [walk_levels]. unfold bind at 1. unfold load, gets. rewrite He. done.
Qed.

Lemma snoc_inj {A} (p q : list A) i j : p ++ [i] = q ++ [j] -> p = q /\ i = j.
Proof. intros H. apply app_inj_tail in H. done. Qed.

(** The memory after a new page [c] has been cleared and hooked into entry
    [i] of page [a]. *)
Definition grow_mem (a i c : Z) (m : mem) : mem := store64 (a + 8 * i) (mkpte c 0) (mset c 0 PGSIZE m).

Lemma grow_other a i c m b j :
  aligned a -> aligned b -> aligned c -> b <> c -> a <> c -> 0 <= i < 512 -> 0 <= j < 512 ->
  (a, i) <> (b, j) -> load64 (grow_mem a i c m) (b + 8 * j) = load64 m (b + 8 * j).
Proof.
  intros Ha Hb Hc Hbc Hac Hi Hj Hne. apply load64_agree.
  eapply (agree_trans _ (mset c 0 PGSIZE m)).
  - apply agree_mset; [done|]. destruct (pages_apart b c Hb Hc Hbc); unfold PGSIZE in *; lia.
  - apply agree_store64. destruct (decide (a = b)) as [->|Hab].
    + assert (i <> j) by congruence. lia.
    + destruct (pages_apart a b Ha Hb Hab); unfold PGSIZE in *; lia.
Qed.

Lemma grow_self a i c m :
  aligned a -> aligned c -> a <> c -> phys c ->
  load64 (grow_mem a i c m) (a + 8 * i) = mkpte c 0 /\
  (0 <= i < 512 -> forall j, 0 <= j < 512 -> load64 (grow_mem a i c m) (c + 8 * j) = 0).
Proof.
  intros Ha Hc Hne Hp. split.
  - unfold grow_mem. rewrite load_store64. destruct (mkpte_spec c 0 Hp ltac:(lia)) as (Hr & _). by apply u64_small.
  - intros Hi j Hj. unfold grow_mem. rewrite (load64_agree (mset c 0 PGSIZE m)).
    + apply load_mset0; unfold PGSIZE; lia.
    + apply agree_store64. destruct (pages_apart a c Ha Hc Hne); unfold PGSIZE in *; lia.
Qed.

Lemma grow_pt sy m root T p a i c :
  syms_ok sy -> pt_ok sy m root T -> T !! p = Some a -> (length p < 2)%nat -> 0 <= i < 512 ->
  T !! (p ++ [i]) = None -> page_ok sy c -> (forall q, T !! q <> Some c) ->
  pt_ok sy (grow_mem a i c m) root (<[p ++ [i] := c]> T).
Proof.
  intros Hs [P1 P2 P3 P4 P5] Ha Hp Hi Hn Hc Hfresh.
  destruct (P2 p a Ha) as [[Hal _] [_ Hpr]]. assert (a <> c) as Hac by (intros ->; by eapply Hfresh).
  destruct (page_ok_phys sy c Hs Hc) as [Hph _].
  destruct (grow_self a i c m Hal (proj1 Hc) Hac Hph) as [G1 G2]. split.
  - rewrite lookup_insert_ne; [done|]. by destruct p.
  - intros q b. rewrite lookup_insert_Some. intros [[<- <-]|[_ Hb]]; [|by eapply P2].
    split; [exact Hc|]. split; [rewrite length_app; simpl; lia|]. apply Forall_app.
    split; [exact Hpr|]. constructor; [exact Hi|constructor].
  - clear G1 G2. intros q r b. rewrite !lookup_insert_Some. intros [[<- <-]|[_ Hb]] [[<- E]|[_ Hb']]; try done.
    + by apply Hfresh in Hb'.
    + subst b. by apply Hfresh in Hb.
    + by eapply P3.
  - clear G1 G2. intros q j Hq. destruct (decide (p ++ [i] = q)) as [->|Hne]; [by rewrite lookup_insert_eq|].
    rewrite lookup_insert_ne by done. rewrite lookup_insert_is_Some in Hq.
    destruct Hq as [[<- _]%snoc_inj|[_ Hq]]; [by eauto|by eapply P4].
  - intros q b j Hb Hq Hj. rewrite lookup_insert_Some in Hb. destruct Hb as [[<- <-]|[Hne Hb]].
    + rewrite lookup_insert_ne by (intros E%(f_equal length); rewrite !length_app in E; simpl in E; lia).
      destruct (T !! ((p ++ [i]) ++ [j])) eqn:E.
      * destruct (P4 (p ++ [i]) j) as [x Hx]; [by eauto|]. congruence.
      * by rewrite G2.
    + destruct (decide ((p, i) = (q, j))) as [[= -> ->]|Hpq].
      { rewrite Hb in Ha. injection Ha as ->. by rewrite lookup_insert_eq. }
      clear G1 G2. rewrite lookup_insert_ne by (intros [-> ->]%snoc_inj; done).
      assert (b <> c) by (intros ->; by eapply Hfresh).
      rewrite grow_other; try done; [by apply P5|apply (P2 q b Hb)|apply Hc|].
      intros [= -> ->]. apply Hpq. by rewrite (P3 _ _ _ Ha Hb).
Qed.

Lemma grow_leaf sy m root T p a i c v :
  pt_ok sy m root T -> T !! p = Some a -> (length p < 2)%nat -> 0 <= i < 512 ->
  T !! (p ++ [i]) = None -> page_ok sy c -> phys c -> (forall q, T !! q <> Some c) ->
  leaf (grow_mem a i c m) (<[p ++ [i] := c]> T) v = leaf m T v.
Proof.
  intros [P1 P2 P3 P4 P5] Ha Hp Hi Hn Hc Hph Hfresh. unfold leaf, leaf_addr.
  pose proof (idx_range 0 v) as Hv. destruct (P2 p a Ha) as [[Hal _] _].
  assert (a <> c) as Hac by (intros ->; by eapply Hfresh).
  destruct (decide (p ++ [i] = [idx 2 v; idx 1 v])) as [E|Hne].
  - rewrite E, lookup_insert_eq, <- E, Hn. simpl. by apply (grow_self a i c m Hal (proj1 Hc) Hac Hph).
  - rewrite lookup_insert_ne by done. destruct (T !! [idx 2 v; idx 1 v]) as [b|] eqn:E; [|done]. simpl.
    apply grow_other; try done; [apply (P2 _ _ E)|apply Hc|intros ->; by eapply Hfresh|].
    intros [= -> _]. assert (p = [idx 2 v; idx 1 v]) by by eapply P3. subst p. simpl in Hp. lia.
Qed.

(** ** The whole walk *)

(** [s'] extends the page table of [s]: new pages come from the free list, no
    leaf entry changes, and memory outside the table and the free pages is
    untouched. *)
Record pt_grown (s : kmem) (root : Z) (T : tree) (fl : list Z) (s' : kmem) (T' : tree) (fl' : list Z) : Prop := {
  pg_ok : vm_ok s' root T' fl';
  pg_sub : T ⊆ T';
  pg_new : exists new, fl = new ++ fl' /\ (forall p a, T' !! p = Some a -> T !! p = Some a \/ a ∈ new);
  pg_leaf : forall v, leaf (km_mem s') T' v = leaf (km_mem s) T v;
  pg_frame : kframe (tpages T ++ fl) s s'
}.

Lemma pt_grown_refl s root T fl : vm_ok s root T fl -> pt_grown s root T fl s T fl.
Proof.
  intros V. split; [done|done| |done|apply kframe_refl]. exists []. split; [done|]. by left.
Qed.

Lemma pt_grown_trans s1 s2 s3 root T1 T2 T3 f1 f2 f3 :
  pt_grown s1 root T1 f1 s2 T2 f2 -> pt_grown s2 root T2 f2 s3 T3 f3 -> pt_grown s1 root T1 f1 s3 T3 f3.
Proof.
  intros [A1 A2 (n1 & -> & A3) A4 A5] [B1 B2 (n2 & -> & B3) B4 B5]. split; [done| | | |].
  - by etransitivity.
  - exists (n1 ++ n2). split; [by rewrite app_assoc|]. intros p a Ha.
    destruct (B3 p a Ha) as [Ha'|Ha']; [|set_solver]. destruct (A3 p a Ha'); set_solver.
  - intros v. by rewrite B4, A4.
  - apply (kframe_sub ((tpages T1 ++ n1 ++ n2 ++ f3) ++ tpages T2 ++ n2 ++ f3)).
    + intros a. rewrite !elem_of_app, !elem_tpages. intros H. destruct H as [H|[(p & Ha)|H]]; [tauto| |tauto].
      destruct (A3 p a Ha); [left; eauto|tauto].
    + by eapply kframe_trans.
Qed.

Lemma tpages_aligned s root T fl : vm_ok s root T fl -> Forall aligned (tpages T).
Proof.
  intros [_ P _]. apply Forall_forall. intros a (p & Ha)%elem_tpages. by apply (pt_page _ _ _ _ P p a).
Qed.

(** Hooking a fresh page in at an absent entry. *)
Lemma wp_hook s root T c fl p a i :
  vm_ok s root T (c :: fl) -> T !! p = Some a -> (length p < 2)%nat -> 0 <= i < 512 ->
  T !! (p ++ [i]) = None ->
  wp (pagetable' <- kalloc ;; memset_page pagetable' 0 ;;
      store (a + 8 * i) (Z.lor (PA2PTE pagetable') PTE_V) ;; ret pagetable')
     (fun r s' => r = c /\ pt_grown s root T (c :: fl) s' (<[p ++ [i] := c]> T) fl) s.
Proof.
  intros V Ha Hp Hi Hn. pose proof V as [K P Hsep]. wp_step.
  wp_use (wp_kalloc s (c :: fl)); [done|]. intros r s1 (-> & K1 & F1 & _).
  unfold memset_page, store. wp_steps. rewrite mkpte_table. split; [done|].
  assert (forall q, T !! q <> Some c) as Hfresh by (intros q Hq; apply (Hsep q c Hq); set_solver).
  assert (page_ok (km_syms s) c) as Hc by (pose proof (ko_pages _ _ K) as Hf; by apply Forall_cons in Hf as [? _]).
  pose proof (ko_syms _ _ K) as Hs. destruct (page_ok_phys _ _ Hs Hc) as [Hph _].
  assert (c ∉ fl) as Hcf by (pose proof (ko_nodup _ _ K) as Hd; by apply NoDup_cons in Hd as [? _]).
  destruct F1 as (M1 & E1 & S1).
  assert (forall q b, T !! q = Some b -> agree (km_mem s) (km_mem s1) b PGSIZE) as Hag.
  { intros q b Hb. eapply mframe_agree; [exact M1|apply (pt_page _ _ _ _ P q b Hb)|by constructor; [apply Hc|]|].
    intros ->%list_elem_of_singleton. by eapply Hfresh. }
  assert (pt_ok (km_syms s) (km_mem s1) root T) as P1 by by eapply pt_ok_agree.
  assert (aligned a) as Hal by apply (pt_page _ _ _ _ P p a Ha).
  assert (mframe [a; c] (km_mem s1) (grow_mem a i c (km_mem s1))) as M2.
  { apply (mframe_sub ([c] ++ [a])); [set_solver|].
    eapply mframe_trans; [apply mframe_mset|apply mframe_store; unfold PGSIZE; lia]. }
  split.
  - split; cbn [set_mem km_mem km_syms].
    + apply (kmem_ok_frame s1 _ fl [a; c]); [done|exact M2|repeat constructor; [done|apply Hc]|].
      intros b [->|[->|[]%elem_of_nil]%elem_of_cons]%elem_of_cons; [|done].
      intros Hin. apply (Hsep p a Ha). set_solver.
    + rewrite S1. by apply grow_pt.
    + intros q b. rewrite lookup_insert_Some. intros [[<- <-]|[_ Hb]]; [done|].
      intros Hin. apply (Hsep q b Hb). set_solver.
  - by apply insert_subseteq.
  - exists [c]. split; [done|]. intros q b. rewrite lookup_insert_Some. intros [[_ <-]|[_ Hb]]; [right; set_solver|by left].
  - intros v. cbn [set_mem km_mem]. rewrite <- (leaf_agree (km_mem s) (km_mem s1) T v Hag). by eapply grow_leaf.
  - split_and!; cbn [set_mem km_mem km_syms km_env]; [|done|done].
    apply (mframe_sub ([c] ++ [a; c])); [|by eapply mframe_trans].
    assert (a ∈ tpages T) by (apply elem_tpages; eauto). set_solver.
Qed.

Lemma walk_read s root T fl va :
  vm_ok s root T fl -> 0 <= va < MAXVA -> walk root va false s = Ok (default 0 (leaf_addr T (vpn va))) s.
Proof.
  intros V Hva. unfold walk. rewrite (proj2 (Z.leb_gt MAXVA va)) by lia. unfold bind.
  pose proof (pt_root _ _ _ _ (vo_pt _ _ _ _ V)) as Hroot. unfold leaf_addr.
  rewrite <- !PX_idx by lia.
  destruct (T !! [PX 2 va]) as [a1|] eqn:E1.
  - rewrite (walk_present s root T fl [] root a1) by (done || simpl; lia).
    destruct (T !! [PX 2 va; PX 1 va]) as [a0|] eqn:E0.
    + by rewrite (walk_present s root T fl [PX 2 va] a1 a0) by (done || simpl; lia).
    + by rewrite (walk_absent s root T fl [PX 2 va] a1) by (done || simpl; lia).
  - rewrite (walk_absent s root T fl [] root) by (done || simpl; lia). simpl.
    destruct (T !! [PX 2 va; PX 1 va]) eqn:E0; [|done].
    destruct (pt_prefix _ _ _ _ (vo_pt _ _ _ _ V) [PX 2 va] (PX 1 va)) as [x Hx]; [by eexists|]. congruence.
Qed.

(** One level of an allocating walk: the page at the next level, if memory
    suffices. *)
Definition level_done (s : kmem) (root : Z) (T : tree) (fl : list Z) (p : list Z) (i : Z)
    (r : option Z) (s' : kmem) : Prop :=
  exists T' fl', pt_grown s root T fl s' T' fl' /\
    match r with
    | None => fl' = []
    | Some c => T' !! (p ++ [i]) = Some c
    end.

Lemma wp_level s root T fl p a level ls va {A} (k : option Z -> M kmem A) Q :
  vm_ok s root T fl -> T !! p = Some a -> (length p < 2)%nat ->
  (forall c s', level_done s root T fl p (PX level va) (Some c) s' ->
     wp (r <- walk_levels ls c va true ;; k r) Q s') ->
  (forall s', level_done s root T fl p (PX level va) None s' -> wp (k None) Q s') ->
  wp (r <- walk_levels (level :: ls) a va true ;; k r) Q s.
Proof.
  intros V Ha Hp Hk Hnone. destruct (T !! (p ++ [PX level va])) as [c|] eqn:E.
  - unfold wp, bind. rewrite (walk_present s root T fl p a c) by done.
    apply (Hk c s). exists T, fl. split; [by apply pt_grown_refl|done].
  - unfold wp, bind. rewrite (walk_absent s root T fl p a) by done. cbn [negb].
    destruct fl as [|c fl].
    + destruct (wp_Ok _ _ _ (wp_kalloc s [] (vo_kmem _ _ _ _ V))) as (r & s' & Er & -> & K' & F').
      unfold bind. rewrite Er. cbn. apply (Hnone s'). exists T, []. split; [|done]. destruct F' as (M1 & E1 & S1).
      assert (forall q b, T !! q = Some b -> agree (km_mem s) (km_mem s') b PGSIZE) as Hag.
      { intros q b Hb x Hx. apply M1. set_solver. }
      split; [|done| | |].
      * split; [done|rewrite S1; eapply pt_ok_agree; [apply V|done]|set_solver].
      * exists []. split; [done|]. by left.
      * intros v. by apply leaf_agree.
      * eapply kframe_sub; [|split_and!; [exact M1|done|done]]. set_solver.
    + pose proof (wp_hook s root T c fl p a (PX level va) V Ha Hp (PX_range _ _) E) as Hw.
      unfold wp, bind in Hw. unfold bind. destruct (kalloc s) as [r s1| | |]; [|done..].
      destruct (memset_page r 0 s1) as [[] s2| | |] eqn:Em; [|done..].
      destruct (store _ _ s2) as [[] s3| | |] eqn:Es; [|done..]. destruct Hw as [-> Hg].
      destruct (pt_phys s3 root (<[p ++ [PX level va] := c]> T) fl (p ++ [PX level va]) c) as [_ Hc0];
        [apply Hg|by rewrite lookup_insert_eq|].
      rewrite (proj2 (Z.eqb_neq c 0)) by lia. rewrite Em, Es. apply (Hk c s3).
      exists (<[p ++ [PX level va] := c]> T), fl. split; [done|by rewrite lookup_insert_eq].
Qed.

Lemma wp_walk_alloc s root T fl va :
  vm_ok s root T fl -> 0 <= va < MAXVA ->
  wp (walk root va true) (fun r s' => exists T' fl', pt_grown s root T fl s' T' fl' /\
    ((r = 0 /\ fl' = []) \/ (leaf_addr T' (vpn va) = Some r /\ 0 < r))) s.
Proof.
  intros V Hva. unfold walk. rewrite (proj2 (Z.leb_gt MAXVA va)) by lia.
  pose proof (pt_root _ _ _ _ (vo_pt _ _ _ _ V)) as Hroot.
  eapply (wp_level s root T fl []); [done|done|simpl; lia| |].
  - intros c s1 (T1 & f1 & G1 & H1). eapply (wp_level s1 root T1 f1 [PX 2 va]); [apply G1|done|simpl; lia| |].
    + intros c2 s2 (T2 & f2 & G2 & H2). cbn [walk_levels]. wp_steps. exists T2, f2.
      split; [by eapply pt_grown_trans|]. right. unfold leaf_addr. rewrite <- !PX_idx by lia.
      cbn [app] in H2. rewrite H2. split; [done|].
      destruct (pt_phys s2 root T2 f2 _ c2 (pg_ok _ _ _ _ _ _ _ G2) H2). pose proof (PX_range 0 va). lia.
    + intros s2 (T2 & f2 & G2 & H2). wp_steps. exists T2, f2. split; [by eapply pt_grown_trans|by left].
  - intros s1 (T1 & f1 & G1 & H1). wp_steps. exists T1, f1. split; [done|by left].
Qed.
