(* ===== verification/VmMap.v ===== *)
(** * [mappages] adds translations *)

From S2P Require Import Prelude Param Spinlock Mem Kalloc Vm VmSpec VmWalk.

(** [s'] has the leaf entries [L]; its page table extends that of [s] with
    pages of the free list. *)
Record pt_to (s : kmem) (root : Z) (T : tree) (fl : list Z) (s' : kmem) (T' : tree) (fl' : list Z)
    (L : Z -> Z) : Prop := {
  pto_ok : vm_ok s' root T' fl';
  pto_new : exists new, fl = new ++ fl' /\ (forall p a, T' !! p = Some a -> T !! p = Some a \/ a ∈ new);
  pto_leaf : forall v, 0 <= v < maxvpn -> leaf (km_mem s') T' v = L v;
  pto_frame : kframe (tpages T ++ fl) s s'
}.

Lemma pt_grown_to s root T fl s' T' fl' :
  pt_grown s root T fl s' T' fl' -> pt_to s root T fl s' T' fl' (leaf (km_mem s) T).
Proof. intros [A1 A2 A3 A4 A5]. by split. Qed.

Lemma pt_to_refl s root T fl : vm_ok s root T fl -> pt_to s root T fl s T fl (leaf (km_mem s) T).
Proof. intros V. by apply pt_grown_to, pt_grown_refl. Qed.

Lemma pt_to_trans s1 s2 s3 root T1 T2 T3 f1 f2 f3 L2 L3 :
  pt_to s1 root T1 f1 s2 T2 f2 L2 -> pt_to s2 root T2 f2 s3 T3 f3 L3 -> pt_to s1 root T1 f1 s3 T3 f3 L3.
Proof.
  intros [A1 (n1 & -> & A3) A4 A5] [B1 (n2 & -> & B3) B4 B5]. split; [done| |done|].
  - exists (n1 ++ n2). split; [by rewrite app_assoc|]. intros p a Ha.
    destruct (B3 p a Ha) as [Ha'|Ha']; [|set_solver]. destruct (A3 p a Ha'); set_solver.
  - apply (kframe_sub ((tpages T1 ++ n1 ++ n2 ++ f3) ++ tpages T2 ++ n2 ++ f3)).
    + intros a. rewrite !elem_of_app, !elem_tpages. intros H. destruct H as [H|[(p & Ha)|H]]; [tauto| |tauto].
      destruct (A3 p a Ha); [left; eauto|tauto].
    + by eapply kframe_trans.
Qed.

Lemma pt_to_leaf s root T fl s' T' fl' L L' :
  pt_to s root T fl s' T' fl' L -> (forall v, 0 <= v < maxvpn -> L v = L' v) -> pt_to s root T fl s' T' fl' L'.
Proof. intros [A1 A2 A3 A4] H. split; try done. intros v Hv. by rewrite A3, H. Qed.

(** ** Writing a leaf entry *)

Lemma leaf_addr_Some s root T fl v r :
  vm_ok s root T fl -> leaf_addr T v = Some r ->
  exists a, T !! [idx 2 v; idx 1 v] = Some a /\ r = a + 8 * idx 0 v /\ aligned a /\ 0 < r.
Proof.
  intros V H. unfold leaf_addr in H. destruct (T !! _) as [a|] eqn:E; [|done]. injection H as <-.
  exists a. pose proof (idx_range 0 v). destruct (pt_phys _ _ _ _ _ _ V E) as [[? _] ?]. split_and!; try done. lia.
Qed.

Lemma store_leaf s root T fl v r val :
  vm_ok s root T fl -> leaf_addr T v = Some r -> 0 <= v < maxvpn -> 0 <= val < 2 ^ 64 ->
  pt_to s root T fl (set_mem (store64 r val (km_mem s)) s) T fl
    (fun w => if decide (w = v) then val else leaf (km_mem s) T w).
Proof.
  intros V Hr Hv Hval. destruct (leaf_addr_Some _ _ _ _ _ _ V Hr) as (a & Ea & -> & Hal & _).
  pose proof (idx_range 0 v) as Hi0. pose proof V as [K P Hsep].
  assert (mframe [a] (km_mem s) (store64 (a + 8 * idx 0 v) val (km_mem s))) as Hf
    by (apply mframe_store; unfold PGSIZE; lia).
  assert (forall p b, T !! p = Some b -> p <> [idx 2 v; idx 1 v] ->
            agree (km_mem s) (store64 (a + 8 * idx 0 v) val (km_mem s)) b PGSIZE) as Hag.
  { intros p b Hb Hne. eapply mframe_agree; [exact Hf|apply (pt_page _ _ _ _ P p b Hb)|by constructor|].
    intros ->%list_elem_of_singleton. apply Hne. by eapply (pt_inj _ _ _ _ P). }
  split; cbn [set_mem km_mem km_syms].
  - split; cbn [set_mem km_mem km_syms]; [| |done].
    + apply (kmem_ok_frame s _ fl [a]); [done|done|by constructor|].
      intros b ->%list_elem_of_singleton. by eapply Hsep.
    + destruct P as [P1 P2 P3 P4 P5]. split; try done. intros p b i Hb Hp Hi. specialize (P5 p b i Hb Hp Hi).
      rewrite (load64_agree (km_mem s)); [done|]. eapply agree_sub; [eapply Hag; [done|]|lia|unfold PGSIZE; lia].
      intros ->. simpl in Hp. lia.
  - exists []. split; [done|]. by left.
  - intros w Hw. unfold leaf. destruct (leaf_addr T w) as [r'|] eqn:Er.
    + destruct (leaf_addr_Some _ _ _ _ _ _ V Er) as (b & Eb & -> & _ & _). case_decide as Hwv.
      * subst w. rewrite Ea in Eb. injection Eb as <-. rewrite load_store64. by apply u64_small.
      * apply load64_agree. pose proof (idx_range 0 w).
        destruct (decide ([idx 2 w; idx 1 w] = [idx 2 v; idx 1 v])) as [E|E].
        -- rewrite E, Ea in Eb. injection Eb as <-. injection E as E2 E1. apply agree_store64.
           assert (idx 0 w <> idx 0 v) by (intros E0; apply Hwv; by apply idx_inj). lia.
        -- eapply agree_sub; [by eapply Hag|lia|unfold PGSIZE; lia].
    + case_decide as Hwv; [subst; congruence|done].
  - split_and!; cbn [set_mem km_mem km_env km_syms]; [|done|done].
    eapply mframe_sub; [|exact Hf]. assert (a ∈ tpages T) by (apply elem_tpages; eauto). set_solver.
Qed.

(** ** mappages *)

(** The entries [L] after [j] pages from page [v] on were mapped to physical
    memory from [pa] on. *)
Definition map_upd (v : Z) (j : nat) (pa perm : Z) (L : Z -> Z) (w : Z) : Z :=
  if decide (v <= w < v + Z.of_nat j) then mkpte (pa + (w - v) * PGSIZE) perm else L w.

Lemma map_upd_step v j pa perm (L L' : Z -> Z) w :
  (forall u, 0 <= u < maxvpn -> L' u = if decide (u = v) then mkpte pa perm else L u) -> 0 <= w < maxvpn ->
  map_upd (v + 1) j (pa + PGSIZE) perm L' w = map_upd v (S j) pa perm L w.
Proof.
  intros H Hw. unfold map_upd. repeat case_decide; try lia.
  - f_equal. unfold PGSIZE. lia.
  - rewrite H, decide_True by lia. f_equal. unfold PGSIZE. lia.
  - rewrite H, decide_False by lia. done.
Qed.

Lemma vpn_next a : vpn (a + PGSIZE) = vpn a + 1.
Proof. unfold vpn, PGSIZE. rewrite <- (Z.mul_1_l 4096) at 1. rewrite Z.div_add by lia. done. Qed.

Lemma vpn_in a k n :
  0 <= a -> a + n * PGSIZE <= MAXVA -> 0 <= k < n -> 0 <= vpn a + k < maxvpn.
Proof.
  intros Ha Hm Hk. replace (vpn a + k) with (vpn (a + k * PGSIZE)) by (unfold vpn; by rewrite Z.div_add).
  apply vpn_range. unfold PGSIZE in *. nia.
Qed.

Lemma phys_next pa : phys pa -> pa + PGSIZE < 2 ^ 56 -> phys (pa + PGSIZE).
Proof.
  intros [Ha Hr] Hb. split; [|unfold PGSIZE in *; lia]. unfold aligned, PGSIZE in *.
  rewrite <- (Z.mul_1_l 4096) at 1. by rewrite Z.mod_add.
Qed.

Definition map_done (s : kmem) (root : Z) (T : tree) (fl : list Z) (v : Z) (n : nat) (pa perm r : Z) (s' : kmem) : Prop :=
  exists j T' fl', pt_to s root T fl s' T' fl' (map_upd v j pa perm (leaf (km_mem s) T)) /\
    ((r = 0 /\ j = n) \/ (r = -1 /\ (j < n)%nat /\ fl' = [])).

(** One turn of the loop: either memory runs out, or the page is mapped and
    the loop goes on with [k]. *)
Lemma wp_map_page s root T fl a pa perm (k : M kmem Z) (Q : Z -> kmem -> Prop) :
  vm_ok s root T fl -> 0 <= a < MAXVA -> phys pa -> 0 <= perm < 1024 ->
  Z.land (leaf (km_mem s) T (vpn a)) PTE_V = 0 ->
  (forall s' T', pt_to s root T fl s' T' [] (leaf (km_mem s) T) -> Q (-1) s') ->
  (forall s' T' fl', pt_to s root T fl s' T' fl' (map_upd (vpn a) 1 pa perm (leaf (km_mem s) T)) -> wp k Q s') ->
  wp (pte <- walk root a true ;;
      if pte =? 0 then ret (-1) else
      v <- load pte ;;
      if negb (Z.land v PTE_V =? 0) then panic "mappages: remap" else
      store pte (Z.lor (Z.lor (PA2PTE pa) perm) PTE_V) ;; k) Q s.
Proof.
  intros V Ha Hpa Hperm Hfree Hfail Hk. wp_step. wp_use (wp_walk_alloc s root T fl a); [done|done|].
  intros r s1 (T1 & f1 & G1 & [[-> ->]|[Hr Hr0]]).
  { apply wp_ret. eapply Hfail. by apply pt_grown_to. }
  rewrite (proj2 (Z.eqb_neq r 0)) by lia. pose proof (vpn_range a Ha) as Hv.
  destruct (mkpte_spec pa perm Hpa Hperm) as (Hm & _).
  pose proof (store_leaf s1 root T1 f1 (vpn a) r (mkpte pa perm) (pg_ok _ _ _ _ _ _ _ G1) Hr Hv Hm) as P2.
  assert (load64 (km_mem s1) r = leaf (km_mem s) T (vpn a)) as Hold
    by (rewrite <- (pg_leaf _ _ _ _ _ _ _ G1); unfold leaf; by rewrite Hr).
  unfold load, store. wp_steps. rewrite Hold, Hfree. cbn [Z.eqb negb]. wp_steps. rewrite mkpte_leaf.
  eapply (Hk _ T1 f1). eapply pt_to_trans; [by apply pt_grown_to|]. eapply pt_to_leaf; [exact P2|].
  intros w Hw. cbv beta. unfold map_upd. repeat case_decide; try lia; [|by apply G1].
  subst w. f_equal. lia.
Qed.

Lemma mappages_loop_S n root a last pa perm :
  mappages_loop (S n) root a last pa perm =
  (pte <- walk root a true ;;
   if pte =? 0 then ret (-1) else
   v <- load pte ;;
   if negb (Z.land v PTE_V =? 0) then panic "mappages: remap" else
   store pte (Z.lor (Z.lor (PA2PTE pa) perm) PTE_V) ;;
   if a =? last then ret 0 else
   mappages_loop n root (u64 (a + PGSIZE)) last (u64 (pa + PGSIZE)) perm).
Proof. done. Qed.

Lemma wp_mappages_loop n s root T fl a pa perm :
  vm_ok s root T fl -> 0 <= a -> a + Z.of_nat (S n) * PGSIZE <= MAXVA ->
  phys pa -> pa + Z.of_nat n * PGSIZE < 2 ^ 56 -> 0 <= perm < 1024 ->
  (forall k, 0 <= k < Z.of_nat (S n) -> Z.land (leaf (km_mem s) T (vpn a + k)) PTE_V = 0) ->
  wp (mappages_loop (S n) root a (a + Z.of_nat n * PGSIZE) pa perm)
     (map_done s root T fl (vpn a) (S n) pa perm) s.
Proof.
  revert s T fl a pa. induction n as [|n IH]; intros s T fl a pa V Ha Hmax Hpa Hpn Hperm Hfree;
    rewrite mappages_loop_S; (eapply (wp_map_page s root T fl); [done|unfold PGSIZE in *; lia|done|done| | |]);
    try (rewrite <- (Z.add_0_r (vpn a)); apply Hfree; lia);
    try (intros s' T' P'; exists O, T', []; split; [|right; split_and!; [done|lia|done]];
         eapply pt_to_leaf; [done|]; intros w Hw; unfold map_upd; by rewrite decide_False by lia);
    intros s1 T1 f1 P1.
  - rewrite (proj2 (Z.eqb_eq a _)) by lia. apply wp_ret. exists 1%nat, T1, f1. split; [done|by left].
  - rewrite (proj2 (Z.eqb_neq a _)) by (unfold PGSIZE; lia).
    rewrite !u64_small by (unfold PGSIZE in *; change MAXVA with (2 ^ 38) in *; destruct Hpa; lia).
    replace (a + Z.of_nat (S n) * PGSIZE) with ((a + PGSIZE) + Z.of_nat n * PGSIZE) by lia.
    eapply wp_mono; [apply (IH s1 T1 f1 (a + PGSIZE) (pa + PGSIZE))|]; try done.
    + apply P1.
    + unfold PGSIZE; lia.
    + lia.
    + apply phys_next; [done|]. unfold PGSIZE in *. lia.
    + lia.
    + intros k Hk. rewrite vpn_next, (pto_leaf _ _ _ _ _ _ _ _ P1) by (replace (vpn a + 1 + k) with (vpn a + (k + 1)) by lia; eapply vpn_in; [done|exact Hmax|lia]).
      unfold map_upd. rewrite decide_False by lia.
      replace (vpn a + 1 + k) with (vpn a + (k + 1)) by lia. apply Hfree. lia.
    + intros r' s' (j & T' & fl' & P3 & Hres). exists (S j), T', fl'. split.
      * eapply pt_to_trans; [exact P1|]. eapply pt_to_leaf; [exact P3|].
        intros w Hw. rewrite vpn_next. apply map_upd_step; [|done]. intros u Hu.
        rewrite (pto_leaf _ _ _ _ _ _ _ _ P1) by done. unfold map_upd. repeat case_decide; try lia.
        f_equal. lia.
      * destruct Hres as [[-> ->]|(-> & Hj & ->)]; [by left|right; split_and!; [done|lia|done]].
Qed.

Lemma wp_mappages s root T fl va n pa perm :
  vm_ok s root T fl -> aligned va -> 0 <= va -> (0 < n)%nat -> va + Z.of_nat n * PGSIZE <= MAXVA ->
  phys pa -> pa + Z.of_nat n * PGSIZE <= 2 ^ 56 -> 0 <= perm < 1024 ->
  (forall k, 0 <= k < Z.of_nat n -> Z.land (leaf (km_mem s) T (vpn va + k)) PTE_V = 0) ->
  wp (mappages root va (Z.of_nat n * PGSIZE) pa perm) (map_done s root T fl (vpn va) n pa perm) s.
Proof.
  intros V Hal Hva Hn Hmax Hpa Hpn Hperm Hfree. unfold mappages. rewrite (proj2 (Z.eqb_eq _ _) Hal).
  rewrite Z.mod_mul by done. cbn [Z.eqb negb]. rewrite (proj2 (Z.eqb_neq _ 0)) by (unfold PGSIZE; lia).
  rewrite Z.div_mul, Nat2Z.id by done. destruct n as [|n]; [lia|].
  replace (va + Z.of_nat (S n) * PGSIZE - PGSIZE) with (va + Z.of_nat n * PGSIZE) by lia.
  rewrite u64_small by (unfold PGSIZE in *; change MAXVA with (2 ^ 38) in *; lia).
  apply wp_mappages_loop; try done. unfold PGSIZE in *. lia.
Qed.
