(* ===== verification/VmUser.v ===== *)
(** * User address spaces: page faults and copies

    The memory a process sees is a partial function from virtual addresses to
    bytes: a page below the size of the process that has no entry yet reads
    as zeros, because the kernel allocates it on first use.  *)

From S2P Require Import Prelude Param Spinlock Mem Kalloc Vm VmSpec VmWalk VmMap.

(** The physical page a user page is mapped to. *)
Definition upage (L : Z -> Z) (v : Z) : option Z :=
  if Z.land (L v) PTE_V =? 0 then None else
  if Z.land (L v) PTE_U =? 0 then None else Some (PTE2PA (L v)).

(** Pages below the trapframe belong to the process; the trapframe and the
    trampoline above it are the kernel's. *)
Definition ulimit : Z := vpn TRAPFRAME.
Definition dpage (L : Z -> Z) (v : Z) : option Z :=
  if Z.land (L v) PTE_V =? 0 then None else Some (PTE2PA (L v)).

(** The byte a user program of size [sz] sees at [va]. *)
Definition view (m : mem) (L : Z -> Z) (sz va : Z) : option Z :=
  if Z.land (L (vpn va)) PTE_V =? 0 then
    if PGROUNDDOWN va <? sz then Some 0 else None
  else
    (fun pa => mget m (pa + va mod PGSIZE)) <$> upage L (vpn va).

(** The process's pages are managed pages, in use once, and neither free nor
    part of the page table. *)
Record us_ok (s : kmem) (root : Z) (T : tree) (fl : list Z) (L : Z -> Z) : Prop := {
  us_vm : vm_ok s root T fl;
  us_leaf : forall v, 0 <= v < maxvpn -> leaf (km_mem s) T v = L v;
  us_dpage : forall v pa, 0 <= v < ulimit -> dpage L v = Some pa ->
    page_ok (km_syms s) pa /\ (pa ∉ tpages T) /\ (pa ∉ fl);
  us_dinj : forall v w pa, 0 <= v < ulimit -> 0 <= w < ulimit ->
    dpage L v = Some pa -> dpage L w = Some pa -> v = w;
  us_top : forall v, ulimit <= v < maxvpn -> upage L v = None
}.

Lemma ulimit_range : 0 < ulimit < maxvpn.
Proof. by vm_compute. Qed.

Lemma upage_dpage s root T fl L v pa :
  us_ok s root T fl L -> 0 <= v < maxvpn -> upage L v = Some pa -> 0 <= v < ulimit /\ dpage L v = Some pa.
Proof.
  intros U Hv E. destruct (decide (v < ulimit)) as [|Hge].
  - split; [lia|]. unfold upage, dpage in *. repeat case_match; naive_solver.
  - rewrite (us_top _ _ _ _ _ U) in E by lia. done.
Qed.

Lemma us_page s root T fl L v pa :
  us_ok s root T fl L -> 0 <= v < maxvpn -> upage L v = Some pa ->
  page_ok (km_syms s) pa /\ (pa ∉ tpages T) /\ (pa ∉ fl).
Proof. intros U Hv E. destruct (upage_dpage _ _ _ _ _ _ _ U Hv E) as [? ?]. by eapply us_dpage. Qed.

Lemma us_inj s root T fl L v w pa :
  us_ok s root T fl L -> 0 <= v < maxvpn -> 0 <= w < maxvpn ->
  upage L v = Some pa -> upage L w = Some pa -> v = w.
Proof.
  intros U Hv Hw E E'. destruct (upage_dpage _ _ _ _ _ _ _ U Hv E), (upage_dpage _ _ _ _ _ _ _ U Hw E').
  by eapply us_dinj.
Qed.

Lemma us_sub_new s root T fl s' T' fl' L a :
  pt_to s root T fl s' T' fl' L -> (a ∉ tpages T) -> (a ∉ fl) -> (a ∉ tpages T') /\ (a ∉ fl').
Proof.
  intros [_ (new & -> & Hn) _ _] Ht Hf. split; [|set_solver].
  intros (p & Ha)%elem_tpages. destruct (Hn p a Ha) as [Ha'|]; [|set_solver]. apply Ht, elem_tpages. eauto.
Qed.

(** Growing the page table leaves the address space as it is. *)
Lemma us_ok_grow s root T fl L s' T' fl' :
  us_ok s root T fl L -> pt_to s root T fl s' T' fl' L -> us_ok s' root T' fl' L.
Proof.
  intros [V Hl Hp Hi Ho] P. split; [apply P|apply P| |done|done]. intros v pa Hv Hu.
  destruct (Hp v pa Hv Hu) as (Ha & Ht & Hf). rewrite (proj2 (proj2 (pto_frame _ _ _ _ _ _ _ _ P))).
  split; [done|]. by eapply us_sub_new.
Qed.

Lemma view_frame s root T fl L s' sz va ps :
  us_ok s root T fl L -> mframe ps (km_mem s) (km_mem s') -> ps ⊆ tpages T ++ fl -> 0 <= va < MAXVA ->
  view (km_mem s') L sz va = view (km_mem s) L sz va.
Proof.
  intros U Hf Hps Hva. unfold view. destruct (Z.land (L (vpn va)) PTE_V =? 0); [done|].
  destruct (upage L (vpn va)) as [pa|] eqn:E; [|done]. simpl. f_equal.
  destruct (us_page _ _ _ _ _ _ _ U (vpn_range va Hva) E) as ([Hal _] & Ht & Hfr).
  pose proof (Z.mod_pos_bound va PGSIZE ltac:(done)).
  assert (Forall aligned (tpages T ++ fl)) as Hal'.
  { apply Forall_app. split; [eapply tpages_aligned, U|].
    eapply Forall_impl; [apply (ko_pages _ _ (vo_kmem _ _ _ _ (us_vm _ _ _ _ _ U)))|]. by intros x [? _]. }
  apply (mframe_agree (tpages T ++ fl) (km_mem s) (km_mem s') pa); [by eapply mframe_sub|done|done|set_solver|lia].
Qed.

(** What a fault may do: the address space has the entries [L'], and every
    user byte is what it was. *)
Record faulted (s : kmem) (root : Z) (T : tree) (fl : list Z) (L : Z -> Z) (sz : Z)
    (s' : kmem) (T' : tree) (fl' : list Z) (L' : Z -> Z) : Prop := {
  fa_ok : us_ok s' root T' fl' L';
  fa_view : forall va, 0 <= va < MAXVA -> view (km_mem s') L' sz va = view (km_mem s) L sz va;
  fa_keep : forall v, 0 <= v < maxvpn -> Z.land (L v) PTE_V <> 0 -> L' v = L v;
  fa_write : forall v, 0 <= v < maxvpn -> Z.land (L v) PTE_V = 0 ->
    Z.land (L' v) PTE_V <> 0 -> Z.land (L' v) PTE_W <> 0;
  fa_users : forall v a, 0 <= v < ulimit -> dpage L' v = Some a ->
    dpage L v = Some a \/ a ∈ tpages T ++ fl;
  fa_pages : tpages T' ++ fl' ⊆ tpages T ++ fl;
  fa_frame : kframe (tpages T ++ fl) s s'
}.

Lemma faulted_refl s root T fl L sz : us_ok s root T fl L -> faulted s root T fl L sz s T fl L.
Proof. intros U. split; try done. by left. Qed.

Lemma pt_to_pages s root T fl s' T' fl' L :
  pt_to s root T fl s' T' fl' L -> tpages T' ++ fl' ⊆ tpages T ++ fl.
Proof.
  intros [_ (new & -> & Hn) _ _] a. rewrite !elem_of_app, !elem_tpages. intros [(p & Ha)|]; [|tauto].
  destruct (Hn p a Ha); [left; eauto|tauto].
Qed.

Lemma faulted_trans s1 s2 s3 root T1 T2 T3 f1 f2 f3 L1 L2 L3 sz :
  faulted s1 root T1 f1 L1 sz s2 T2 f2 L2 -> faulted s2 root T2 f2 L2 sz s3 T3 f3 L3 ->
  faulted s1 root T1 f1 L1 sz s3 T3 f3 L3.
Proof.
  intros [A1 A2 A3 AW A3' A4 A5] [B1 B2 B3 BW B3' B4 B5]. split; [done| | | | | |].
  - intros va Hva. by rewrite B2, A2.
  - intros v Hv Hnz. rewrite B3, A3; [done..|]. by rewrite A3.
  - intros v Hv Hz Hnz. destruct (decide (Z.land (L2 v) PTE_V = 0)) as [|Hnz2]; [by apply BW|].
    rewrite B3 by done. by apply AW.
  - intros v a Hv Ha. destruct (B3' v a Hv Ha) as [Ha'|Ha']; [by apply A3'|]. right. by apply A4.
  - by etransitivity.
  - eapply kframe_sub; [|by eapply kframe_trans]. set_solver.
Qed.

Lemma grow_faulted s root T fl L sz s' T' fl' :
  us_ok s root T fl L -> pt_to s root T fl s' T' fl' L -> faulted s root T fl L sz s' T' fl' L.
Proof.
  intros U P. split; [by eapply us_ok_grow| |done|done|by left|by eapply pt_to_pages|apply P].
  intros va Hva. eapply view_frame; [done|apply P|done|done].
Qed.

Lemma vpn_aligned va : aligned va -> va = vpn va * PGSIZE.
Proof. unfold aligned, vpn. intros Ha. pose proof (Z.div_mod va PGSIZE ltac:(done)). lia. Qed.

Lemma vpn_rounddown va : vpn (PGROUNDDOWN va) = vpn va /\ PGROUNDDOWN va = vpn va * PGSIZE.
Proof.
  rewrite PGROUNDDOWN_eq. unfold vpn. pose proof (Z.div_mod va PGSIZE ltac:(done)).
  replace (va - va mod PGSIZE) with (va / PGSIZE * PGSIZE) by lia. by rewrite Z.div_mul.
Qed.

Lemma vpn_below va : 0 <= va < TRAPFRAME -> 0 <= vpn va < ulimit.
Proof.
  intros Hva. change ulimit with 67108862. change TRAPFRAME with (67108862 * 4096) in Hva. unfold vpn, PGSIZE.
  split; [apply Z.div_pos; lia|apply Z.div_lt_upper_bound; lia].
Qed.

(** ** A fresh page *)

Lemma us_ok_mem s root T fl L m ps :
  us_ok s root T fl L -> mframe ps (km_mem s) m -> Forall aligned ps ->
  (forall a, a ∈ ps -> (a ∉ tpages T) /\ (a ∉ fl)) -> us_ok (set_mem m s) root T fl L.
Proof.
  intros [V Hl Hp Hi Ho] Hf Hal Hd. pose proof V as [K P Hsep].
  assert (forall p a, T !! p = Some a -> agree (km_mem s) m a PGSIZE) as Hag.
  { intros p a Ha. eapply mframe_agree; [done|apply (pt_page _ _ _ _ P p a Ha)|done|].
    intros Hin. apply (proj1 (Hd a Hin)), elem_tpages. eauto. }
  split; cbn [set_mem km_mem km_syms]; [|intros v Hv; rewrite <- Hl by done; by apply leaf_agree|done|done|done].
  split; cbn [set_mem km_mem km_syms]; [|by eapply pt_ok_agree|done].
  eapply kmem_ok_frame; [done|done|done|]. intros a Ha. by apply Hd.
Qed.

(** A page taken off the free list and cleared. *)
Record fresh (s : kmem) (T : tree) (L : Z -> Z) (c : Z) (fl : list Z) (s' : kmem) : Prop := {
  fr_page : page_ok (km_syms s) c;
  fr_free : c ∉ fl;
  fr_table : c ∉ tpages T;
  fr_user : forall v, 0 <= v < ulimit -> dpage L v <> Some c;
  fr_zero : forall x, c <= x < c + PGSIZE -> mget (km_mem s') x = 0;
  fr_frame : kframe [c] s s'
}.

Lemma wp_zalloc {A} s root T fl L (k0 : M kmem A) (k : Z -> M kmem A) Q :
  us_ok s root T fl L ->
  (forall s', fl = [] -> us_ok s' root T [] L -> kframe [] s s' -> wp k0 Q s') ->
  (forall c fl' s', fl = c :: fl' -> us_ok s' root T fl' L -> fresh s T L c fl' s' -> wp (k c) Q s') ->
  wp (mem <- kalloc ;; if mem =? 0 then k0 else memset_page mem 0 ;; k mem) Q s.
Proof.
  intros U H0 Hk. pose proof U as [V Hl Hp Hi Ho]. pose proof V as [K P Hsep]. wp_step.
  wp_use (wp_kalloc s fl K). intros r s1. destruct fl as [|c fl].
  - intros (-> & K1 & F1). cbn. apply H0; [done| |done]. destruct F1 as (M1 & E1 & S1).
    pose proof (us_ok_mem s root T [] L (km_mem s1) [] U M1 ltac:(constructor) ltac:(set_solver)) as [[K2 P2 S2] L2 Hp2 Hi2 Ho2].
    split; [split; [done|by rewrite S1|done]|done|by rewrite S1|done|done].
  - intros (-> & K1 & (M1 & E1 & S1) & _).
    assert (page_ok (km_syms s) c /\ (c ∉ fl)) as [Hc Hcf].
    { pose proof (ko_pages _ _ K) as Hf. pose proof (ko_nodup _ _ K) as Hd.
      apply Forall_cons in Hf as [? _]. by apply NoDup_cons in Hd as [? _]. }
    assert (c ∉ tpages T) as Hct by (intros (p & Ha)%elem_tpages; apply (Hsep p c Ha); set_solver).
    destruct (page_ok_phys _ _ (ko_syms _ _ K) Hc) as [_ Hc0]. rewrite (proj2 (Z.eqb_neq c 0)) by lia.
    unfold memset_page. wp_steps.
    assert (mframe [c] (km_mem s) (mset c 0 PGSIZE (km_mem s1))) as M2.
    { apply (mframe_sub ([c] ++ [c])); [set_solver|]. eapply mframe_trans; [done|apply mframe_mset]. }
    eapply (Hk c fl); [done| |].
    + assert (us_ok s1 root T fl L) as U1.
      { split; [split; [done|rewrite S1; eapply pt_ok_agree; [done|]|]| | |done|done].
        - intros p a Ha. eapply mframe_agree; [exact M1|apply (pt_page _ _ _ _ P p a Ha)|by constructor; [apply Hc|]|].
          intros ->%list_elem_of_singleton. apply Hct, elem_tpages. eauto.
        - intros p a Ha Hin. apply (Hsep p a Ha). set_solver.
        - intros v Hv. rewrite <- Hl by done. apply leaf_agree. intros p a Ha.
          eapply mframe_agree; [exact M1|apply (pt_page _ _ _ _ P p a Ha)|by constructor; [apply Hc|]|].
          intros ->%list_elem_of_singleton. apply Hct, elem_tpages. eauto.
        - intros v pa Hv Hu. rewrite S1. destruct (Hp v pa Hv Hu) as (? & ? & ?). split_and!; [done|done|set_solver]. }
      eapply us_ok_mem; [exact U1|apply mframe_mset|by constructor; [apply Hc|]|].
      by intros a ->%list_elem_of_singleton.
    + split; cbn [set_mem km_mem]; try done.
      * intros v Hv Hu. destruct (Hp v c Hv Hu) as (_ & _ & Hn). set_solver.
      * intros x Hx. by rewrite mget_mset, decide_True by (unfold PGSIZE in *; lia).
Qed.

(** A page that belongs to nobody. *)
Definition unowned (s : kmem) (T : tree) (fl : list Z) (L : Z -> Z) (c : Z) : Prop :=
  page_ok (km_syms s) c /\ (c ∉ fl) /\ (c ∉ tpages T) /\ forall v, 0 <= v < ulimit -> dpage L v <> Some c.

Lemma fresh_unowned s T L c fl s' : fresh s T L c fl s' -> unowned s' T fl L c.
Proof. intros [? ? ? ? ? (_ & _ & S1)]. rewrite <- S1 in *. by split_and!. Qed.

Lemma wp_us_kfree s root T fl L c :
  us_ok s root T fl L -> unowned s T fl L c ->
  wp (kfree c) (fun _ s' => us_ok s' root T (c :: fl) L /\ kframe [c] s s') s.
Proof.
  intros U (Hc & Hf & Ht & Hu). pose proof U as [[K P Hsep] Hl Hp Hi Ho].
  eapply wp_mono; [by apply (wp_kfree s fl c)|]. intros [] s' (K' & F'). split; [|done].
  destruct F' as (M1 & E1 & S1).
  assert (forall p a, T !! p = Some a -> agree (km_mem s) (km_mem s') a PGSIZE) as Hag.
  { intros p a Ha. eapply mframe_agree; [exact M1|apply (pt_page _ _ _ _ P p a Ha)|by constructor; [apply Hc|]|].
    intros ->%list_elem_of_singleton. apply Ht, elem_tpages. eauto. }
  split; [split; [done|rewrite S1; by eapply pt_ok_agree|]| | |done|done].
  - intros p a Ha [->|Hin]%elem_of_cons; [apply Ht, elem_tpages; eauto|by eapply Hsep].
  - intros v Hv. rewrite <- Hl by done. by apply leaf_agree.
  - intros v pa Hv E. rewrite S1. destruct (Hp v pa Hv E) as (? & ? & ?). split_and!; [done|done|].
    intros [->|?]%elem_of_cons; [|done]. by eapply Hu.
Qed.

Lemma map_upd_other v pa perm L w : w <> v -> map_upd v 1 pa perm L w = L w.
Proof. intros H. unfold map_upd. by rewrite decide_False by lia. Qed.

Lemma map_upd_here v pa perm L : map_upd v 1 pa perm L v = mkpte pa perm.
Proof. unfold map_upd. rewrite decide_True by lia. f_equal. lia. Qed.

Lemma upage_other v pa perm L w : w <> v -> upage (map_upd v 1 pa perm L) w = upage L w.
Proof. intros H. unfold upage. by rewrite map_upd_other. Qed.

Lemma dpage_other v pa perm L w : w <> v -> dpage (map_upd v 1 pa perm L) w = dpage L w.
Proof. intros H. unfold dpage. by rewrite map_upd_other. Qed.

Lemma dpage_here v pa perm L : phys pa -> 0 <= perm < 1024 -> dpage (map_upd v 1 pa perm L) v = Some pa.
Proof.
  intros Hp Hr. unfold dpage. rewrite map_upd_here. destruct (mkpte_spec pa perm Hp Hr) as (_ & HV & E & _).
  by rewrite HV, E.
Qed.

(** Mapping a page nobody owns. *)
Lemma us_ok_map s root T fl L s' T' fl' v c perm :
  us_ok s root T fl L -> unowned s T fl L c -> 0 <= perm < 1024 -> 0 <= v < ulimit ->
  pt_to s root T fl s' T' fl' (map_upd v 1 c perm L) -> us_ok s' root T' fl' (map_upd v 1 c perm L).
Proof.
  intros U (Hc & Hf & Ht & Hu) Hperm Hv P. pose proof U as [V Hl Hp Hi Ho].
  assert (phys c) as Hph by (eapply page_ok_phys; [apply (ko_syms _ _ (vo_kmem _ _ _ _ V))|done]).
  pose proof (proj2 (proj2 (pto_frame _ _ _ _ _ _ _ _ P))) as S1.
  split; [apply P|apply P| | |].
  - intros w pa Hw E. rewrite S1. destruct (decide (w = v)) as [->|Hne].
    + rewrite dpage_here in E by done. injection E as <-. split; [done|]. by eapply us_sub_new.
    + rewrite dpage_other in E by done. destruct (Hp w pa Hw E) as (? & ? & ?). split; [done|]. by eapply us_sub_new.
  - intros w1 w2 pa H1 H2 E1 E2. destruct (decide (w1 = v)) as [->|N1], (decide (w2 = v)) as [->|N2]; [done| | |].
    + rewrite dpage_here in E1 by done. injection E1 as <-. rewrite dpage_other in E2 by done. by apply Hu in E2.
    + rewrite dpage_here in E2 by done. injection E2 as <-. rewrite dpage_other in E1 by done. by apply Hu in E1.
    + rewrite dpage_other in E1, E2 by done. by eapply Hi.
  - intros w Hw. rewrite upage_other by lia. by apply Ho.
Qed.

Lemma wp_map_unowned s root T fl L va c perm :
  us_ok s root T fl L -> unowned s T fl L c -> 0 <= perm < 1024 -> aligned va -> 0 <= va < TRAPFRAME ->
  Z.land (L (vpn va)) PTE_V = 0 ->
  wp (mappages root va PGSIZE c perm) (fun r s' => exists T' fl', kframe (tpages T ++ fl) s s' /\
    tpages T' ++ fl' ⊆ tpages T ++ fl /\
    ((r = 0 /\ us_ok s' root T' fl' (map_upd (vpn va) 1 c perm L)) \/
     (r = -1 /\ fl' = [] /\ us_ok s' root T' fl' L /\ unowned s' T' fl' L c))) s.
Proof.
  intros U Hun Hperm Hal Hva Hfree. pose proof U as [V Hl Hp Hi Ho]. pose proof Hun as (Hc & Hf & Ht & Hu).
  assert (phys c) as Hph by (eapply page_ok_phys; [apply (ko_syms _ _ (vo_kmem _ _ _ _ V))|done]).
  pose proof (vpn_below va Hva) as Hu'. pose proof ulimit_range.
  assert (0 <= vpn va < maxvpn) as Hv by lia. pose proof (vpn_aligned va Hal) as Hvs.
  replace PGSIZE with (Z.of_nat 1 * PGSIZE) at 1 by lia. eapply wp_mono.
  - apply (wp_mappages s root T fl va 1 c perm); try done; try lia.
    + change maxvpn with 67108864 in Hv. change MAXVA with 274877906944. unfold PGSIZE in *. lia.
    + destruct Hc as [_ Hc]. unfold PHYSTOP, KERNBASE, PGSIZE in *. lia.
    + intros k Hk. assert (k = 0) as -> by lia. rewrite Z.add_0_r, Hl by done. done.
  - intros r s' (j & T' & fl' & P & Hres). exists T', fl'. split; [apply P|]. split; [by eapply pt_to_pages|].
    destruct Hres as [[-> ->]|(-> & Hj & ->)].
    + left. split; [done|]. eapply us_ok_map; [done|done|done|done|]. eapply pt_to_leaf; [exact P|].
      intros w Hw. unfold map_upd. case_decide; [done|by apply Hl].
    + right. assert (j = O) as -> by lia. assert (pt_to s root T fl s' T' [] L) as P'.
      { eapply pt_to_leaf; [exact P|]. intros w Hw. unfold map_upd. rewrite decide_False by lia. by apply Hl. }
      split_and!; [done|done|by eapply us_ok_grow|].
      destruct (us_sub_new _ _ _ _ _ _ _ _ c P Ht Hf). split_and!; try done.
      by rewrite (proj2 (proj2 (pto_frame _ _ _ _ _ _ _ _ P))).
Qed.
