(* ===== verification/VmCopy.v ===== *)
(** * [vmfault], [copyin], [copyout] and [copyinstr] on the user's memory *)

From S2P Require Import Prelude Param Spinlock Mem Kalloc Vm VmSpec VmWalk VmMap VmUser.

Lemma mkpte_bits pa perm b :
  phys pa -> 0 <= perm < 1024 -> 0 <= b < 1024 ->
  Z.land (mkpte pa perm) b = Z.land (Z.lor perm PTE_V) b.
Proof.
  intros Hp Hr Hb. destruct (mkpte_spec pa perm Hp Hr) as (_ & _ & _ & E). unfold PTE_FLAGS in E.
  rewrite <- E, <- Z.land_assoc. f_equal. rewrite Z.land_comm. change 0x3FF with (Z.ones 10).
  rewrite Z.land_ones, Z.mod_small by lia. done.
Qed.

Lemma upage_pos s root T fl L v pa :
  us_ok s root T fl L -> 0 <= v < maxvpn -> upage L v = Some pa -> 0 < pa.
Proof.
  intros U Hv E. destruct (us_page _ _ _ _ _ _ _ U Hv E) as (Hc & _).
  eapply page_ok_phys; [|done]. apply (ko_syms _ _ (vo_kmem _ _ _ _ (us_vm _ _ _ _ _ U))).
Qed.

Lemma walk_entry s root T fl L va :
  us_ok s root T fl L -> 0 <= va < MAXVA ->
  exists r, walk root va false s = Ok r s /\
    ((r = 0 /\ L (vpn va) = 0) \/ (0 < r /\ leaf_addr T (vpn va) = Some r /\ load64 (km_mem s) r = L (vpn va))).
Proof.
  intros U Hva. pose proof U as [V Hl _ _]. rewrite (walk_read s root T fl va V Hva). eexists. split; [done|].
  specialize (Hl (vpn va) (vpn_range va Hva)). unfold leaf in Hl. destruct (leaf_addr T (vpn va)) as [r|] eqn:E.
  - right. destruct (leaf_addr_Some _ _ _ _ _ _ V E) as (_ & _ & _ & _ & Hr). by split_and!.
  - left. by split.
Qed.

Lemma walkaddr_read s root T fl L va :
  us_ok s root T fl L -> 0 <= va ->
  walkaddr root va s = Ok (if MAXVA <=? va then 0 else default 0 (upage L (vpn va))) s.
Proof.
  intros U Hva. unfold walkaddr. destruct (Z.leb_spec MAXVA va); [done|].
  destruct (walk_entry s root T fl L va U ltac:(lia)) as (r & Er & [[-> E0]|(Hr & _ & Hld)]);
    rewrite (bind_Ok _ _ _ _ _ Er); unfold upage.
  - rewrite E0. done.
  - rewrite (proj2 (Z.eqb_neq r 0)) by lia. unfold bind, load, gets. rewrite Hld.
    destruct (Z.land (L (vpn va)) PTE_V =? 0); [done|]. by destruct (Z.land (L (vpn va)) PTE_U =? 0).
Qed.

Lemma ismapped_read s root T fl L va :
  us_ok s root T fl L -> 0 <= va < MAXVA ->
  ismapped root va s = Ok (negb (Z.land (L (vpn va)) PTE_V =? 0)) s.
Proof.
  intros U Hva. unfold ismapped.
  destruct (walk_entry s root T fl L va U Hva) as (r & Er & [[-> E0]|(Hr & _ & Hld)]);
    rewrite (bind_Ok _ _ _ _ _ Er).
  - by rewrite E0.
  - rewrite (proj2 (Z.eqb_neq r 0)) by lia. unfold bind, load, gets. by rewrite Hld.
Qed.

(** ** vmfault *)

(** A zeroed page mapped where the user had none is invisible. *)
Lemma view_fault m L v c perm sz va :
  phys c -> 0 <= perm < 1024 -> Z.land (Z.lor perm PTE_V) PTE_U <> 0 ->
  Z.land (L v) PTE_V = 0 -> v * PGSIZE < sz -> 0 <= va < MAXVA ->
  (forall x, c <= x < c + PGSIZE -> mget m x = 0) ->
  view m (map_upd v 1 c perm L) sz va = view m L sz va.
Proof.
  intros Hc Hperm HU Hv Hsz Hva Hz. unfold view. destruct (decide (vpn va = v)) as [<-|Hne].
  - rewrite map_upd_here. destruct (mkpte_spec c perm Hc Hperm) as (_ & HV & HP & _). rewrite HV, Hv.
    change (PTE_V =? 0) with false. cbn [Z.eqb]. destruct (vpn_rounddown va) as [_ ->].
    rewrite (proj2 (Z.ltb_lt _ _)) by done. unfold upage. rewrite map_upd_here, HV, mkpte_bits by done.
    change (PTE_V =? 0) with false. rewrite (proj2 (Z.eqb_neq _ 0) HU), HP. simpl. f_equal. apply Hz.
    pose proof (Z.mod_pos_bound va PGSIZE ltac:(done)). lia.
  - by rewrite upage_other, map_upd_other.
Qed.

Definition fault_perm : Z := Z.lor (Z.lor PTE_W PTE_U) PTE_R.

Definition vmfault_done (s : kmem) (root : Z) (T : tree) (fl : list Z) (L : Z -> Z) (sz v r : Z) (s' : kmem) : Prop :=
  exists T' fl' L', faulted s root T fl L sz s' T' fl' L' /\
    ((r = 0 /\ (sz <= v * PGSIZE \/ Z.land (L v) PTE_V <> 0 \/ (length fl' <= 1)%nat)) \/
     (upage L' v = Some r /\ Z.land (L' v) PTE_W <> 0)).

Lemma us_ok_view_mem s root T fl L s' sz va :
  us_ok s root T fl L -> 0 <= va < MAXVA ->
  (forall v pa, 0 <= v < maxvpn -> upage L v = Some pa -> agree (km_mem s) (km_mem s') pa PGSIZE) ->
  view (km_mem s') L sz va = view (km_mem s) L sz va.
Proof.
  intros U Hva Hag. unfold view. destruct (Z.land (L (vpn va)) PTE_V =? 0); [done|].
  destruct (upage L (vpn va)) as [pa|] eqn:E; [|done]. simpl. f_equal.
  pose proof (Z.mod_pos_bound va PGSIZE ltac:(done)). apply (Hag _ _ (vpn_range va Hva) E). lia.
Qed.

Lemma kframe_user s root T fl L s' ps sz va :
  us_ok s root T fl L -> kframe ps s s' -> Forall aligned ps -> 0 <= va < MAXVA ->
  (forall v pa, 0 <= v < maxvpn -> upage L v = Some pa -> pa ∉ ps) ->
  view (km_mem s') L sz va = view (km_mem s) L sz va.
Proof.
  intros U (M1 & _) Hal Hva Hn. eapply us_ok_view_mem; [done|done|]. intros v pa Hv E.
  eapply mframe_agree; [exact M1|apply (us_page _ _ _ _ _ _ _ U Hv E)|done|by eapply Hn].
Qed.

Lemma table_pages_aligned s root T fl : vm_ok s root T fl -> Forall aligned (tpages T ++ fl).
Proof.
  intros V. apply Forall_app. split; [by eapply tpages_aligned|].
  eapply Forall_impl; [apply (ko_pages _ _ (vo_kmem _ _ _ _ V))|]. by intros x [? _].
Qed.

Lemma wp_vmfault s root T fl L sz va :
  us_ok s root T fl L -> sz <= TRAPFRAME -> aligned va -> 0 <= va < MAXVA ->
  wp (vmfault (mkUproc sz root) root va) (vmfault_done s root T fl L sz (vpn va)) s.
Proof.
  intros U Hsz Hal Hva. unfold vmfault. cbn [up_sz up_pagetable]. pose proof (vpn_aligned va Hal) as Hvs.
  assert (PGROUNDDOWN va = va) as -> by (destruct (vpn_rounddown va) as [_ E]; lia).
  destruct (Z.leb_spec sz va).
  { apply wp_ret. exists T, fl, L. split; [by apply faulted_refl|]. left. split; [done|]. left. lia. }
  unfold wp. rewrite (bind_Ok _ _ _ _ _ (ismapped_read s root T fl L va U Hva)).
  destruct (Z.eqb_spec (Z.land (L (vpn va)) PTE_V) 0) as [Hfree|Hne]; cbn [negb].
  2:{ exists T, fl, L. split; [by apply faulted_refl|]. left. split; [done|]. by right; left. }
  eapply (wp_zalloc s root T fl L); [done| |].
  { intros s1 -> U1 F1. apply wp_ret. exists T, [], L. split; [|left; split; [done|right; right; simpl; lia]].
    split; [done| |done|done|by left|done|eapply kframe_sub; [|done]; set_solver].
    intros a Ha. eapply kframe_user; [done|done|constructor|done|set_solver]. }
  intros c fl1 s1 -> U1 Fr. pose proof (fresh_unowned _ _ _ _ _ _ Fr) as Hun.
  destruct Fr as [Hc Hcf Hct Hcu Hz F1]. wp_step.
  wp_use (wp_map_unowned s1 root T fl1 L va c fault_perm); [done|done|done|done|lia|done|].
  intros r s2 (T' & fl' & F2 & Hpg & Hres).
  assert (forall a, 0 <= a < MAXVA -> view (km_mem s2) L sz a = view (km_mem s) L sz a) as Hview.
  { intros a Ha. transitivity (view (km_mem s1) L sz a).
    - eapply kframe_user; [exact U1|exact F2|by eapply table_pages_aligned, U1|done|].
      intros v pa Hv E. destruct (us_page _ _ _ _ _ _ _ U1 Hv E) as (_ & ? & ?). set_solver.
    - eapply kframe_user; [exact U|exact F1|by constructor; [apply Hc|]|done|].
      intros v pa Hv E ->%list_elem_of_singleton. destruct (upage_dpage _ _ _ _ _ _ _ U Hv E). by eapply Hcu. }
  assert (kframe (tpages T ++ c :: fl1) s s2) as F3.
  { eapply kframe_sub; [|by eapply kframe_trans]. set_solver. }
  destruct Hres as [[-> U2]|(-> & -> & U2 & Hun2)]; cbn [Z.eqb negb].
  - apply wp_ret. exists T', fl', (map_upd (vpn va) 1 c fault_perm L).
    assert (phys c) as Hph by (eapply page_ok_phys; [apply (ko_syms _ _ (vo_kmem _ _ _ _ (us_vm _ _ _ _ _ U)))|done]).
    split.
    + split; [done| | | | |set_solver|done].
      * intros a Ha. rewrite view_fault; [by apply Hview|done|done|done|done|lia|done|].
        intros x Hx. rewrite <- (Hz x Hx).
        apply (mframe_agree (tpages T ++ fl1) (km_mem s1) (km_mem s2) c);
          [apply F2|apply Hc|by eapply table_pages_aligned, U1|set_solver|done].
      * intros v Hv Hnz. apply map_upd_other. by intros ->.
      * intros v Hv Hz0 Hnz. destruct (decide (v = vpn va)) as [->|Hne]; [|by rewrite map_upd_other in Hnz].
        by rewrite map_upd_here, mkpte_bits.
      * intros v a Hv Ha. destruct (decide (v = vpn va)) as [->|Hne]; [|left; by rewrite dpage_other in Ha].
        rewrite dpage_here in Ha by done. injection Ha as <-. right. set_solver.
    + right. unfold upage. rewrite map_upd_here.
      destruct (mkpte_spec c fault_perm Hph ltac:(done)) as (_ & HV & HP & _).
      rewrite HV, !mkpte_bits, HP by done. by split.
  - wp_step. wp_use (wp_us_kfree s2 root T' [] L c); [done|done|]. intros [] s3 (U3 & F4).
    apply wp_ret. exists T', [c], L. split; [|left; split; [done|right; right; simpl; lia]].
    split; [done| |done|done|by left|set_solver|].
    + intros a Ha. rewrite <- Hview by done. eapply kframe_user; [exact U2|exact F4|by constructor; [apply Hc|]|done|].
      intros v pa Hv E ->%list_elem_of_singleton. destruct (upage_dpage _ _ _ _ _ _ _ U2 Hv E).
      by eapply (proj2 (proj2 (proj2 Hun2))).
    + eapply kframe_sub; [|by eapply kframe_trans]. set_solver.
Qed.

(** ** Copies *)

(** User memory; there is none at or above [MAXVA]. *)
Definition ubyte (m : mem) (L : Z -> Z) (sz va : Z) : option Z :=
  if MAXVA <=? va then None else view m L sz va.

Lemma faulted_ubyte s root T fl L sz s' T' fl' L' va :
  faulted s root T fl L sz s' T' fl' L' -> 0 <= va -> ubyte (km_mem s') L' sz va = ubyte (km_mem s) L sz va.
Proof. intros F Hva. unfold ubyte. destruct (Z.leb_spec MAXVA va); [done|]. apply F. lia. Qed.

Lemma in_page va i :
  0 <= i < PGSIZE - va mod PGSIZE -> (va + i) mod PGSIZE = va mod PGSIZE + i /\ vpn (va + i) = vpn va.
Proof.
  intros Hi. pose proof (Z.mod_pos_bound va PGSIZE ltac:(done)). pose proof (Z.div_mod va PGSIZE ltac:(done)).
  unfold vpn. replace (va + i) with (va mod PGSIZE + i + va / PGSIZE * PGSIZE) by lia.
  rewrite Z.mod_add, Z.div_add by done. rewrite Z.mod_small, Z.div_small by lia. lia.
Qed.

Lemma ubyte_page m L sz va pa i :
  upage L (vpn va) = Some pa -> 0 <= i < PGSIZE - va mod PGSIZE -> 0 <= va < MAXVA ->
  ubyte m L sz (va + i) = Some (mget m (pa + va mod PGSIZE + i)).
Proof.
  intros E Hi Hva. destruct (in_page va i Hi) as [Hm Hv]. unfold ubyte, view.
  assert (va + i < MAXVA) as Hlt.
  { change MAXVA with (67108864 * PGSIZE) in *. pose proof (Z.div_mod va PGSIZE ltac:(done)).
    assert (va / PGSIZE < 67108864) by (apply Z.div_lt_upper_bound; lia). unfold PGSIZE in *. lia. }
  rewrite (proj2 (Z.leb_gt MAXVA (va + i))) by done. rewrite Hv, Hm, E.
  unfold upage in E. destruct (Z.land (L (vpn va)) PTE_V =? 0); [done|]. simpl. do 2 f_equal. lia.
Qed.

(** The page for an address is found, or faulted in; if not, the address is
    not the user's or memory has run out. *)
Lemma wp_user_page s root T fl L sz va :
  us_ok s root T fl L -> sz <= TRAPFRAME -> aligned va -> 0 <= va ->
  wp (user_page (mkUproc sz root) root va) (fun r s' => exists T' fl' L',
    faulted s root T fl L sz s' T' fl' L' /\
    ((r = 0 /\ (ubyte (km_mem s) L sz va = None \/ (upage L (vpn va) = None /\ (length fl' <= 1)%nat))) \/
     (0 < r /\ va < MAXVA /\ upage L' (vpn va) = Some r))) s.
Proof.
  intros U Hsz Hal Hva. unfold user_page, wp. rewrite (bind_Ok _ _ _ _ _ (walkaddr_read s root T fl L va U Hva)).
  destruct (Z.leb_spec MAXVA va) as [Hbig|Hlt].
  - cbn. unfold vmfault. cbn [up_sz]. rewrite (proj2 (Z.leb_le sz va)) by (unfold TRAPFRAME, TRAMPOLINE, PGSIZE in *; lia). exists T, fl, L.
    split; [by apply faulted_refl|]. left. split; [done|]. left. unfold ubyte. by rewrite (proj2 (Z.leb_le MAXVA va)).
  - pose proof (vpn_range va ltac:(lia)) as Hv. destruct (upage L (vpn va)) as [pa|] eqn:E; cbn [default].
    + pose proof (upage_pos _ _ _ _ _ _ _ U Hv E). simpl. rewrite (proj2 (Z.eqb_neq pa 0)) by lia.
      exists T, fl, L. split; [by apply faulted_refl|]. right. by split_and!.
    + cbn [Z.eqb]. eapply (wp_mono _ _ _ s); [by apply (wp_vmfault s root T fl L sz va)|].
      intros r s' (T' & fl' & L' & F & [[-> Hwhy]|[E' _]]); exists T', fl', L'; (split; [done|]).
      * left. split; [done|]. unfold ubyte, view. rewrite (proj2 (Z.leb_gt MAXVA va)), E by done.
        destruct (vpn_rounddown va) as [_ ->]. destruct (Z.eqb_spec (Z.land (L (vpn va)) PTE_V) 0); [|by left].
        destruct Hwhy as [Hz|[?|?]]; [|done|by right; split]. left. by rewrite (proj2 (Z.ltb_ge _ _)).
      * right. split_and!; [|done|done]. eapply (upage_pos s'); [apply F|done|done].
Qed.

(** Pages touched by a copy of [len] bytes at [va]. *)
Definition cturns (va len : Z) : Z := if len <=? 0 then 0 else (va mod PGSIZE + len + PGSIZE - 1) / PGSIZE.

Lemma cturns_nonneg va len : 0 <= cturns va len.
Proof.
  unfold cturns. destruct (Z.leb_spec len 0); [lia|]. pose proof (Z.mod_pos_bound va PGSIZE ltac:(done)).
  apply Z.div_pos; [unfold PGSIZE in *; lia|done].
Qed.

Lemma cturns_step va len :
  0 <= va -> 0 < len -> let n := Z.min (PGSIZE - va mod PGSIZE) len in
  cturns (PGROUNDDOWN va + PGSIZE) (len - n) < cturns va len.
Proof.
  intros Hva Hl n. unfold cturns. rewrite (proj2 (Z.leb_gt len 0)) by done.
  pose proof (Z.mod_pos_bound va PGSIZE ltac:(done)). destruct (vpn_rounddown va) as [_ ->].
  rewrite <- (Z.mul_1_l PGSIZE) at 2. rewrite <- Z.mul_add_distr_r, Z.mod_mul by done.
  destruct (Z.leb_spec (len - n) 0).
  - apply Z.div_str_pos. unfold PGSIZE in *. lia.
  - replace (va mod PGSIZE + len + PGSIZE - 1) with (0 + (len - n) + PGSIZE - 1 + 1 * PGSIZE) by lia.
    rewrite (Z.div_add _ 1) by done. lia.
Qed.

Lemma cturns_fuel va len : 0 <= len -> cturns va len < Z.of_nat (copy_fuel len).
Proof.
  intros Hl. unfold cturns, copy_fuel. destruct (Z.leb_spec len 0); [lia|].
  pose proof (Z.mod_pos_bound va PGSIZE ltac:(done)).
  assert (0 <= len / PGSIZE) by (apply Z.div_pos; [lia|done]).
  assert ((va mod PGSIZE + len + PGSIZE - 1) / PGSIZE < len / PGSIZE + 3); [|lia].
  apply Z.div_lt_upper_bound; [done|]. pose proof (Z.div_mod len PGSIZE ltac:(done)).
  pose proof (Z.mod_pos_bound len PGSIZE ltac:(done)). unfold PGSIZE in *. lia.
Qed.

(** The bytes [bs] are what the user has at [va]. *)
Definition at_user (m : mem) (L : Z -> Z) (sz va : Z) (bs : list Z) : Prop :=
  forall i b, bs !! i = Some b -> ubyte m L sz (va + Z.of_nat i) = Some b.

Lemma at_user_app m L sz va bs bs' :
  at_user m L sz va bs -> at_user m L sz (va + Z.of_nat (length bs)) bs' -> at_user m L sz va (bs ++ bs').
Proof.
  intros H H' i b. rewrite lookup_app_Some. intros [Hi|[Hi Hb]]; [by apply H|].
  rewrite <- (H' _ _ Hb). f_equal. lia.
Qed.

Lemma at_user_read m L sz va pa n :
  upage L (vpn va) = Some pa -> 0 <= n <= PGSIZE - va mod PGSIZE -> 0 <= va < MAXVA ->
  at_user m L sz va (mread m (pa + va mod PGSIZE) n).
Proof.
  intros E Hn Hva i b Hb. pose proof (lookup_lt_Some _ _ _ Hb) as Hi. rewrite mread_length in Hi.
  rewrite mread_lookup in Hb by done. injection Hb as <-. apply ubyte_page; [done|lia|done].
Qed.

Lemma faulted_at_user s root T fl L sz s' T' fl' L' va bs :
  faulted s root T fl L sz s' T' fl' L' -> 0 <= va ->
  at_user (km_mem s') L' sz va bs -> at_user (km_mem s) L sz va bs.
Proof. intros F Hva H i b Hb. rewrite <- (H i b Hb). symmetry. eapply faulted_ubyte; [done|lia]. Qed.

Lemma faulted_upage s root T fl L sz s' T' fl' L' v :
  faulted s root T fl L sz s' T' fl' L' -> 0 <= v < maxvpn -> upage L' v = None -> upage L v = None.
Proof.
  intros F Hv E. destruct (upage L v) as [pa|] eqn:E'; [|done]. rewrite <- E, <- E'. unfold upage.
  rewrite (fa_keep _ _ _ _ _ _ _ _ _ _ F); [done|done|]. intros Hz. unfold upage in E'. by rewrite Hz in E'.
Qed.

(** The outcome of copying [len] bytes from [srcva]: all of them, or those
    before an address that is not the user's (or for which there is no
    memory). *)
Definition copied_in (s : kmem) (root : Z) (T : tree) (fl : list Z) (L : Z -> Z) (sz srcva len : Z)
    (r : Z * list Z) (s' : kmem) : Prop :=
  exists T' fl' L', faulted s root T fl L sz s' T' fl' L' /\ at_user (km_mem s) L sz srcva (snd r) /\
    ((fst r = 0 /\ Z.of_nat (length (snd r)) = len) \/
     (fst r = -1 /\ exists j, Z.of_nat (length (snd r)) <= j < len /\
        (ubyte (km_mem s) L sz (PGROUNDDOWN (srcva + j)) = None \/
         (srcva + j < MAXVA -> upage L (vpn (srcva + j)) = None) /\ (length fl' <= 1)%nat))).

Lemma rounddown_off va : va - PGROUNDDOWN va = va mod PGSIZE.
Proof. rewrite PGROUNDDOWN_eq. lia. Qed.

Lemma rounddown_nonneg va : 0 <= va -> 0 <= PGROUNDDOWN va <= va.
Proof.
  intros Hva. rewrite PGROUNDDOWN_eq. pose proof (Z.mod_pos_bound va PGSIZE ltac:(done)).
  pose proof (Z.mod_le va PGSIZE Hva ltac:(done)). lia.
Qed.

Lemma page_below va : PGROUNDDOWN va < MAXVA -> va < MAXVA.
Proof.
  change MAXVA with (67108864 * PGSIZE). destruct (vpn_rounddown va) as [_ ->]. unfold vpn, PGSIZE.
  pose proof (Z.div_mod va 4096 ltac:(done)). pose proof (Z.mod_pos_bound va 4096 ltac:(done)). lia.
Qed.

Lemma next_page va len n :
  n = Z.min (PGSIZE - va mod PGSIZE) len -> n < len -> PGROUNDDOWN va + PGSIZE = va + n.
Proof. intros -> H. rewrite PGROUNDDOWN_eq. lia. Qed.

Lemma wp_copyin_loop fuel s root T fl L sz srcva len dst :
  us_ok s root T fl L -> sz <= TRAPFRAME -> 0 <= srcva -> 0 <= len -> cturns srcva len < Z.of_nat fuel ->
  wp (copyin_loop fuel (mkUproc sz root) root srcva len dst)
     (fun r s' => exists bs, snd r = dst ++ bs /\ copied_in s root T fl L sz srcva len (fst r, bs) s') s.
Proof.
  revert s T fl L srcva len dst. induction fuel as [|fuel IH]; intros s T fl L srcva len dst U Hsz Hva Hlen Hf;
    [pose proof (cturns_nonneg srcva len); lia|].
  cbn [copyin_loop]. destruct (Z.leb_spec len 0).
  { apply wp_ret. exists []. split; [by rewrite app_nil_r|]. exists T, fl, L.
    split_and!; [by apply faulted_refl|by intros i b|left; split; [done|simpl; lia]]. }
  pose proof (Z.mod_pos_bound srcva PGSIZE ltac:(done)) as Hmod. pose proof (rounddown_nonneg srcva Hva) as Hrd.
  wp_step. wp_use (wp_user_page s root T fl L sz (PGROUNDDOWN srcva)); [done|done|apply PGROUNDDOWN_aligned|lia|].
  intros pa0 s1 (T1 & f1 & L1 & F1 & [[-> Hwhy]|(Hpa & Hmax & E)]).
  { cbn [Z.eqb]. apply wp_ret. exists []. split; [by rewrite app_nil_r|]. exists T1, f1, L1.
    split_and!; [done|by intros i b|right; split; [done|]]. exists 0. rewrite Z.add_0_r. split; [simpl; lia|].
    destruct Hwhy as [?|[? ?]]; [by left|right]. destruct (vpn_rounddown srcva) as [<- _]. by split. }
  rewrite (proj2 (Z.eqb_neq pa0 0)) by lia. rewrite rounddown_off.
  destruct (vpn_rounddown srcva) as [Hvp Hvs]. rewrite Hvp in E.
  pose proof (page_below srcva Hmax) as Hlt.
  set (n := Z.min (PGSIZE - srcva mod PGSIZE) len). wp_step. wp_step.
  pose proof (cturns_step srcva len Hva ltac:(lia)) as Hts. cbv zeta in Hts. fold n in Hts.
  eapply wp_mono; [apply (IH s1 T1 f1 L1 (PGROUNDDOWN srcva + PGSIZE) (len - n)); [apply F1|done|unfold PGSIZE; lia|lia|lia]|].
  intros r s2 (bs & Hr & T2 & f2 & L2 & F2 & Hat & Hres).
  set (hd := mread (km_mem s1) (pa0 + srcva mod PGSIZE) n) in *.
  assert (length hd = Z.to_nat n) as Hhd by apply mread_length.
  assert (at_user (km_mem s) L sz srcva hd) as Hath.
  { eapply faulted_at_user; [exact F1|done|]. apply at_user_read; [done|lia|lia]. }
  exists (hd ++ bs). split; [by rewrite Hr, app_assoc|]. exists T2, f2, L2. cbn [fst snd] in *.
  split; [by eapply faulted_trans|]. destruct (decide (n < len)) as [Hn|Hn].
  - pose proof (next_page srcva len n eq_refl Hn) as Hnp. rewrite Hnp in *. split.
    + apply at_user_app; [done|]. rewrite Hhd, Z2Nat.id by lia. eapply faulted_at_user; [exact F1|lia|done].
    + rewrite length_app. destruct Hres as [[-> Hl]|(-> & j & Hj & Hwhy)]; [left; split; [done|lia]|].
      right. split; [done|]. exists (n + j). split; [lia|]. rewrite Z.add_assoc.
      destruct Hwhy as [Hwhy|[Hwhy ?]]; [left|right; split; [|done]].
      * rewrite <- Hwhy. symmetry. eapply faulted_ubyte; [done|]. apply rounddown_nonneg. lia.
      * intros Hm. eapply faulted_upage; [done|apply vpn_range; lia|by apply Hwhy].
  - destruct Hres as [[-> Hl]|(_ & j & Hj & _)]; [|lia]. assert (bs = []) as -> by (apply nil_length_inv; lia).
    rewrite app_nil_r. split; [done|]. left. split; [done|lia].
Qed.

(** ** copyout *)

(** Writing into a page of the user. *)
Lemma us_ok_write s root T fl L sz va pa bs :
  us_ok s root T fl L -> upage L (vpn va) = Some pa -> 0 <= va < MAXVA ->
  Z.of_nat (length bs) <= PGSIZE - va mod PGSIZE ->
  let s' := set_mem (mwrite (pa + va mod PGSIZE) bs (km_mem s)) s in
  us_ok s' root T fl L /\ mframe [pa] (km_mem s) (km_mem s') /\
  forall x, 0 <= x -> ubyte (km_mem s') L sz x =
    if decide (va <= x < va + Z.of_nat (length bs)) then bs !! Z.to_nat (x - va) else ubyte (km_mem s) L sz x.
Proof.
  intros U E Hva Hlen s'. pose proof (Z.mod_pos_bound va PGSIZE ltac:(done)) as Hmod.
  pose proof (vpn_range va Hva) as Hv. destruct (us_page _ _ _ _ _ _ _ U Hv E) as ([Hal Hpr] & Ht & Hf).
  assert (mframe [pa] (km_mem s) (mwrite (pa + va mod PGSIZE) bs (km_mem s))) as Hfr.
  { intros x Hx. specialize (Hx pa ltac:(set_solver)). rewrite mget_mwrite, decide_False; [done|lia]. }
  split_and!; [by eapply us_ok_mem; [done|exact Hfr|by constructor|]; set_solver|done|].
  intros x Hx. case_decide as Hin.
  - replace x with (va + (x - va)) at 1 by lia. rewrite (ubyte_page _ _ _ va pa) by (done || lia).
    cbn [s' set_mem km_mem]. rewrite mget_mwrite, decide_True by lia.
    replace (Z.to_nat (pa + va mod PGSIZE + (x - va) - (pa + va mod PGSIZE))) with (Z.to_nat (x - va)) by lia.
    destruct (lookup_lt_is_Some_2 bs (Z.to_nat (x - va))) as [b ->]; [lia|done].
  - unfold ubyte, view. destruct (Z.leb_spec MAXVA x); [done|]. destruct (Z.land (L (vpn x)) PTE_V =? 0); [done|].
    destruct (upage L (vpn x)) as [pb|] eqn:Eb; [|done]. cbn [fmap option_fmap option_map s' set_mem km_mem]. f_equal.
    pose proof (Z.mod_pos_bound x PGSIZE ltac:(done)) as Hmx. pose proof (vpn_range x ltac:(lia)) as Hvx.
    rewrite mget_mwrite, decide_False; [done|]. intros Hw. destruct (decide (pb = pa)) as [->|Hne].
    + assert (vpn x = vpn va) as Evx by by eapply us_inj.
      unfold vpn in Evx. pose proof (Z.div_mod x PGSIZE ltac:(done)). pose proof (Z.div_mod va PGSIZE ltac:(done)). lia.
    + destruct (us_page _ _ _ _ _ _ _ U Hvx Eb) as ([Halb _] & _).
      destruct (pages_apart pb pa Halb Hal Hne); unfold PGSIZE in *; lia.
Qed.

(** Pages of the address space, its page table and the free list. *)
Definition owned (T : tree) (fl : list Z) (L : Z -> Z) (a : Z) : Prop :=
  a ∈ tpages T ++ fl \/ exists v, 0 <= v < ulimit /\ dpage L v = Some a.

(** Memory of nobody else changes. *)
Definition isolated (s : kmem) (T : tree) (fl : list Z) (L : Z -> Z) (s' : kmem) : Prop :=
  (forall a, aligned a -> ~ owned T fl L a -> agree (km_mem s) (km_mem s') a PGSIZE) /\
  env_same (km_env s) (km_env s') /\ km_syms s' = km_syms s.

Lemma faulted_owned s root T fl L sz s' T' fl' L' a :
  faulted s root T fl L sz s' T' fl' L' -> owned T' fl' L' a -> owned T fl L a.
Proof.
  intros F [Ha|(v & Hv & Ha)]; [left; by apply (fa_pages _ _ _ _ _ _ _ _ _ _ F)|].
  destruct (fa_users _ _ _ _ _ _ _ _ _ _ F v a Hv Ha); [right; eauto|by left].
Qed.

Lemma faulted_isolated s root T fl L sz s' T' fl' L' :
  us_ok s root T fl L -> faulted s root T fl L sz s' T' fl' L' -> isolated s T fl L s'.
Proof.
  intros U F. pose proof (fa_frame _ _ _ _ _ _ _ _ _ _ F) as (M1 & E1 & S1). split_and!; [|done|done].
  intros a Hal Hn. eapply mframe_agree; [exact M1|done|by eapply table_pages_aligned, U|].
  intros Hin. apply Hn. by left.
Qed.

Lemma isolated_trans s1 s2 s3 T1 T2 f1 f2 L1 L2 :
  isolated s1 T1 f1 L1 s2 -> isolated s2 T2 f2 L2 s3 -> (forall a, owned T2 f2 L2 a -> owned T1 f1 L1 a) ->
  isolated s1 T1 f1 L1 s3.
Proof.
  intros (A1 & A2 & A3) (B1 & B2 & B3) Ho. split_and!; [|by etransitivity|congruence].
  intros a Hal Hn. eapply agree_trans; [by apply A1|apply B1; [done|by intros ?%Ho]].
Qed.

(** A page the user can read but not write. *)
Definition read_only (L : Z -> Z) (va : Z) : Prop :=
  va < MAXVA /\ Z.land (L (vpn va)) PTE_V <> 0 /\ Z.land (L (vpn va)) PTE_W = 0.

(** A page the user may write. *)
Definition writable (L : Z -> Z) (va : Z) : Prop := upage L (vpn va) <> None /\ Z.land (L (vpn va)) PTE_W <> 0.

(** The outcome of [copyout]: a prefix of [src] has been stored at [dstva],
    and everything else the user sees is as before. *)
Definition copied_out (s : kmem) (root : Z) (T : tree) (fl : list Z) (L : Z -> Z) (sz dstva : Z) (src : list Z)
    (r : Z) (s' : kmem) : Prop :=
  exists T' fl' L' j, us_ok s' root T' fl' L' /\ isolated s T fl L s' /\
    (forall a, owned T' fl' L' a -> owned T fl L a) /\
    (j <= length src)%nat /\
    (forall x, 0 <= x -> ubyte (km_mem s') L' sz x =
       if decide (dstva <= x < dstva + Z.of_nat j) then src !! Z.to_nat (x - dstva) else ubyte (km_mem s) L sz x) /\
    (forall v, 0 <= v < maxvpn -> Z.land (L v) PTE_V <> 0 -> L' v = L v) /\
    (forall x, dstva <= x < dstva + Z.of_nat j -> x < MAXVA /\ writable L' x) /\
    ((r = 0 /\ j = length src) \/
     (r = -1 /\ exists x, dstva <= x < dstva + Z.of_nat (length src) /\
        (ubyte (km_mem s) L sz (PGROUNDDOWN x) = None \/ read_only L x \/ (length fl' <= 1)%nat))).

Lemma copied_out_none s root T fl L sz dstva src r s' T' fl' L' :
  us_ok s root T fl L -> faulted s root T fl L sz s' T' fl' L' ->
  ((r = 0 /\ src = []) \/
   (r = -1 /\ exists x, dstva <= x < dstva + Z.of_nat (length src) /\
      (ubyte (km_mem s) L sz (PGROUNDDOWN x) = None \/ read_only L x \/ (length fl' <= 1)%nat))) ->
  copied_out s root T fl L sz dstva src r s'.
Proof.
  intros U F Hr. exists T', fl', L', O. split_and!; [apply F|by eapply faulted_isolated|by intros a; eapply faulted_owned|lia| |apply F|lia|].
  - intros x Hx. rewrite decide_False by lia. by eapply faulted_ubyte.
  - destruct Hr as [[-> ->]|Hr]; [by left|by right].
Qed.

Lemma faulted_read_only s root T fl L sz s' T' fl' L' x :
  faulted s root T fl L sz s' T' fl' L' -> 0 <= x -> read_only L' x -> read_only L x.
Proof.
  intros F Hx (Hxm & Hv1 & Hw1). pose proof (vpn_range x ltac:(lia)) as Hvx.
  destruct (decide (Z.land (L (vpn x)) PTE_V = 0)) as [Hz|Hnz].
  - by destruct (fa_write _ _ _ _ _ _ _ _ _ _ F _ Hvx Hz Hv1).
  - rewrite (fa_keep _ _ _ _ _ _ _ _ _ _ F) in Hv1, Hw1 by done. by split_and!.
Qed.

(** A turn of the loop that stored [bs], then the rest of the copy. *)
Lemma copied_out_step s root T fl L sz dstva s1 T1 f1 L1 pa bs rest r s' :
  us_ok s root T fl L -> faulted s root T fl L sz s1 T1 f1 L1 -> upage L1 (vpn dstva) = Some pa ->
  Z.land (L1 (vpn dstva)) PTE_W <> 0 -> 0 <= dstva < MAXVA -> Z.of_nat (length bs) <= PGSIZE - dstva mod PGSIZE ->
  copied_out (set_mem (mwrite (pa + dstva mod PGSIZE) bs (km_mem s1)) s1) root T1 f1 L1 sz
    (dstva + Z.of_nat (length bs)) rest r s' ->
  copied_out s root T fl L sz dstva (bs ++ rest) r s'.
Proof.
  intros U F E Hwr Hva Hlen (T' & fl' & L' & j & U' & Hiso & Hown & Hj & Hby & Hkeep & Hmap & Hres).
  destruct (us_ok_write s1 root T1 f1 L1 sz dstva pa bs (fa_ok _ _ _ _ _ _ _ _ _ _ F) E Hva Hlen) as (U2 & M2 & Hw).
  assert (isolated s T fl L (set_mem (mwrite (pa + dstva mod PGSIZE) bs (km_mem s1)) s1)) as Hiso2.
  { eapply isolated_trans; [by eapply faulted_isolated| |by intros a; eapply faulted_owned].
    pose proof (vpn_range dstva Hva) as Hv.
    destruct (us_page _ _ _ _ _ _ _ (fa_ok _ _ _ _ _ _ _ _ _ _ F) Hv E) as ([Hal _] & _).
    split_and!; [|done|done]. intros a Ha Hn. eapply mframe_agree; [exact M2|done|by constructor|].
    intros ->%list_elem_of_singleton. apply Hn. right. exists (vpn dstva). by eapply upage_dpage; [apply F|..]. }
  exists T', fl', L', (length bs + j)%nat. split_and!; [done| | | | | | |].
  - eapply isolated_trans; [done|done|]. intros a. by eapply faulted_owned.
  - intros a Ha. by eapply faulted_owned, Hown.
  - rewrite length_app. lia.
  - intros x Hx. rewrite Hby, Hw, (faulted_ubyte _ _ _ _ _ _ _ _ _ _ _ F) by done.
    repeat case_decide; try lia; try done.
    + rewrite lookup_app_r by lia. f_equal. lia.
    + rewrite lookup_app_l by lia. done.
  - intros v Hv Hnz. rewrite Hkeep; [by apply F|done|]. by rewrite (fa_keep _ _ _ _ _ _ _ _ _ _ F).
  - intros x Hx. destruct (decide (x < dstva + Z.of_nat (length bs))) as [Hlt|Hge]; [|apply Hmap; lia].
    destruct (in_page dstva (x - dstva) ltac:(lia)) as [_ Hvx]. rewrite Zplus_minus in Hvx.
    assert (x < MAXVA) as Hxm by (apply page_below; destruct (vpn_rounddown x) as [_ ->], (vpn_rounddown dstva) as [_ E'];
      pose proof (rounddown_nonneg dstva ltac:(lia)); rewrite Hvx; lia).
    split; [done|]. unfold writable. rewrite Hvx. unfold upage in *. pose proof (vpn_range dstva Hva).
    rewrite Hkeep by (done || by intros Hz; rewrite Hz in E). split; [congruence|done].
  - rewrite length_app. destruct Hres as [[-> ->]|(-> & x & Hx & Hwhy)]; [by left|right]. split; [done|].
    exists x. split; [lia|]. destruct Hwhy as [Hno|[Hro|Hm]]; [left|right; left|by right; right].
    + pose proof (rounddown_nonneg x ltac:(lia)). rewrite Hw in Hno by lia. case_decide.
      * exfalso. destruct (lookup_lt_is_Some_2 bs (Z.to_nat (PGROUNDDOWN x - dstva))) as [b Hb]; [lia|]. congruence.
      * by rewrite (faulted_ubyte _ _ _ _ _ _ _ _ _ _ _ F) in Hno by lia.
    + eapply faulted_read_only; [done|lia|done].
Qed.

(** Nothing is left to copy: the address does not matter. *)
Lemma copied_out_nil s root T fl L sz va va' r s' :
  copied_out s root T fl L sz va [] r s' -> copied_out s root T fl L sz va' [] r s'.
Proof.
  intros (T' & fl' & L' & j & U' & Hiso & Hown & Hj & Hby & Hkeep & _ & Hres). simpl in Hj.
  exists T', fl', L', O. split_and!; try done; try lia.
  - intros x Hx. rewrite Hby by done. by rewrite !decide_False by lia.
  - destruct Hres as [[-> _]|(_ & x & Hx & _)]; [by left|]. simpl in Hx. lia.
Qed.

Lemma wp_copyout_loop fuel s root T fl L sz dstva src :
  us_ok s root T fl L -> sz <= TRAPFRAME -> 0 <= dstva -> cturns dstva (Z.of_nat (length src)) < Z.of_nat fuel ->
  wp (copyout_loop fuel (mkUproc sz root) root dstva src) (copied_out s root T fl L sz dstva src) s.
Proof.
  revert s T fl L dstva src. induction fuel as [|fuel IH]; intros s T fl L dstva src U Hsz Hva Hf;
    [pose proof (cturns_nonneg dstva (Z.of_nat (length src))); lia|].
  cbn [copyout_loop]. case_bool_decide as Hnil.
  { apply wp_ret. eapply copied_out_none; [done|by apply faulted_refl|]. by left. }
  assert (0 < Z.of_nat (length src)) as Hlen by (destruct src; simpl; [done|lia]).
  pose proof (Z.mod_pos_bound dstva PGSIZE ltac:(done)) as Hmod. pose proof (rounddown_nonneg dstva Hva) as Hrd.
  destruct (Z.leb_spec MAXVA (PGROUNDDOWN dstva)) as [Hbig|Hsmall].
  { apply wp_ret. eapply copied_out_none; [done|by apply faulted_refl|]. right. split; [done|].
    exists dstva. split; [lia|]. left. unfold ubyte. by rewrite (proj2 (Z.leb_le _ _)). }
  wp_step. wp_use (wp_user_page s root T fl L sz (PGROUNDDOWN dstva)); [done|done|apply PGROUNDDOWN_aligned|lia|].
  intros pa0 s1 (T1 & f1 & L1 & F1 & [[-> Hwhy]|(Hpa & Hmax & E)]).
  { cbn [Z.eqb]. apply wp_ret. eapply copied_out_none; [done|done|]. right. split; [done|].
    exists dstva. split; [lia|]. destruct Hwhy as [?|[_ ?]]; [by left|by right; right]. }
  rewrite (proj2 (Z.eqb_neq pa0 0)) by lia. pose proof (fa_ok _ _ _ _ _ _ _ _ _ _ F1) as U1.
  destruct (vpn_rounddown dstva) as [Hvp Hvs]. pose proof (page_below dstva Hsmall) as Hlt.
  destruct (walk_entry s1 root T1 f1 L1 (PGROUNDDOWN dstva) U1 ltac:(lia)) as (r & Er & Hr).
  unfold wp. rewrite (bind_Ok _ _ _ _ _ Er). rewrite Hvp in *.
  destruct Hr as [[_ H0]|(_ & _ & Hld)]; [unfold upage in E; by rewrite H0 in E|].
  unfold bind at 1, load, gets. rewrite Hld. destruct (Z.eqb_spec (Z.land (L1 (vpn dstva)) PTE_W) 0) as [Hro|Hrw].
  { eapply copied_out_none; [done|done|]. right. split; [done|]. exists dstva. split; [lia|]. right; left.
    eapply faulted_read_only; [done|done|]. split_and!; [done| |done].
    intros Hz. unfold upage in E. by rewrite Hz in E. }
  rewrite rounddown_off. set (n := Z.min (PGSIZE - dstva mod PGSIZE) (Z.of_nat (length src))).
  pose proof (cturns_step dstva _ Hva Hlen) as Hts. cbv zeta in Hts. fold n in Hts.
  assert (length (take (Z.to_nat n) src) = Z.to_nat n) as Hlt' by (rewrite length_take; lia).
  destruct (us_ok_write s1 root T1 f1 L1 sz dstva pa0 (take (Z.to_nat n) src) U1 E ltac:(lia) ltac:(lia)) as (U2 & _).
  eapply (wp_bind (modify _)), wp_modify.
  eapply (wp_mono _ (copied_out _ root T1 f1 L1 sz (PGROUNDDOWN dstva + PGSIZE) (drop (Z.to_nat n) src)));
    [apply IH; [exact U2|done|unfold PGSIZE; lia|rewrite length_drop; replace (Z.of_nat (length src - Z.to_nat n)) with (Z.of_nat (length src) - n) by lia; lia]|].
  intros r' s' D. rewrite <- (take_drop (Z.to_nat n) src).
  eapply (copied_out_step _ _ _ _ _ _ _ s1 T1 f1 L1 pa0); [done|done|done|done|lia|lia|].
  destruct (decide (n < Z.of_nat (length src))) as [Hn|Hn].
  - rewrite Hlt', Z2Nat.id by lia. by rewrite <- (next_page dstva _ n eq_refl Hn).
  - rewrite drop_ge in D |- * by lia. by eapply copied_out_nil.
Qed.

(** ** copyinstr *)

Lemma to_null_spec bs t g :
  to_null bs = (t, g) ->
  exists rest, bs = t ++ rest /\ (g = false -> rest = [] /\ Forall (fun c => c <> 0) bs) /\
    (g = true -> exists str, t = str ++ [0] /\ Forall (fun c => c <> 0) str).
Proof.
  revert t g. induction bs as [|c bs IH]; intros t g; simpl.
  - intros [= <- <-]. exists []. split_and!; [done|by split; [|constructor]|done].
  - destruct (Z.eqb_spec c 0) as [->|Hc].
    + intros [= <- <-]. exists bs. split_and!; [done|done|]. intros _. exists []. by split; [|constructor].
    + destruct (to_null bs) as [t' g'] eqn:E. intros [= <- <-]. destruct (IH _ _ eq_refl) as (rest & -> & Hf & Ht).
      exists rest. split_and!; [done| |].
      * intros ->. destruct (Hf eq_refl) as [-> Hall]. split; [done|by constructor].
      * intros ->. destruct (Ht eq_refl) as (str & -> & Hall). exists (c :: str). by split; [|constructor].
Qed.

(** The outcome of [copyinstr]: a NUL-terminated string of the user, or the
    first NUL lies beyond [max] or behind an unmapped page. *)
Definition copied_str (m : mem) (L : Z -> Z) (sz srcva max : Z) (r : Z * list Z) : Prop :=
  at_user m L sz srcva (snd r) /\ Z.of_nat (length (snd r)) <= max /\
  ((fst r = 0 /\ exists str, snd r = str ++ [0] /\ Forall (fun c => c <> 0) str) \/
   (fst r = -1 /\ Forall (fun c => c <> 0) (snd r) /\
    (Z.of_nat (length (snd r)) = max \/
     let va := srcva + Z.of_nat (length (snd r)) in MAXVA <= va \/ upage L (vpn va) = None))).

Lemma wp_copyinstr_loop fuel s root T fl L sz srcva max dst :
  us_ok s root T fl L -> 0 <= srcva -> 0 <= max -> cturns srcva max < Z.of_nat fuel ->
  exists r bs, copyinstr_loop fuel root srcva max dst s = Ok (r, dst ++ bs) s /\
    copied_str (km_mem s) L sz srcva max (r, bs).
Proof.
  intros U. revert srcva max dst. induction fuel as [|fuel IH]; intros srcva max dst Hva Hmax Hf;
    [pose proof (cturns_nonneg srcva max); lia|].
  cbn [copyinstr_loop]. destruct (Z.leb_spec max 0).
  { exists (-1), []. rewrite app_nil_r. split; [done|]. split_and!; [by intros i b|simpl; lia|].
    right. split_and!; [done|constructor|]. left. simpl. lia. }
  pose proof (Z.mod_pos_bound srcva PGSIZE ltac:(done)) as Hmod. pose proof (rounddown_nonneg srcva Hva) as Hrd.
  rewrite (bind_Ok _ _ _ _ _ (walkaddr_read s root T fl L (PGROUNDDOWN srcva) U ltac:(lia))).
  destruct (vpn_rounddown srcva) as [Hvp Hvs]. rewrite Hvp.
  destruct (Z.leb_spec MAXVA (PGROUNDDOWN srcva)) as [Hbig|Hsmall].
  { exists (-1), []. rewrite app_nil_r. split; [done|]. split_and!; [by intros i b|simpl; lia|].
    right. split_and!; [done|constructor|]. right. left. simpl. lia. }
  pose proof (page_below srcva Hsmall) as Hlt. destruct (upage L (vpn srcva)) as [pa|] eqn:E; simpl.
  2:{ exists (-1), []. rewrite app_nil_r. split; [done|]. split_and!; [by intros i b|simpl; lia|].
      right. split_and!; [done|constructor|]. right. right. simpl. by rewrite Z.add_0_r. }
  pose proof (upage_pos _ _ _ _ _ _ _ U (vpn_range srcva ltac:(lia)) E). rewrite (proj2 (Z.eqb_neq pa 0)) by lia.
  rewrite rounddown_off. set (n := Z.min (PGSIZE - srcva mod PGSIZE) max). unfold bind at 1, gets.
  set (hd := mread (km_mem s) (pa + srcva mod PGSIZE) n).
  assert (length hd = Z.to_nat n) as Hhd by apply mread_length.
  assert (at_user (km_mem s) L sz srcva hd) as Hath by (apply at_user_read; [done|lia|lia]).
  destruct (to_null hd) as [t g] eqn:Et. destruct (to_null_spec hd t g Et) as (rest & Hsplit & Hf0 & Hf1).
  destruct g.
  - destruct (Hf1 eq_refl) as (str & -> & Hstr). exists 0, (str ++ [0]). split; [done|].
    assert (at_user (km_mem s) L sz srcva (str ++ [0])) as Hatt.
    { intros i b Hb. apply Hath. rewrite Hsplit. by apply lookup_app_l_Some. }
    split_and!; [done| |left; by eauto]. apply (f_equal length) in Hsplit.
    cbn [snd]. rewrite Hhd, !length_app in *. simpl in *. lia.
  - destruct (Hf0 eq_refl) as [-> Hnz]. rewrite app_nil_r in Hsplit. subst t.
    pose proof (cturns_step srcva max Hva ltac:(lia)) as Hts. cbv zeta in Hts. fold n in Hts.
    destruct (IH (PGROUNDDOWN srcva + PGSIZE) (max - n) (dst ++ hd)) as (r & bs & Er & Hat & Hl & Hres);
      [unfold PGSIZE; lia|lia|lia|]. cbn [fst snd] in *.
    exists r, (hd ++ bs). rewrite Er, app_assoc. split; [done|].
    destruct (decide (n < max)) as [Hn|Hn].
    + pose proof (next_page srcva max n eq_refl Hn) as Hnp. rewrite Hnp in *. split_and!.
      * apply at_user_app; [done|]. by rewrite Hhd, Z2Nat.id by lia.
      * cbn [snd]. rewrite length_app. lia.
      * destruct Hres as [(-> & str & -> & Hstr)|(-> & Hstr & Hwhy)]; [left|right]; cbn [fst snd].
        -- split; [done|]. exists (hd ++ str). rewrite app_assoc. split; [done|by apply Forall_app].
        -- rewrite length_app, Hhd. split_and!; [done|by apply Forall_app|].
           destruct Hwhy as [Hwhy|Hwhy]; [left; lia|right].
           by replace (srcva + Z.of_nat (Z.to_nat n + length bs)) with (srcva + n + Z.of_nat (length bs)) by lia.
    + assert (bs = []) as -> by (apply nil_length_inv; lia). rewrite app_nil_r. split_and!; [done|cbn [snd]; lia|].
      destruct Hres as [(-> & str & Hs & _)|(-> & _ & _)]; [by destruct str|].
      right. split_and!; [done|done|]. left. cbn [snd]. lia.
Qed.
