(* ===== verification/VmProps.v ===== *)
(** * What the virtual memory layer guarantees *)

From S2P Require Import Prelude Param Spinlock Mem Kalloc Vm VmSpec VmWalk VmMap VmUser VmCopy.

(** ** Translation by the hardware

    Sv39 as the RISC-V manual describes it: three levels, nine bits each; an
    entry with [V] clear stops the walk. *)
Definition sv39 (m : mem) (root va : Z) : option Z :=
  let e2 := load64 m (root + 8 * idx 2 (vpn va)) in
  if Z.land e2 PTE_V =? 0 then None else
  let e1 := load64 m (PTE2PA e2 + 8 * idx 1 (vpn va)) in
  if Z.land e1 PTE_V =? 0 then None else
  let e0 := load64 m (PTE2PA e1 + 8 * idx 0 (vpn va)) in
  if Z.land e0 PTE_V =? 0 then None else Some e0.

Lemma sv39_leaf s root T fl va :
  vm_ok s root T fl -> 0 <= va < MAXVA ->
  sv39 (km_mem s) root va =
  if Z.land (leaf (km_mem s) T (vpn va)) PTE_V =? 0 then None else Some (leaf (km_mem s) T (vpn va)).
Proof.
  intros V Hva. pose proof (vo_pt _ _ _ _ V) as P. pose proof (pt_root _ _ _ _ P) as Hroot.
  set (v := vpn va). unfold sv39. fold v.
  pose proof (pt_child _ _ _ _ P [] root (idx 2 v) Hroot ltac:(simpl; lia) (idx_range 2 v)) as H2. cbn [app] in H2.
  unfold leaf, leaf_addr. destruct (T !! [idx 2 v]) as [a1|] eqn:E1.
  - destruct (pt_phys _ _ _ _ _ _ V E1) as [Hp1 _]. destruct (mkpte_spec a1 0 Hp1 ltac:(lia)) as (_ & HV & HP & _).
    rewrite H2, HV, HP. change (PTE_V =? 0) with false. cbv iota.
    pose proof (pt_child _ _ _ _ P [idx 2 v] a1 (idx 1 v) E1 ltac:(simpl; lia) (idx_range 1 v)) as H1. cbn [app] in H1.
    destruct (T !! [idx 2 v; idx 1 v]) as [a0|] eqn:E0; [|by rewrite H1].
    destruct (pt_phys _ _ _ _ _ _ V E0) as [Hp0 _]. destruct (mkpte_spec a0 0 Hp0 ltac:(lia)) as (_ & HV0 & HP0 & _).
    rewrite H1, HV0, HP0. done.
  - rewrite H2. destruct (T !! [idx 2 v; idx 1 v]) eqn:E0; [|done].
    destruct (pt_prefix _ _ _ _ P [idx 2 v] (idx 1 v)) as [x Hx]; [by eexists|]. congruence.
Qed.

(** C11: [mappages] on a range that is not mapped.  The hardware translates
    every page of the range to its physical page with the given permissions
    as far as the call got, every other address exactly as before, and the
    call stops early, returning -1, only when no page is left for a page
    table. *)
Theorem mappages_correct s root T fl va n pa perm :
  vm_ok s root T fl -> aligned va -> 0 <= va -> (0 < n)%nat -> va + Z.of_nat n * PGSIZE <= MAXVA ->
  phys pa -> pa + Z.of_nat n * PGSIZE <= 2 ^ 56 -> 0 <= perm < 1024 ->
  (forall x, va <= x < va + Z.of_nat n * PGSIZE -> sv39 (km_mem s) root x = None) ->
  wp (mappages root va (Z.of_nat n * PGSIZE) pa perm) (fun r s' => exists j T' fl',
    vm_ok s' root T' fl' /\
    ((r = 0 /\ j = n) \/ (r = -1 /\ (j < n)%nat /\ fl' = [])) /\
    (forall x, 0 <= x < MAXVA -> sv39 (km_mem s') root x =
       if decide (va <= x < va + Z.of_nat j * PGSIZE) then Some (mkpte (pa + (vpn x - vpn va) * PGSIZE) perm)
       else sv39 (km_mem s) root x)) s.
Proof.
  intros V Hal Hva Hn Hmax Hpa Hpn Hperm Hfree. pose proof (vpn_aligned va Hal) as Hvs.
  eapply wp_mono; [apply (wp_mappages s root T fl va n pa perm); try done|].
  - intros k Hk. specialize (Hfree (va + k * PGSIZE) ltac:(unfold PGSIZE; lia)).
    rewrite (sv39_leaf s root T fl) in Hfree by (done || unfold PGSIZE in *; lia).
    assert (vpn (va + k * PGSIZE) = vpn va + k) as E by (unfold vpn; by rewrite Z.div_add). rewrite E in Hfree.
    by destruct (Z.eqb_spec (Z.land (leaf (km_mem s) T (vpn va + k)) PTE_V) 0).
  - intros r s' (j & T' & fl' & P & Hres). exists j, T', fl'. split_and!; [apply P|done|].
    intros x Hx. rewrite (sv39_leaf s' root T' fl'), (sv39_leaf s root T fl) by (done || apply P).
    rewrite (pto_leaf _ _ _ _ _ _ _ _ P) by by apply vpn_range. unfold map_upd.
    assert (va <= x < va + Z.of_nat j * PGSIZE <-> vpn va <= vpn x < vpn va + Z.of_nat j) as Hiff.
    { unfold vpn in *. pose proof (Z.div_mod x PGSIZE ltac:(done)). pose proof (Z.mod_pos_bound x PGSIZE ltac:(done)).
      unfold PGSIZE in *. lia. }
    repeat case_decide; try tauto. assert (phys (pa + (vpn x - vpn va) * PGSIZE)) as Hp.
    { split; [unfold aligned; rewrite Z.mod_add by done; apply Hpa|].
      assert (j <= n)%nat by (destruct Hres as [[_ ->]|(_ & ? & _)]; lia). destruct Hpa. unfold PGSIZE in *. lia. }
    destruct (mkpte_spec _ perm Hp Hperm) as (_ & -> & _). done.
Qed.

(** ** A new address space *)

Lemma empty_table sy m root :
  page_ok sy root -> (forall x, root <= x < root + PGSIZE -> mget m x = 0) ->
  (forall i, 0 <= i < 512 -> load64 m (root + 8 * i) = 0) -> pt_ok sy m root {[ [] := root ]}.
Proof.
  intros Hr Hz H0. split.
  - by rewrite lookup_singleton_eq.
  - intros p a [<- <-]%lookup_singleton_Some. split; [done|]. by split; [simpl; lia|constructor].
  - intros p q a [<- _]%lookup_singleton_Some [<- _]%lookup_singleton_Some. done.
  - intros p i [x [E _]%lookup_singleton_Some]. by destruct p.
  - intros p a i [<- <-]%lookup_singleton_Some _ Hi. rewrite lookup_singleton_ne by done. by rewrite H0.
Qed.

Lemma wp_uvmcreate s fl :
  kmem_ok s fl ->
  wp uvmcreate (fun r s' =>
    (r = 0 /\ fl = []) \/ (exists fl', fl = r :: fl' /\ us_ok s' r {[ [] := r ]} fl' (fun _ => 0) /\ kframe [r] s s')) s.
Proof.
  intros K. unfold uvmcreate. wp_step. wp_use (wp_kalloc s fl K). intros r s1. destruct fl as [|c fl].
  { intros (-> & _). cbn [Z.eqb]. apply wp_ret. by left. }
  intros (-> & K1 & (M1 & E1 & S1) & _).
  pose proof (ko_pages _ _ K) as Hpg. pose proof (ko_nodup _ _ K) as Hnd.
  apply Forall_cons in Hpg as [Hc _]. apply NoDup_cons in Hnd as [Hcf _].
  destruct (page_ok_phys _ _ (ko_syms _ _ K) Hc) as [_ Hc0]. rewrite (proj2 (Z.eqb_neq c 0)) by lia.
  unfold memset_page. wp_steps. right. exists fl. split; [done|].
  assert (mframe [c] (km_mem s) (mset c 0 PGSIZE (km_mem s1))) as M2.
  { apply (mframe_sub ([c] ++ [c])); [set_solver|]. eapply mframe_trans; [done|apply mframe_mset]. }
  assert (forall i, 0 <= i < 512 -> load64 (mset c 0 PGSIZE (km_mem s1)) (c + 8 * i) = 0) as Hld.
  { intros i Hi. apply load_mset0; unfold PGSIZE; lia. }
  split; [|by split_and!]. split; cbn [set_mem km_mem km_syms].
  - split; cbn [set_mem km_mem km_syms].
    + apply (kmem_ok_frame s1 _ fl [c]); [done|apply mframe_mset|by constructor; [apply Hc|]|].
      by intros a ->%list_elem_of_singleton.
    + rewrite S1. apply empty_table; [done| |done]. intros x Hx. by rewrite mget_mset, decide_True by (unfold PGSIZE in *; lia).
    + intros p a [_ <-]%lookup_singleton_Some. done.
  - intros v Hv. unfold leaf, leaf_addr. by rewrite lookup_singleton_ne.
  - done.
  - done.
  - done.
Qed.

(** C12: [copyout] stores a prefix of the kernel's bytes at the user's address
    and changes nothing else the user sees; every byte it stores lies on a page
    the user may write, and no entry of the page table that was valid changes, so
    that a read-only page is never written; a page the process owns but has not
    touched yet is allocated on the way.  The whole buffer is stored unless the
    range leaves the process's memory, hits a read-only page, or memory runs
    out.  Nobody else's memory changes. *)
Theorem copyout_correct s root T fl L sz dstva src :
  us_ok s root T fl L -> sz <= TRAPFRAME -> 0 <= dstva ->
  wp (copyout (mkUproc sz root) root dstva src) (fun r s' => exists T' fl' L' j,
    us_ok s' root T' fl' L' /\ isolated s T fl L s' /\
    (forall x, 0 <= x -> ubyte (km_mem s') L' sz x =
       if decide (dstva <= x < dstva + Z.of_nat j) then src !! Z.to_nat (x - dstva) else ubyte (km_mem s) L sz x) /\
    (forall x, dstva <= x < dstva + Z.of_nat j -> writable L' x /\ ~ read_only L x) /\
    (forall v, 0 <= v < maxvpn -> Z.land (L v) PTE_V <> 0 -> L' v = L v) /\
    ((r = 0 /\ j = length src) \/
     (r = -1 /\ (j <= length src)%nat /\ exists x, dstva <= x < dstva + Z.of_nat (length src) /\
        (ubyte (km_mem s) L sz (PGROUNDDOWN x) = None \/ read_only L x \/ (length fl' <= 1)%nat)))) s.
Proof.
  intros U Hsz Hva. eapply wp_mono; [apply (wp_copyout_loop _ s root T fl L sz dstva src U Hsz Hva)|].
  - apply cturns_fuel. lia.
  - intros r s' (T' & fl' & L' & j & U' & Hiso & _ & Hj & Hby & Hkeep & Hmap & Hres). exists T', fl', L', j.
    split_and!; try done; [|destruct Hres as [?|(-> & Hx)]; [by left|by right]].
    intros x Hx. destruct (Hmap x Hx) as [Hm [Hu Hw]]. split; [done|]. intros (_ & Hv & Hro).
    by rewrite Hkeep in Hw by (done || (apply vpn_range; lia)).
Qed.

(** [copyin] returns the user's bytes: all of those asked for, or, with
    -1, a prefix of them when the range leaves the process's memory or memory
    for a page not touched yet runs out.  What the user sees does not
    change. *)
Theorem copyin_correct s root T fl L sz srcva len :
  us_ok s root T fl L -> sz <= TRAPFRAME -> 0 <= srcva -> 0 <= len ->
  wp (copyin (mkUproc sz root) root srcva len) (fun r s' => exists T' fl' L',
    us_ok s' root T' fl' L' /\
    (forall x, 0 <= x -> ubyte (km_mem s') L' sz x = ubyte (km_mem s) L sz x) /\
    (forall i b, snd r !! i = Some b -> ubyte (km_mem s) L sz (srcva + Z.of_nat i) = Some b) /\
    ((fst r = 0 /\ Z.of_nat (length (snd r)) = len) \/
     (fst r = -1 /\ exists j, Z.of_nat (length (snd r)) <= j < len /\
        (ubyte (km_mem s) L sz (PGROUNDDOWN (srcva + j)) = None \/
         (srcva + j < MAXVA -> upage L (vpn (srcva + j)) = None) /\ (length fl' <= 1)%nat)))) s.
Proof.
  intros U Hsz Hva Hlen.
  eapply wp_mono; [apply (wp_copyin_loop _ s root T fl L sz srcva len [] U Hsz Hva Hlen); by apply cturns_fuel|].
  intros [r bs'] s' (bs & Hr & T' & fl' & L' & F & Hat & Hres). cbn [fst snd app] in *. subst bs'.
  exists T', fl', L'. split_and!; [apply F|intros x Hx; by eapply faulted_ubyte|done|done].
Qed.

(** A buffer copied out to user memory and copied in again from the same
    address comes back unchanged. *)
Theorem copy_roundtrip s root T fl L sz va src :
  us_ok s root T fl L -> sz <= TRAPFRAME -> 0 <= va ->
  wp (r1 <- copyout (mkUproc sz root) root va src ;;
      r2 <- copyin (mkUproc sz root) root va (Z.of_nat (length src)) ;; ret (r1, r2))
     (fun r _ => fst r = 0 -> snd r = (0, src)) s.
Proof.
  intros U Hsz Hva. wp_step.
  wp_use (wp_copyout_loop (copy_fuel (Z.of_nat (length src))) s root T fl L sz va src U Hsz Hva); [apply cturns_fuel; lia|].
  intros r1 s1 (T1 & f1 & L1 & j & U1 & _ & _ & Hj & Hby & _ & Hmap & Hres). wp_step.
  wp_use (wp_copyin_loop (copy_fuel (Z.of_nat (length src))) s1 root T1 f1 L1 sz va (Z.of_nat (length src)) [] U1 Hsz Hva);
    [lia|apply cturns_fuel; lia|].
  intros [r2 bs'] s2 (bs & Hr & T2 & f2 & L2 & F & Hat & Hres2). cbn [fst snd app] in *. subst bs'.
  wp_step. cbn [fst snd]. intros ->. assert (j = length src) as -> by (destruct Hres as [[_ ?]|[? _]]; done).
  destruct Hres2 as [[-> Hl]|(-> & k & Hk & Hwhy)].
  - f_equal. apply list_eq. intros i. destruct (bs !! i) as [b|] eqn:E.
    + specialize (Hat i b E). pose proof (lookup_lt_Some _ _ _ E). rewrite Hby, decide_True in Hat by lia.
      rewrite <- Hat. f_equal. lia.
    + apply lookup_ge_None in E. symmetry. apply lookup_ge_None. lia.
  - exfalso. destruct (Hmap (va + k) ltac:(lia)) as [Hm [Hu _]]. destruct Hwhy as [Hno|[Hno _]]; [|by apply Hu, Hno].
    destruct (upage L1 (vpn (va + k))) as [pa|] eqn:E; [|done].
    destruct (vpn_rounddown (va + k)) as [Ev _]. pose proof (rounddown_nonneg (va + k) ltac:(lia)).
    pose proof (PGROUNDDOWN_aligned (va + k)) as Hal. unfold aligned in Hal.
    rewrite <- (Z.add_0_r (PGROUNDDOWN (va + k))), (ubyte_page _ _ _ _ pa) in Hno;
      [done|by rewrite Ev|rewrite Hal; unfold PGSIZE; lia|lia].
Qed.

(** ** An example: eight pages of memory, one of them an empty page table *)

Module VmDemo.
Definition sy0 : syms := mkSyms (PHYSTOP - 8 * PGSIZE - 100) (KERNBASE + 0x8000) (KERNBASE + 0x7000).

Lemma vm_booted : exists s root fl, us_ok s root {[ [] := root ]} fl (fun _ => 0) /\ length fl = 7%nat.
Proof.
  destruct (wp_Ok _ _ _ (wp_kinit KDemo.e0 sy0 ∅ ltac:(split; simpl; lia) ltac:(unfold syms_ok; by vm_compute)))
    as ([] & s0 & _ & K0 & _).
  assert (length (reverse (all_pages sy0)) = 8%nat) as Hl by by vm_compute.
  destruct (wp_Ok _ _ _ (wp_uvmcreate s0 _ K0)) as (r & s & _ & [[_ E]|(fl & E & U & _)]); [by rewrite E in Hl|].
  exists s, r, fl. split; [exact U|]. rewrite E in Hl. simpl in Hl. lia.
Qed.
End VmDemo.

Lemma mappages_correct_witness :
  exists s root, wp (mappages root 0 (Z.of_nat 1 * PGSIZE) KERNBASE PTE_R)
    (fun r s' => r = 0 -> sv39 (km_mem s') root 100 = Some (mkpte KERNBASE PTE_R)) s.
Proof.
  destruct VmDemo.vm_booted as (s & root & fl & U & Hl). exists s, root. pose proof (us_vm _ _ _ _ _ U) as V.
  eapply wp_mono; [apply (mappages_correct s root {[ [] := root ]} fl 0 1 KERNBASE PTE_R V)|].
  - done.
  - lia.
  - lia.
  - by vm_compute.
  - split; [done|unfold KERNBASE; lia].
  - unfold KERNBASE, PGSIZE. lia.
  - by vm_compute.
  - intros x Hx. unfold PGSIZE in Hx. assert (0 <= x < MAXVA) as Hx' by (change MAXVA with 274877906944; lia).
    rewrite (sv39_leaf s root _ fl x V Hx').
    rewrite (us_leaf _ _ _ _ _ U) by by apply vpn_range. done.
  - intros r s' (j & T' & fl' & _ & Hres & Hx) ->. destruct Hres as [[_ ->]|[? _]]; [|done].
    rewrite Hx by (change MAXVA with 274877906944; lia). rewrite decide_True by (unfold PGSIZE; lia). done.
Defined.

Lemma copyout_correct_witness :
  exists s root, wp (copyout (mkUproc PGSIZE root) root 10 [1; 2; 3]) (fun r s' =>
    r = -1 \/ (r = 0 /\ exists L', writable L' 11 /\ ubyte (km_mem s') L' PGSIZE 11 = Some 2)) s.
Proof.
  destruct VmDemo.vm_booted as (s & root & fl & U & Hl). exists s, root.
  eapply wp_mono; [apply (copyout_correct s root {[ [] := root ]} fl (fun _ => 0) PGSIZE 10 [1; 2; 3] U)|].
  - by vm_compute.
  - lia.
  - intros r s' (T' & fl' & L' & j & _ & _ & Hby & Hw & _ & [[-> ->]|[-> _]]); [right|by left]. split; [done|].
    exists L'. split; [apply Hw; cbn; lia|]. rewrite Hby, decide_True by (cbn; lia). done.
Defined.

Lemma copyin_correct_witness :
  exists s root, wp (copyin (mkUproc PGSIZE root) root 10 3)
    (fun r s' => forall i b, snd r !! i = Some b -> b = 0) s.
Proof.
  destruct VmDemo.vm_booted as (s & root & fl & U & Hl). exists s, root.
  eapply wp_mono; [apply (copyin_correct s root {[ [] := root ]} fl (fun _ => 0) PGSIZE 10 3 U)|].
  - by vm_compute.
  - lia.
  - lia.
  - intros r s' (T' & fl' & L' & _ & _ & Hat & Hres) i b Hb. pose proof (lookup_lt_Some _ _ _ Hb) as Hi.
    assert (i < 3)%nat by (destruct Hres as [[_ ?]|(_ & j & ? & _)]; lia).
    specialize (Hat i b Hb). unfold ubyte, view in Hat.
    rewrite (proj2 (Z.leb_gt _ _)) in Hat by (change MAXVA with 274877906944; lia).
    change (Z.land 0 PTE_V =? 0) with true in Hat. cbv iota in Hat.
    destruct (PGROUNDDOWN (10 + Z.of_nat i) <? PGSIZE); congruence.
Defined.

Lemma copy_roundtrip_witness :
  exists s root, wp (r1 <- copyout (mkUproc PGSIZE root) root 10 [7] ;;
      r2 <- copyin (mkUproc PGSIZE root) root 10 (Z.of_nat (length [7])) ;; ret (r1, r2))
     (fun r _ => fst r = 0 -> snd r = (0, [7])) s.
Proof.
  destruct VmDemo.vm_booted as (s & root & fl & U & Hl). exists s, root.
  apply (copy_roundtrip s root {[ [] := root ]} fl (fun _ => 0) PGSIZE 10 [7] U); [by vm_compute|lia].
Defined.
