(* ===== verification/VmFree.v ===== *)
(** * Taking an address space down: [uvmunmap], [freewalk] and [uvmfree]

    Every page of the process and of its page table goes back to the
    allocator, once. *)

From S2P Require Import Prelude Param Spinlock Mem Kalloc Vm VmSpec VmWalk VmMap VmUser VmCopy VmProps.

(** ** Unmapping one page *)

(** The entries once page [v] is unmapped. *)
Definition clear (v : Z) (L : Z -> Z) (w : Z) : Z :=
  if decide (w = v) then if Z.land (L v) PTE_V =? 0 then L v else 0 else L w.
Definition freed (L : Z -> Z) (v : Z) : list Z := option_list (dpage L v).

Lemma elem_freed L v x : x ∈ freed L v <-> dpage L v = Some x.
Proof. unfold freed. destruct (dpage L v); cbn; [rewrite list_elem_of_singleton; naive_solver|by rewrite elem_of_nil]. Qed.

Lemma clear_dpage v L w : dpage (clear v L) w = if decide (w = v) then None else dpage L w.
Proof. unfold dpage, clear. destruct (decide (w = v)) as [->|]; [|done]. destruct (Z.land (L v) PTE_V =? 0) eqn:E; by rewrite ?E. Qed.
Lemma clear_upage v L w : upage L w = None -> upage (clear v L) w = None.
Proof. unfold upage, clear. destruct (decide (w = v)) as [->|]; [|done]. destruct (Z.land (L v) PTE_V =? 0) eqn:E; by rewrite ?E. Qed.

Lemma us_ok_ext s root T fl L L' : us_ok s root T fl L -> (forall v, L' v = L v) -> us_ok s root T fl L'.
Proof.
  intros [V Hl Hp Hi Ho] E. assert (forall v, dpage L' v = dpage L v) as Ed by (intros v; unfold dpage; by rewrite E).
  split; [done|intros; rewrite E; by apply Hl|intros v pa; rewrite Ed; apply Hp|intros v w pa; rewrite !Ed; apply Hi|].
  intros v Hv. unfold upage. rewrite E. by apply Ho.
Qed.

Lemma clear_invalid v L : dpage L v = None -> forall w, clear v L w = L w.
Proof. intros H w. unfold clear. destruct (decide (w = v)) as [->|]; [|done]. unfold dpage in H. by destruct (Z.land (L v) PTE_V =? 0). Qed.

(** A leaf entry is cleared; its page, if it was the process's, is free by
    now. *)
Lemma us_ok_clear s root T fl L fl' s' r v :
  us_ok s root T fl L -> 0 <= v < maxvpn -> leaf_addr T v = Some r -> dpage L v <> None ->
  vm_ok s' root T fl' -> (forall w, 0 <= w < maxvpn -> leaf (km_mem s') T w = L w) -> km_syms s' = km_syms s ->
  (forall x, x ∈ fl' -> x ∈ fl \/ (0 <= v < ulimit /\ dpage L v = Some x)) ->
  us_ok (set_mem (store64 r 0 (km_mem s')) s') root T fl' (clear v L).
Proof.
  intros [_ _ Hp Hi Ho] Hv Hr Hd V' Hl' Hsy Hfl. pose proof (store_leaf s' root T fl' v r 0 V' Hr Hv ltac:(lia)) as P.
  split; [apply P| | | |].
  - intros w Hw. rewrite (pto_leaf _ _ _ _ _ _ _ _ P) by done. unfold clear. unfold dpage in Hd. destruct (Z.land (L v) PTE_V =? 0); [done|].
    destruct (decide (w = v)); [done|by apply Hl'].
  - intros w pa Hw. rewrite clear_dpage. destruct (decide (w = v)) as [|Hne]; [done|]. intros E. cbn [set_mem km_syms]. rewrite Hsy.
    destruct (Hp w pa Hw E) as (? & ? & Hnf). split_and!; [done|done|]. intros [Hx|[Hv' Hx]]%Hfl; [done|]. by apply Hne, (Hi w v pa).
  - intros w1 w2 pa H1 H2. rewrite !clear_dpage. destruct (decide (w1 = v)), (decide (w2 = v)); try done. by apply Hi.
  - intros w Hw. by apply clear_upage, Ho.
Qed.

Lemma wp_uvmunmap_one s root T fl L a :
  us_ok s root T fl L -> 0 <= a < TRAPFRAME ->
  wp (uvmunmap_one root true a) (fun _ s' => us_ok s' root T (freed L (vpn a) ++ fl) (clear (vpn a) L) /\ kframe (tpages T ++ freed L (vpn a)) s s') s.
Proof.
  intros U Ha. pose proof U as [V Hl Hp Hi Ho]. pose proof (vpn_below a Ha) as Hu. pose proof ulimit_range.
  destruct (walk_entry s root T fl L a U) as (r & Er & [[-> E0]|(Hr & Hla & Hld)]); [change TRAPFRAME with (MAXVA - 8192) in Ha; lia| |];
    unfold uvmunmap_one; wp_step; (eapply wp_intro; [exact Er|]).
  - assert (dpage L (vpn a) = None) as Hd by (unfold dpage; by rewrite E0). apply wp_ret. unfold freed. rewrite Hd. split; [|apply kframe_refl].
    eapply us_ok_ext; [done|]. by apply clear_invalid.
  - rewrite (proj2 (Z.eqb_neq r 0)) by lia. wp_step. apply wp_gets. rewrite Hld. destruct (Z.land (L (vpn a)) PTE_V =? 0) eqn:EV.
    + assert (dpage L (vpn a) = None) as Hd by (unfold dpage; by rewrite EV). apply wp_ret. unfold freed. rewrite Hd. split; [|apply kframe_refl].
      eapply us_ok_ext; [done|]. by apply clear_invalid.
    + assert (dpage L (vpn a) = Some (PTE2PA (L (vpn a)))) as Hd by (unfold dpage; by rewrite EV). set (pa := PTE2PA (L (vpn a))) in *.
      destruct (Hp _ _ Hu Hd) as (Hc & Ht & Hf). wp_step. pose proof V as [K P Hsep].
      wp_use (wp_kfree s fl pa K Hc Hf). intros [] s1 (K1 & F1). destruct F1 as (M1 & E1 & S1). apply wp_modify.
      assert (forall p b, T !! p = Some b -> agree (km_mem s) (km_mem s1) b PGSIZE) as Hag.
      { intros p b Hb. eapply mframe_agree; [exact M1|apply (pt_page _ _ _ _ P p b Hb)|by constructor; [apply Hc|]|].
        intros ->%list_elem_of_singleton. apply Ht, elem_tpages. eauto. }
      assert (vm_ok s1 root T (pa :: fl)) as V1.
      { split; [done|rewrite S1; by eapply pt_ok_agree|]. intros p b Hb [->|?]%elem_of_cons; [apply Ht, elem_tpages; eauto|by eapply Hsep]. }
      unfold freed. rewrite Hd. cbn [option_list app]. split.
      * apply (us_ok_clear s root T fl L (pa :: fl) s1 r (vpn a)); [done|lia|done|by rewrite Hd|done| |done|].
        -- intros w Hw. rewrite <- Hl by done. by apply leaf_agree.
        -- intros x [->|?]%elem_of_cons; [by right|by left].
      * apply (kframe_sub ([pa] ++ tpages T)); [set_solver|]. eapply kframe_trans; [by split_and!|].
        destruct (leaf_addr_Some _ _ _ _ _ _ V Hla) as (b & Eb & -> & _). pose proof (idx_range 0 (vpn a)).
        split_and!; [|done|done]. apply (mframe_sub [b]); [|apply mframe_store; unfold PGSIZE; lia].
        intros y ->%list_elem_of_singleton. apply elem_tpages. eauto.
Qed.

(** ** Unmapping a range *)

Definition clear_range (v n : Z) (L : Z -> Z) (w : Z) : Z :=
  if decide (v <= w < v + n) then if Z.land (L w) PTE_V =? 0 then L w else 0 else L w.

Lemma clear_range_dpage v n L w : dpage (clear_range v n L) w = if decide (v <= w < v + n) then None else dpage L w.
Proof. unfold dpage, clear_range. case_decide; [|done]. destruct (Z.land (L w) PTE_V =? 0) eqn:E; by rewrite ?E. Qed.
Lemma clear_range_step v n L w : 0 <= n -> clear (v + n) (clear_range v n L) w = clear_range v (n + 1) L w.
Proof.
  intros Hn. unfold clear, clear_range. rewrite (decide_False (P := v <= v + n < v + n)) by lia.
  destruct (decide (w = v + n)) as [->|]; [by rewrite decide_True by lia|]. repeat case_decide; done || lia.
Qed.

Definition unmapped (s : kmem) (root : Z) (T : tree) (fl : list Z) (L : Z -> Z) (v n : Z) (s' : kmem) (fl' : list Z) : Prop :=
  us_ok s' root T fl' (clear_range v n L) /\ kframe (tpages T ++ fl') s s' /\
  forall x, x ∈ fl' <-> x ∈ fl \/ exists w, v <= w < v + n /\ dpage L w = Some x.

Lemma unmapped_step s root T fl L v n s1 fl1 s2 :
  unmapped s root T fl L v n s1 fl1 -> 0 <= n -> v + n < ulimit ->
  us_ok s2 root T (freed (clear_range v n L) (v + n) ++ fl1) (clear (v + n) (clear_range v n L)) ->
  kframe (tpages T ++ freed (clear_range v n L) (v + n)) s1 s2 ->
  unmapped s root T fl L v (n + 1) s2 (freed (clear_range v n L) (v + n) ++ fl1).
Proof.
  intros (U1 & F1 & H1) Hn Hu U2 F2. split_and!.
  - eapply us_ok_ext; [exact U2|]. intros w. symmetry. by apply clear_range_step.
  - eapply kframe_sub; [|eapply kframe_trans; [exact F1|exact F2]]. set_solver.
  - intros x. rewrite elem_of_app, H1. rewrite elem_freed, clear_range_dpage, decide_False by lia. split.
    + intros [E|[?|(w & ? & ?)]]; [right; exists (v + n); split; [lia|done]|by left|right; exists w; split; [lia|done]].
    + intros [?|(w & Hw & E)]; [by right; left|]. destruct (decide (w = v + n)) as [->|]; [by left|right; right; exists w; split; [lia|done]].
Qed.

Lemma va_range_pages va n : 0 <= n -> va_range va (va + n * PGSIZE) = (fun k => va + k * PGSIZE) <$> seqZ 0 n.
Proof.
  intros Hn. unfold va_range. do 2 f_equal. replace (va + n * PGSIZE - va + PGSIZE - 1) with (n * PGSIZE + (PGSIZE - 1)) by lia.
  unfold PGSIZE. rewrite Z.div_add_l by lia. rewrite Z.div_small by lia. lia.
Qed.

Lemma page_list_nth va n dn x rest :
  (fun k => va + k * PGSIZE) <$> seqZ 0 n = dn ++ x :: rest -> x = va + Z.of_nat (length dn) * PGSIZE /\ Z.of_nat (length dn) < n.
Proof.
  intros E. assert (((fun k => va + k * PGSIZE) <$> seqZ 0 n) !! length dn = Some x) as Hx by by rewrite E, list_lookup_middle.
  rewrite list_lookup_fmap in Hx. destruct (seqZ 0 n !! length dn) as [k|] eqn:Ek; [|done]. apply lookup_seqZ in Ek as [-> Hk]. injection Hx as <-. split; [f_equal; lia|lia].
Qed.

Lemma wp_unmap_pages s root T fl L va n :
  us_ok s root T fl L -> aligned va -> 0 <= va -> 0 <= n -> va + n * PGSIZE <= TRAPFRAME ->
  wp (for_each ((fun k => va + k * PGSIZE) <$> seqZ 0 n) (uvmunmap_one root true)) (fun _ s' => exists fl', unmapped s root T fl L (vpn va) n s' fl') s.
Proof.
  intros U Hal Hva Hn Hmax. set (l := (fun k => va + k * PGSIZE) <$> seqZ 0 n).
  assert (Z.of_nat (length l) = n) as Hlen by (unfold l; rewrite length_fmap, length_seqZ; lia).
  eapply wp_mono; [apply (wp_for_each _ (fun done _ s' => exists fl', unmapped s root T fl L (vpn va) (Z.of_nat (length done)) s' fl'))|].
  - exists fl. cbn. split_and!; [|apply kframe_refl|].
    + eapply us_ok_ext; [done|]. intros w. unfold clear_range. by rewrite decide_False by lia.
    + intros x. split; [by left|]. intros [?|(w & ? & _)]; [done|lia].
  - intros done x rest s' E (fl' & Hun). assert (x = va + Z.of_nat (length done) * PGSIZE /\ Z.of_nat (length done) < n) as [-> Hk].
    { by eapply page_list_nth. }
    set (k := Z.of_nat (length done)) in *. assert (vpn (va + k * PGSIZE) = vpn va + k) as Ev by (unfold vpn; by rewrite Z.div_add).
    assert (0 <= va + k * PGSIZE < TRAPFRAME) as Ha by (unfold PGSIZE in *; lia). pose proof (vpn_below _ Ha) as Hb. rewrite Ev in Hb.
    eapply wp_mono; [eapply wp_uvmunmap_one; [apply Hun|done]|]. intros [] s2 [U2 F2]. rewrite Ev in U2, F2.
    rewrite length_app. cbn [length]. replace (Z.of_nat (length done + 1)) with (k + 1) by lia. eexists. eapply unmapped_step; [exact Hun|lia|lia|exact U2|exact F2].
  - intros [] s' H. by rewrite Hlen in H.
Qed.

Lemma wp_uvmunmap s root T fl L va n :
  us_ok s root T fl L -> aligned va -> 0 <= va -> 0 <= n -> va + n * PGSIZE <= TRAPFRAME ->
  wp (uvmunmap root va n true) (fun _ s' => exists fl', unmapped s root T fl L (vpn va) n s' fl') s.
Proof.
  intros U Hal Hva Hn Hmax. unfold uvmunmap. change TRAPFRAME with 274877898752 in Hmax. unfold PGSIZE in Hmax.
  unfold aligned in Hal. rewrite Hal. cbn [Z.eqb negb]. rewrite (u64_small (n * PGSIZE)), u64_small by (unfold PGSIZE; lia).
  rewrite va_range_pages by done. apply wp_unmap_pages; done.
Qed.

(** ** Freeing the page table *)

(** The pages of the table below the path [p]. *)
Definition sub (T : tree) (p : list Z) : list Z := (filter (fun x => p `prefix_of` x.1) (map_to_list T)).*2.

Lemma elem_sub T p a : a ∈ sub T p <-> exists q, T !! (p ++ q) = Some a.
Proof.
  unfold sub. rewrite list_elem_of_fmap. split.
  - intros ([k b] & -> & [(q & Hk) H]%list_elem_of_filter). cbn [fst] in Hk. subst k. apply elem_of_map_to_list in H. by exists q.
  - intros (q & H). exists (p ++ q, a). split; [done|]. apply list_elem_of_filter. split; [by exists q|by apply elem_of_map_to_list].
Qed.

(** The table below [p], all of its leaf entries invalid. *)
Record bare (sy : syms) (m : mem) (T : tree) (p : list Z) : Prop := {
  ba_page : forall q b, T !! (p ++ q) = Some b -> page_ok sy b /\ path_ok (p ++ q);
  ba_child : forall q b i, T !! (p ++ q) = Some b -> (length (p ++ q) < 2)%nat -> 0 <= i < 512 ->
    match T !! (p ++ q ++ [i]) with Some c => load64 m (b + 8 * i) = mkpte c 0 | None => Z.land (load64 m (b + 8 * i)) PTE_V = 0 end;
  ba_leaf : forall q b i, T !! (p ++ q) = Some b -> length (p ++ q) = 2%nat -> 0 <= i < 512 -> Z.land (load64 m (b + 8 * i)) PTE_V = 0
}.

Lemma bare_sub sy m m' T p i : bare sy m T p -> (forall b, b ∈ sub T (p ++ [i]) -> agree m m' b PGSIZE) -> bare sy m' T (p ++ [i]).
Proof.
  intros [B1 B2 B3] Hag. assert (forall q b j, T !! ((p ++ [i]) ++ q) = Some b -> 0 <= j < 512 -> load64 m' (b + 8 * j) = load64 m (b + 8 * j)) as E.
  { intros q b j Hb Hj. apply load64_agree. eapply agree_sub; [apply Hag, elem_sub; eauto|lia|unfold PGSIZE; lia]. }
  split.
  - intros q b. rewrite <- app_assoc. apply B1.
  - intros q b j Hb Hl Hj. rewrite (E q b j Hb Hj). rewrite <- app_assoc in *. by apply (B2 ([i] ++ q)).
  - intros q b j Hb Hl Hj. rewrite (E q b j Hb Hj). rewrite <- app_assoc in *. by apply (B3 ([i] ++ q) b).
Qed.

Section freewalk.
Context (sy : syms) (T : tree) (Hinj : forall p q a, T !! p = Some a -> T !! q = Some a -> p = q).

Definition subs (p : list Z) (l : list Z) : list Z := l ≫= fun i => sub T (p ++ [i]).
Lemma elem_subs p l a : a ∈ subs p l <-> exists i, i ∈ l /\ a ∈ sub T (p ++ [i]).
Proof. unfold subs. rewrite list_elem_of_bind. naive_solver. Qed.

Lemma sub_apart p i j b c : i <> j -> b ∈ sub T (p ++ [i]) -> c ∈ sub T (p ++ [j]) -> b <> c.
Proof.
  intros Hne (q & Hb)%elem_sub (r & Hc)%elem_sub ->. pose proof (Hinj _ _ _ Hb Hc) as E. rewrite <- !app_assoc in E. apply app_inv_head in E. by injection E.
Qed.
Lemma sub_not_root p a i b : T !! p = Some a -> b ∈ sub T (p ++ [i]) -> b <> a.
Proof.
  intros Ha (q & Hb)%elem_sub ->. pose proof (Hinj _ _ _ Ha Hb) as E. apply (f_equal length) in E. rewrite !length_app in E. cbn in E. lia.
Qed.

(** What the loop over the entries of the page [a] at [p] has done. *)
Record walked (p : list Z) (a : Z) (s : kmem) (fl : list Z) (done rest : list Z) (s' : kmem) (fl' : list Z) : Prop := {
  wk_kmem : kmem_ok s' fl';
  wk_free : forall x, x ∈ fl' <-> x ∈ fl \/ x ∈ subs p done;
  wk_frame : kframe (a :: subs p done) s s';
  wk_rest : forall i, i ∈ rest -> load64 (km_mem s') (a + 8 * i) = load64 (km_mem s) (a + 8 * i)
}.

(** Freed one more child and cleared its entry. *)
Lemma walked_child p a s fl done i rest s1 fl1 s2 fl2 :
  T !! p = Some a -> aligned a -> (a ∉ fl) -> (i ∉ rest) -> (forall j, j ∈ i :: rest -> 0 <= j < 512) -> Forall aligned (sub T (p ++ [i])) ->
  walked p a s fl done (i :: rest) s1 fl1 -> kmem_ok s2 fl2 -> (forall x, x ∈ fl2 <-> x ∈ fl1 \/ x ∈ sub T (p ++ [i])) -> kframe (sub T (p ++ [i])) s1 s2 ->
  walked p a s fl (done ++ [i]) rest (set_mem (store64 (a + 8 * i) 0 (km_mem s2)) s2) fl2.
Proof.
  intros Ha Hal Hfl Hni Hrange Hals W K2 H2 F2. pose proof (Hrange i ltac:(left)) as Hi.
  assert (forall x, x ∈ subs p (done ++ [i]) <-> x ∈ subs p done \/ x ∈ sub T (p ++ [i])) as Hs by (intros x; unfold subs; rewrite bind_app, elem_of_app; cbn; by rewrite app_nil_r).
  assert (mframe [a] (km_mem s2) (store64 (a + 8 * i) 0 (km_mem s2))) as F3 by (apply mframe_store; unfold PGSIZE; lia).
  split.
  - apply (kmem_ok_frame s2 _ fl2 [a]); [done|exact F3|by constructor|]. intros b ->%list_elem_of_singleton. rewrite H2, (wk_free _ _ _ _ _ _ _ _ W).
    intros [[?|(j & _ & Hx)%elem_subs]|Hx]; [done|by eapply sub_not_root|by eapply sub_not_root].
  - intros x. rewrite H2, (wk_free _ _ _ _ _ _ _ _ W), Hs. tauto.
  - apply (kframe_sub (((a :: subs p done) ++ sub T (p ++ [i])) ++ [a])); [intros x; rewrite !elem_of_app, !elem_of_cons, Hs, elem_of_nil; tauto|].
    eapply kframe_trans; [eapply kframe_trans; [apply W|exact F2]|]. by split_and!.
  - intros j Hj. pose proof (Hrange j ltac:(by right)). cbn [set_mem km_mem]. rewrite (load64_agree (km_mem s2)).
    + rewrite (load64_agree (km_mem s1)); [apply W; by right|]. destruct F2 as (M2 & _). eapply agree_sub; [eapply mframe_agree; [exact M2|exact Hal|done|]|lia|unfold PGSIZE; lia].
      intros Hx. by eapply sub_not_root.
    + apply agree_store64. assert (i <> j) by (intros ->; done). lia.
Qed.

Context (Hpre : forall p i, is_Some (T !! (p ++ [i])) -> is_Some (T !! p)).

Lemma sub_none p : T !! p = None -> sub T p = [].
Proof.
  intros Hp. destruct (sub T p) as [|x l] eqn:E; [done|exfalso]. assert (x ∈ sub T p) as (q & Hq)%elem_sub by (rewrite E; left).
  clear E. revert x Hq. induction q as [|i q IH] using rev_ind; intros x Hq; [by rewrite app_nil_r, Hp in Hq|].
  destruct (Hpre (p ++ q) i) as [y Hy]; [rewrite <- app_assoc; by eexists|]. by eapply IH.
Qed.

Lemma walked_skip p a s fl done i rest s1 fl1 :
  T !! (p ++ [i]) = None -> walked p a s fl done (i :: rest) s1 fl1 -> walked p a s fl (done ++ [i]) rest s1 fl1.
Proof.
  intros Hn [W1 W2 W3 W4]. assert (subs p (done ++ [i]) = subs p done) as E.
  { unfold subs. rewrite bind_app. cbn. by rewrite (sub_none _ Hn), !app_nil_r. }
  split; [done|rewrite E; exact W2|rewrite E; exact W3|]. intros j Hj. apply W4. by right.
Qed.

(** Freeing the subtree at [p], whose root is the page [a]. *)
Definition walk_freed (p : list Z) (s : kmem) (fl : list Z) (s' : kmem) : Prop :=
  exists fl', kmem_ok s' fl' /\ (forall x, x ∈ fl' <-> x ∈ fl \/ x ∈ sub T p) /\ kframe (sub T p) s s'.
Definition frees_tree (n : nat) (p : list Z) : Prop :=
  forall a s fl, T !! p = Some a -> kmem_ok s fl -> bare (km_syms s) (km_mem s) T p -> (forall x, x ∈ sub T p -> x ∉ fl) ->
    wp (freewalk n a) (fun _ s' => walk_freed p s fl s') s.

Section page.
Context (n : nat) (p : list Z) (a : Z) (s : kmem) (fl : list Z) (Ha : T !! p = Some a) (K : kmem_ok s fl)
  (B : bare (km_syms s) (km_mem s) T p) (Hsep : forall x, x ∈ sub T p -> x ∉ fl).

Lemma page_a : page_ok (km_syms s) a /\ (length p <= 2)%nat /\ a ∉ fl.
Proof.
  destruct (ba_page _ _ _ _ B [] a) as [Hpa [Hpath _]]; [by rewrite app_nil_r|]. rewrite app_nil_r in Hpath. split_and!; [done|done|]. apply Hsep, elem_sub. exists []. by rewrite app_nil_r.
Qed.
Lemma sub_aligned i : Forall aligned (sub T (p ++ [i])).
Proof. apply Forall_forall. intros b (q & Hb)%elem_sub. rewrite <- app_assoc in Hb. by apply (ba_page _ _ _ _ B _ _ Hb). Qed.

(** The state of the loop is good enough to free the next child. *)
Lemma walked_bare done i rest s1 fl1 :
  (i ∉ done) -> walked p a s fl done (i :: rest) s1 fl1 -> bare (km_syms s1) (km_mem s1) T (p ++ [i]) /\ forall x, x ∈ sub T (p ++ [i]) -> x ∉ fl1.
Proof.
  intros Hni W. destruct (wk_frame _ _ _ _ _ _ _ _ W) as (M & _ & S1). destruct page_a as ([Hal _] & _ & _). split.
  - rewrite S1. apply (bare_sub _ (km_mem s)); [done|]. intros b Hb. pose proof (sub_aligned i) as Hsi. rewrite Forall_forall in Hsi. eapply mframe_agree; [exact M|by apply Hsi| |].
    + constructor; [done|]. apply Forall_forall. intros x (j & _ & Hx)%elem_subs. pose proof (sub_aligned j) as Hsj. rewrite Forall_forall in Hsj. by apply Hsj.
    + intros [->|(j & Hj & Hx)%elem_subs]%elem_of_cons; [by eapply sub_not_root|]. eapply (sub_apart p i j); [by intros ->|exact Hb|exact Hx|done].
  - intros x Hx. rewrite (wk_free _ _ _ _ _ _ _ _ W). intros [Hf|(j & Hj & Hx')%elem_subs].
    + revert Hf. apply Hsep. apply elem_sub in Hx as (q & Hq). apply elem_sub. exists ([i] ++ q). by rewrite app_assoc.
    + eapply (sub_apart p i j); [by intros ->|exact Hx|exact Hx'|done].
Qed.

Lemma wp_freewalk_entry done i rest s1 fl1 :
  (forall c, T !! (p ++ [i]) = Some c -> frees_tree n (p ++ [i])) -> seqZ 0 512 = done ++ i :: rest -> walked p a s fl done (i :: rest) s1 fl1 ->
  wp (pte <- load (a + 8 * i) ;;
      if negb (Z.land pte PTE_V =? 0) && (Z.land pte (Z.lor (Z.lor PTE_R PTE_W) PTE_X) =? 0) then freewalk n (PTE2PA pte) ;; store (a + 8 * i) 0
      else if negb (Z.land pte PTE_V =? 0) then panic "freewalk: leaf" else ret tt)
     (fun _ s2 => exists fl2, walked p a s fl (done ++ [i]) rest s2 fl2) s1.
Proof.
  intros Hchild El W. destruct page_a as (Hpa & Hlen & Hafl). assert (forall j, j ∈ i :: rest -> 0 <= j < 512) as Hrange.
  { intros j Hj. assert (j ∈ seqZ 0 512) as H by (rewrite El; set_solver). apply elem_of_seqZ in H. lia. }
  pose proof (NoDup_seqZ 0 512) as Hnd. rewrite El in Hnd. apply NoDup_app in Hnd as (_ & Hnd1 & Hnd2). apply NoDup_cons in Hnd2 as [Hni2 _].
  assert (i ∉ done) as Hni by (intros H; apply (Hnd1 i H); left). pose proof (Hrange i ltac:(left)) as Hi.
  wp_step. apply wp_gets. rewrite (wk_rest _ _ _ _ _ _ _ _ W) by left. destruct (T !! (p ++ [i])) as [c|] eqn:Ec.
  - assert (load64 (km_mem s) (a + 8 * i) = mkpte c 0 /\ phys c) as [-> Hph].
    { destruct (ba_page _ _ _ _ B [i] c Ec) as [Hc [Hl _]]. rewrite length_app in Hl. cbn in Hl.
      pose proof (ba_child _ _ _ _ B [] a i) as Hb. rewrite !app_nil_r in Hb. cbn [app] in Hb. specialize (Hb Ha ltac:(lia) Hi). rewrite Ec in Hb. split; [done|].
      by apply (page_ok_phys _ _ (ko_syms _ _ K)). }
    rewrite !mkpte_bits by (done || lia || by vm_compute). destruct (mkpte_spec c 0 Hph ltac:(lia)) as (_ & _ & -> & _).
    change (Z.land (Z.lor 0 PTE_V) PTE_V =? 0) with false. change (Z.land (Z.lor 0 PTE_V) (Z.lor (Z.lor PTE_R PTE_W) PTE_X) =? 0) with true. cbn [negb andb].
    destruct (walked_bare done i rest s1 fl1 Hni W) as [B1 Hs1]. wp_step. eapply wp_mono; [apply (Hchild c eq_refl); [done|apply W|done|done]|].
    intros [] s2 (fl2 & K2 & H2 & F2). apply wp_modify. exists fl2. apply (walked_child _ _ _ _ _ _ _ s1 fl1); try done; [apply Hpa|apply sub_aligned].
  - assert (Z.land (load64 (km_mem s) (a + 8 * i)) PTE_V = 0) as ->.
    { destruct (decide (length p = 2%nat)) as [E|Hne].
      - pose proof (ba_leaf _ _ _ _ B [] a i) as Hb. rewrite app_nil_r in Hb. by apply Hb.
      - pose proof (ba_child _ _ _ _ B [] a i) as Hb. rewrite !app_nil_r in Hb. cbn [app] in Hb. specialize (Hb Ha ltac:(lia) Hi). by rewrite Ec in Hb. }
    cbn [Z.eqb negb andb]. apply wp_ret. exists fl1. by apply walked_skip.
Qed.

Lemma wp_freewalk_page : (forall i c, T !! (p ++ [i]) = Some c -> frees_tree n (p ++ [i])) -> wp (freewalk (S n) a) (fun _ s' => walk_freed p s fl s') s.
Proof.
  intros Hchild. destruct page_a as (Hpa & Hlen & Hafl). cbn [freewalk]. wp_step.
  eapply wp_mono; [apply (wp_for_each _ (fun done rest s' => exists fl', walked p a s fl done rest s' fl'))|].
  - exists fl. split; [done|intros x; cbn; rewrite elem_of_nil; tauto|apply kframe_refl|done].
  - intros done i rest s1 El (fl1 & W). by eapply wp_freewalk_entry; [intros c; apply Hchild|exact El|exact W].
  - intros [] s1 (fl1 & W). destruct (wk_frame _ _ _ _ _ _ _ _ W) as (M & E & S1).
    assert (a ∉ fl1) as Ha1 by (rewrite (wk_free _ _ _ _ _ _ _ _ W); intros [?|(j & _ & Hx)%elem_subs]; [done|by eapply sub_not_root]).
    assert (forall x, x ∈ sub T p <-> x = a \/ x ∈ subs p (seqZ 0 512)) as Hsub.
    { intros x. rewrite elem_sub, elem_subs. split.
      - intros (q & Hq). destruct q as [|i q]; [left; rewrite app_nil_r in Hq; congruence|right]. exists i. split; [|apply elem_sub; exists q; by rewrite <- app_assoc].
        destruct (ba_page _ _ _ _ B _ _ Hq) as [_ [_ Hf]]. apply Forall_app in Hf as [_ Hf]. apply Forall_cons in Hf as [Hf _]. apply elem_of_seqZ. lia.
      - intros [->|(i & _ & (q & Hq)%elem_sub)]; [exists []; by rewrite app_nil_r|exists ([i] ++ q); by rewrite app_assoc]. }
    eapply wp_mono; [apply (wp_kfree s1 fl1 a); [apply W|by rewrite S1|done]|]. intros [] s2 (K2 & F2). exists (a :: fl1). split_and!; [done| |].
    + intros x. rewrite elem_of_cons, (wk_free _ _ _ _ _ _ _ _ W), Hsub. tauto.
    + apply (kframe_sub ((a :: subs p (seqZ 0 512)) ++ [a])); [intros x; rewrite Hsub, elem_of_app, elem_of_cons, list_elem_of_singleton; tauto|]. eapply kframe_trans; [by split_and!|done].
Qed.
End page.

Lemma wp_freewalk n p : (length p + n = levels)%nat -> frees_tree n p.
Proof.
  revert p. induction n as [|n IH]; intros p Hlen a s fl Ha K B Hsep.
  - destruct (page_a p a s fl Ha B Hsep) as (_ & ? & _). unfold levels in Hlen. lia.
  - apply (wp_freewalk_page n p a s fl Ha K B Hsep). intros i c Hc. apply IH. rewrite length_app. cbn. lia.
Qed.
End freewalk.

(** ** uvmfree *)

Lemma pages_of sz : 0 <= sz -> sz < 2 ^ 64 - PGSIZE -> exists n, PGROUNDUP sz / PGSIZE = n /\ 0 <= n /\ sz <= n * PGSIZE < sz + PGSIZE.
Proof.
  intros H0 H1. exists ((sz + PGSIZE - 1) / PGSIZE). rewrite PGROUNDUP_eq, Z.div_mul by (done || unfold PGSIZE in *; lia).
  pose proof (Z.div_mod (sz + PGSIZE - 1) PGSIZE ltac:(done)). pose proof (Z.mod_pos_bound (sz + PGSIZE - 1) PGSIZE ltac:(done)). unfold PGSIZE in *.
  split_and!; [done|apply Z.div_pos; lia|lia|lia].
Qed.

(** No page of the table serves addresses [walk] refuses. *)
Definition low (T : tree) : Prop := forall i q, is_Some (T !! (i :: q)) -> i < 256.

Lemma us_bare s root T fl L :
  us_ok s root T fl L -> low T -> (forall v, 0 <= v < maxvpn -> dpage L v = None) -> bare (km_syms s) (km_mem s) T [].
Proof.
  intros [[_ P _] Hl _ _ _] Hlow Hd. split.
  - intros q b. apply (pt_page _ _ _ _ P).
  - intros q b i Hb Hq Hi. cbn [app] in *. by apply (pt_child _ _ _ _ P q b i Hb Hq Hi).
  - intros q b k Hb Hq Hk. cbn [app] in *. destruct q as [|i [|j [|]]]; try done. destruct (pt_page _ _ _ _ P _ _ Hb) as [_ [_ Hr]].
    apply Forall_cons in Hr as [Hi [Hj _]%Forall_cons]. pose proof (Hlow i [j] ltac:(by eexists)) as Hi2.
    set (v := i * 262144 + j * 512 + k). assert (0 <= v < maxvpn) as Hv by (change maxvpn with 67108864; unfold v; lia).
    assert (idx 2 v = i /\ idx 1 v = j /\ idx 0 v = k) as (E2 & E1 & E0).
    { unfold idx, v. change (512 ^ 2) with 262144. change (512 ^ 1) with 512. change (512 ^ 0) with 1. rewrite Z.div_1_r. split_and!.
      - rewrite <- Z.add_assoc, Z.div_add_l, (Z.div_small (j * 512 + k)) by lia. rewrite Z.add_0_r. apply Z.mod_small. lia.
      - replace (i * 262144 + j * 512 + k) with ((i * 512 + j) * 512 + k) by lia. rewrite Z.div_add_l, (Z.div_small k) by lia. rewrite Z.add_0_r, Z.add_comm, Z.mod_add by lia. apply Z.mod_small. lia.
      - replace (i * 262144 + j * 512 + k) with (k + (i * 512 + j) * 512) by lia. rewrite Z.mod_add by lia. apply Z.mod_small. lia. }
    specialize (Hl v Hv). unfold leaf, leaf_addr in Hl. rewrite E2, E1, E0, Hb in Hl. cbn in Hl. rewrite Hl. specialize (Hd v Hv). unfold dpage in Hd.
    destruct (Z.land (L v) PTE_V =? 0) eqn:E; [by apply Z.eqb_eq|done].
Qed.

(** C16: freeing an address space gives every page back exactly once.  After
    [uvmfree] the free list holds what it held before, the pages of the
    process and the pages of its page table, and nothing else: no page leaks,
    none is freed twice. *)
Theorem uvmfree_correct s root T fl L sz :
  us_ok s root T fl L -> low T -> 0 <= sz <= TRAPFRAME -> (forall v, 0 <= v < maxvpn -> sz <= v * PGSIZE -> dpage L v = None) ->
  wp (uvmfree root sz) (fun _ s' => exists fl', kmem_ok s' fl' /\
    forall x, x ∈ fl' <-> x ∈ fl \/ x ∈ tpages T \/ exists v, 0 <= v < ulimit /\ dpage L v = Some x) s.
Proof.
  intros U Hlow Hsz Hd. unfold uvmfree. destruct (pages_of sz) as (n & En & Hn & Hr); [lia|change TRAPFRAME with 274877898752 in Hsz; unfold PGSIZE; lia|]. rewrite En.
  assert (n * PGSIZE <= TRAPFRAME) as Hmax by (change TRAPFRAME with (67108862 * 4096) in *; unfold PGSIZE in *; lia).
  wp_step. apply (wp_mono _ (fun _ s1 => exists fl1, unmapped s root T fl L (vpn 0) n s1 fl1)).
  { destruct (0 <? sz) eqn:E; [by apply wp_uvmunmap|]. apply Z.ltb_ge in E. assert (n = 0) as -> by (unfold PGSIZE in *; lia). apply wp_ret. exists fl.
    split_and!; [|apply kframe_refl|intros x; split; [by left|intros [?|(w & ? & _)]; [done|lia]]]. eapply us_ok_ext; [done|]. intros w. unfold clear_range. by rewrite decide_False by lia. }
  intros [] s1 (fl1 & U1 & F1 & H1). change (vpn 0) with 0 in *.
  assert (forall v, 0 <= v < maxvpn -> dpage (clear_range 0 n L) v = None) as Hnone.
  { intros v Hv. rewrite clear_range_dpage. case_decide; [done|]. apply Hd; [done|unfold PGSIZE in *; lia]. }
  pose proof (us_vm _ _ _ _ _ U1) as [K1 P1 Hsep1].
  eapply wp_mono; [apply (wp_freewalk T (pt_inj _ _ _ _ P1) (pt_prefix _ _ _ _ P1) levels [] eq_refl root s1 fl1)|].
  - apply P1.
  - done.
  - by eapply us_bare.
  - intros x (q & Hq)%elem_sub. by eapply Hsep1.
  - intros [] s2 (fl2 & K2 & H2 & _). exists fl2. split; [done|]. intros x. rewrite H2, H1, elem_sub, elem_tpages. cbn [app]. pose proof ulimit_range. split.
    + intros [[?|(w & Hw & Ex)]|?]; [by left|right; right; exists w; split; [|done]|by right; left]. change ulimit with 67108862. change TRAPFRAME with (67108862 * 4096) in Hmax. unfold PGSIZE in *. lia.
    + intros [?|[?|(v & Hv & Ex)]]; [by left; left|by right|left; right]. exists v. split; [|done]. split; [lia|]. destruct (decide (v < 0 + n)); [done|]. rewrite Hd in Ex; [done|lia|unfold PGSIZE in *; lia].
Qed.

Lemma uvmfree_correct_witness :
  exists s root fl, length fl = 7%nat /\ wp (uvmfree root 0) (fun _ s' => exists fl', kmem_ok s' fl' /\ (root ∈ fl') /\ fl ⊆ fl') s.
Proof.
  destruct VmDemo.vm_booted as (s & root & fl & U & Hl). exists s, root, fl. split; [exact Hl|].
  eapply wp_mono; [apply (uvmfree_correct s root {[ [] := root ]} fl (fun _ => 0) 0 U)|].
  - intros i q [x Hx]. by rewrite lookup_singleton_ne in Hx.
  - by vm_compute.
  - done.
  - intros [] s' (fl' & K & H). exists fl'. split; [exact K|]. split; [apply H; right; left; apply elem_tpages; exists []; by rewrite lookup_singleton_eq|].
    intros x Hx. apply H. by left.
Defined.

(** ** A size beyond [MAXVA] *)

Lemma for_each_panics {S A} (l1 : list A) x l2 (f : A -> M S unit) msg s :
  wp (for_each l1 f) (fun _ s' => panics (f x) msg s') s -> panics (for_each (l1 ++ x :: l2) f) msg s.
Proof.
  revert s. induction l1 as [|y l1 IH]; intros s; unfold wp, panics; cbn [for_each app]; unfold bind.
  - cbn. intros ->. done.
  - destruct (f y s) as [u s1| | |] eqn:E; [|done..]. apply IH.
Qed.

Lemma unmap_invalid s root T fl L a : us_ok s root T fl L -> 0 <= a < MAXVA -> dpage L (vpn a) = None -> uvmunmap_one root true a s = Ok tt s.
Proof.
  intros U Ha Hd. unfold uvmunmap_one. destruct (walk_entry s root T fl L a U Ha) as (r & Er & [[-> E0]|(Hr & Hla & Hld)]); rewrite (bind_Ok _ _ _ _ _ Er); [done|].
  rewrite (proj2 (Z.eqb_neq r 0)) by lia. unfold bind, load, gets. rewrite Hld. unfold dpage in Hd. by destruct (Z.land (L (vpn a)) PTE_V =? 0).
Qed.

Lemma for_each_app {S A} (l1 l2 : list A) (f : A -> M S unit) s : for_each (l1 ++ l2) f s = bind (for_each l1 f) (fun _ => for_each l2 f) s.
Proof. revert s. induction l1 as [|x l1 IH]; intros s; [done|]. cbn [app for_each]. unfold bind in *. by destruct (f x s). Qed.

Lemma unmap_beyond s root T fl L n :
  us_ok s root T fl L -> ulimit + 2 < n -> (forall v, ulimit <= v < maxvpn -> dpage L v = None) ->
  panics (for_each ((fun k => 0 + k * PGSIZE) <$> seqZ 0 n) (uvmunmap_one root true)) "walk" s.
Proof.
  intros U Hn Htop. assert (0 < ulimit /\ ulimit * PGSIZE = TRAPFRAME /\ maxvpn = ulimit + 2) as (Hu & Eu & Em) by by vm_compute.
  assert (exists l, seqZ 0 n = (seqZ 0 ulimit ++ [ulimit; ulimit + 1]) ++ (ulimit + 2) :: l) as (l & ->).
  { exists (seqZ (ulimit + 3) (n - ulimit - 3)). replace n with (ulimit + (n - ulimit)) at 1 by lia. rewrite seqZ_app by lia.
    replace (n - ulimit) with (3 + (n - ulimit - 3)) at 1 by lia. rewrite (seqZ_app _ 3) by lia. rewrite Z.add_0_l, <- app_assoc. by f_equal. }
  rewrite fmap_app, fmap_cons. apply for_each_panics. rewrite fmap_app. unfold wp. rewrite for_each_app.
  apply (wp_bind _ _ (fun _ s' => panics (uvmunmap_one root true (0 + (ulimit + 2) * PGSIZE)) "walk" s')).
  eapply wp_mono; [apply (wp_unmap_pages s root T fl L 0 ulimit U); [done|lia|lia|lia]|]. intros [] s1 (fl1 & U1 & _).
  assert (forall v, ulimit <= v < maxvpn -> uvmunmap_one root true (0 + v * PGSIZE) s1 = Ok tt s1) as Hskip.
  { intros v Hv. assert (vpn (0 + v * PGSIZE) = v) as Ev by (unfold vpn; rewrite Z.add_0_l; by apply Z.div_mul).
    eapply unmap_invalid; [exact U1| |rewrite Ev, clear_range_dpage, decide_False by (change (vpn 0) with 0; lia); by apply Htop].
    change MAXVA with (TRAPFRAME + 2 * PGSIZE). rewrite <- Eu. unfold PGSIZE. lia. }
  cbn [fmap list_fmap for_each]. wp_step. eapply wp_intro; [apply Hskip; lia|]. wp_step. eapply wp_intro; [apply Hskip; lia|]. apply wp_ret.
  unfold panics, uvmunmap_one, walk, bind. rewrite (proj2 (Z.leb_le _ _)); [done|]. change MAXVA with (TRAPFRAME + 2 * PGSIZE). rewrite <- Eu. lia.
Qed.

Lemma uvmfree_huge_panics s root T fl L sz :
  us_ok s root T fl L -> MAXVA < sz -> sz < 2 ^ 64 - PGSIZE -> (forall v, ulimit <= v < maxvpn -> dpage L v = None) ->
  panics (uvmfree root sz) "walk" s.
Proof.
  intros U Hsz Hmax Htop. assert (0 < MAXVA /\ MAXVA = (ulimit + 2) * PGSIZE) as [? Eu] by by vm_compute.
  destruct (pages_of sz) as (n & En & Hn & Hr); [lia|done|]. unfold uvmfree, panics. rewrite (proj2 (Z.ltb_lt _ _)) by lia. unfold bind at 1.
  assert (uvmunmap root 0 (PGROUNDUP sz / PGSIZE) true s = Panic "walk") as ->; [|done]. unfold uvmunmap. change (negb (0 mod PGSIZE =? 0)) with false. cbv iota.
  rewrite En, (u64_small (n * PGSIZE)), u64_small by (unfold PGSIZE in *; lia). rewrite va_range_pages by done.
  eapply unmap_beyond; [done| |done]. unfold PGSIZE in *. lia.
Qed.
