(* ===== verification/VmFork.v ===== *)
(** * Copying an address space: [uvmcopy]

    Two page tables side by side: the parent's at [o] and the child's at
    [nw]; the child gets its own copy of every page of the parent. *)

From S2P Require Import Prelude Param Spinlock Mem Kalloc Vm VmSpec VmWalk VmMap VmUser VmCopy VmProps VmFree.

(** Writing pages that are not part of the table, and a new free list that
    takes nothing of the address space, keep the address space. *)
Lemma us_ok_frame s root T fl L s' fl' ps :
  us_ok s root T fl L -> kmem_ok s' fl' -> kframe ps s s' -> Forall aligned ps -> (forall a, a ∈ ps -> a ∉ tpages T) ->
  (forall a, a ∈ fl' -> (a ∉ tpages T) /\ forall v, 0 <= v < ulimit -> dpage L v <> Some a) -> us_ok s' root T fl' L.
Proof.
  intros [[K P Hsep] Hl Hp Hi Ho] K' (M & _ & S1) Hal Ht Hf.
  assert (forall p a, T !! p = Some a -> agree (km_mem s) (km_mem s') a PGSIZE) as Hag.
  { intros p a Ha. eapply mframe_agree; [exact M|apply (pt_page _ _ _ _ P p a Ha)|done|]. intros Hin. apply (Ht a Hin), elem_tpages. eauto. }
  split; [split; [done|rewrite S1; by eapply pt_ok_agree|]| | |done|done].
  - intros p a Ha Hin. apply (proj1 (Hf a Hin)), elem_tpages. eauto.
  - intros v Hv. rewrite <- Hl by done. by apply leaf_agree.
  - intros v pa Hv E. rewrite S1. destruct (Hp v pa Hv E) as (? & ? & _). split_and!; [done|done|]. intros Hin. by apply (proj2 (Hf pa Hin) v).
Qed.

Lemma flags_range e : 0 <= PTE_FLAGS e < 1024.
Proof. unfold PTE_FLAGS. change 0x3FF with (Z.ones 10). rewrite Z.land_ones by lia. by apply Z.mod_pos_bound. Qed.

Section fork.
Context (s : kmem) (o nw : Z) (To Tn : tree) (fl : list Z) (Lo Ln : Z -> Z).
Context (Uo : us_ok s o To fl Lo) (Un : us_ok s nw Tn fl Ln).
Context (Hempty : forall v, 0 <= v < ulimit -> dpage Ln v = None).
Context (Hapart : forall a, a ∈ tpages Tn -> (a ∉ tpages To) /\ forall v, 0 <= v < ulimit -> dpage Lo v <> Some a).

(** The pages the copy is made of. *)
Definition mine : list Z := fl ++ tpages Tn.

Lemma mine_aligned : Forall aligned mine.
Proof. pose proof (table_pages_aligned _ _ _ _ (us_vm _ _ _ _ _ Un)) as H. unfold mine. apply Forall_app in H as [? ?]. by apply Forall_app. Qed.
Lemma mine_apart a : a ∈ mine -> (a ∉ tpages To) /\ forall v, 0 <= v < ulimit -> dpage Lo v <> Some a.
Proof.
  intros [Hf|Ht]%elem_of_app; [|by apply Hapart]. split.
  - intros (p & Ha)%elem_tpages. by apply (vo_sep _ _ _ _ (us_vm _ _ _ _ _ Uo) p a Ha).
  - intros v Hv E. by destruct (us_dpage _ _ _ _ _ Uo v a Hv E) as (_ & _ & ?).
Qed.

(** The first [j] pages are copied. *)
Record copied (j : Z) (s' : kmem) (T' : tree) (fl' : list Z) (L' : Z -> Z) : Prop := {
  cp_old : us_ok s' o To fl' Lo;
  cp_new : us_ok s' nw T' fl' L';
  cp_pages : tpages T' ++ fl' ⊆ mine;
  cp_data : forall v a, 0 <= v < ulimit -> dpage L' v = Some a -> a ∈ mine;
  cp_frame : kframe mine s s';
  cp_done : forall v, 0 <= v < j ->
    match dpage Lo v with
    | Some pa => exists c, L' v = mkpte c (PTE_FLAGS (Lo v)) /\ phys c /\
        forall x, 0 <= x < PGSIZE -> mget (km_mem s') (c + x) = mget (km_mem s) (pa + x)
    | None => dpage L' v = None
    end;
  cp_rest : forall v, j <= v < ulimit -> dpage L' v = None
}.

Lemma copied_start : copied 0 s Tn fl Ln.
Proof.
  split; [done|done|unfold mine; set_solver|intros v a Hv E; by rewrite Hempty in E|apply kframe_refl|lia|done].
Qed.

Lemma dpage_mkpte L v c perm : L v = mkpte c perm -> phys c -> 0 <= perm < 1024 -> dpage L v = Some c.
Proof. intros E Hp Hr. unfold dpage. rewrite E. destruct (mkpte_spec c perm Hp Hr) as (_ & HV & -> & _). by rewrite HV. Qed.

(** Steps that change only pages the address spaces do not use. *)
Lemma copied_frame j s1 T1 f1 L1 s2 T2 f2 ps :
  j <= ulimit -> copied j s1 T1 f1 L1 -> us_ok s2 nw T2 f2 L1 -> kframe ps s1 s2 -> ps ⊆ mine -> tpages T2 ++ f2 ⊆ mine ->
  (forall v a, 0 <= v < ulimit -> dpage L1 v = Some a -> a ∉ ps) -> copied j s2 T2 f2 L1.
Proof.
  intros Hj [C1 C2 C3 C4 C5 C6 C7] U2 F Hps H2 Hd. pose proof mine_aligned as Hal. rewrite Forall_forall in Hal.
  assert (Forall aligned ps) as Halp by (apply Forall_forall; intros a Ha; by apply Hal, Hps).
  split; [|done|done|done| | |done].
  - apply (us_ok_frame s1 o To f1 Lo s2 f2 ps C1); [apply U2|done|done| |]; intros a Ha; apply mine_apart; [by apply Hps|apply H2; set_solver].
  - eapply kframe_sub; [|by eapply kframe_trans]. set_solver.
  - intros v Hv. specialize (C6 v Hv). destruct (dpage Lo v) as [pa|]; [|done]. destruct C6 as (c & Ec & Hp & Hm). exists c. split_and!; [done|done|].
    intros x Hx. rewrite <- Hm by done. pose proof (dpage_mkpte _ _ _ _ Ec Hp (flags_range _)) as Edc. destruct (us_dpage _ _ _ _ _ C2 v c) as ([Hc _] & _ & _); [lia|done|].
    apply (mframe_agree ps (km_mem s1) (km_mem s2) c); [apply F|done|done|apply (Hd v); [lia|done]|lia].
Qed.

(** One more page is mapped. *)
Lemma copied_map j s1 T1 f1 L1 s2 T2 f2 pa c :
  0 <= j < ulimit -> copied j s1 T1 f1 L1 -> dpage Lo j = Some pa -> unowned s1 T1 f1 L1 c -> c ∈ mine ->
  (forall x, 0 <= x < PGSIZE -> mget (km_mem s1) (c + x) = mget (km_mem s) (pa + x)) ->
  us_ok s2 nw T2 f2 (map_upd j 1 c (PTE_FLAGS (Lo j)) L1) -> kframe (tpages T1 ++ f1) s1 s2 -> tpages T2 ++ f2 ⊆ tpages T1 ++ f1 ->
  copied (j + 1) s2 T2 f2 (map_upd j 1 c (PTE_FLAGS (Lo j)) L1).
Proof.
  intros Hj C Epa (Hc & Hcf & Hct & Hcd) Hcm Hcont U2 F H2. pose proof C as [C1 C2 C3 C4 C5 C6 C7]. pose proof mine_aligned as Hal. rewrite Forall_forall in Hal.
  assert (phys c) as Hph by (eapply page_ok_phys; [apply (ko_syms _ _ (vo_kmem _ _ _ _ (us_vm _ _ _ _ _ C2)))|done]).
  assert (Forall aligned (tpages T1 ++ f1)) as Halp by (apply Forall_forall; intros a Ha; by apply Hal, C3).
  assert (forall a, aligned a -> a ∉ tpages T1 ++ f1 -> forall x, 0 <= x < PGSIZE -> mget (km_mem s2) (a + x) = mget (km_mem s1) (a + x)) as Hsame.
  { intros a Ha Hn x Hx. apply (mframe_agree (tpages T1 ++ f1) (km_mem s1) (km_mem s2) a); [apply F|done|done|done|lia]. }
  split; [|done|set_solver| | | |].
  - apply (us_ok_frame s1 o To f1 Lo s2 f2 (tpages T1 ++ f1) C1); [apply U2|done|done| |]; intros a Ha; apply mine_apart; apply C3; [done|set_solver].
  - intros v a Hv. destruct (decide (v = j)) as [->|Hne]; [rewrite dpage_here by (done || apply flags_range); by intros [= <-]|rewrite dpage_other by done; by apply C4].
  - eapply kframe_sub; [|by eapply kframe_trans]. set_solver.
  - intros v Hv. destruct (decide (v = j)) as [->|Hne].
    + rewrite Epa. exists c. split_and!; [apply map_upd_here|done|]. intros x Hx. rewrite Hsame by (done || apply Hc || set_solver). by apply Hcont.
    + specialize (C6 v ltac:(lia)). destruct (dpage Lo v) as [pa'|]; [|by rewrite dpage_other]. destruct C6 as (c' & Ec & Hp & Hm).
      exists c'. rewrite map_upd_other by done. split_and!; [done|done|]. intros x Hx. pose proof (dpage_mkpte _ _ _ _ Ec Hp (flags_range _)) as Edc.
      destruct (us_dpage _ _ _ _ _ C2 v c') as ([Hc' _] & Ht' & Hf'); [lia|done|]. rewrite Hsame by (done || set_solver). by apply Hm.
  - intros v Hv. rewrite dpage_other by lia. apply C7. lia.
Qed.

(** A page off the free list, filled with the parent's page. *)
Lemma copied_alloc j s1 T1 f1 L1 s2 c f2 pa :
  0 <= j < ulimit -> copied j s1 T1 (c :: f2) L1 -> f1 = c :: f2 -> dpage Lo j = Some pa -> kmem_ok s2 f2 -> kframe [c] s1 s2 ->
  let s3 := set_mem (mmove c pa PGSIZE (km_mem s2)) s2 in
  copied j s3 T1 f2 L1 /\ unowned s3 T1 f2 L1 c /\ (c ∈ mine) /\
  forall x, 0 <= x < PGSIZE -> mget (km_mem s3) (c + x) = mget (km_mem s) (pa + x).
Proof.
  intros Hj C -> Epa K2 F2 s3. pose proof C as [C1 C2 C3 C4 C5 C6 C7]. pose proof mine_aligned as Hal. rewrite Forall_forall in Hal.
  assert (c ∈ mine) as Hcm by (apply C3; set_solver). destruct (mine_apart c Hcm) as [Hco Hcd].
  pose proof (us_vm _ _ _ _ _ C2) as [K1 P1 Hsep1]. pose proof (ko_nodup _ _ K1) as Hnd. apply NoDup_cons in Hnd as [Hcf _].
  pose proof (ko_pages _ _ K1) as Hpg. apply Forall_cons in Hpg as [Hc _].
  assert (c ∉ tpages T1) as Hct by (intros (p & Ha)%elem_tpages; apply (Hsep1 p c Ha); left).
  assert (forall v, 0 <= v < ulimit -> dpage L1 v <> Some c) as Hcl.
  { intros v Hv E. destruct (us_dpage _ _ _ _ _ C2 v c Hv E) as (_ & _ & Hn). apply Hn. left. }
  assert (Forall aligned [c]) as Halc by (constructor; [by apply Hal|done]).
  assert (mframe [c] (km_mem s2) (mmove c pa PGSIZE (km_mem s2))) as M3.
  { intros x Hx. rewrite mget_mmove, decide_False; [done|]. specialize (Hx c ltac:(left)). unfold PGSIZE in *. lia. }
  assert (kmem_ok s3 f2) as K3 by (eapply kmem_ok_frame; [done|exact M3|done|by intros a ->%list_elem_of_singleton]).
  assert (kframe [c] s1 s3) as F3 by (apply (kframe_sub ([c] ++ [c])); [set_solver|]; eapply kframe_trans; [done|by split_and!]).
  assert (us_ok s3 nw T1 f2 L1) as U3.
  { apply (us_ok_frame s1 nw T1 (c :: f2) L1 s3 f2 [c] C2 K3 F3 Halc); [by intros a ->%list_elem_of_singleton|]. intros a Ha. split.
    - intros (p & Hp)%elem_tpages. apply (Hsep1 p a Hp). by right.
    - intros v Hv E. destruct (us_dpage _ _ _ _ _ C2 v a Hv E) as (_ & _ & Hn). apply Hn. by right. }
  split_and!; [| |done|].
  - eapply (copied_frame j s1 T1 (c :: f2)); [lia|done|done|exact F3|set_solver|set_solver|]. intros v a Hv E ->%list_elem_of_singleton. by apply (Hcl v).
  - split_and!; [rewrite (proj2 (proj2 F3)); exact Hc|done|done|done].
  - intros x Hx. unfold s3. cbn [set_mem km_mem]. rewrite mget_mmove, decide_True by (unfold PGSIZE in *; lia). replace (pa + (c + x - c)) with (pa + x) by lia.
    destruct (us_dpage _ _ _ _ _ Uo j pa Hj Epa) as ([Hpal _] & _ & Hpf). assert (pa <> c) as Hpc by (intros ->; by apply (Hcd j Hj)).
    transitivity (mget (km_mem s1) (pa + x)).
    + apply (mframe_agree [c] (km_mem s1) (km_mem s2) pa); [apply F2|done|done|set_solver|lia].
    + apply (mframe_agree mine (km_mem s) (km_mem s1) pa); [apply C5|done|apply mine_aligned| |lia]. intros Hm. by apply (proj2 (mine_apart pa Hm) j Hj).
Qed.

Lemma wp_uvmcopy_one j s1 T1 f1 L1 :
  0 <= j < ulimit -> copied j s1 T1 f1 L1 ->
  wp (uvmcopy_one o nw (j * PGSIZE)) (fun r s2 =>
    match r with
    | None => exists T2 f2 L2, copied (j + 1) s2 T2 f2 L2
    | Some i => i = j * PGSIZE /\ exists T2 f2, copied j s2 T2 f2 L1
    end) s1.
Proof.
  intros Hj C. pose proof C as [C1 C2 C3 C4 C5 C6 C7]. pose proof ulimit_range. unfold uvmcopy_one.
  assert (vpn (j * PGSIZE) = j) as Ev by (unfold vpn; by apply Z.div_mul).
  assert (0 <= j * PGSIZE < TRAPFRAME) as Hva by (change TRAPFRAME with (ulimit * PGSIZE); unfold PGSIZE in *; lia).
  assert (dpage Lo j = None -> copied (j + 1) s1 T1 f1 L1) as Hskip.
  { intros E. split; [done..| |intros v Hv; apply C7; lia]. intros v Hv. destruct (decide (v = j)) as [->|]; [rewrite E; apply C7; lia|apply C6; lia]. }
  destruct (walk_entry s1 o To f1 Lo (j * PGSIZE) C1) as (r & Er & Hr); [change MAXVA with (TRAPFRAME + 8192); lia|]. rewrite Ev in Hr.
  wp_step. eapply wp_intro; [exact Er|]. destruct Hr as [[-> E0]|(Hr & _ & Hld)].
  { change (0 =? 0) with true. cbv iota. apply wp_ret. exists T1, f1, L1. apply Hskip. unfold dpage. by rewrite E0. }
  rewrite (proj2 (Z.eqb_neq r 0)) by lia. wp_step. apply wp_gets. rewrite Hld. destruct (Z.land (Lo j) PTE_V =? 0) eqn:EV.
  { apply wp_ret. exists T1, f1, L1. apply Hskip. unfold dpage. by rewrite EV. }
  assert (dpage Lo j = Some (PTE2PA (Lo j))) as Epa by (unfold dpage; by rewrite EV). set (pa := PTE2PA (Lo j)) in *.
  pose proof (us_vm _ _ _ _ _ C2) as [K1 _ _]. wp_step. wp_use (wp_kalloc s1 f1 K1). intros mem s2. destruct f1 as [|c f2].
  { intros (-> & K2 & F2). change (0 =? 0) with true. cbv iota. apply wp_ret. split; [done|]. exists T1, []. eapply (copied_frame j s1 T1 []); [lia|done| |exact F2|set_solver|done|set_solver].
    apply (us_ok_frame s1 nw T1 [] L1 s2 [] [] C2 K2 F2); [done|set_solver|set_solver]. }
  intros (-> & K2 & F2 & _). destruct (copied_alloc j s1 T1 (c :: f2) L1 s2 c f2 pa Hj C eq_refl Epa K2 F2) as (C3' & Hun & Hcm & Hcont).
  set (s3 := set_mem (mmove c pa PGSIZE (km_mem s2)) s2) in *. pose proof Hun as (Hc & _).
  destruct (page_ok_phys _ _ (ko_syms _ _ (vo_kmem _ _ _ _ (us_vm _ _ _ _ _ (cp_new _ _ _ _ _ C3')))) Hc) as [_ Hc0]. rewrite (proj2 (Z.eqb_neq c 0)) by lia.
  wp_step. apply wp_modify. fold s3. wp_step.
  eapply wp_mono; [apply (wp_map_unowned s3 nw T1 f2 L1 (j * PGSIZE) c (PTE_FLAGS (Lo j)) (cp_new _ _ _ _ _ C3') Hun (flags_range _)); [|done|]|].
  - unfold aligned. by apply Z.mod_mul.
  - rewrite Ev. pose proof (C7 j ltac:(lia)) as E. unfold dpage in E. destruct (Z.land (L1 j) PTE_V =? 0) eqn:E'; [by apply Z.eqb_eq|done].
  - intros r4 s4 (T4 & f4 & F4 & H4 & [[-> U4]|(-> & -> & U4 & Hun4)]).
    + change (negb (0 =? 0)) with false. cbv iota. apply wp_ret. rewrite Ev in U4. exists T4, f4. eexists. by eapply (copied_map j s3 T1 f2 L1).
    + cbn [Z.eqb negb]. wp_step. eapply wp_mono; [by eapply wp_us_kfree|]. intros [] s5 [U5 F5]. apply wp_ret. split; [done|]. exists T4, [c].
      assert (copied j s4 T4 [] L1) as C4'.
      { eapply (copied_frame j s3 T1 f2); [lia|done|done|exact F4|apply C3'|etransitivity; [exact H4|apply C3']|].
        intros v a Hv E. destruct (us_dpage _ _ _ _ _ (cp_new _ _ _ _ _ C3') v a Hv E) as (_ & ? & ?). rewrite elem_of_app. tauto. }
      eapply (copied_frame j s4 T4 []); [lia|done|done|exact F5|by intros x ->%list_elem_of_singleton| |].
      { intros x [Hx| ->%list_elem_of_singleton]%elem_of_app; [|done]. apply (cp_pages _ _ _ _ _ C4'), elem_of_app. by left. }
      intros v a Hv E ->%list_elem_of_singleton. destruct Hun4 as (_ & _ & _ & Hd). by apply (Hd v).
Qed.

(** The parent's bytes are still there, and not shared. *)
Lemma copied_parent j s1 T1 f1 L1 sz va : copied j s1 T1 f1 L1 -> 0 <= va < MAXVA -> view (km_mem s1) Lo sz va = view (km_mem s) Lo sz va.
Proof.
  intros C Hva. eapply kframe_user; [exact Uo|apply C|apply mine_aligned|done|]. intros v pa Hv E Hm.
  destruct (upage_dpage _ _ _ _ _ _ _ Uo Hv E) as [Hv' Ed]. by apply (proj2 (mine_apart pa Hm) v).
Qed.
Lemma copied_private j s1 T1 f1 L1 v w a :
  copied j s1 T1 f1 L1 -> 0 <= v < ulimit -> 0 <= w < ulimit -> dpage Lo v = Some a -> dpage L1 w <> Some a.
Proof. intros C Hv Hw E E'. by apply (proj2 (mine_apart a (cp_data _ _ _ _ _ C w a Hw E')) v). Qed.

Lemma flags_bits e : Z.land (Z.lor (PTE_FLAGS e) PTE_V) PTE_U = Z.land e PTE_U.
Proof. unfold PTE_FLAGS. rewrite Z.land_lor_distr_l, <- Z.land_assoc. change (Z.land 0x3FF PTE_U) with PTE_U. change (Z.land PTE_V PTE_U) with 0. apply Z.lor_0_r. Qed.
Lemma flags_mkpte e c : phys c -> Z.land e PTE_V <> 0 -> PTE_FLAGS (mkpte c (PTE_FLAGS e)) = PTE_FLAGS e.
Proof.
  intros Hc Hv. destruct (mkpte_spec c (PTE_FLAGS e) Hc (flags_range e)) as (_ & _ & _ & ->). unfold PTE_FLAGS. change PTE_V with 1 in *. change 0x3FF with (Z.ones 10).
  assert (Z.testbit e 0 = true) as Hb.
  { change 1 with (Z.ones 1) in Hv. rewrite Z.land_ones in Hv by lia. rewrite Z.bit0_odd. change (2 ^ 1) with 2 in Hv. rewrite Zmod_odd in Hv. by destruct (Z.odd e). }
  apply Z.bits_inj'. intros n Hn. rewrite Z.lor_spec, Z.land_spec. destruct (decide (n = 0)) as [->|Hne]; [by rewrite Hb|].
  replace (Z.testbit 1 n) with false; [by rewrite orb_false_r|]. symmetry. apply Z.bits_above_log2; [lia|]. cbn. lia.
Qed.

(** The child sees the same bytes under the same permissions. *)
Lemma copied_view j s1 T1 f1 L1 sz va : copied j s1 T1 f1 L1 -> 0 <= vpn va < j -> view (km_mem s1) L1 sz va = view (km_mem s) Lo sz va.
Proof.
  intros C Hv. pose proof (cp_done _ _ _ _ _ C (vpn va) Hv) as Hd. unfold view. destruct (dpage Lo (vpn va)) as [pa|] eqn:E.
  - destruct Hd as (c & Ec & Hp & Hm). unfold dpage in E. destruct (Z.land (Lo (vpn va)) PTE_V =? 0) eqn:EV; [done|]. injection E as <-.
    destruct (mkpte_spec c (PTE_FLAGS (Lo (vpn va))) Hp (flags_range _)) as (_ & HV & HP & _). unfold upage. rewrite Ec, HV, EV. change (PTE_V =? 0) with false. cbv iota.
    rewrite mkpte_bits, flags_bits, HP by (done || apply flags_range || by vm_compute). destruct (Z.land (Lo (vpn va)) PTE_U =? 0); [done|]. cbn. f_equal. apply Hm. apply Z.mod_pos_bound. done.
  - unfold dpage in Hd, E. destruct (Z.land (L1 (vpn va)) PTE_V =? 0) eqn:E1; [|done]. destruct (Z.land (Lo (vpn va)) PTE_V =? 0) eqn:E2; [done|done].
Qed.
Lemma copied_flags j s1 T1 f1 L1 v : copied j s1 T1 f1 L1 -> 0 <= v < j -> dpage Lo v <> None -> PTE_FLAGS (L1 v) = PTE_FLAGS (Lo v).
Proof.
  intros C Hv Hn. pose proof (cp_done _ _ _ _ _ C v Hv) as Hd. destruct (dpage Lo v) as [pa|] eqn:E; [|done]. destruct Hd as (c & -> & Hp & _).
  apply flags_mkpte; [done|]. unfold dpage in E. destruct (Z.land (Lo v) PTE_V =? 0) eqn:EV; [done|]. by apply Z.eqb_neq.
Qed.

(** Undoing an incomplete copy. *)
Lemma copied_undo j s1 T1 f1 L1 :
  0 <= j <= ulimit -> copied j s1 T1 f1 L1 ->
  wp (uvmunmap nw 0 j true) (fun _ s2 => exists f2 L2, copied 0 s2 T1 f2 L2) s1.
Proof.
  intros Hj C. pose proof C as [C1 C2 C3 C4 C5 C6 C7]. eapply wp_mono; [apply (wp_uvmunmap s1 nw T1 f1 L1 0 j C2); [done|lia|lia|]|].
  - change TRAPFRAME with (ulimit * PGSIZE). unfold PGSIZE. lia.
  - intros [] s2 (f2 & U2 & F2 & H2). change (vpn 0) with 0 in *. exists f2, (clear_range 0 j L1).
    assert (tpages T1 ++ f2 ⊆ mine) as Hp.
    { intros x [Hx|Hx]%elem_of_app; [apply C3, elem_of_app; by left|]. apply H2 in Hx as [Hx|(w & Hw & E)]; [apply C3, elem_of_app; by right|]. apply (C4 w); [lia|done]. }
    pose proof mine_aligned as Hal. rewrite Forall_forall in Hal.
    split; [|done|done| | |lia|].
    + apply (us_ok_frame s1 o To f1 Lo s2 f2 (tpages T1 ++ f2) C1); [apply U2|done| | |]; [apply Forall_forall; intros a Ha; by apply Hal, Hp|..]; intros a Ha; apply mine_apart, Hp; [done|set_solver].
    + intros v a Hv. rewrite clear_range_dpage. case_decide; [done|]. by apply C4.
    + eapply kframe_sub; [|by eapply kframe_trans]. set_solver.
    + intros v Hv. rewrite clear_range_dpage. case_decide; [done|]. apply C7. lia.
Qed.
End fork.

(** C5: [fork] copies the address space.  When [uvmcopy] succeeds the child
    sees, byte for byte and with the same permissions, what the parent sees;
    the two share no page, so neither sees the other's later writes.  When
    memory runs out it returns -1 and the child has no page left.  Either way
    the parent's address space is as before. *)
Theorem uvmcopy_correct s o nw To Tn fl Lo Ln sz :
  us_ok s o To fl Lo -> us_ok s nw Tn fl Ln ->
  (forall v, 0 <= v < ulimit -> dpage Ln v = None) ->
  (forall a, a ∈ tpages Tn -> (a ∉ tpages To) /\ forall v, 0 <= v < ulimit -> dpage Lo v <> Some a) ->
  0 <= sz <= TRAPFRAME -> (forall v, 0 <= v < ulimit -> sz <= v * PGSIZE -> dpage Lo v = None) ->
  wp (uvmcopy o nw sz) (fun r s' => exists T' fl' L',
    us_ok s' o To fl' Lo /\ us_ok s' nw T' fl' L' /\
    (forall va, 0 <= va < MAXVA -> view (km_mem s') Lo sz va = view (km_mem s) Lo sz va) /\
    (forall v w a, 0 <= v < ulimit -> 0 <= w < ulimit -> dpage Lo v = Some a -> dpage L' w <> Some a) /\
    ((r = 0 /\ (forall va, 0 <= va < TRAPFRAME -> view (km_mem s') L' sz va = view (km_mem s) Lo sz va) /\
      forall v, 0 <= v < ulimit -> dpage Lo v <> None -> PTE_FLAGS (L' v) = PTE_FLAGS (Lo v)) \/
     (r = -1 /\ forall v, 0 <= v < ulimit -> dpage L' v = None))) s.
Proof.
  intros Uo Un Hempty Hapart Hsz Htop. set (n := (sz - 0 + PGSIZE - 1) / PGSIZE).
  assert (0 <= n <= ulimit /\ sz <= n * PGSIZE) as [Hn Hns].
  { unfold n. pose proof (Z.div_mod (sz - 0 + PGSIZE - 1) PGSIZE ltac:(done)). pose proof (Z.mod_pos_bound (sz - 0 + PGSIZE - 1) PGSIZE ltac:(done)).
    change TRAPFRAME with (67108862 * PGSIZE) in *. change ulimit with 67108862. unfold PGSIZE in *. split; [split; [apply Z.div_pos; lia|]|]; lia. }
  unfold uvmcopy. wp_step. set (C := copied s o nw To Tn fl Lo).
  apply (wp_for_find _ (fun dn s' => exists T' fl' L', C (Z.of_nat (length dn)) s' T' fl' L')).
  - exists Tn, fl, Ln. by apply copied_start.
  - intros dn x rest s1 E (T1 & f1 & L1 & C1). unfold va_range in E. fold n in E. apply page_list_nth in E as [-> Hk]. rewrite Z.add_0_l.
    eapply wp_mono; [apply (wp_uvmcopy_one s o nw To Tn fl Lo Ln Uo Un Hempty Hapart _ s1 T1 f1 L1); [lia|exact C1]|]. intros [i|] s2.
    + intros (-> & T2 & f2 & C2). rewrite Z.div_mul by done. wp_step. eapply wp_mono; [apply (copied_undo s o nw To Tn fl Lo Ln Uo Un Hempty Hapart _ s2 T2 f2 L1); [lia|exact C2]|].
      intros [] s3 (f3 & L3 & C3). apply wp_ret. exists T2, f3, L3. split_and!; [apply C3|apply C3|intros va Hva; by apply (copied_parent s o nw To Tn fl Lo Ln Uo Un Hapart 0 s3 T2 f3 L3)|
        intros v w a Hv Hw; by apply (copied_private s o nw To Tn fl Lo Uo Hapart 0 s3 T2 f3 L3)|right]. split; [done|apply C3].
    + intros (T2 & f2 & L2 & C2). rewrite length_app. cbn [length]. rewrite Nat2Z.inj_add. by exists T2, f2, L2.
  - intros s1 (T1 & f1 & L1 & C1). assert (Z.of_nat (length (va_range 0 sz)) = n) as El by (unfold va_range; fold n; rewrite length_fmap, length_seqZ; lia). rewrite El in C1.
    apply wp_ret. exists T1, f1, L1. split_and!; [apply C1|apply C1|intros va Hva; by apply (copied_parent s o nw To Tn fl Lo Ln Uo Un Hapart n s1 T1 f1 L1)|
      intros v w a Hv Hw; by apply (copied_private s o nw To Tn fl Lo Uo Hapart n s1 T1 f1 L1)|left]. split_and!; [done| |].
    + intros va Hva. destruct (decide (vpn va < n)) as [Hlt|Hge]; [eapply copied_view; [exact C1|]; pose proof (vpn_below va Hva); lia|].
      pose proof (vpn_below va Hva) as Hv. unfold view. pose proof (cp_rest _ _ _ _ _ _ _ _ _ _ _ _ C1 (vpn va) ltac:(lia)) as E1.
      pose proof (Htop (vpn va) Hv ltac:(unfold PGSIZE in *; lia)) as E2. unfold dpage in E1, E2.
      destruct (Z.land (L1 (vpn va)) PTE_V =? 0); [|done]. by destruct (Z.land (Lo (vpn va)) PTE_V =? 0).
    + intros v Hv Hd. eapply copied_flags; [exact C1| |done]. split; [lia|]. destruct (decide (v < n)); [done|]. exfalso. apply Hd, Htop; [lia|unfold PGSIZE in *; lia].
Qed.

Lemma uvmcopy_correct_witness :
  exists s o nw, o <> nw /\ wp (uvmcopy o nw PGSIZE) (fun r s' => r = 0 \/ r = -1) s.
Proof.
  destruct VmDemo.vm_booted as (s0 & o & fl0 & U0 & Hl). pose proof (us_vm _ _ _ _ _ U0) as [K0 _ Hsep0].
  destruct (wp_Ok _ _ _ (wp_uvmcreate s0 fl0 K0)) as (nw & s & _ & [[_ E]|(fl & -> & Un & F)]); [by rewrite E in Hl|].
  pose proof (Hsep0 [] o ltac:(by rewrite lookup_singleton_eq)) as Ho. apply not_elem_of_cons in Ho as [Hne Ho]. exists s, o, nw. split; [exact Hne|].
  pose proof (ko_pages _ _ K0) as Hpg. apply Forall_cons in Hpg as [[Hal _] _].
  assert (forall T a, T = ({[ [] := o ]} : tree) -> a ∈ tpages T -> a = o) as Hto by (intros T a -> (p & [_ <-]%lookup_singleton_Some)%elem_tpages; done).
  assert (us_ok s o {[ [] := o ]} fl (fun _ => 0)) as Uo.
  { apply (us_ok_frame s0 o _ (nw :: fl) _ s fl [nw] U0); [apply Un|exact F|by constructor| |].
    - intros a ->%list_elem_of_singleton Ha. by apply Hne, eq_sym, (Hto _ _ eq_refl).
    - intros a Ha. split; [|done]. intros Ha'. apply (Hto _ _ eq_refl) in Ha' as ->. done. }
  eapply wp_mono; [apply (uvmcopy_correct s o nw _ _ fl _ _ PGSIZE Uo Un)|].
  - done.
  - intros a (p & [_ <-]%lookup_singleton_Some)%elem_tpages. split; [|done]. intros Ha. by apply Hne, eq_sym, (Hto _ _ eq_refl).
  - by vm_compute.
  - done.
  - intros r s' (T' & fl' & L' & _ & _ & _ & _ & [(-> & _)|(-> & _)]); [by left|by right].
Defined.
