(* ===== verification/Ring.v ===== *)
(** * Ring buffers with free-running 32-bit counters

    Pipes and the console index a buffer with counters that only ever go up
    and wrap around at 2^32; the buffer's size divides 2^32, so the position
    of a byte survives the wrap.  *)

From S2P Require Import Prelude Str.

(** The [n] bytes from counter value [r] on. *)
Definition ring (size : Z) (buf : list Z) (r n : Z) : list Z :=
  (fun k => rd buf (Z.to_nat (u32 (r + k) mod size))) <$> seqZ 0 n.

(** A size the counters can index. *)
Definition ring_size (size : Z) : Prop := 0 < size /\ (size | 2 ^ 32).

Lemma u32_add_l a b : u32 (u32 a + b) = u32 (a + b).
Proof. unfold u32. by rewrite Zplus_mod_idemp_l. Qed.
Lemma u32_sub_l a b : u32 (u32 a - b) = u32 (a - b).
Proof. unfold u32. by rewrite Zminus_mod_idemp_l. Qed.
Lemma u32_sub_r a b : u32 (a - u32 b) = u32 (a - b).
Proof. unfold u32. by rewrite Zminus_mod_idemp_r. Qed.
Lemma u32_u32 a : u32 (u32 a) = u32 a.
Proof. unfold u32. by rewrite Zmod_mod. Qed.

(** A distance that is kept by adding it back. *)
Lemma u32_sub_add a n : 0 <= n < 2 ^ 32 -> u32 (u32 (a + n) - a) = n.
Proof. intros. rewrite u32_sub_l. replace (a + n - a) with n by lia. by apply u32_small. Qed.
Lemma u32_sub_eq a b n : 0 <= a < 2 ^ 32 -> 0 <= b < 2 ^ 32 -> u32 (a - b) = n -> a = u32 (b + n).
Proof.
  intros Ha Hb <-. rewrite Z.add_comm, u32_add_l. replace (a - b + b) with a by lia. by rewrite u32_small.
Qed.

Section ring.
Context (size : Z) (Hsize : ring_size size).

Lemma ring_mod a : u32 a mod size = a mod size.
Proof.
  destruct Hsize as [Hp [c Hc]]. unfold u32. rewrite Hc.
  rewrite (Z.mul_comm c size), Z.rem_mul_r by nia.
  rewrite Z.mul_comm, Z_mod_plus_full, Zmod_mod. done.
Qed.

(** Distinct counter values less than a round apart have distinct slots. *)
Lemma ring_slot_inj a b : a mod size = b mod size -> - size < a - b < size -> a = b.
Proof.
  intros E Hd. destruct Hsize as [Hp _].
  pose proof (Z.div_mod a size ltac:(lia)). pose proof (Z.div_mod b size ltac:(lia)).
  assert (a / size = b / size) as Hq by (destruct (Z.lt_trichotomy (a / size) (b / size)) as [|[|]]; [|done|]; nia).
  rewrite Hq in *. lia.
Qed.

Lemma ring_length buf r n : length (ring size buf r n) = Z.to_nat n.
Proof. unfold ring. by rewrite length_fmap, length_seqZ. Qed.

Lemma ring_nil buf r n : n <= 0 -> ring size buf r n = [].
Proof. intros. apply nil_length_inv. rewrite ring_length. lia. Qed.

Lemma ring_u32 buf r n : ring size buf (u32 r) n = ring size buf r n.
Proof. apply list_fmap_ext. intros i k _. by rewrite u32_add_l. Qed.

Lemma ring_app buf r a b : 0 <= a -> 0 <= b -> ring size buf r (a + b) = ring size buf r a ++ ring size buf (r + a) b.
Proof.
  intros Ha Hb. unfold ring. rewrite seqZ_app, fmap_app by lia. f_equal.
  rewrite Z.add_0_l. replace a with (a + 0) at 1 by lia. rewrite <- (fmap_add_seqZ a 0 b), <- list_fmap_compose.
  apply list_fmap_ext. intros i k _. simpl. do 4 f_equal. lia.
Qed.

Lemma ring_one buf r : ring size buf r 1 = [rd buf (Z.to_nat (r mod size))].
Proof. unfold ring. change (seqZ 0 1) with [0]. cbn [fmap list_fmap]. by rewrite Z.add_0_r, ring_mod. Qed.

Lemma ring_pop buf r n : 0 < n -> ring size buf r n = rd buf (Z.to_nat (r mod size)) :: ring size buf (u32 (r + 1)) (n - 1).
Proof.
  intros Hn. replace n with (1 + (n - 1)) at 1 by lia. by rewrite ring_app, ring_one, ring_u32 by lia.
Qed.

(** A store outside the window does not show. *)
Lemma ring_insert_out buf r n a c :
  0 <= n <= a - r -> a - r < size ->
  ring size (<[Z.to_nat (a mod size) := c]> buf) r n = ring size buf r n.
Proof.
  intros Hn Ha. destruct Hsize as [Hp _]. apply list_fmap_ext. intros i k Hk. apply lookup_seqZ in Hk as [-> Hi].
  unfold rd. rewrite list_lookup_insert_ne; [done|]. rewrite ring_mod. intros E.
  apply Z2Nat.inj in E; [|apply Z.mod_pos_bound; lia..]. apply ring_slot_inj in E; lia.
Qed.

(** Appending a byte. *)
Lemma ring_push buf r n c :
  Z.of_nat (length buf) = size -> 0 <= n < size ->
  ring size (<[Z.to_nat (u32 (r + n) mod size) := c]> buf) r (n + 1) = ring size buf r n ++ [c].
Proof.
  intros Hl Hn. rewrite ring_mod, ring_app by lia. f_equal; [apply ring_insert_out; lia|].
  rewrite ring_one. unfold rd. rewrite list_lookup_insert_eq; [done|].
  pose proof (Z.mod_pos_bound (r + n) size). lia.
Qed.
End ring.

Lemma ring_size_512 : ring_size 512.
Proof. split; [lia|]. by exists (2 ^ 23). Qed.
Lemma ring_size_128 : ring_size 128.
Proof. split; [lia|]. by exists (2 ^ 25). Qed.
