(* ===== verification/Printf.v ===== *)
(** * Kernel printf (kernel/printf.c): the characters it sends to the console *)

From Stdlib Require Import Ascii String.
From S2P Require Import Prelude Str.

(** Characters of C source literals. *)
Definition chars (s : string) : list Z := (fun a => Z.of_nat (Ascii.nat_of_ascii a)) <$> String.list_ascii_of_string s.
Definition chr (s : string) : Z := hd 0 (chars s).

Definition digits : list Z := chars "0123456789abcdef".
Definition digit (d : Z) : Z := rd digits (Z.to_nat d).

(** The do-while loop of [printint]: [buf] so far, least significant digit
    first.  64 turns are enough for a 64-bit number in any base. *)
Fixpoint printint_loop (fuel : nat) (x base : Z) (buf : list Z) : option (list Z) :=
  match fuel with
  | O => None
  | S fuel' =>
      let buf := buf ++ [digit (x mod base)] in
      let x := x / base in
      if negb (x =? 0) then printint_loop fuel' x base buf else Some buf
  end.

Definition printint_buf (xx base : Z) (sign : bool) : list Z :=
  let sign := sign && (xx <? 0) in
  let x := if sign then u64 (- xx) else u64 xx in
  let buf := default [] (printint_loop 64 x base []) in
  if sign then buf ++ [chr "-"] else buf.

(** The characters are printed from the end of the buffer. *)
Definition printint (xx base : Z) (sign : bool) : list Z := reverse (printint_buf xx base sign).

Fixpoint printptr_loop (n : nat) (x : Z) : list Z :=
  match n with
  | O => []
  | S n' => digit (Z.shiftr x 60) :: printptr_loop n' (u64 (Z.shiftl x 4))
  end.
Definition printptr (x : Z) : list Z := [chr "0"; chr "x"] ++ printptr_loop 16 x.

(** Arguments of a variadic call: integers and string pointers. *)
Inductive parg := AInt (v : Z) | AStr (s : option (list Z)).
Definition arg_int (a : list parg) : Z := match a with AInt v :: _ => v | _ => 0 end.
Definition arg_str (a : list parg) : option (list Z) := match a with AStr s :: _ => s | _ => None end.

(** What a conversion prints, from the characters after the percent sign,
    with the number of characters it takes beyond the first. *)
Definition format_one (c0 c1 c2 : Z) (a : list parg) : option (list Z * nat * list parg) :=
  let d := chr "d" in let l := chr "l" in let u := chr "u" in let x := chr "x" in
  if c0 =? d then Some (printint (s32 (arg_int a)) 10 true, 0%nat, tl a)
  else if (c0 =? l) && (c1 =? d) then Some (printint (s64 (arg_int a)) 10 true, 1%nat, tl a)
  else if (c0 =? l) && (c1 =? l) && (c2 =? d) then Some (printint (s64 (arg_int a)) 10 true, 2%nat, tl a)
  else if c0 =? u then Some (printint (u32 (arg_int a)) 10 false, 0%nat, tl a)
  else if (c0 =? l) && (c1 =? u) then Some (printint (s64 (arg_int a)) 10 false, 1%nat, tl a)
  else if (c0 =? l) && (c1 =? l) && (c2 =? u) then Some (printint (s64 (arg_int a)) 10 false, 2%nat, tl a)
  else if c0 =? x then Some (printint (u32 (arg_int a)) 16 false, 0%nat, tl a)
  else if (c0 =? l) && (c1 =? x) then Some (printint (s64 (arg_int a)) 16 false, 1%nat, tl a)
  else if (c0 =? l) && (c1 =? l) && (c2 =? x) then Some (printint (s64 (arg_int a)) 16 false, 2%nat, tl a)
  else if c0 =? chr "p" then Some (printptr (u64 (arg_int a)), 0%nat, tl a)
  else if c0 =? chr "c" then Some ([u32 (arg_int a)], 0%nat, tl a)
  else if c0 =? chr "s" then Some (cstr (default (chars "(null)") (arg_str a)), 0%nat, tl a)
  else if c0 =? chr "%" then Some ([chr "%"], 0%nat, a)
  else if c0 =? 0 then None
  else Some ([chr "%"; c0], 0%nat, a).

(** The loop over the format: every turn takes at least one character. *)
Fixpoint printf_loop (fuel : nat) (fmt : list Z) (a : list parg) : list Z :=
  match fuel with
  | O => []
  | S fuel' =>
      let cx := rd fmt 0 in
      if cx =? 0 then [] else
      if negb (cx =? chr "%") then cx :: printf_loop fuel' (drop 1 fmt) a else
      let c0 := rd fmt 1 in
      let c1 := if c0 =? 0 then 0 else rd fmt 2 in
      let c2 := if c1 =? 0 then 0 else rd fmt 3 in
      match format_one c0 c1 c2 a with
      | None => []
      | Some (out, k, a') => out ++ printf_loop fuel' (drop (2 + k) fmt) a'
      end
  end.

Definition printf_chars (fmt : list Z) (a : list parg) : list Z := printf_loop (S (length fmt)) fmt a.

(** ** Numbers *)

(** The value of a digit string. *)
Definition digit_value (c : Z) : Z :=
  if (chr "0" <=? c) && (c <=? chr "9") then c - chr "0" else c - chr "a" + 10.
Fixpoint value_rev (base : Z) (ds : list Z) : Z :=
  match ds with
  | [] => 0
  | c :: ds' => digit_value c + base * value_rev base ds'
  end.
Definition value (base : Z) (ds : list Z) : Z := value_rev base (reverse ds).

Lemma digit_value_digit d : 0 <= d < 16 -> digit_value (digit d) = d.
Proof.
  intros Hd. assert (forallb (fun d => digit_value (digit d) =? d) (seqZ 0 16) = true) as Hall by by vm_compute.
  rewrite forallb_forall in Hall. apply Z.eqb_eq, Hall, list_elem_of_In, elem_of_seqZ. lia.
Qed.

Lemma value_rev_app base a b :
  value_rev base (a ++ b) = value_rev base a + base ^ Z.of_nat (length a) * value_rev base b.
Proof.
  induction a as [|c a IH]; cbn [app value_rev length]; [by rewrite Z.pow_0_r, Z.mul_1_l|].
  rewrite IH, Nat2Z.inj_succ, Z.pow_succ_r by lia. lia.
Qed.

(** [n] digits are enough for a number below [base ^ n]. *)
Lemma printint_loop_spec n fuel x base buf :
  2 <= base <= 16 -> 0 <= x < base ^ Z.of_nat (S n) -> (n < fuel)%nat ->
  exists ds, printint_loop fuel x base buf = Some (buf ++ ds) /\ value_rev base ds = x /\
    (1 <= length ds <= S n)%nat.
Proof.
  intros Hb. revert fuel x buf. induction n as [|n IH]; intros fuel x buf Hx Hf; (destruct fuel as [|fuel]; [lia|]);
    cbn [printint_loop]; pose proof (Z.mod_pos_bound x base ltac:(lia)) as Hm.
  - rewrite Z.pow_1_r in Hx. rewrite Z.div_small, Z.mod_small by lia. cbn [Z.eqb negb].
    exists [digit x]. cbn [value_rev length]. rewrite digit_value_digit by lia. split_and!; [done|lia|lia|lia].
  - rewrite Nat2Z.inj_succ, Z.pow_succ_r in Hx by lia.
    assert (0 <= x / base < base ^ Z.of_nat (S n)) as Hq
      by (split; [apply Z.div_pos; lia|apply Z.div_lt_upper_bound; lia]).
    destruct (Z.eqb_spec (x / base) 0) as [E|E]; cbn [negb].
    + exists [digit (x mod base)]. cbn [value_rev length]. rewrite digit_value_digit by lia.
      pose proof (Z.div_mod x base ltac:(lia)). split_and!; [done|lia|lia|lia].
    + destruct (IH fuel (x / base) (buf ++ [digit (x mod base)]) Hq ltac:(lia)) as (ds & -> & Hv & Hl).
      exists (digit (x mod base) :: ds). rewrite <- app_assoc. cbn [value_rev length app].
      rewrite digit_value_digit, Hv by lia. pose proof (Z.div_mod x base ltac:(lia)). split_and!; [done|lia|lia|lia].
Qed.

(** Any fuel above the length of the format gives the same text. *)
Lemma printf_loop_fuel f g fmt a :
  (length fmt < f)%nat -> (length fmt < g)%nat -> printf_loop f fmt a = printf_loop g fmt a.
Proof.
  revert g fmt a. induction f as [|f IH]; intros [|g] fmt a Hf Hg; [lia..|]. cbn [printf_loop].
  destruct fmt as [|c fmt]; [done|]. simpl length in *.
  destruct (rd (c :: fmt) 0 =? 0); [done|]. destruct (negb _); [f_equal; apply IH; simpl; rewrite drop_0; lia|].
  destruct (format_one _ _ _ a) as [[[out k] a']|]; [|done]. f_equal. apply IH; rewrite length_drop; simpl; lia.
Qed.

(** C39: [printint] in base 10 and 16.  For every 64-bit argument the loop
    ends, at least one digit is printed, the digits (and the sign) fit in the
    20-byte buffer, and reading the printed digits back gives the number: the absolute value behind a
    minus sign for a negative signed argument, the unsigned value
    otherwise. *)
Theorem printint_correct xx base sign :
  base = 10 \/ base = 16 -> (base = 16 -> sign = false) -> - 2 ^ 63 <= xx < 2 ^ 64 -> (sign = true -> xx < 2 ^ 63) ->
  (1 <= length (printint_buf xx base sign) <= 20)%nat /\
  if sign && (xx <? 0)
  then exists ds, printint xx base sign = chr "-" :: ds /\ value base ds = - xx
  else value base (printint xx base sign) = u64 xx.
Proof.
  intros Hbase H16 Hxx Hs. unfold printint, printint_buf.
  assert (forall n x, 0 <= x < base ^ Z.of_nat (S n) -> (n < 64)%nat ->
    exists ds, printint_loop 64 x base [] = Some ds /\ value_rev base ds = x /\ (1 <= length ds <= S n)%nat) as Hloop.
  { intros n x Hx Hn. destruct (printint_loop_spec n 64 x base [] ltac:(destruct Hbase; subst; lia) Hx Hn)
      as (ds & ? & ? & ?). by exists ds. }
  destruct (sign && (xx <? 0)) eqn:E.
  - apply andb_true_iff in E as [-> Hneg%Z.ltb_lt]. assert (base = 10) as -> by (destruct Hbase as [? | ->]; [done|by specialize (H16 eq_refl)]).
    rewrite u64_small by lia. destruct (Hloop 18%nat (- xx)) as (ds & -> & Hv & Hl); [lia..|]. simpl default.
    split; [rewrite length_app; simpl; lia|]. exists (reverse ds). rewrite reverse_app. split; [done|].
    unfold value. by rewrite reverse_involutive.
  - pose proof (u64_range xx). destruct (Hloop 19%nat (u64 xx)) as (ds & -> & Hv & Hl); [destruct Hbase; subst; lia|lia|].
    simpl default. split; [lia|]. unfold value. by rewrite reverse_involutive.
Qed.

Lemma printint_correct_witness :
  (1 <= length (printint_buf (-70) 10 true) <= 20)%nat /\ printint (-70) 10 true = chars "-70".
Proof.
  split; [|by vm_compute].
  apply (printint_correct (-70) 10 true); [by left|done|lia|lia].
Defined.
