(* ===== verification/Virtio.v ===== *)
(** * The virtio disk driver (kernel/virtio_disk.c, kernel/virtio.h)

    The driver's book-keeping and the three shared structures: descriptor
    table, available ring, used ring.  A descriptor's address names the
    object it points to.  The buffers are those the driver is handed; the
    device side is what the virtio specification says of a block device. *)

From Stdlib Require Import String.
From S2P Require Import Prelude Param Spinlock.

Definition NUM : nat := 8.
Definition VRING_DESC_F_NEXT : Z := 1.
Definition VRING_DESC_F_WRITE : Z := 2.
Definition VIRTIO_BLK_T_IN : Z := 0.
Definition VIRTIO_BLK_T_OUT : Z := 1.

(** What a descriptor points to: nothing, [&disk.ops[i]], [b->data],
    [&disk.info[i].status]. *)
Inductive daddr := ANull | AOp (i : nat) | AData (b : nat) | AStatus (i : nat).

Record virtq_desc := mkDesc {
  q_addr : daddr;
  q_len : Z;
  q_flags : Z;
  q_next : nat
}.
Definition desc0 : virtq_desc := mkDesc ANull 0 0 0.
#[export] Instance virtq_desc_inhabited : Inhabited virtq_desc := populate desc0.

Record virtio_blk_req := mkReq { rq_type : Z; rq_reserved : Z; rq_sector : Z }.
#[export] Instance virtio_blk_req_inhabited : Inhabited virtio_blk_req := populate (mkReq 0 0 0).

(** [disk.info[i]] *)
Record info := mkInfo { in_b : option nat; in_status : Z }.
#[export] Instance info_inhabited : Inhabited info := populate (mkInfo None 0).

(** What the driver uses of a [struct buf]. *)
Record vbuf := mkVbuf { vb_disk : bool; vb_blockno : Z; vb_data : block }.
#[export] Instance vbuf_inhabited : Inhabited vbuf := populate (mkVbuf false 0 []).

Record vdisk := mkVdisk {
  vd_env : kenv;
  vdisk_lock : spinlock;
  vd_desc : list virtq_desc;   (* disk.desc *)
  av_idx : Z;                  (* disk.avail->idx *)
  av_ring : list nat;          (* disk.avail->ring *)
  us_idx : Z;                  (* disk.used->idx, written by the device *)
  us_ring : list nat;          (* the ids of disk.used->ring *)
  vd_free : list bool;         (* disk.free *)
  used_idx : Z;                (* disk.used_idx: looked this far in used *)
  vd_info : list info;
  vd_ops : list virtio_blk_req;
  vd_bufs : list vbuf;
  vd_medium : disk;            (* device: the medium *)
  dev_seen : Z;                (* device: the available ring is read up to here *)
  dev_queue : list nat;        (* device: chain heads it works on *)
  vd_regs : gmap Z Z           (* mmio registers *)
}.

Definition set_vdenv x v := mkVdisk x (vdisk_lock v) (vd_desc v) (av_idx v) (av_ring v) (us_idx v) (us_ring v) (vd_free v) (used_idx v) (vd_info v) (vd_ops v) (vd_bufs v) (vd_medium v) (dev_seen v) (dev_queue v) (vd_regs v).
Definition set_vdlock x v := mkVdisk (vd_env v) x (vd_desc v) (av_idx v) (av_ring v) (us_idx v) (us_ring v) (vd_free v) (used_idx v) (vd_info v) (vd_ops v) (vd_bufs v) (vd_medium v) (dev_seen v) (dev_queue v) (vd_regs v).
Definition set_desc x v := mkVdisk (vd_env v) (vdisk_lock v) x (av_idx v) (av_ring v) (us_idx v) (us_ring v) (vd_free v) (used_idx v) (vd_info v) (vd_ops v) (vd_bufs v) (vd_medium v) (dev_seen v) (dev_queue v) (vd_regs v).
Definition set_avidx x v := mkVdisk (vd_env v) (vdisk_lock v) (vd_desc v) x (av_ring v) (us_idx v) (us_ring v) (vd_free v) (used_idx v) (vd_info v) (vd_ops v) (vd_bufs v) (vd_medium v) (dev_seen v) (dev_queue v) (vd_regs v).
Definition set_avring x v := mkVdisk (vd_env v) (vdisk_lock v) (vd_desc v) (av_idx v) x (us_idx v) (us_ring v) (vd_free v) (used_idx v) (vd_info v) (vd_ops v) (vd_bufs v) (vd_medium v) (dev_seen v) (dev_queue v) (vd_regs v).
Definition set_uidx x v := mkVdisk (vd_env v) (vdisk_lock v) (vd_desc v) (av_idx v) (av_ring v) x (us_ring v) (vd_free v) (used_idx v) (vd_info v) (vd_ops v) (vd_bufs v) (vd_medium v) (dev_seen v) (dev_queue v) (vd_regs v).
Definition set_uring x v := mkVdisk (vd_env v) (vdisk_lock v) (vd_desc v) (av_idx v) (av_ring v) (us_idx v) x (vd_free v) (used_idx v) (vd_info v) (vd_ops v) (vd_bufs v) (vd_medium v) (dev_seen v) (dev_queue v) (vd_regs v).
Definition set_vfree x v := mkVdisk (vd_env v) (vdisk_lock v) (vd_desc v) (av_idx v) (av_ring v) (us_idx v) (us_ring v) x (used_idx v) (vd_info v) (vd_ops v) (vd_bufs v) (vd_medium v) (dev_seen v) (dev_queue v) (vd_regs v).
Definition set_usedidx x v := mkVdisk (vd_env v) (vdisk_lock v) (vd_desc v) (av_idx v) (av_ring v) (us_idx v) (us_ring v) (vd_free v) x (vd_info v) (vd_ops v) (vd_bufs v) (vd_medium v) (dev_seen v) (dev_queue v) (vd_regs v).
Definition set_info x v := mkVdisk (vd_env v) (vdisk_lock v) (vd_desc v) (av_idx v) (av_ring v) (us_idx v) (us_ring v) (vd_free v) (used_idx v) x (vd_ops v) (vd_bufs v) (vd_medium v) (dev_seen v) (dev_queue v) (vd_regs v).
Definition set_ops x v := mkVdisk (vd_env v) (vdisk_lock v) (vd_desc v) (av_idx v) (av_ring v) (us_idx v) (us_ring v) (vd_free v) (used_idx v) (vd_info v) x (vd_bufs v) (vd_medium v) (dev_seen v) (dev_queue v) (vd_regs v).
Definition set_vbufs x v := mkVdisk (vd_env v) (vdisk_lock v) (vd_desc v) (av_idx v) (av_ring v) (us_idx v) (us_ring v) (vd_free v) (used_idx v) (vd_info v) (vd_ops v) x (vd_medium v) (dev_seen v) (dev_queue v) (vd_regs v).
Definition set_vmedium x v := mkVdisk (vd_env v) (vdisk_lock v) (vd_desc v) (av_idx v) (av_ring v) (us_idx v) (us_ring v) (vd_free v) (used_idx v) (vd_info v) (vd_ops v) (vd_bufs v) x (dev_seen v) (dev_queue v) (vd_regs v).
Definition set_seen x v := mkVdisk (vd_env v) (vdisk_lock v) (vd_desc v) (av_idx v) (av_ring v) (us_idx v) (us_ring v) (vd_free v) (used_idx v) (vd_info v) (vd_ops v) (vd_bufs v) (vd_medium v) x (dev_queue v) (vd_regs v).
Definition set_queue x v := mkVdisk (vd_env v) (vdisk_lock v) (vd_desc v) (av_idx v) (av_ring v) (us_idx v) (us_ring v) (vd_free v) (used_idx v) (vd_info v) (vd_ops v) (vd_bufs v) (vd_medium v) (dev_seen v) x (vd_regs v).
Definition set_regs x v := mkVdisk (vd_env v) (vdisk_lock v) (vd_desc v) (av_idx v) (av_ring v) (us_idx v) (us_ring v) (vd_free v) (used_idx v) (vd_info v) (vd_ops v) (vd_bufs v) (vd_medium v) (dev_seen v) (dev_queue v) x.

#[export] Instance HasEnv_vdisk : HasEnv vdisk := mkLens vd_env set_vdenv.
Definition vd_lock_l : lens vdisk spinlock := mkLens vdisk_lock set_vdlock.

Abbreviation VIRTIO_MMIO_QUEUE_NOTIFY := 0x050%Z (only parsing).
Abbreviation VIRTIO_MMIO_INTERRUPT_STATUS := 0x060%Z (only parsing).
Abbreviation VIRTIO_MMIO_INTERRUPT_ACK := 0x064%Z (only parsing).
Definition read_reg (r : Z) : M vdisk Z := gets (fun v => vd_regs v !!! r).
Definition write_reg (r x : Z) : M vdisk unit := modify (fun v => set_regs (<[r := x]> (vd_regs v)) v).

Definition free_chan : chan := ("disk.free", 0).
Definition buf_chan (b : nat) : chan := ("buf", Z.of_nat b).

(** ** Descriptors *)

Fixpoint first_free (i : nat) (l : list bool) : option nat :=
  match l with
  | [] => None
  | b :: l' => if b : bool then Some i else first_free (S i) l'
  end.

Definition alloc_desc : M vdisk (option nat) :=
  l <- gets vd_free ;;
  match first_free 0 (take NUM l) with
  | Some i => modify (set_vfree (<[i := false]> l)) ;; ret (Some i)
  | None => ret None
  end.

Definition free_desc (i : nat) : M vdisk unit :=
  if (NUM <=? i)%nat then panic "free_desc 1" else
  l <- gets vd_free ;;
  if (l !!! i : bool) then panic "free_desc 2" else
  modify (fun v => set_desc (<[i := desc0]> (vd_desc v)) v) ;;
  modify (fun v => set_vfree (<[i := true]> (vd_free v)) v) ;;
  in_env (wakeup free_chan).

Fixpoint free_chain (fuel : nat) (i : nat) : M vdisk unit :=
  match fuel with
  | O => no_fuel
  | S fuel' =>
      d <- gets (fun v => vd_desc v !!! i) ;;
      free_desc i ;;
      if negb (Z.land (q_flags d) VRING_DESC_F_NEXT =? 0) then free_chain fuel' (q_next d) else ret tt
  end.

Definition alloc3_desc : M vdisk (option (nat * nat * nat)) :=
  a <- alloc_desc ;;
  match a with
  | None => ret None
  | Some i0 =>
      a <- alloc_desc ;;
      match a with
      | None => free_desc i0 ;; ret None
      | Some i1 =>
          a <- alloc_desc ;;
          match a with
          | None => free_desc i0 ;; free_desc i1 ;; ret None
          | Some i2 => ret (Some (i0, i1, i2))
          end
      end
  end.

(** ** A transfer *)

Definition upd_desc (i : nat) (d : virtq_desc) : M vdisk unit :=
  modify (fun v => set_desc (<[i := d]> (vd_desc v)) v).
Definition upd_vbuf (b : nat) (f : vbuf -> vbuf) : M vdisk unit :=
  modify (fun v => set_vbufs (alter f b (vd_bufs v)) v).
Definition set_vbdisk (d : bool) (x : vbuf) : vbuf := mkVbuf d (vb_blockno x) (vb_data x).
Definition set_vbdata (d : block) (x : vbuf) : vbuf := mkVbuf (vb_disk x) (vb_blockno x) d.
Definition upd_info (i : nat) (f : info -> info) : M vdisk unit :=
  modify (fun v => set_info (alter f i (vd_info v)) v).

(** The three descriptors of a request, formatted and made available. *)
Definition submit (b : nat) (write : bool) (i0 i1 i2 : nat) : M vdisk unit :=
  x <- gets (fun v => vd_bufs v !!! b) ;;
  let sector := u32 (vb_blockno x * (BSIZE / 512)) in
  modify (fun v => set_ops (<[i0 := mkReq (if write then VIRTIO_BLK_T_OUT else VIRTIO_BLK_T_IN) 0 sector]> (vd_ops v)) v) ;;
  upd_desc i0 (mkDesc (AOp i0) 16 VRING_DESC_F_NEXT i1) ;;
  upd_desc i1 (mkDesc (AData b) BSIZE (Z.lor (if write then 0 else VRING_DESC_F_WRITE) VRING_DESC_F_NEXT) i2) ;;
  upd_info i0 (fun x => mkInfo (in_b x) 0xff) ;;
  upd_desc i2 (mkDesc (AStatus i0) 1 VRING_DESC_F_WRITE 0) ;;
  upd_vbuf b (set_vbdisk true) ;;
  upd_info i0 (fun x => mkInfo (Some b) (in_status x)) ;;
  modify (fun v => set_avring (<[Z.to_nat (av_idx v mod Z.of_nat NUM) := i0]> (av_ring v)) v) ;;
  modify (fun v => set_avidx (u16 (av_idx v + 1)) v) ;;
  write_reg VIRTIO_MMIO_QUEUE_NOTIFY 0.

(** [virtio_disk_rw] up to the wait for the interrupt, and after it. *)
Definition virtio_disk_start (b : nat) (write : bool) : M vdisk nat :=
  with_env vd_lock_l acquire ;;
  a <- alloc3_desc ;;
  match a with
  | None => with_env vd_lock_l release ;; block_on free_chan
  | Some (i0, i1, i2) =>
      submit b write i0 i1 i2 ;;
      with_env vd_lock_l release ;;
      ret i0
  end.
Definition virtio_disk_finish (b i0 : nat) : M vdisk unit :=
  with_env vd_lock_l acquire ;;
  x <- gets (fun v => vd_bufs v !!! b) ;;
  if vb_disk x then with_env vd_lock_l release ;; block_on (buf_chan b) else
  upd_info i0 (fun x => mkInfo None (in_status x)) ;;
  free_chain NUM i0 ;;
  with_env vd_lock_l release.

(** The loop of the interrupt handler over the new entries of the used
    ring: at most [NUM] of them. *)
Fixpoint intr_loop (fuel : nat) : M vdisk unit :=
  match fuel with
  | O => no_fuel
  | S fuel' =>
      u <- gets used_idx ;;
      d <- gets us_idx ;;
      if u =? d then ret tt else
      id <- gets (fun v => us_ring v !!! Z.to_nat (u mod Z.of_nat NUM)) ;;
      x <- gets (fun v => vd_info v !!! id) ;;
      if negb (in_status x =? 0) then panic "virtio_disk_intr status" else
      match in_b x with
      | None => panic "null buf"
      | Some b =>
          upd_vbuf b (set_vbdisk false) ;;
          in_env (wakeup (buf_chan b)) ;;
          modify (fun v => set_usedidx (u16 (used_idx v + 1)) v) ;;
          intr_loop fuel'
      end
  end.

Definition virtio_disk_intr : M vdisk unit :=
  with_env vd_lock_l acquire ;;
  st <- read_reg VIRTIO_MMIO_INTERRUPT_STATUS ;;
  write_reg VIRTIO_MMIO_INTERRUPT_ACK (Z.land st 0x3) ;;
  intr_loop (S NUM) ;;
  with_env vd_lock_l release.
