(* ===== verification/VirtioProps.v ===== *)
(** * The disk driver and its device

    The device is a parameter, with what the virtio specification says of a
    block device as its laws: it reads heads off the available ring, serves
    requests in any order, may fail any of them, and reports each in the used
    ring.  What it does with a malformed request is left open. *)

From Stdlib Require Import String.
From S2P Require Import Prelude Param Spinlock Sleeplock Virtio.

(** ** The device *)

Definition head_at (ring : list nat) (i : Z) : nat := ring !!! Z.to_nat (i mod Z.of_nat NUM).

(** The device takes the next head off the available ring. *)
Definition dev_fetch (v : vdisk) : vdisk :=
  set_seen (u16 (dev_seen v + 1)) (set_queue (dev_queue v ++ [head_at (av_ring v) (dev_seen v)]) v).

(** A well-formed request: a 16-byte header, a data buffer of a block whose
    direction agrees with the request, a one-byte status the device may write. *)
Definition acceptable (type : Z) (d0 d1 d2 : virtq_desc) : bool :=
  (q_len d0 =? 16) && (q_len d1 =? BSIZE) && (q_len d2 =? 1) &&
  negb (Z.land (q_flags d0) VRING_DESC_F_NEXT =? 0) && negb (Z.land (q_flags d1) VRING_DESC_F_NEXT =? 0) &&
  (Z.land (q_flags d2) VRING_DESC_F_NEXT =? 0) && negb (Z.land (q_flags d2) VRING_DESC_F_WRITE =? 0) &&
  Bool.eqb (Z.land (q_flags d1) VRING_DESC_F_WRITE =? 0) (type =? VIRTIO_BLK_T_OUT).
Definition desc1 (v : vdisk) (h : nat) : virtq_desc := vd_desc v !!! q_next (vd_desc v !!! h).
Definition desc2 (v : vdisk) (h : nat) : virtq_desc := vd_desc v !!! q_next (desc1 v h).
Definition well_formed (v : vdisk) (h i b j : nat) : Prop :=
  q_addr (vd_desc v !!! h) = AOp i /\ q_addr (desc1 v h) = AData b /\ q_addr (desc2 v h) = AStatus j /\
  acceptable (rq_type (vd_ops v !!! i)) (vd_desc v !!! h) (desc1 v h) (desc2 v h).

(** The transfer between buffer [b] and block [blk]: what a thread asks for. *)
Definition dev_transfer (out : bool) (b : nat) (blk : Z) (v : vdisk) : vdisk :=
  if out then set_vmedium (disk_write blk (vb_data (vd_bufs v !!! b)) (vd_medium v)) v
  else set_vbufs (alter (set_vbdata (disk_read (vd_medium v) blk)) b (vd_bufs v)) v.

(** [serve type sector data medium st data' medium']: given a request and the
    data of its buffer, the device may report the status [st] and leave
    [data'] for the buffer and [medium'] behind.  Only a status of 0 promises
    anything. *)
Definition service := Z -> Z -> block -> disk -> Z -> block -> disk -> Prop.
Class BlkDevice (serve : service) := {
  serve_in n d m d' m' : serve VIRTIO_BLK_T_IN (n * (BSIZE / 512)) d m 0 d' m' -> d' = disk_read m n /\ m' = m;
  serve_out n d m d' m' : serve VIRTIO_BLK_T_OUT (n * (BSIZE / 512)) d m 0 d' m' -> m' = disk_write n d m
}.

(** The device stores into the data buffer only if its descriptor allows it. *)
Definition landed (d1 : virtq_desc) (b : nat) (data : block) (medium : disk) (v : vdisk) : vdisk :=
  set_vmedium medium (if Z.land (q_flags d1) VRING_DESC_F_WRITE =? 0 then v else set_vbufs (alter (set_vbdata data) b (vd_bufs v)) v).
(** The status byte, then the used ring. *)
Definition dev_report (h j : nat) (status : Z) (v : vdisk) : vdisk :=
  set_uidx (u16 (us_idx v + 1)) (set_uring (<[Z.to_nat (us_idx v mod Z.of_nat NUM) := h]> (us_ring v))
    (set_info (alter (fun x => mkInfo (in_b x) status) j (vd_info v)) v)).

Section device.
Context (serve : service).

Inductive dev_complete (h : nat) (v : vdisk) : vdisk -> Prop :=
| dc_served i b j st data medium :
    well_formed v h i b j ->
    serve (rq_type (vd_ops v !!! i)) (rq_sector (vd_ops v !!! i)) (vb_data (vd_bufs v !!! b)) (vd_medium v) st data medium ->
    dev_complete h v (dev_report h j st (landed (desc1 v h) b data medium v))
| dc_undefined v' : (forall i b j, ~ well_formed v h i b j) -> dev_complete h v v'.

(** While it works on a request the device may store anything in a buffer it
    may write, any number of times. *)
Inductive dev_scribble (h : nat) (v : vdisk) : vdisk -> Prop :=
| ds_store i b j data : well_formed v h i b j -> dev_scribble h v (landed (desc1 v h) b data (vd_medium v) v)
| ds_undefined v' : (forall i b j, ~ well_formed v h i b j) -> dev_scribble h v v'.
End device.

(** ** Requests in flight *)

(** [r_res]: the status and the data in the buffer when the device reported it. *)
Record req := mkRq { r_b : nat; r_w : bool; r_i0 : nat; r_i1 : nat; r_i2 : nat; r_res : option (Z * block) }.
#[export] Instance req_eq_dec : EqDecision req.
Proof. solve_decision. Defined.
Definition r_done (r : req) : bool := bool_decide (is_Some (r_res r)).
Definition chain (r : req) : list nat := [r_i0 r; r_i1 r; r_i2 r].
Definition used_descs (R : list req) : list nat := R ≫= chain.
Definition reported (v : vdisk) (r : req) : req :=
  mkRq (r_b r) (r_w r) (r_i0 r) (r_i1 r) (r_i2 r) (Some (in_status (vd_info v !!! r_i0 r), vb_data (vd_bufs v !!! r_b r))).
Definition mark (v : vdisk) (h : nat) (r : req) : req := if decide (r_i0 r = h) then reported v r else r.

(** Threads start and finish requests, the device fetches, works on and
    reports them, interrupts arrive: in any order.  Each section of the driver
    under [vdisk_lock] is one step.  A thread starts a request only for a
    buffer it has locked. *)
Inductive vstep (serve : service) : vdisk * list req -> vdisk * list req -> Prop :=
| vs_start v R b w i0 v' :
    (b < length (vd_bufs v))%nat -> (b ∉ r_b <$> R) -> 0 <= vb_blockno (vd_bufs v !!! b) < 2 ^ 31 ->
    virtio_disk_start b w v = Ok i0 v' ->
    vstep serve (v, R) (v', mkRq b w i0 (q_next (vd_desc v' !!! i0)) (q_next (desc1 v' i0)) None :: R)
| vs_wait v R b w c v' : virtio_disk_start b w v = Block c v' -> vstep serve (v, R) (v', R)
| vs_fetch v R : dev_seen v <> av_idx v -> vstep serve (v, R) (dev_fetch v, R)
| vs_scribble v R h v' : h ∈ dev_queue v -> dev_scribble h v v' -> vstep serve (v, R) (v', R)
| vs_complete v R q1 h q2 v' :
    dev_queue v = q1 ++ h :: q2 -> dev_complete serve h v v' -> vstep serve (v, R) (set_queue (q1 ++ q2) v', mark v' h <$> R)
| vs_intr v R v' : virtio_disk_intr v = Ok tt v' -> vstep serve (v, R) (v', R)
| vs_finish v R1 r R2 v' :
    virtio_disk_finish (r_b r) (r_i0 r) v = Ok tt v' -> vstep serve (v, R1 ++ r :: R2) (v', R1 ++ R2)
| vs_finish_wait v R r c v' : r ∈ R -> virtio_disk_finish (r_b r) (r_i0 r) v = Block c v' -> vstep serve (v, R) (v', R).

(** ** Rings *)

(** The heads between two ring indices. *)
Definition window (ring : list nat) (i : Z) (n : nat) : list nat := (fun k => head_at ring (i + Z.of_nat k)) <$> seq 0 n.

Lemma u16_mod a : u16 a mod Z.of_nat NUM = a mod Z.of_nat NUM.
Proof.
  unfold u16. change (2 ^ 16) with (8 * 2 ^ 13). change (Z.of_nat NUM) with 8.
  rewrite Z.rem_mul_r by lia. rewrite Z.mul_comm, Z_mod_plus_full, Zmod_mod. done.
Qed.

Lemma head_at_u16 ring i k : head_at ring (u16 i + k) = head_at ring (i + k).
Proof.
  unfold head_at. do 2 f_equal. rewrite <- Zplus_mod_idemp_l, u16_mod, Zplus_mod_idemp_l. done.
Qed.

Lemma window_length ring i n : length (window ring i n) = n.
Proof. unfold window. by rewrite length_fmap, length_seq. Qed.

Lemma window_pop ring i n : window ring i (S n) = head_at ring i :: window ring (u16 (i + 1)) n.
Proof.
  unfold window. cbn [seq fmap list_fmap]. f_equal; [f_equal; lia|]. rewrite <- fmap_S_seq, <- list_fmap_compose.
  apply list_fmap_ext. intros k x _. cbn. rewrite head_at_u16. f_equal. lia.
Qed.

Lemma window_push ring i n h :
  length ring = NUM -> (n < NUM)%nat ->
  window (<[Z.to_nat ((i + Z.of_nat n) mod Z.of_nat NUM) := h]> ring) i (S n) = window ring i n ++ [h].
Proof.
  intros Hl Hn. unfold window. rewrite seq_S, fmap_app. f_equal.
  - apply list_fmap_ext. intros k x Hk. apply lookup_seq in Hk as [-> Hk]. unfold head_at.
    rewrite list_lookup_total_insert_ne; [done|]. change (Z.of_nat NUM) with 8. unfold NUM in Hn.
    intros E. apply Z2Nat.inj in E; [|apply Z.mod_pos_bound; lia..].
    pose proof (Z.div_mod (i + Z.of_nat n) 8 ltac:(lia)). pose proof (Z.div_mod (i + Z.of_nat (0 + k)) 8 ltac:(lia)). lia.
  - cbn. f_equal. unfold head_at. rewrite list_lookup_total_insert_eq; [done|]. rewrite Hl. change (Z.of_nat NUM) with 8. unfold NUM.
    pose proof (Z.mod_pos_bound (i + Z.of_nat n) 8 ltac:(lia)). lia.
Qed.

(** ** Invariant

    [A]: heads in the available ring the device has not read; [D]: heads the
    device works on; [U]: heads in the used ring the driver has not looked
    at; [F]: heads whose threads may go on. *)

Definition data_flags (w : bool) : Z := Z.lor (if w then 0 else VRING_DESC_F_WRITE) VRING_DESC_F_NEXT.

Record formatted (v : vdisk) (r : req) : Prop := {
  fm_b : (r_b r < length (vd_bufs v))%nat;
  fm_blk : 0 <= vb_blockno (vd_bufs v !!! r_b r) < 2 ^ 31;
  fm_op : vd_ops v !! r_i0 r = Some (mkReq (if r_w r then VIRTIO_BLK_T_OUT else VIRTIO_BLK_T_IN) 0
            (u32 (vb_blockno (vd_bufs v !!! r_b r) * (BSIZE / 512))));
  fm_d0 : vd_desc v !! r_i0 r = Some (mkDesc (AOp (r_i0 r)) 16 VRING_DESC_F_NEXT (r_i1 r));
  fm_d1 : vd_desc v !! r_i1 r = Some (mkDesc (AData (r_b r)) BSIZE (data_flags (r_w r)) (r_i2 r));
  fm_d2 : vd_desc v !! r_i2 r = Some (mkDesc (AStatus (r_i0 r)) 1 VRING_DESC_F_WRITE 0);
  fm_info : exists st, vd_info v !! r_i0 r = Some (mkInfo (Some (r_b r)) st) /\
    forall st' d, r_res r = Some (st', d) -> st = st' /\ vb_data (vd_bufs v !!! r_b r) = d
}.

Record vinv (v : vdisk) (R : list req) (A D U F : list nat) : Prop := {
  vi_env : env_ok (vd_env v);
  vi_lock : vdisk_lock v = initlock;
  vi_desc : length (vd_desc v) = NUM;
  vi_info : length (vd_info v) = NUM;
  vi_ops : length (vd_ops v) = NUM;
  vi_avr : length (av_ring v) = NUM;
  vi_usr : length (us_ring v) = NUM;
  vi_nodup : NoDup (used_descs R);
  vi_lt : Forall (fun i => (i < NUM)%nat) (used_descs R);
  vi_flen : length (vd_free v) = NUM;
  vi_free : forall i, (i < NUM)%nat -> vd_free v !! i = Some (negb (bool_decide (i ∈ used_descs R)));
  vi_req : Forall (formatted v) R;
  vi_bufs : NoDup (r_b <$> R);
  vi_heads : A ++ D ++ U ++ F ≡ₚ r_i0 <$> R;
  vi_disk : forall r, r ∈ R -> vb_disk (vd_bufs v !!! r_b r) = negb (bool_decide (r_i0 r ∈ F));
  vi_done : forall r, r ∈ R -> r_done r = bool_decide (r_i0 r ∈ U ++ F);
  vi_ok : forall r, r ∈ R -> r_i0 r ∈ F -> exists d, r_res r = Some (0, d);
  vi_avail : A = window (av_ring v) (dev_seen v) (length A) /\ av_idx v = u16 (dev_seen v + Z.of_nat (length A)) /\
    0 <= dev_seen v < 2 ^ 16;
  vi_queue : D = dev_queue v;
  vi_used : U = window (us_ring v) (used_idx v) (length U) /\ us_idx v = u16 (used_idx v + Z.of_nat (length U)) /\
    0 <= used_idx v < 2 ^ 16
}.

Lemma used_length R : length (used_descs R) = (3 * length R)%nat.
Proof. induction R as [|r R IH]; [done|]. change (used_descs (r :: R)) with (chain r ++ used_descs R). rewrite length_app, IH. cbn. lia. Qed.

(** Eight descriptors, three a request: at most two requests in flight. *)
Lemma req_bound v R A D U F : vinv v R A D U F -> (length R <= 2)%nat.
Proof.
  intros I. assert (length (used_descs R) <= length (seq 0 NUM))%nat as H.
  { apply submseteq_length, NoDup_submseteq; [apply I|]. intros i Hi. apply elem_of_seq.
    pose proof (vi_lt _ _ _ _ _ _ I) as Hl. rewrite Forall_forall in Hl. specialize (Hl i Hi). lia. }
  rewrite used_length, length_seq in H. unfold NUM in H. lia.
Qed.

Lemma in_chain R r i : r ∈ R -> i ∈ chain r -> i ∈ used_descs R.
Proof. intros Hr Hi. apply list_elem_of_bind. by exists r. Qed.

Lemma heads_nodup R : NoDup (used_descs R) -> NoDup (r_i0 <$> R).
Proof.
  induction R as [|r R IH]; cbn [fmap list_fmap]; [constructor|].
  change (used_descs (r :: R)) with (chain r ++ used_descs R). intros (_ & H & HR)%NoDup_app. constructor; [|by apply IH].
  intros (r' & E & Hr')%list_elem_of_fmap. apply (H (r_i0 r)); [left|]. rewrite E. apply (in_chain R r'); [done|left].
Qed.

Lemma head_in R r : r ∈ R -> r_i0 r ∈ used_descs R.
Proof. intros Hr. apply (in_chain R r); [done|]. left. Qed.

(** Heads determine requests, and so do buffers. *)
Lemma head_inj R r r' : NoDup (used_descs R) -> r ∈ R -> r' ∈ R -> r_i0 r = r_i0 r' -> r = r'.
Proof.
  intros Hn Hr Hr' E. apply heads_nodup in Hn. apply list_elem_of_lookup in Hr as [i Hi], Hr' as [j Hj].
  assert (i = j) as ->; [|congruence].
  eapply NoDup_lookup; [exact Hn|by rewrite list_lookup_fmap, Hi|by rewrite list_lookup_fmap, Hj; cbn; rewrite E].
Qed.
Lemma buf_inj R r r' : NoDup (r_b <$> R) -> r ∈ R -> r' ∈ R -> r_b r = r_b r' -> r = r'.
Proof.
  intros Hn Hr Hr' E. apply list_elem_of_lookup in Hr as [i Hi], Hr' as [j Hj].
  assert (i = j) as ->; [|congruence].
  eapply NoDup_lookup; [exact Hn|by rewrite list_lookup_fmap, Hi|by rewrite list_lookup_fmap, Hj; cbn; rewrite E].
Qed.

(** ** Descriptors *)

Lemma first_free_Some j l i : first_free j l = Some i -> (j <= i)%nat /\ l !! (i - j)%nat = Some true.
Proof.
  revert j. induction l as [|b l IH]; intros j H; cbn in H; [done|]. destruct b.
  - injection H as <-. by rewrite Nat.sub_diag.
  - apply IH in H as [? H]. split; [lia|]. by replace (i - j)%nat with (S (i - S j)) by lia.
Qed.
Lemma first_free_None j l i : first_free j l = None -> l !! i <> Some true.
Proof.
  revert j i. induction l as [|b l IH]; intros j i H; [done|]. cbn in H. destruct b; [done|]. destruct i; cbn; [done|by eapply IH].
Qed.

Lemma wp_alloc_desc v :
  length (vd_free v) = NUM ->
  wp alloc_desc (fun r v' => match r with
    | Some i => (i < NUM)%nat /\ vd_free v !! i = Some true /\ v' = set_vfree (<[i := false]> (vd_free v)) v
    | None => (forall i, vd_free v !! i <> Some true) /\ v' = v
    end) v.
Proof.
  intros Hl. unfold alloc_desc. wp_step. apply wp_gets. rewrite take_ge by lia.
  destruct (first_free 0 (vd_free v)) as [i|] eqn:E.
  - apply first_free_Some in E as [_ E]. rewrite Nat.sub_0_r in E. wp_steps. split_and!; [|done..].
    apply lookup_lt_Some in E. lia.
  - wp_step. split; [|done]. intros i. by apply (first_free_None 0).
Qed.

Lemma wp_free_desc i v Q :
  (i < NUM)%nat -> vd_free v !! i = Some false ->
  (forall e, env_same (vd_env v) e ->
     Q tt (set_vdenv e (set_vfree (<[i := true]> (vd_free v)) (set_desc (<[i := desc0]> (vd_desc v)) v)))) ->
  wp (free_desc i) Q v.
Proof.
  intros Hi Hf HQ. unfold free_desc. rewrite (proj2 (Nat.leb_gt NUM i)) by lia. wp_step. apply wp_gets.
  rewrite (list_lookup_total_correct _ _ _ Hf). wp_steps. apply wp_zoom, wp_modify. apply HQ. apply env_same_woken.
Qed.

(** [v] with some descriptors outside the chains in use wiped. *)
Definition wiped (v v' : vdisk) : Prop :=
  exists e ds, env_same (vd_env v) e /\ v' = set_vdenv e (set_desc ds v) /\ length ds = length (vd_desc v) /\
    forall i, vd_free v !! i = Some false -> ds !! i = vd_desc v !! i.

Lemma wiped_refl v : wiped v v.
Proof. exists (vd_env v), (vd_desc v). split_and!; [reflexivity|by destruct v|done|done]. Qed.

(** Taking a free descriptor and giving it back. *)
Lemma free_restore v i l : vd_free v !! i = Some true -> l = <[i := true]> (<[i := false]> (vd_free v)) -> l = vd_free v.
Proof. intros H ->. by rewrite list_insert_insert_eq, list_insert_id. Qed.

Lemma free_restore2 v i j :
  i <> j -> vd_free v !! i = Some true -> vd_free v !! j = Some true ->
  <[j := true]> (<[i := true]> (<[j := false]> (<[i := false]> (vd_free v)))) = vd_free v.
Proof.
  intros Hne Hi Hj. rewrite (list_insert_insert_ne _ i j), list_insert_insert_eq, list_insert_insert_eq by done.
  rewrite (list_insert_id _ i true) by done. by apply list_insert_id.
Qed.

Lemma wp_alloc3_desc v :
  length (vd_free v) = NUM ->
  wp alloc3_desc (fun r v' => match r with
    | Some (i0, i1, i2) =>
        NoDup [i0; i1; i2] /\ Forall (fun i => (i < NUM)%nat /\ vd_free v !! i = Some true) [i0; i1; i2] /\
        v' = set_vfree (<[i2 := false]> (<[i1 := false]> (<[i0 := false]> (vd_free v)))) v
    | None => wiped v v' /\ exists l, (length l <= 2)%nat /\ forall i, vd_free v !! i = Some true -> i ∈ l
    end) v.
Proof.
  intros Hl. unfold alloc3_desc. wp_step. wp_use (wp_alloc_desc v Hl). intros [i0|] v1.
  2:{ intros [H ->]. wp_step. split; [apply wiped_refl|]. exists []. split; [cbn; lia|]. intros i Hi. by destruct (H i). }
  intros (Hi0 & Hf0 & ->). wp_step.
  wp_use (wp_alloc_desc (set_vfree (<[i0 := false]> (vd_free v)) v)); [by cbn; rewrite length_insert|].
  cbn [vd_free set_vfree]. intros [i1|] v2.
  2:{ intros [H ->]. wp_step. apply wp_free_desc; [done|cbn; by apply list_lookup_insert_eq; lia|]. cbn [vd_env vd_free vd_desc set_vfree].
    intros e He. wp_step. split.
    - rewrite (free_restore v i0 _ Hf0 eq_refl). exists e, (<[i0 := desc0]> (vd_desc v)). split_and!; [done|by destruct v|by rewrite length_insert|].
      intros i Hi. apply list_lookup_insert_ne. intros ->. congruence.
    - exists [i0]. split; [cbn; lia|]. intros i Hi. destruct (decide (i = i0)) as [->|Hne]; [left|].
      destruct (H i). by rewrite list_lookup_insert_ne. }
  intros (Hi1 & Hf1 & ->). assert (i1 <> i0) as H10 by (intros ->; rewrite list_lookup_insert_eq in Hf1 by lia; done).
  rewrite list_lookup_insert_ne in Hf1 by done. wp_step.
  wp_use (wp_alloc_desc (set_vfree (<[i1 := false]> (<[i0 := false]> (vd_free v))) v)); [by cbn; rewrite !length_insert|].
  cbn [vd_free set_vfree]. intros [i2|] v3.
  2:{ intros [H ->]. wp_step.
    apply wp_free_desc; [done|cbn; rewrite list_lookup_insert_ne by done; apply list_lookup_insert_eq; lia|]. cbn [vd_env vd_free vd_desc set_vfree].
    intros e He. wp_step. apply wp_free_desc; [done|cbn; rewrite list_lookup_insert_ne by done; apply list_lookup_insert_eq; rewrite ?length_insert; lia|].
    intros e' He'. wp_step. cbn [vd_env vd_free vd_desc set_vfree set_vdenv set_desc] in *. split.
    - exists e', (<[i1 := desc0]> (<[i0 := desc0]> (vd_desc v))). split_and!; [by transitivity e| |by rewrite !length_insert|].
      + rewrite (free_restore2 v i0 i1) by done. by destruct v.
      + intros i Hi. rewrite !list_lookup_insert_ne; [done|intros ->; congruence..].
    - exists [i0; i1]. split; [cbn; lia|]. intros i Hi. destruct (decide (i = i0)) as [->|]; [left|]. destruct (decide (i = i1)) as [->|]; [right; left|].
      destruct (H i). by rewrite !list_lookup_insert_ne. }
  intros (Hi2 & Hf2 & ->). assert (i2 <> i1) as H21 by (intros ->; rewrite list_lookup_insert_eq in Hf2 by (rewrite length_insert; lia); done).
  rewrite list_lookup_insert_ne in Hf2 by done.
  assert (i2 <> i0) as H20 by (intros ->; rewrite list_lookup_insert_eq in Hf2 by lia; done).
  rewrite list_lookup_insert_ne in Hf2 by done.
  wp_step. split_and!; [|by rewrite !Forall_cons, Forall_nil|done].
  rewrite !NoDup_cons, !not_elem_of_cons. split_and!; try done; [apply not_elem_of_nil..|constructor].
Qed.

(** ** Starting a request *)

(** The state after [submit], field by field. *)
Definition submitted (b : nat) (w : bool) (i0 i1 i2 : nat) (v : vdisk) : vdisk :=
  mkVdisk (vd_env v) (vdisk_lock v)
    (<[i2 := mkDesc (AStatus i0) 1 VRING_DESC_F_WRITE 0]> (<[i1 := mkDesc (AData b) BSIZE (data_flags w) i2]>
      (<[i0 := mkDesc (AOp i0) 16 VRING_DESC_F_NEXT i1]> (vd_desc v))))
    (u16 (av_idx v + 1)) (<[Z.to_nat (av_idx v mod Z.of_nat NUM) := i0]> (av_ring v)) (us_idx v) (us_ring v)
    (vd_free v) (used_idx v)
    (alter (fun x => mkInfo (Some b) (in_status x)) i0 (alter (fun x => mkInfo (in_b x) 0xff) i0 (vd_info v)))
    (<[i0 := mkReq (if w then VIRTIO_BLK_T_OUT else VIRTIO_BLK_T_IN) 0 (u32 (vb_blockno (vd_bufs v !!! b) * (BSIZE / 512)))]> (vd_ops v))
    (alter (set_vbdisk true) b (vd_bufs v)) (vd_medium v) (dev_seen v) (dev_queue v)
    (<[VIRTIO_MMIO_QUEUE_NOTIFY := 0]> (vd_regs v)).

Lemma wp_submit b w i0 i1 i2 v Q : Q tt (submitted b w i0 i1 i2 v) -> wp (submit b w i0 i1 i2) Q v.
Proof. exact id. Qed.

(** A request keeps its form when its own parts are not touched. *)
Lemma formatted_frame v v' r :
  length (vd_bufs v') = length (vd_bufs v) ->
  vb_blockno (vd_bufs v' !!! r_b r) = vb_blockno (vd_bufs v !!! r_b r) ->
  (r_done r = true -> vb_data (vd_bufs v' !!! r_b r) = vb_data (vd_bufs v !!! r_b r)) ->
  (forall i, i ∈ chain r -> vd_desc v' !! i = vd_desc v !! i) ->
  vd_ops v' !! r_i0 r = vd_ops v !! r_i0 r -> vd_info v' !! r_i0 r = vd_info v !! r_i0 r ->
  formatted v r -> formatted v' r.
Proof.
  intros Hl Hb Hdat Hd Ho Hi [F1 F2 F3 F4 F5 F6 (st & F7 & F8)]. split; rewrite ?Hl, ?Hb, ?Ho, ?Hi; try done.
  - rewrite Hd; [done|left].
  - rewrite Hd; [done|right; left].
  - rewrite Hd; [done|right; right; left].
  - exists st. split; [done|]. intros st' d E. rewrite Hdat; [by apply F8|]. by apply bool_decide_eq_true_2; rewrite E.
Qed.

Section started.
Context (v : vdisk) (R : list req) (A D U F : list nat) (I : vinv v R A D U F).

Lemma free_unused i : (i < NUM)%nat -> vd_free v !! i = Some true -> i ∉ used_descs R.
Proof. intros Hi Hf. rewrite (vi_free _ _ _ _ _ _ I i Hi) in Hf. injection Hf as Hf. by apply negb_true_iff, bool_decide_eq_false in Hf. Qed.

Lemma head_req h : h ∈ A ++ D ++ U ++ F -> exists r, r ∈ R /\ r_i0 r = h.
Proof. rewrite (vi_heads _ _ _ _ _ _ I). intros (r & -> & Hr)%list_elem_of_fmap. by exists r. Qed.

Lemma head_used h : h ∈ A ++ D ++ U ++ F -> h ∈ used_descs R.
Proof. intros (r & Hr & <-)%head_req. by apply head_in. Qed.

Context (b : nat) (w : bool) (i0 i1 i2 : nat) (e : kenv).
Let r0 := mkRq b w i0 i1 i2 None.
Let free' := <[i2 := false]> (<[i1 := false]> (<[i0 := false]> (vd_free v))).
Let v' := set_vdlock initlock (set_vdenv e (submitted b w i0 i1 i2 (set_vfree free' v))).
Hypothesis (Hb : (b < length (vd_bufs v))%nat) (Hnb : b ∉ r_b <$> R) (Hblk : 0 <= vb_blockno (vd_bufs v !!! b) < 2 ^ 31)
  (Hnd : NoDup [i0; i1; i2]) (Hfr : Forall (fun i => (i < NUM)%nat /\ vd_free v !! i = Some true) [i0; i1; i2])
  (He : env_same (vd_env v) e).

Lemma bufs_blockno x : vb_blockno (vd_bufs v' !!! x) = vb_blockno (vd_bufs v !!! x).
Proof.
  change (vd_bufs v') with (alter (set_vbdisk true) b (vd_bufs v)). destruct (decide (x = b)) as [->|Hne].
  - by rewrite list_lookup_total_alter_eq.
  - by rewrite list_lookup_total_alter_ne.
Qed.

Lemma bufs_data x : vb_data (vd_bufs v' !!! x) = vb_data (vd_bufs v !!! x).
Proof.
  change (vd_bufs v') with (alter (set_vbdisk true) b (vd_bufs v)). destruct (decide (x = b)) as [->|Hne].
  - by rewrite list_lookup_total_alter_eq.
  - by rewrite list_lookup_total_alter_ne.
Qed.

Lemma started_old r : r ∈ R -> formatted v r -> formatted v' r.
Proof.
  intros Hr. rewrite !Forall_cons in Hfr. destruct Hfr as ((? & Hf0) & (? & Hf1) & (? & Hf2) & _).
  assert (forall i, i ∈ chain r -> i <> i0 /\ i <> i1 /\ i <> i2) as Hc.
  { intros i Hi. apply (in_chain R r i Hr) in Hi. split_and!; intros ->; (eapply free_unused; [| |exact Hi]; done). }
  apply formatted_frame.
  - apply length_alter.
  - apply bufs_blockno.
  - intros _. apply bufs_data.
  - intros i Hi. destruct (Hc i Hi) as (? & ? & ?). cbn. by rewrite !list_lookup_insert_ne.
  - destruct (Hc (r_i0 r)) as (? & ? & ?); [left|]. cbn. by rewrite list_lookup_insert_ne.
  - destruct (Hc (r_i0 r)) as (? & ? & ?); [left|]. cbn. by rewrite !list_lookup_alter_ne.
Qed.

Lemma started_new : formatted v' r0.
Proof.
  rewrite !Forall_cons in Hfr. destruct Hfr as ((? & Hf0) & (? & Hf1) & (? & Hf2) & _).
  rewrite !NoDup_cons, !not_elem_of_cons in Hnd. destruct Hnd as ((? & ? & _) & (? & _) & _).
  pose proof (vi_desc _ _ _ _ _ _ I). pose proof (vi_ops _ _ _ _ _ _ I).
  split; cbn [r_b r_w r_i0 r_i1 r_i2 r_done r0].
  - by cbn; rewrite length_alter.
  - by rewrite bufs_blockno.
  - rewrite bufs_blockno. cbn. rewrite list_lookup_insert_eq by lia. done.
  - cbn. rewrite !list_lookup_insert_ne by done. apply list_lookup_insert_eq. lia.
  - cbn. rewrite list_lookup_insert_ne by done. apply list_lookup_insert_eq. rewrite length_insert. lia.
  - cbn. apply list_lookup_insert_eq. rewrite !length_insert. lia.
  - destruct (lookup_lt_is_Some_2 (vd_info v) i0) as [x Hx]; [rewrite (vi_info _ _ _ _ _ _ I); lia|].
    exists 255. cbn. by rewrite !list_lookup_alter_eq, Hx.
Qed.

Lemma vinv_started : vinv v' (r0 :: R) (A ++ [i0]) D U F.
Proof.
  pose proof started_new as Hnew. pose proof Hfr as Hfr0.
  rewrite !Forall_cons in Hfr0. destruct Hfr0 as ((? & Hf0) & (? & Hf1) & (? & Hf2) & _).
  assert (used_descs (r0 :: R) = [i0; i1; i2] ++ used_descs R) as Hu by done.
  assert (forall i, i ∈ [i0; i1; i2] -> i ∉ used_descs R) as Hfresh.
  { intros i Hi. rewrite !elem_of_cons in Hi. destruct Hi as [->|[->|[->|Hi]]]; try by apply free_unused. by apply elem_of_nil in Hi. }
  assert (i0 ∉ A ++ D ++ U ++ F) as Hi0 by (intros Hi%head_used; by apply (Hfresh i0); [left|]).
  pose proof (Permutation_length (vi_heads _ _ _ _ _ _ I)) as HA. rewrite !length_app, length_fmap in HA.
  pose proof (req_bound _ _ _ _ _ _ I).
  split; try by apply I.
  - by apply (env_same_ok (vd_env v)), I.
  - done.
  - cbn. by rewrite !length_insert, (vi_desc _ _ _ _ _ _ I).
  - cbn. by rewrite !length_alter, (vi_info _ _ _ _ _ _ I).
  - cbn. by rewrite length_insert, (vi_ops _ _ _ _ _ _ I).
  - cbn. by rewrite length_insert, (vi_avr _ _ _ _ _ _ I).
  - rewrite Hu. apply NoDup_app. split_and!; [done|done|apply I].
  - rewrite Hu. apply Forall_app. split; [|apply I]. eapply Forall_impl; [exact Hfr|]. by intros i [? _].
  - cbn. unfold free'. by rewrite !length_insert, (vi_flen _ _ _ _ _ _ I).
  - intros i Hi. cbn [vd_free set_vdlock set_vdenv submitted set_vfree v']. rewrite Hu. unfold free'.
    pose proof (vi_flen _ _ _ _ _ _ I) as Hlen.
    destruct (decide (i ∈ [i0; i1; i2])) as [Hin|Hin].
    + rewrite bool_decide_eq_true_2 by (apply elem_of_app; by left). cbn [negb].
      rewrite !list_lookup_insert, !length_insert. rewrite !elem_of_cons, elem_of_nil in Hin. repeat case_decide; naive_solver lia.
    + rewrite !not_elem_of_cons in Hin. destruct Hin as (? & ? & ? & _). rewrite !list_lookup_insert_ne by done.
      rewrite (vi_free _ _ _ _ _ _ I i Hi). do 2 f_equal. apply bool_decide_ext. rewrite elem_of_app, !elem_of_cons, elem_of_nil. naive_solver.
  - apply Forall_cons. split; [done|]. rewrite Forall_forall. intros r Hr. apply started_old; [done|].
    pose proof (vi_req _ _ _ _ _ _ I) as HR. rewrite Forall_forall in HR. by apply HR.
  - cbn [fmap list_fmap]. constructor; [done|apply I].
  - cbn [fmap list_fmap]. rewrite <- app_assoc. cbn [app]. rewrite <- (vi_heads _ _ _ _ _ _ I). symmetry. apply Permutation_middle.
  - intros r [->|Hr]%elem_of_cons.
    + cbn. rewrite list_lookup_total_alter_eq by done. cbn. rewrite bool_decide_eq_false_2; [done|]. intros Hx. apply Hi0. by rewrite !elem_of_app; auto.
    + cbn. rewrite list_lookup_total_alter_ne; [by apply I|]. intros E. apply Hnb, list_elem_of_fmap. by exists r.
  - intros r [->|Hr]%elem_of_cons; [|by apply I]. cbn. rewrite bool_decide_eq_false_2; [done|]. intros Hx. apply Hi0. rewrite !elem_of_app in *. tauto.
  - intros r [->|Hr]%elem_of_cons HF; [|by apply I]. destruct Hi0. rewrite !elem_of_app. by do 3 right.
  - destruct (vi_avail _ _ _ _ _ _ I) as (HAw & Hidx & Hseen). rewrite length_app. cbn [length]. rewrite Nat.add_1_r.
    cbn [av_ring dev_seen av_idx set_vdlock set_vdenv submitted set_vfree v']. rewrite Hidx. split_and!; [| |lia..].
    + rewrite u16_mod, window_push; [congruence|apply I|]. unfold NUM. lia.
    + unfold u16. rewrite Zplus_mod_idemp_l. f_equal. lia.
Qed.
End started.

Lemma in_use v R A D U F i : vinv v R A D U F -> i ∈ used_descs R -> (i < NUM)%nat /\ vd_free v !! i = Some false.
Proof.
  intros I Hi. pose proof (vi_lt _ _ _ _ _ _ I) as Hl. rewrite Forall_forall in Hl. specialize (Hl i Hi). split; [done|].
  rewrite (vi_free _ _ _ _ _ _ I i Hl). by rewrite bool_decide_eq_true_2.
Qed.

(** Wiping free descriptors disturbs no request. *)
Lemma vinv_wiped v R A D U F e ds :
  vinv v R A D U F -> env_same (vd_env v) e -> length ds = length (vd_desc v) ->
  (forall i, vd_free v !! i = Some false -> ds !! i = vd_desc v !! i) ->
  vinv (set_vdlock initlock (set_vdenv e (set_desc ds v))) R A D U F.
Proof.
  intros I He Hl Hds. split; try by apply I.
  - by apply (env_same_ok (vd_env v)), I.
  - done.
  - cbn. rewrite Hl. apply I.
  - pose proof (vi_req _ _ _ _ _ _ I) as HR. rewrite Forall_forall in *. intros r Hr. specialize (HR r Hr).
    refine (formatted_frame v _ r _ _ _ _ _ _ HR); try done.
    intros i Hi. apply Hds, (in_use _ _ _ _ _ _ i I), (in_chain R r); done.
Qed.

(** All but two descriptors in use: two requests are in flight. *)
Lemma few_free v R A D U F l :
  vinv v R A D U F -> (length l <= 2)%nat -> (forall i, vd_free v !! i = Some true -> i ∈ l) -> length R = 2%nat.
Proof.
  intros I Hl Hfree. pose proof (req_bound _ _ _ _ _ _ I).
  assert (length (seq 0 NUM) <= length (l ++ used_descs R))%nat as H1.
  { apply submseteq_length, NoDup_submseteq; [apply NoDup_seq|]. intros i Hi%elem_of_seq. apply elem_of_app.
    destruct (decide (i ∈ used_descs R)) as [|Hn]; [by right|left]. apply Hfree.
    rewrite (vi_free _ _ _ _ _ _ I i) by lia. by rewrite bool_decide_eq_false_2. }
  rewrite length_app, used_length, length_seq in H1. unfold NUM in H1. lia.
Qed.

Lemma start_spec v R A D U F b w :
  vinv v R A D U F ->
  wpb (virtio_disk_start b w)
    (fun i0 v' => (b < length (vd_bufs v))%nat -> (b ∉ r_b <$> R) -> 0 <= vb_blockno (vd_bufs v !!! b) < 2 ^ 31 ->
       exists i1 i2, vinv v' (mkRq b w i0 i1 i2 None :: R) (A ++ [i0]) D U F)
    (fun c v' => c = free_chan /\ length R = 2%nat /\ vinv v' R A D U F) v.
Proof.
  intros I. pose proof (vi_env _ _ _ _ _ _ I) as Hok. unfold virtio_disk_start.
  apply wpb_bind, wp_acquire; [by cbn; rewrite (vi_lock _ _ _ _ _ _ I)|].
  set (v1 := lset vd_lock_l _ _). apply wpb_bind. wp_use (wp_alloc3_desc v1); [apply I|].
  intros [[[i0 i1] i2]|] v2.
  - intros (Hnd & Hfr & ->). apply wpb_wp. wp_step. apply wp_submit. wp_step.
    apply (wp_release_same vd_lock_l _ (vd_env v)); [done|reflexivity|done|]. intros e He. wp_step.
    intros Hb Hnb Hblk. exists i1, i2. exact (vinv_started v R A D U F I b w i0 i1 i2 e Hb Hnb Hblk Hnd Hfr He).
  - intros [(e & ds & He & -> & Hl & Hds) (l & Hl2 & Hfree)]. apply wpb_bind.
    apply (wp_release_same vd_lock_l _ (vd_env v)); [done|done|done|]. intros e' He'. apply wpb_block. split_and!; [done| |].
    + by apply (few_free v R A D U F l I Hl2).
    + exact (vinv_wiped v R A D U F e' ds I He' Hl Hds).
Qed.

(** What a started request's descriptors link to. *)
Lemma links v r : formatted v r -> q_next (vd_desc v !!! r_i0 r) = r_i1 r /\ q_next (vd_desc v !!! r_i1 r) = r_i2 r.
Proof. intros [_ _ _ H0 H1 _ _]. by rewrite (list_lookup_total_correct _ _ _ H0), (list_lookup_total_correct _ _ _ H1). Qed.

(** ** The device's steps *)

Lemma u16_range x : 0 <= u16 x < 2 ^ 16.
Proof. by apply Z.mod_pos_bound. Qed.
Lemma u16_step x n : u16 (u16 (x + 1) + Z.of_nat n) = u16 (x + Z.of_nat (S n)).
Proof. unfold u16. rewrite Zplus_mod_idemp_l. f_equal. lia. Qed.
Lemma u16_succ x n : u16 (u16 (x + Z.of_nat n) + 1) = u16 (x + Z.of_nat (n + 1)).
Proof. unfold u16. rewrite Zplus_mod_idemp_l. f_equal. lia. Qed.

(** An index that is not where the other side stopped: the window is not
    empty, and its first head is the next entry. *)
Lemma window_next (L : list nat) ring i j :
  L = window ring i (length L) -> j = u16 (i + Z.of_nat (length L)) -> 0 <= i < 2 ^ 16 -> i <> j ->
  exists L', L = head_at ring i :: L' /\ L' = window ring (u16 (i + 1)) (length L') /\ j = u16 (u16 (i + 1) + Z.of_nat (length L')).
Proof.
  intros HL Hj Hi Hne. destruct L as [|h L'].
  - cbn in Hj. unfold u16 in Hj. rewrite Z.add_0_r, Z.mod_small in Hj by lia. done.
  - cbn [length] in *. rewrite window_pop in HL. injection HL as -> HL. exists L'. rewrite Hj, u16_step. done.
Qed.

Lemma vinv_fetch v R A D U F :
  vinv v R A D U F -> dev_seen v <> av_idx v -> exists h A', A = h :: A' /\ vinv (dev_fetch v) R A' (D ++ [h]) U F.
Proof.
  intros I Hne. destruct (vi_avail _ _ _ _ _ _ I) as (HA & Hidx & Hs).
  destruct (window_next A _ _ _ HA Hidx Hs Hne) as (A' & -> & HA' & Hidx'). exists (head_at (av_ring v) (dev_seen v)), A'. split; [done|].
  split; try by apply I.
  - pose proof (vi_req _ _ _ _ _ _ I) as HR. rewrite Forall_forall in *. intros r Hr.
    by refine (formatted_frame v _ r _ _ _ _ _ _ (HR r Hr)).
  - rewrite <- (vi_heads _ _ _ _ _ _ I). rewrite <- app_assoc. cbn [app]. rewrite <- (Permutation_middle D). symmetry. apply Permutation_middle.
  - split_and!; [done|done|apply u16_range..].
  - by rewrite (vi_queue _ _ _ _ _ _ I).
Qed.

Lemma wf_req v r : formatted v r -> well_formed v (r_i0 r) (r_i0 r) (r_b r) (r_i0 r).
Proof.
  intros [_ _ Hop H0 H1 H2 _]. unfold well_formed, desc2, desc1.
  rewrite (list_lookup_total_correct _ _ _ H0). cbn [q_next q_addr]. rewrite (list_lookup_total_correct _ _ _ H1). cbn [q_next q_addr].
  rewrite (list_lookup_total_correct _ _ _ H2), (list_lookup_total_correct _ _ _ Hop). by destruct (r_w r).
Qed.
Lemma wf_inj v h i b j i' b' j' : well_formed v h i b j -> well_formed v h i' b' j' -> i = i' /\ b = b' /\ j = j'.
Proof. intros (E1 & E2 & E3 & _) (E1' & E2' & E3' & _). split_and!; congruence. Qed.

(** The service of a request in flight. *)
Definition req_type (r : req) : Z := if r_w r then VIRTIO_BLK_T_OUT else VIRTIO_BLK_T_IN.
Definition blk_of (v : vdisk) (r : req) : Z := vb_blockno (vd_bufs v !!! r_b r).
Definition served (serve : service) (v : vdisk) (r : req) (st : Z) (data : block) (medium : disk) : Prop :=
  serve (req_type r) (blk_of v r * (BSIZE / 512)) (vb_data (vd_bufs v !!! r_b r)) (vd_medium v) st data medium.

Lemma dev_complete_req serve v r v' :
  formatted v r -> dev_complete serve (r_i0 r) v v' ->
  exists st data medium, served serve v r st data medium /\
    v' = dev_report (r_i0 r) (r_i0 r) st (landed (desc1 v (r_i0 r)) (r_b r) data medium v).
Proof.
  intros Hf Hc. pose proof (wf_req v r Hf) as Hwf. destruct Hc as [i b j st data medium Hwf' Hs|v' Hn]; [|by destruct (Hn _ _ _ Hwf)].
  destruct (wf_inj _ _ _ _ _ _ _ _ Hwf' Hwf) as (-> & -> & ->). exists st, data, medium. split; [|done].
  destruct Hf as [_ Hblk Hop _ _ _ _]. rewrite (list_lookup_total_correct _ _ _ Hop) in Hs. cbn [rq_type rq_sector] in Hs.
  by rewrite u32_small in Hs by (change (BSIZE / 512) with 2; lia).
Qed.

Lemma desc1_req v r : formatted v r -> desc1 v (r_i0 r) = mkDesc (AData (r_b r)) BSIZE (data_flags (r_w r)) (r_i2 r).
Proof.
  intros [_ _ _ H0 H1 _ _]. unfold desc1. rewrite (list_lookup_total_correct _ _ _ H0). by rewrite (list_lookup_total_correct _ _ _ H1).
Qed.

(** A service that reports success is the transfer the thread asked for. *)
Lemma served_ok serve `{!BlkDevice serve} v r data medium :
  formatted v r -> served serve v r 0 data medium ->
  landed (desc1 v (r_i0 r)) (r_b r) data medium v = dev_transfer (r_w r) (r_b r) (blk_of v r) v.
Proof.
  intros Hf Hs. rewrite (desc1_req v r Hf). unfold served, req_type in Hs. destruct (r_w r).
  - apply serve_out in Hs as ->. done.
  - apply serve_in in Hs as [-> ->]. by destruct v.
Qed.

Lemma mark_chain v h r : chain (mark v h r) = chain r.
Proof. unfold mark. by case_decide. Qed.
Lemma mark_b v h r : r_b (mark v h r) = r_b r.
Proof. unfold mark. by case_decide. Qed.
Lemma mark_i0 v h r : r_i0 (mark v h r) = r_i0 r.
Proof. unfold mark. by case_decide. Qed.
Lemma mark_used v h R : used_descs (mark v h <$> R) = used_descs R.
Proof.
  induction R as [|r R IH]; [done|]. change (chain (mark v h r) ++ used_descs (mark v h <$> R) = chain r ++ used_descs R).
  by rewrite mark_chain, IH.
Qed.
Lemma mark_bufs v h (R : list req) : r_b <$> (mark v h <$> R) = r_b <$> R.
Proof. rewrite <- list_fmap_compose. apply list_fmap_ext. intros. apply mark_b. Qed.
Lemma mark_heads v h (R : list req) : r_i0 <$> (mark v h <$> R) = r_i0 <$> R.
Proof. rewrite <- list_fmap_compose. apply list_fmap_ext. intros. apply mark_i0. Qed.

(** What a store of the device leaves alone: everything but the medium and
    the bytes of the one buffer. *)
Lemma landed_vbuf d b data m v x :
  vb_blockno (vd_bufs (landed d b data m v) !!! x) = vb_blockno (vd_bufs v !!! x) /\
  vb_disk (vd_bufs (landed d b data m v) !!! x) = vb_disk (vd_bufs v !!! x) /\
  (x <> b -> vb_data (vd_bufs (landed d b data m v) !!! x) = vb_data (vd_bufs v !!! x)) /\
  length (vd_bufs (landed d b data m v)) = length (vd_bufs v).
Proof.
  unfold landed. destruct (_ =? 0); cbn; [done|]. rewrite length_alter. destruct (decide (x = b)) as [->|Hne].
  - destruct (decide (b < length (vd_bufs v))%nat).
    + by rewrite list_lookup_total_alter_eq.
    + by rewrite !list_lookup_total_alt, list_lookup_alter_eq, lookup_ge_None_2 by lia.
  - by rewrite list_lookup_total_alter_ne.
Qed.
Lemma landed_rest d b data m v :
  let v' := landed d b data m v in
  vd_env v' = vd_env v /\ vdisk_lock v' = vdisk_lock v /\ vd_desc v' = vd_desc v /\ vd_info v' = vd_info v /\ vd_ops v' = vd_ops v /\
  av_ring v' = av_ring v /\ av_idx v' = av_idx v /\ us_ring v' = us_ring v /\ us_idx v' = us_idx v /\ vd_free v' = vd_free v /\
  used_idx v' = used_idx v /\ dev_seen v' = dev_seen v /\ dev_queue v' = dev_queue v.
Proof. unfold landed. by destruct (_ =? 0). Qed.

(** A head the device works on is not yet in the used ring. *)
Lemma queued_not_done v R A D U F h : vinv v R A D U F -> h ∈ D -> h ∉ U ++ F.
Proof.
  intros I Hh. assert (NoDup (A ++ D ++ U ++ F)) as Hn by (rewrite (vi_heads _ _ _ _ _ _ I); apply heads_nodup, I).
  apply NoDup_app in Hn as (_ & _ & Hn). apply NoDup_app in Hn as (_ & Hn & _). by apply Hn.
Qed.
Lemma done_other v R A D U F r r' :
  vinv v R A D U F -> r ∈ R -> r_i0 r ∈ D -> r' ∈ R -> r_done r' = true -> r_b r' <> r_b r.
Proof.
  intros I Hr HD Hr' Hd E. assert (r' = r) as -> by (apply (buf_inj R); [apply I|done..]).
  rewrite (vi_done _ _ _ _ _ _ I r Hr) in Hd. apply bool_decide_eq_true in Hd. by apply (queued_not_done _ _ _ _ _ _ _ I HD).
Qed.

Section completed.
Context (v : vdisk) (R : list req) (A D1 D2 U F : list nat) (r : req) (I : vinv v R A (D1 ++ r_i0 r :: D2) U F) (Hr : r ∈ R).
Context (d : virtq_desc) (data : block) (m : disk) (st : Z).
Let v1 := landed d (r_b r) data m v.
Let v2 := dev_report (r_i0 r) (r_i0 r) st v1.
Let v' := set_queue (D1 ++ D2) v2.

Ltac see := cbn [v' v2 dev_report set_queue set_uidx set_uring set_info vd_env vdisk_lock vd_desc vd_info
    vd_ops vd_bufs av_ring av_idx us_ring us_idx vd_free used_idx dev_seen dev_queue].

Lemma worked_req r' : r' ∈ R -> formatted v1 r'.
Proof.
  intros Hr'. pose proof (vi_req _ _ _ _ _ _ I) as HR. rewrite Forall_forall in HR.
  destruct (landed_rest d (r_b r) data m v) as (_ & _ & Td & Ti & To & _). fold v1 in Td, Ti, To.
  destruct (landed_vbuf d (r_b r) data m v (r_b r')) as (Tb & _ & Tdat & Tl). fold v1 in Tb, Tl, Tdat.
  refine (formatted_frame v _ r' Tl Tb _ _ _ _ (HR r' Hr')); [|intros i _; by rewrite Td|by rewrite To|by rewrite Ti].
  intros Hd. apply Tdat, (done_other _ _ _ _ _ _ _ _ I Hr); [set_solver|done..].
Qed.

Lemma vinv_worked : vinv v1 R A (D1 ++ r_i0 r :: D2) U F.
Proof.
  destruct (landed_rest d (r_b r) data m v) as (Te & Tk & Td & Ti & To & Tar & Tai & Tur & Tui & Tf & Tus & Ts & Tq).
  fold v1 in Te, Tk, Td, Ti, To, Tar, Tai, Tur, Tui, Tf, Tus, Ts, Tq.
  split; rewrite ?Te, ?Tk, ?Td, ?Ti, ?To, ?Tar, ?Tai, ?Tur, ?Tui, ?Tf, ?Tus, ?Ts, ?Tq; try by apply I.
  - rewrite Forall_forall. apply worked_req.
  - intros r' Hr'. destruct (landed_vbuf d (r_b r) data m v (r_b r')) as (_ & Tb & _). fold v1 in Tb. rewrite Tb. by apply I.
Qed.

Lemma completed_req r' : r' ∈ R -> formatted v' (mark v2 (r_i0 r) r').
Proof.
  intros Hr'. pose proof (worked_req r' Hr') as HR. unfold mark. case_decide as E.
  - assert (r' = r) as -> by (apply (head_inj R); [apply I|done..]).
    destruct HR as [G1 G2 G3 G4 G5 G6 (st0 & G7 & _)]. split; cbn [reported r_b r_w r_i0 r_i1 r_i2 r_res]; [done..|].
    assert (vd_info v2 !! r_i0 r = Some (mkInfo (Some (r_b r)) st)) as Hi by (see; by rewrite list_lookup_alter_eq, G7).
    exists st. split; [exact Hi|]. intros st' x Hx. rewrite (list_lookup_total_correct _ _ _ Hi) in Hx. by injection Hx as <- <-.
  - refine (formatted_frame v1 _ r' _ _ _ _ _ _ HR); try done. see. by rewrite list_lookup_alter_ne.
Qed.

Lemma vinv_completed : vinv v' (mark v2 (r_i0 r) <$> R) A (D1 ++ D2) (U ++ [r_i0 r]) F.
Proof.
  pose proof vinv_worked as I1.
  pose proof (Permutation_length (vi_heads _ _ _ _ _ _ I)) as HA. rewrite !length_app, length_fmap in HA. cbn [length] in HA.
  pose proof (req_bound _ _ _ _ _ _ I) as HR2.
  split; rewrite ?mark_used, ?mark_bufs, ?mark_heads; see; rewrite ?length_alter, ?length_insert; try by apply I1.
  - rewrite Forall_fmap, Forall_forall. intros r' Hr'. by apply completed_req.
  - rewrite <- (vi_heads _ _ _ _ _ _ I). rewrite <- !app_assoc. cbn [app]. f_equiv. f_equiv.
    rewrite <- (Permutation_middle U). symmetry. apply Permutation_middle.
  - intros r' (r1 & -> & Hr1)%list_elem_of_fmap. rewrite mark_b, mark_i0. by apply I1.
  - intros r' (r1 & -> & Hr1)%list_elem_of_fmap. rewrite mark_i0. unfold mark. case_decide as E.
    + cbn. symmetry. apply bool_decide_eq_true_2. rewrite E, !elem_of_app. set_solver.
    + rewrite (vi_done _ _ _ _ _ _ I r1 Hr1). apply bool_decide_ext. rewrite !elem_of_app, elem_of_cons, elem_of_nil. naive_solver.
  - intros r' (r1 & -> & Hr1)%list_elem_of_fmap. rewrite mark_i0. intros HF. unfold mark. case_decide as E; [|by apply I].
    destruct (queued_not_done _ _ _ _ _ _ (r_i0 r) I); [set_solver|]. rewrite <- E. set_solver.
  - done.
  - destruct (vi_used _ _ _ _ _ _ I1) as (HU & Hi & Hs). rewrite length_app. cbn [length]. rewrite Hi. split_and!; [|apply u16_succ|lia..].
    rewrite u16_mod, Nat.add_1_r, window_push; [by rewrite <- HU|apply I1|]. unfold NUM. lia.
Qed.
End completed.

(** ** The interrupt handler *)

(** The state once the lock is free again. *)
Definition unlocked (e : kenv) (v : vdisk) : vdisk := set_vdlock initlock (set_vdenv e v).

Lemma vinv_unlock v R A D U F e regs :
  vinv v R A D U F -> env_same (vd_env v) e -> vinv (unlocked e (set_regs regs v)) R A D U F.
Proof.
  intros I He. split; try by apply I.
  - by apply (env_same_ok (vd_env v)), I.
  - done.
  - pose proof (vi_req _ _ _ _ _ _ I) as HR. rewrite Forall_forall in *. intros r Hr. by refine (formatted_frame v _ r _ _ _ _ _ _ (HR r Hr)).
Qed.

Lemma vinv_intr1 v R A D U F r regs d :
  vinv v R A D (r_i0 r :: U) F -> r ∈ R -> r_res r = Some (0, d) ->
  U = window (us_ring v) (u16 (used_idx v + 1)) (length U) -> us_idx v = u16 (u16 (used_idx v + 1) + Z.of_nat (length U)) ->
  vinv (set_regs regs (set_usedidx (u16 (used_idx v + 1)) (set_vbufs (alter (set_vbdisk false) (r_b r) (vd_bufs v)) v))) R A D U (F ++ [r_i0 r]).
Proof.
  intros I Hr Hres HU Hi. pose proof (vi_req _ _ _ _ _ _ I) as HR. rewrite Forall_forall in HR.
  split; try by apply I.
  - rewrite Forall_forall. intros r' Hr'. refine (formatted_frame v _ r' _ _ _ _ _ _ (HR r' Hr')); try done; [apply length_alter|intros|intros].
    all: cbn; destruct (decide (r_b r' = r_b r)) as [E|]; [rewrite E|by rewrite list_lookup_total_alter_ne].
    all: by rewrite list_lookup_total_alter_eq by apply (fm_b _ _ (HR r Hr)).
  - rewrite <- (vi_heads _ _ _ _ _ _ I). f_equiv. f_equiv. cbn. rewrite app_assoc. rewrite <- Permutation_cons_append. done.
  - intros r' Hr'. cbn. destruct (decide (r' = r)) as [->|Hne].
    + rewrite list_lookup_total_alter_eq by apply (fm_b _ _ (HR r Hr)). cbn. rewrite bool_decide_eq_true_2; [done|].
      apply elem_of_app. right. left.
    + rewrite list_lookup_total_alter_ne by (intros E; apply Hne, (buf_inj R); [apply I|done..]).
      rewrite (vi_disk _ _ _ _ _ _ I r' Hr'). f_equal. apply bool_decide_ext. rewrite elem_of_app, list_elem_of_singleton.
      split; [by left|]. intros [|E]; [done|]. destruct Hne. apply (head_inj R); [apply I|done..].
  - intros r' Hr'. rewrite (vi_done _ _ _ _ _ _ I r' Hr'). apply bool_decide_ext. rewrite !elem_of_app, !elem_of_cons, ?elem_of_nil. tauto.
  - intros r' Hr' [HF|E%list_elem_of_singleton]%elem_of_app; [by apply I|].
    assert (r' = r) as -> by (apply (head_inj R); [apply I|done..]). by exists d.
  - split_and!; [done|done|apply u16_range..].
Qed.

(** A first part that returns, whatever comes of the rest. *)
Lemma wp_outcome {S X Y} (m : M S X) (k : X -> M S Y) (P : outcome S Y -> Prop) s : wp m (fun x s' => P (k x s')) s -> P (bind m k s).
Proof. unfold wp, bind. by destruct (m s). Qed.

(** A request the device has failed. *)
Definition bad (r : req) : Prop := exists st d, r_res r = Some (st, d) /\ st <> 0.
Definition intr_post (e0 : kenv) (R : list req) (A D F' : list nat) (v : vdisk) (res : outcome vdisk unit) : Prop :=
  match res with
  | Ok _ v' => vinv (unlocked e0 v') R A D [] F' /\ vdisk_lock v' = vdisk_lock v /\ env_same (vd_env v) (vd_env v')
  | Panic msg => msg = "virtio_disk_intr status"%string /\ exists r, r ∈ R /\ bad r
  | _ => False
  end.

Lemma intr_loop_spec e0 R A D U F fuel v :
  (length U < fuel)%nat -> vinv (unlocked e0 v) R A D U F -> intr_post e0 R A D (F ++ U) v (intr_loop fuel v).
Proof.
  revert U F v. induction fuel as [|fuel IH]; intros U F v Hf I; [lia|]. cbn [intr_loop].
  destruct (vi_used _ _ _ _ _ _ I) as (HU & Hi & Hs). cbn [unlocked set_vdlock set_vdenv us_ring used_idx us_idx] in HU, Hi, Hs.
  apply wp_outcome, wp_gets, wp_outcome, wp_gets. destruct (used_idx v =? us_idx v) eqn:E.
  - apply Z.eqb_eq in E. destruct U as [|h U].
    + cbn. rewrite app_nil_r. split_and!; [done|done|reflexivity].
    + exfalso. pose proof (Permutation_length (vi_heads _ _ _ _ _ _ I)) as HA. rewrite !length_app, length_fmap in HA. cbn [length] in *.
      pose proof (req_bound _ _ _ _ _ _ I). unfold u16 in Hi. rewrite E in Hi. clear - Hi H HA Hs E.
      pose proof (Z.div_mod (us_idx v + Z.of_nat (S (length U))) (2 ^ 16) ltac:(lia)). lia.
  - apply Z.eqb_neq in E. destruct (window_next U _ _ _ HU Hi Hs E) as (U' & -> & HU' & Hi').
    set (h := head_at (us_ring v) (used_idx v)) in *.
    destruct (head_req _ _ _ _ _ _ I h) as (r & Hr & Hh); [rewrite !elem_of_app; do 2 right; left; left|].
    pose proof (vi_req _ _ _ _ _ _ I) as HR. rewrite Forall_forall in HR.
    assert (r_done r = true) as Hd by (rewrite (vi_done _ _ _ _ _ _ I r Hr), Hh; apply bool_decide_eq_true_2; by left).
    apply bool_decide_eq_true in Hd as [[st d] Hd].
    destruct (fm_info _ _ (HR r Hr)) as (st0 & Hinfo & Hst). destruct (Hst _ _ Hd) as [-> _].
    rewrite Hh in Hinfo. change (vd_info v !! h = Some (mkInfo (Some (r_b r)) st)) in Hinfo.
    apply wp_outcome, wp_gets, wp_outcome, wp_gets. change (us_ring v !!! Z.to_nat (used_idx v mod Z.of_nat NUM)) with h.
    rewrite (list_lookup_total_correct _ _ _ Hinfo). cbn [in_status in_b]. destruct (Z.eqb_spec st 0) as [->|Hne]; cbn [negb].
    2:{ split; [done|]. exists r. split; [done|]. by exists st, d. }
    apply wp_outcome, wp_modify, wp_outcome, wp_zoom, wp_modify, wp_outcome, wp_modify. set (v1 := set_usedidx _ _). cbn [length] in Hf.
    assert (vinv (unlocked e0 v1) R A D U' (F ++ [h])) as I1.
    { rewrite <- Hh in I |- *. exact (vinv_intr1 (unlocked e0 v) R A D U' F r (vd_regs v) d I Hr Hd HU' Hi'). }
    specialize (IH U' (F ++ [h]) v1 ltac:(lia) I1). rewrite <- app_assoc in IH. unfold intr_post in *.
    destruct (intr_loop fuel v1) as [[] v'|msg|c v'|]; [|done..]. destruct IH as (I' & Hl & He). split_and!; [done|done|].
    etransitivity; [|exact He]. apply env_same_woken.
Qed.

Definition intr_result (R : list req) (A D F' : list nat) (res : outcome vdisk unit) : Prop :=
  match res with
  | Ok _ v' => vinv v' R A D [] F'
  | Panic msg => msg = "virtio_disk_intr status"%string /\ exists r, r ∈ R /\ bad r
  | _ => False
  end.

(** The handler panics only over a request the device has failed; otherwise
    every request reported becomes one that can be finished. *)
Lemma intr_spec v R A D U F : vinv v R A D U F -> intr_result R A D (F ++ U) (virtio_disk_intr v).
Proof.
  intros I. pose proof (vi_env _ _ _ _ _ _ I) as Hok. unfold virtio_disk_intr.
  apply wp_outcome, wp_acquire; [by cbn; rewrite (vi_lock _ _ _ _ _ _ I)|]. set (v1 := lset vd_lock_l _ _).
  apply wp_outcome, wp_gets, wp_outcome, wp_modify. set (v2 := set_regs _ v1).
  assert (length U < 9)%nat as HU.
  { pose proof (Permutation_length (vi_heads _ _ _ _ _ _ I)) as HA. rewrite !length_app, length_fmap in HA. pose proof (req_bound _ _ _ _ _ _ I). lia. }
  pose proof (intr_loop_spec (vd_env v) R A D U F 9 v2 HU (vinv_unlock v R A D U F (vd_env v) _ I ltac:(reflexivity))) as Hpost.
  unfold bind. change (S NUM) with 9%nat. destruct (intr_loop 9 v2) as [[] v3|msg|c v3|]; [|done..]. destruct Hpost as (I3 & Hl & He).
  assert (wp (with_env vd_lock_l release) (fun _ v' => vinv v' R A D [] (F ++ U)) v3) as Hw.
  { apply (wp_release_same vd_lock_l _ (vd_env v)); [done|exact He|by cbn; rewrite Hl|].
    intros e He'. exact (vinv_unlock (unlocked (vd_env v) v3) R A D [] (F ++ U) e (vd_regs v3) I3 He'). }
  unfold wp in Hw. by destruct (with_env vd_lock_l release v3).
Qed.

(** ** Finishing a request *)

Lemma used_app R1 R2 : used_descs (R1 ++ R2) = used_descs R1 ++ used_descs R2.
Proof. apply bind_app. Qed.
Lemma used_split R1 r R2 : used_descs (R1 ++ r :: R2) ≡ₚ chain r ++ used_descs (R1 ++ R2).
Proof.
  rewrite !used_app. change (used_descs (r :: R2)) with (chain r ++ used_descs R2). rewrite !app_assoc. f_equiv. apply Permutation_app_comm.
Qed.

Definition freed (r : req) (v : vdisk) : vdisk :=
  set_vfree (<[r_i2 r := true]> (<[r_i1 r := true]> (<[r_i0 r := true]> (vd_free v))))
    (set_desc (<[r_i2 r := desc0]> (<[r_i1 r := desc0]> (<[r_i0 r := desc0]> (vd_desc v)))) v).

Lemma wp_free_chain v0 v r Q :
  formatted v0 r -> vd_desc v = vd_desc v0 -> NoDup (chain r) -> (forall i, i ∈ chain r -> (i < NUM)%nat /\ vd_free v !! i = Some false) ->
  (forall e, env_same (vd_env v) e -> Q tt (set_vdenv e (freed r v))) ->
  wp (free_chain NUM (r_i0 r)) Q v.
Proof.
  intros [_ _ _ H0 H1 H2 _] Hd Hnd Hf HQ. rewrite <- Hd in H0, H1, H2. unfold chain in Hnd. rewrite !NoDup_cons, !not_elem_of_cons in Hnd. destruct Hnd as ((? & ? & _) & (? & _) & _).
  destruct (Hf (r_i0 r)) as [L0 F0]; [left|]. destruct (Hf (r_i1 r)) as [L1 F1]; [right; left|]. destruct (Hf (r_i2 r)) as [L2 F2]; [do 2 right; left|].
  unfold NUM. cbn [free_chain]. wp_step. apply wp_gets. rewrite (list_lookup_total_correct _ _ _ H0). wp_step. apply wp_free_desc; [done..|].
  intros e1 He1. cbn [q_flags q_next]. change (negb (Z.land VRING_DESC_F_NEXT VRING_DESC_F_NEXT =? 0)) with true. cbv iota.
  wp_step. apply wp_gets. cbn [vd_desc vd_free set_vdenv set_vfree set_desc].
  rewrite list_lookup_total_insert_ne, (list_lookup_total_correct _ _ _ H1) by done. wp_step.
  apply wp_free_desc; [done|by cbn; rewrite list_lookup_insert_ne|]. intros e2 He2.
  cbn [q_flags q_next]. replace (negb (Z.land (data_flags (r_w r)) VRING_DESC_F_NEXT =? 0)) with true by (by destruct (r_w r)).
  wp_step. apply wp_gets. cbn [vd_desc vd_free set_vdenv set_vfree set_desc].
  rewrite !list_lookup_total_insert_ne, (list_lookup_total_correct _ _ _ H2) by done. wp_step.
  apply wp_free_desc; [done|by cbn; rewrite !list_lookup_insert_ne|]. intros e3 He3.
  cbn [q_flags]. change (negb (Z.land VRING_DESC_F_WRITE VRING_DESC_F_NEXT =? 0)) with false. cbv iota. wp_step.
  refine (HQ e3 _). etransitivity; [exact He1|]. etransitivity; [exact He2|exact He3].
Qed.

Section finished.
Context (v : vdisk) (R1 R2 : list req) (r : req) (A D U F1 F2 : list nat) (e : kenv).
Context (I : vinv v (R1 ++ r :: R2) A D U (F1 ++ r_i0 r :: F2)) (He : env_same (vd_env v) e).
Let v' := unlocked e (freed r (set_info (alter (fun x => mkInfo None (in_status x)) (r_i0 r) (vd_info v)) v)).

Lemma rest_in r' : r' ∈ R1 ++ R2 -> r' ∈ R1 ++ r :: R2.
Proof. rewrite !elem_of_app, elem_of_cons. tauto. Qed.

Lemma chain_disjoint i : i ∈ chain r -> i ∉ used_descs (R1 ++ R2).
Proof. pose proof (vi_nodup _ _ _ _ _ _ I) as Hn. rewrite used_split in Hn. apply NoDup_app in Hn as (_ & Hn & _). apply Hn. Qed.

Lemma head_other r' : r' ∈ R1 ++ R2 -> r_i0 r' <> r_i0 r.
Proof. intros Hr' E. apply (chain_disjoint (r_i0 r)); [left|]. rewrite <- E. by apply head_in. Qed.

Lemma finished_req r' : r' ∈ R1 ++ R2 -> formatted v' r'.
Proof.
  intros Hr'. pose proof (vi_req _ _ _ _ _ _ I) as HR. rewrite Forall_forall in HR.
  refine (formatted_frame v _ r' _ _ _ _ _ _ (HR r' (rest_in r' Hr'))); try done.
  - intros i Hi. pose proof (in_chain _ _ _ Hr' Hi) as Hu. cbn.
    rewrite !list_lookup_insert_ne; [done| | |]; intros <-; (eapply chain_disjoint; [|exact Hu]); [left|right; left|do 2 right; left].
  - cbn. rewrite list_lookup_alter_ne; [done|]. intros E. by apply (head_other r' Hr').
Qed.

Lemma vinv_finished : vinv v' (R1 ++ R2) A D U (F1 ++ F2).
Proof.
  pose proof (vi_nodup _ _ _ _ _ _ I) as Hn. rewrite used_split in Hn. apply NoDup_app in Hn as (Hc & Hcd & Hn).
  pose proof (vi_lt _ _ _ _ _ _ I) as Hl. rewrite used_split, Forall_app in Hl. destruct Hl as [Hlc Hl].
  split; try by apply I.
  - by apply (env_same_ok (vd_env v)), I.
  - done.
  - cbn. rewrite !length_insert. apply I.
  - cbn. rewrite length_alter. apply I.
  - done.
  - done.
  - cbn. rewrite !length_insert. apply I.
  - intros i Hi. cbn. pose proof (vi_flen _ _ _ _ _ _ I) as Hlen. rewrite !list_lookup_insert, !length_insert.
    rewrite (vi_free _ _ _ _ _ _ I i Hi), (bool_decide_ext _ (i ∈ chain r ++ used_descs (R1 ++ R2))) by (by rewrite used_split).
    destruct (decide (i ∈ chain r)) as [Hin|Hin].
    + rewrite (bool_decide_eq_false_2 (i ∈ used_descs _)) by (by apply Hcd). cbn [negb].
      unfold chain in Hin. rewrite !elem_of_cons, elem_of_nil in Hin. repeat case_decide; naive_solver lia.
    + rewrite (bool_decide_ext _ (i ∈ used_descs (R1 ++ R2))) by (rewrite elem_of_app; tauto).
      unfold chain in Hin. rewrite !not_elem_of_cons in Hin. repeat case_decide; naive_solver.
  - rewrite Forall_forall. intros r' Hr'. by apply finished_req.
  - pose proof (vi_bufs _ _ _ _ _ _ I) as Hb. rewrite fmap_app, fmap_cons, <- Permutation_middle, NoDup_cons in Hb. rewrite fmap_app. apply Hb.
  - pose proof (vi_heads _ _ _ _ _ _ I) as Hh. rewrite fmap_app, fmap_cons, <- !Permutation_middle in Hh.
    apply Permutation_cons_inv in Hh. by rewrite <- fmap_app in Hh.
  - intros r' Hr'. cbn. rewrite (vi_disk _ _ _ _ _ _ I r') by (by apply rest_in). f_equal. apply bool_decide_ext.
    pose proof (head_other r' Hr'). rewrite !elem_of_app, elem_of_cons. tauto.
  - intros r' Hr'. rewrite (vi_done _ _ _ _ _ _ I r') by (by apply rest_in). apply bool_decide_ext.
    pose proof (head_other r' Hr'). rewrite !elem_of_app, elem_of_cons. tauto.
  - intros r' Hr' HF. apply (vi_ok _ _ _ _ _ _ I r'); [by apply rest_in|]. rewrite elem_of_app in *. rewrite elem_of_cons. tauto.
Qed.
End finished.

Lemma finish_spec v R1 r R2 A D U F :
  vinv v (R1 ++ r :: R2) A D U F ->
  wpb (virtio_disk_finish (r_b r) (r_i0 r))
    (fun _ v' => r_i0 r ∈ F /\ vd_bufs v' = vd_bufs v /\ exists F', vinv v' (R1 ++ R2) A D U F')
    (fun c v' => c = buf_chan (r_b r) /\ (r_i0 r ∉ F) /\ vinv v' (R1 ++ r :: R2) A D U F) v.
Proof.
  intros I. pose proof (vi_env _ _ _ _ _ _ I) as Hok. unfold virtio_disk_finish.
  assert (r ∈ R1 ++ r :: R2) as Hr by (apply elem_of_app; right; left).
  apply wpb_bind, wp_acquire; [by cbn; rewrite (vi_lock _ _ _ _ _ _ I)|]. set (v1 := lset vd_lock_l _ _).
  apply wpb_bind, wp_gets. change (vd_bufs v1) with (vd_bufs v). rewrite (vi_disk _ _ _ _ _ _ I r Hr).
  case_bool_decide as HF; cbn [negb].
  - apply wpb_wp. wp_step. apply wp_modify. wp_step. set (v2 := set_info _ _).
    pose proof (vi_req _ _ _ _ _ _ I) as HR. rewrite Forall_forall in HR. specialize (HR r Hr).
    apply (wp_free_chain v v2 r _ HR eq_refl).
    + pose proof (vi_nodup _ _ _ _ _ _ I) as Hn. rewrite used_split in Hn. by apply NoDup_app in Hn as (? & _).
    + intros i Hi. apply (in_use _ _ _ _ _ _ i I), (in_chain _ r); done.
    + intros e He. apply (wp_release_same vd_lock_l _ (vd_env v)); [done|exact He|done|]. intros e' He'. split; [done|]. split; [done|].
      apply list_elem_of_split in HF as (F1 & F2 & ->). exists (F1 ++ F2). exact (vinv_finished v R1 R2 r A D U F1 F2 e' I He').
  - apply wpb_bind, (wp_release_same vd_lock_l _ (vd_env v)); [done|reflexivity|done|]. intros e He. apply wpb_block. split_and!; [done|done|].
    exact (vinv_unlock v _ A D U F e (vd_regs v) I He).
Qed.

(** ** Every interleaving *)

Definition vgood (s : vdisk * list req) : Prop := exists A D U F, vinv (fst s) (snd s) A D U F.

(** A head of the device's queue is that of a request in flight. *)
Lemma queued_req v R A D U F h : vinv v R A D U F -> h ∈ D -> exists r, r ∈ R /\ r_i0 r = h /\ formatted v r /\ r_done r = false.
Proof.
  intros I Hh. destruct (head_req _ _ _ _ _ _ I h) as (r & Hr & E); [set_solver|]. exists r.
  pose proof (vi_req _ _ _ _ _ _ I) as HR. rewrite Forall_forall in HR. split_and!; [done|done|by apply HR|].
  rewrite (vi_done _ _ _ _ _ _ I r Hr). apply bool_decide_eq_false_2. rewrite E. by apply (queued_not_done v R A D U F).
Qed.

Lemma vgood_device serve v R q1 h q2 :
  vgood (v, R) -> dev_queue v = q1 ++ h :: q2 ->
  (forall v', dev_scribble h v v' -> vgood (v', R)) /\
  (forall v', dev_complete serve h v v' -> vgood (set_queue (q1 ++ q2) v', mark v' h <$> R)).
Proof.
  intros (A & D & U & F & I) Hq. cbn [fst snd] in I. pose proof (vi_queue _ _ _ _ _ _ I) as HD. rewrite Hq in HD. subst D.
  destruct (queued_req _ _ _ _ _ _ h I) as (r & Hr & <- & Hf & _); [set_solver|]. pose proof (wf_req v r Hf) as Hwf. split; intros v' Hs.
  - destruct Hs as [i b j data Hwf'|v' Hn]; [|by destruct (Hn _ _ _ Hwf)]. destruct (wf_inj _ _ _ _ _ _ _ _ Hwf' Hwf) as (-> & -> & ->).
    exists A, (q1 ++ r_i0 r :: q2), U, F. by apply vinv_worked.
  - destruct (dev_complete_req serve v r v' Hf Hs) as (st & data & m & _ & ->). exists A, (q1 ++ q2), (U ++ [r_i0 r]), F. by apply vinv_completed.
Qed.

Lemma vgood_step serve s s' : vstep serve s s' -> vgood s -> vgood s'.
Proof.
  intros Hs G. pose proof G as (A & D & U & F & I).
  destruct Hs as [v R b w i0 v' Hb Hnb Hblk E|v R b w c v' E|v R Hne|v R h v' Hq Hd|v R q1 h q2 v' Hq Hd|v R v' E|v R1 r R2 v' E|v R r c v' Hr E];
    cbn [fst snd] in I.
  - pose proof (start_spec v R A D U F b w I) as H. unfold wpb in H. rewrite E in H. destruct (H Hb Hnb Hblk) as (i1 & i2 & I').
    pose proof (vi_req _ _ _ _ _ _ I') as HR. rewrite Forall_cons in HR. destruct HR as [HR _].
    destruct (links _ _ HR) as [L1 L2]. cbn in L1, L2. unfold desc1. rewrite L1, L2. by exists (A ++ [i0]), D, U, F.
  - pose proof (start_spec v R A D U F b w I) as H. unfold wpb in H. rewrite E in H. destruct H as (_ & _ & I'). by exists A, D, U, F.
  - destruct (vinv_fetch _ _ _ _ _ _ I Hne) as (h & A' & _ & I'). by exists A', (D ++ [h]), U, F.
  - apply list_elem_of_split in Hq as (q1 & q2 & Hq). by apply (vgood_device serve v R q1 h q2).
  - by apply (vgood_device serve v R q1 h q2).
  - pose proof (intr_spec v R A D U F I) as H. rewrite E in H. by exists A, D, [], (F ++ U).
  - pose proof (finish_spec v R1 r R2 A D U F I) as H. unfold wpb in H. rewrite E in H. destruct H as (_ & _ & F' & I'). by exists A, D, U, F'.
  - apply list_elem_of_split in Hr as (R1 & R2 & ->).
    pose proof (finish_spec v R1 r R2 A D U F I) as H. unfold wpb in H. rewrite E in H. destruct H as (_ & _ & I'). by exists A, D, U, F.
Qed.

(** The driver and device as [virtio_disk_init] leaves them. *)
Definition vdisk_ready (e : kenv) (bufs : list vbuf) (medium : disk) (regs : gmap Z Z) : vdisk :=
  mkVdisk e initlock (replicate NUM desc0) 0 (replicate NUM 0%nat) 0 (replicate NUM 0%nat) (replicate NUM true) 0
    (replicate NUM (mkInfo None 0)) (replicate NUM (mkReq 0 0 0)) bufs medium 0 [] regs.

Lemma ready_inv e bufs medium regs : env_ok e -> vinv (vdisk_ready e bufs medium regs) [] [] [] [] [].
Proof.
  intros He. split; try done; try constructor; try (by intros ? ?%elem_of_nil); try (cbn; lia).
  intros i Hi. cbn [vd_free vdisk_ready]. rewrite lookup_replicate_2 by done. by rewrite bool_decide_eq_false_2 by apply not_elem_of_nil.
Qed.

(** After the handler has run, every request carried out can be finished. *)
Lemma finished_after v R A D F r :
  vinv v R A D [] F -> r ∈ R -> r_done r = true -> exists v', virtio_disk_finish (r_b r) (r_i0 r) v = Ok tt v'.
Proof.
  intros I Hr Hd. rewrite (vi_done _ _ _ _ _ _ I r Hr) in Hd. apply bool_decide_eq_true in Hd.
  apply list_elem_of_split in Hr as (R1 & R2 & ->). pose proof (finish_spec v R1 r R2 A D [] F I) as H. unfold wpb in H.
  destruct (virtio_disk_finish (r_b r) (r_i0 r) v) as [[] v'| | |]; [by exists v'|done|naive_solver|done].
Qed.


(** Buffer 0 written to block 5: started, fetched, reported with status [st]
    by a device that carries a request out or fails it untouched. *)
Module VirtioDemo.
Definition serve (type sector : Z) (d : block) (m : disk) (st : Z) (d' : block) (m' : disk) : Prop :=
  st = 0 /\ type = VIRTIO_BLK_T_IN /\ d' = disk_read m (sector / 2) /\ m' = m \/
  st = 0 /\ type = VIRTIO_BLK_T_OUT /\ d' = d /\ m' = disk_write (sector / 2) d m \/
  st = 1 /\ d' = d /\ m' = m.
#[global] Instance serve_device : BlkDevice serve.
Proof.
  split; intros n d m d' m'; change (BSIZE / 512) with 2; intros [(_ & Ht & -> & ->)|[(_ & Ht & _ & ->)|(? & _)]]; try done;
    by rewrite Z.div_mul.
Qed.
Definition v0 : vdisk := vdisk_ready (mkKenv 0 0 false true 1 false [] []) [mkVbuf false 5 [42]] [] ∅.
Definition v1 : vdisk := match virtio_disk_start 0 true v0 with Ok _ v => v | _ => v0 end.
Definition v2 : vdisk := dev_fetch v1.
Definition v3 (st : Z) (m : disk) : vdisk := set_queue [] (dev_report 0 0 st (landed (desc1 v2 0) 0 [42] m v2)).
Definition R3 (st : Z) : list req := [mkRq 0 true 0 1 2 (Some (st, [42]))].
End VirtioDemo.

Lemma virtio_demo_run st m :
  VirtioDemo.serve VIRTIO_BLK_T_OUT 10 [42] [] st [42] m ->
  rtc (vstep VirtioDemo.serve) (VirtioDemo.v0, []) (VirtioDemo.v3 st m, VirtioDemo.R3 st).
Proof.
  intros Hs. eapply rtc_l; [apply (vs_start _ VirtioDemo.v0 [] 0 true 0 VirtioDemo.v1)|].
  - cbn. lia.
  - apply not_elem_of_nil.
  - cbn. lia.
  - by vm_compute.
  - eapply rtc_l; [apply (vs_fetch _ VirtioDemo.v1); by vm_compute|].
    apply rtc_once. set (v' := dev_report 0 0 st (landed (desc1 VirtioDemo.v2 0) 0 [42] m VirtioDemo.v2)).
    assert (dev_complete VirtioDemo.serve 0 VirtioDemo.v2 v') as Hc by (apply (dc_served _ 0 VirtioDemo.v2 0 0 0); [by vm_compute|exact Hs]).
    pose proof (vs_complete _ VirtioDemo.v2 [mkRq 0 true 0 1 2 None] [] 0 [] v' eq_refl Hc) as Hv. exact Hv.
Qed.

