(* ===== verification/Kernel.v ===== *)
(** * The state of the kernel above the file system
    (kernel/proc.h, kernel/file.h, and the static data of proc.c, file.c,
    pipe.c, console.c, uart.c, printf.c, trap.c)

    One record holds the data of every component.  A [struct proc], [struct
    file] or [struct inode] pointer is an index into its table, a null
    pointer is [None].  A [struct pipe] lives in a page of its own and is
    found under the address of that page.  A trap frame lives in physical
    memory.  *)

From Stdlib Require Import String.
From S2P Require Import Prelude Param Spinlock Sleeplock Str Fs Mem Kalloc Vm Printf Virtio.

(** ** Processes *)

Inductive procstate := UNUSED | USED | SLEEPING | RUNNABLE | RUNNING | ZOMBIE.
#[export] Instance procstate_eq_dec : EqDecision procstate.
Proof. solve_decision. Defined.

Record context := mkContext {
  c_ra : Z;
  c_sp : Z;
  c_s : list Z         (* s0 .. s11 *)
}.

Record proc := mkProc {
  p_lock : spinlock;
  p_state : procstate;          (* Process state *)
  p_chan : option chan;         (* If non-zero, sleeping on chan *)
  p_killed : bool;              (* If non-zero, have been killed *)
  p_xstate : Z;                 (* Exit status to be returned to parent's wait *)
  p_pid : Z;                    (* Process ID *)
  p_parent : option nat;        (* Parent process *)
  p_kstack : Z;                 (* Virtual address of kernel stack *)
  p_sz : Z;                     (* Size of process memory (bytes) *)
  p_pagetable : Z;              (* User page table *)
  p_trapframe : Z;              (* data page for trampoline.S *)
  p_context : context;          (* swtch() here to run process *)
  p_ofile : list (option nat);  (* Open files *)
  p_cwd : option nat;           (* Current directory *)
  p_name : list Z               (* Process name (debugging) *)
}.

Definition set_plock x p := mkProc x (p_state p) (p_chan p) (p_killed p) (p_xstate p) (p_pid p) (p_parent p) (p_kstack p) (p_sz p) (p_pagetable p) (p_trapframe p) (p_context p) (p_ofile p) (p_cwd p) (p_name p).
Definition set_pstate x p := mkProc (p_lock p) x (p_chan p) (p_killed p) (p_xstate p) (p_pid p) (p_parent p) (p_kstack p) (p_sz p) (p_pagetable p) (p_trapframe p) (p_context p) (p_ofile p) (p_cwd p) (p_name p).
Definition set_pchan x p := mkProc (p_lock p) (p_state p) x (p_killed p) (p_xstate p) (p_pid p) (p_parent p) (p_kstack p) (p_sz p) (p_pagetable p) (p_trapframe p) (p_context p) (p_ofile p) (p_cwd p) (p_name p).
Definition set_pkilled x p := mkProc (p_lock p) (p_state p) (p_chan p) x (p_xstate p) (p_pid p) (p_parent p) (p_kstack p) (p_sz p) (p_pagetable p) (p_trapframe p) (p_context p) (p_ofile p) (p_cwd p) (p_name p).
Definition set_pxstate x p := mkProc (p_lock p) (p_state p) (p_chan p) (p_killed p) x (p_pid p) (p_parent p) (p_kstack p) (p_sz p) (p_pagetable p) (p_trapframe p) (p_context p) (p_ofile p) (p_cwd p) (p_name p).
Definition set_ppid x p := mkProc (p_lock p) (p_state p) (p_chan p) (p_killed p) (p_xstate p) x (p_parent p) (p_kstack p) (p_sz p) (p_pagetable p) (p_trapframe p) (p_context p) (p_ofile p) (p_cwd p) (p_name p).
Definition set_pparent x p := mkProc (p_lock p) (p_state p) (p_chan p) (p_killed p) (p_xstate p) (p_pid p) x (p_kstack p) (p_sz p) (p_pagetable p) (p_trapframe p) (p_context p) (p_ofile p) (p_cwd p) (p_name p).
Definition set_pkstack x p := mkProc (p_lock p) (p_state p) (p_chan p) (p_killed p) (p_xstate p) (p_pid p) (p_parent p) x (p_sz p) (p_pagetable p) (p_trapframe p) (p_context p) (p_ofile p) (p_cwd p) (p_name p).
Definition set_psz x p := mkProc (p_lock p) (p_state p) (p_chan p) (p_killed p) (p_xstate p) (p_pid p) (p_parent p) (p_kstack p) x (p_pagetable p) (p_trapframe p) (p_context p) (p_ofile p) (p_cwd p) (p_name p).
Definition set_ppagetable x p := mkProc (p_lock p) (p_state p) (p_chan p) (p_killed p) (p_xstate p) (p_pid p) (p_parent p) (p_kstack p) (p_sz p) x (p_trapframe p) (p_context p) (p_ofile p) (p_cwd p) (p_name p).
Definition set_ptrapframe x p := mkProc (p_lock p) (p_state p) (p_chan p) (p_killed p) (p_xstate p) (p_pid p) (p_parent p) (p_kstack p) (p_sz p) (p_pagetable p) x (p_context p) (p_ofile p) (p_cwd p) (p_name p).
Definition set_pcontext x p := mkProc (p_lock p) (p_state p) (p_chan p) (p_killed p) (p_xstate p) (p_pid p) (p_parent p) (p_kstack p) (p_sz p) (p_pagetable p) (p_trapframe p) x (p_ofile p) (p_cwd p) (p_name p).
Definition set_pofile x p := mkProc (p_lock p) (p_state p) (p_chan p) (p_killed p) (p_xstate p) (p_pid p) (p_parent p) (p_kstack p) (p_sz p) (p_pagetable p) (p_trapframe p) (p_context p) x (p_cwd p) (p_name p).
Definition set_pcwd x p := mkProc (p_lock p) (p_state p) (p_chan p) (p_killed p) (p_xstate p) (p_pid p) (p_parent p) (p_kstack p) (p_sz p) (p_pagetable p) (p_trapframe p) (p_context p) (p_ofile p) x (p_name p).
Definition set_pname x p := mkProc (p_lock p) (p_state p) (p_chan p) (p_killed p) (p_xstate p) (p_pid p) (p_parent p) (p_kstack p) (p_sz p) (p_pagetable p) (p_trapframe p) (p_context p) (p_ofile p) (p_cwd p) x.

Definition proc0 : proc :=
  mkProc initlock UNUSED None false 0 0 None 0 0 0 0 (mkContext 0 0 (replicate 12 0))
         (replicate NOFILE None) None (replicate 16 0).
#[export] Instance proc_inhabited : Inhabited proc := populate proc0.

(** Offsets in [struct trapframe]. *)
Abbreviation tf_kernel_satp := 0%Z (only parsing).
Abbreviation tf_kernel_sp := 8%Z (only parsing).
Abbreviation tf_kernel_trap := 16%Z (only parsing).
Abbreviation tf_epc := 24%Z (only parsing).
Abbreviation tf_kernel_hartid := 32%Z (only parsing).
Abbreviation tf_sp := 48%Z (only parsing).
Abbreviation tf_a0 := 112%Z (only parsing).
Abbreviation tf_a1 := 120%Z (only parsing).
Abbreviation tf_a2 := 128%Z (only parsing).
Abbreviation tf_a3 := 136%Z (only parsing).
Abbreviation tf_a4 := 144%Z (only parsing).
Abbreviation tf_a5 := 152%Z (only parsing).
Abbreviation tf_a7 := 168%Z (only parsing).
Definition sizeof_trapframe : Z := 288.

(** ** Open files, pipes and device switch *)

Inductive fdtype := FD_NONE | FD_PIPE | FD_INODE | FD_DEVICE.
#[export] Instance fdtype_eq_dec : EqDecision fdtype.
Proof. solve_decision. Defined.

Record file := mkFile {
  f_type : fdtype;
  f_ref : Z;           (* reference count *)
  f_readable : bool;
  f_writable : bool;
  f_pipe : Z;          (* FD_PIPE *)
  f_ip : nat;          (* FD_INODE and FD_DEVICE *)
  f_off : Z;           (* FD_INODE *)
  f_major : Z          (* FD_DEVICE *)
}.

Definition set_ftype x f := mkFile x (f_ref f) (f_readable f) (f_writable f) (f_pipe f) (f_ip f) (f_off f) (f_major f).
Definition set_fref x f := mkFile (f_type f) x (f_readable f) (f_writable f) (f_pipe f) (f_ip f) (f_off f) (f_major f).
Definition set_freadable x f := mkFile (f_type f) (f_ref f) x (f_writable f) (f_pipe f) (f_ip f) (f_off f) (f_major f).
Definition set_fwritable x f := mkFile (f_type f) (f_ref f) (f_readable f) x (f_pipe f) (f_ip f) (f_off f) (f_major f).
Definition set_fpipe x f := mkFile (f_type f) (f_ref f) (f_readable f) (f_writable f) x (f_ip f) (f_off f) (f_major f).
Definition set_fip x f := mkFile (f_type f) (f_ref f) (f_readable f) (f_writable f) (f_pipe f) x (f_off f) (f_major f).
Definition set_foff x f := mkFile (f_type f) (f_ref f) (f_readable f) (f_writable f) (f_pipe f) (f_ip f) x (f_major f).
Definition set_fmajor x f := mkFile (f_type f) (f_ref f) (f_readable f) (f_writable f) (f_pipe f) (f_ip f) (f_off f) x.

Definition file0 : file := mkFile FD_NONE 0 false false 0 0 0 0.
#[export] Instance file_inhabited : Inhabited file := populate file0.

Definition PIPESIZE : Z := 512.

Record pipe := mkPipe {
  pi_lock : spinlock;
  pi_data : list Z;
  pi_nread : Z;        (* number of bytes read *)
  pi_nwrite : Z;       (* number of bytes written *)
  pi_readopen : bool;  (* read fd is still open *)
  pi_writeopen : bool  (* write fd is still open *)
}.

Definition set_pilock x pi := mkPipe x (pi_data pi) (pi_nread pi) (pi_nwrite pi) (pi_readopen pi) (pi_writeopen pi).
Definition set_pidata x pi := mkPipe (pi_lock pi) x (pi_nread pi) (pi_nwrite pi) (pi_readopen pi) (pi_writeopen pi).
Definition set_pinread x pi := mkPipe (pi_lock pi) (pi_data pi) x (pi_nwrite pi) (pi_readopen pi) (pi_writeopen pi).
Definition set_pinwrite x pi := mkPipe (pi_lock pi) (pi_data pi) (pi_nread pi) x (pi_readopen pi) (pi_writeopen pi).
Definition set_piro x pi := mkPipe (pi_lock pi) (pi_data pi) (pi_nread pi) (pi_nwrite pi) x (pi_writeopen pi).
Definition set_piwo x pi := mkPipe (pi_lock pi) (pi_data pi) (pi_nread pi) (pi_nwrite pi) (pi_readopen pi) x.

Definition pipe0 : pipe := mkPipe initlock (replicate 512 0) 0 0 false false.
#[export] Instance pipe_inhabited : Inhabited pipe := populate pipe0.

(** The functions a [struct devsw] may point to. *)
Inductive devfn := consoleread_fn | consolewrite_fn.
Record devsw := mkDevsw { dv_read : option devfn; dv_write : option devfn }.
Definition CONSOLE : Z := 1.

(** ** Console, UART and printf *)

Definition INPUT_BUF_SIZE : Z := 128.

Record cons := mkCons {
  cn_lock : spinlock;
  cn_buf : list Z;
  cn_r : Z;            (* Read index *)
  cn_w : Z;            (* Write index *)
  cn_e : Z             (* Edit index *)
}.

Definition set_cnlock x c := mkCons x (cn_buf c) (cn_r c) (cn_w c) (cn_e c).
Definition set_cnbuf x c := mkCons (cn_lock c) x (cn_r c) (cn_w c) (cn_e c).
Definition set_cnr x c := mkCons (cn_lock c) (cn_buf c) x (cn_w c) (cn_e c).
Definition set_cnw x c := mkCons (cn_lock c) (cn_buf c) (cn_r c) x (cn_e c).
Definition set_cne x c := mkCons (cn_lock c) (cn_buf c) (cn_r c) (cn_w c) x.

(** The driver's variables, and what the 16550 shows of itself: whether
    the transmit holding register is empty, the input bytes waiting, the
    bytes given to it (newest first) and the configuration writes (newest
    first). *)
Record uart := mkUart {
  tx_lock : spinlock;
  tx_busy : bool;      (* is the UART busy sending? *)
  hw_idle : bool;
  hw_rx : list Z;
  hw_tx : list Z;
  hw_regs : list (Z * Z)
}.

Definition set_txlock x u := mkUart x (tx_busy u) (hw_idle u) (hw_rx u) (hw_tx u) (hw_regs u).
Definition set_txbusy x u := mkUart (tx_lock u) x (hw_idle u) (hw_rx u) (hw_tx u) (hw_regs u).
Definition set_hwidle x u := mkUart (tx_lock u) (tx_busy u) x (hw_rx u) (hw_tx u) (hw_regs u).
Definition set_hwrx x u := mkUart (tx_lock u) (tx_busy u) (hw_idle u) x (hw_tx u) (hw_regs u).
Definition set_hwtx x u := mkUart (tx_lock u) (tx_busy u) (hw_idle u) (hw_rx u) x (hw_regs u).
Definition set_hwreg x u := mkUart (tx_lock u) (tx_busy u) (hw_idle u) (hw_rx u) (hw_tx u) x.

Record prst := mkPr {
  pr_lock : spinlock;
  panicking : bool;    (* printing a panic message *)
  panicked : bool      (* spinning forever at end of a panic *)
}.

Definition set_prlock x r := mkPr x (panicking r) (panicked r).
Definition set_panicking x r := mkPr (pr_lock r) x (panicked r).
Definition set_panicked x r := mkPr (pr_lock r) (panicking r) x.

(** ** Supervisor registers and the interrupt controller *)

Record csr := mkCsr {
  sstatus : Z;         (* without the SIE bit, which is the environment's *)
  sepc : Z;
  scause : Z;
  stval : Z;
  stvec : Z;
  satp : Z;
  stimecmp : Z;
  time : Z
}.

Definition w_sstatus_ x c := mkCsr x (sepc c) (scause c) (stval c) (stvec c) (satp c) (stimecmp c) (time c).
Definition w_sepc_ x c := mkCsr (sstatus c) x (scause c) (stval c) (stvec c) (satp c) (stimecmp c) (time c).
Definition w_scause_ x c := mkCsr (sstatus c) (sepc c) x (stval c) (stvec c) (satp c) (stimecmp c) (time c).
Definition w_stval_ x c := mkCsr (sstatus c) (sepc c) (scause c) x (stvec c) (satp c) (stimecmp c) (time c).
Definition w_stvec_ x c := mkCsr (sstatus c) (sepc c) (scause c) (stval c) x (satp c) (stimecmp c) (time c).
Definition w_satp_ x c := mkCsr (sstatus c) (sepc c) (scause c) (stval c) (stvec c) x (stimecmp c) (time c).
Definition w_stimecmp_ x c := mkCsr (sstatus c) (sepc c) (scause c) (stval c) (stvec c) (satp c) x (time c).
Definition w_time_ x c := mkCsr (sstatus c) (sepc c) (scause c) (stval c) (stvec c) (satp c) (stimecmp c) x.

(** Words written to the PLIC by address, and the interrupts it has
    pending for a claim. *)
Record plic := mkPlic { plic_regs : list (Z * Z); plic_pending : list Z }.

(** Addresses of code the kernel stores or jumps to. *)
Record text := mkText {
  t_forkret : Z;
  t_usertrap : Z;
  t_kernelvec : Z;
  t_uservec : Z;
  t_userret : Z
}.

(** ** The kernel *)

Record kernel := mkKernel {
  k_fs : fs;                     (* file system, log, buffer cache, environment *)
  k_kmem : kmem;                 (* physical memory and its allocator *)
  k_kpagetable : Z;              (* kernel_pagetable *)
  ft_lock : spinlock;            (* ftable.lock *)
  ft_file : list file;           (* ftable.file[NFILE] *)
  k_devsw : list devsw;          (* devsw[NDEV] *)
  k_pipes : gmap Z pipe;
  k_procs : list proc;           (* proc[NPROC] *)
  pid_lock : spinlock;
  wait_lock : spinlock;
  nextpid : Z;
  initproc : option nat;
  k_first : bool;                (* forkret's first *)
  k_cur : option nat;            (* mycpu()->proc *)
  k_cons : cons;
  k_uart : uart;
  k_pr : prst;
  tickslock : spinlock;
  ticks : Z;
  k_csr : csr;
  k_plic : plic;
  k_vdisk : vdisk;               (* the disk driver *)
  k_text : text
}.

Definition set_fs x k := mkKernel x (k_kmem k) (k_kpagetable k) (ft_lock k) (ft_file k) (k_devsw k) (k_pipes k) (k_procs k) (pid_lock k) (wait_lock k) (nextpid k) (initproc k) (k_first k) (k_cur k) (k_cons k) (k_uart k) (k_pr k) (tickslock k) (ticks k) (k_csr k) (k_plic k) (k_vdisk k) (k_text k).
Definition set_kkmem x k := mkKernel (k_fs k) x (k_kpagetable k) (ft_lock k) (ft_file k) (k_devsw k) (k_pipes k) (k_procs k) (pid_lock k) (wait_lock k) (nextpid k) (initproc k) (k_first k) (k_cur k) (k_cons k) (k_uart k) (k_pr k) (tickslock k) (ticks k) (k_csr k) (k_plic k) (k_vdisk k) (k_text k).
Definition set_kpt x k := mkKernel (k_fs k) (k_kmem k) x (ft_lock k) (ft_file k) (k_devsw k) (k_pipes k) (k_procs k) (pid_lock k) (wait_lock k) (nextpid k) (initproc k) (k_first k) (k_cur k) (k_cons k) (k_uart k) (k_pr k) (tickslock k) (ticks k) (k_csr k) (k_plic k) (k_vdisk k) (k_text k).
Definition set_ftlock x k := mkKernel (k_fs k) (k_kmem k) (k_kpagetable k) x (ft_file k) (k_devsw k) (k_pipes k) (k_procs k) (pid_lock k) (wait_lock k) (nextpid k) (initproc k) (k_first k) (k_cur k) (k_cons k) (k_uart k) (k_pr k) (tickslock k) (ticks k) (k_csr k) (k_plic k) (k_vdisk k) (k_text k).
Definition set_files x k := mkKernel (k_fs k) (k_kmem k) (k_kpagetable k) (ft_lock k) x (k_devsw k) (k_pipes k) (k_procs k) (pid_lock k) (wait_lock k) (nextpid k) (initproc k) (k_first k) (k_cur k) (k_cons k) (k_uart k) (k_pr k) (tickslock k) (ticks k) (k_csr k) (k_plic k) (k_vdisk k) (k_text k).
Definition set_devsw x k := mkKernel (k_fs k) (k_kmem k) (k_kpagetable k) (ft_lock k) (ft_file k) x (k_pipes k) (k_procs k) (pid_lock k) (wait_lock k) (nextpid k) (initproc k) (k_first k) (k_cur k) (k_cons k) (k_uart k) (k_pr k) (tickslock k) (ticks k) (k_csr k) (k_plic k) (k_vdisk k) (k_text k).
Definition set_pipes x k := mkKernel (k_fs k) (k_kmem k) (k_kpagetable k) (ft_lock k) (ft_file k) (k_devsw k) x (k_procs k) (pid_lock k) (wait_lock k) (nextpid k) (initproc k) (k_first k) (k_cur k) (k_cons k) (k_uart k) (k_pr k) (tickslock k) (ticks k) (k_csr k) (k_plic k) (k_vdisk k) (k_text k).
Definition set_procs x k := mkKernel (k_fs k) (k_kmem k) (k_kpagetable k) (ft_lock k) (ft_file k) (k_devsw k) (k_pipes k) x (pid_lock k) (wait_lock k) (nextpid k) (initproc k) (k_first k) (k_cur k) (k_cons k) (k_uart k) (k_pr k) (tickslock k) (ticks k) (k_csr k) (k_plic k) (k_vdisk k) (k_text k).
Definition set_pidlock x k := mkKernel (k_fs k) (k_kmem k) (k_kpagetable k) (ft_lock k) (ft_file k) (k_devsw k) (k_pipes k) (k_procs k) x (wait_lock k) (nextpid k) (initproc k) (k_first k) (k_cur k) (k_cons k) (k_uart k) (k_pr k) (tickslock k) (ticks k) (k_csr k) (k_plic k) (k_vdisk k) (k_text k).
Definition set_waitlock x k := mkKernel (k_fs k) (k_kmem k) (k_kpagetable k) (ft_lock k) (ft_file k) (k_devsw k) (k_pipes k) (k_procs k) (pid_lock k) x (nextpid k) (initproc k) (k_first k) (k_cur k) (k_cons k) (k_uart k) (k_pr k) (tickslock k) (ticks k) (k_csr k) (k_plic k) (k_vdisk k) (k_text k).
Definition set_nextpid x k := mkKernel (k_fs k) (k_kmem k) (k_kpagetable k) (ft_lock k) (ft_file k) (k_devsw k) (k_pipes k) (k_procs k) (pid_lock k) (wait_lock k) x (initproc k) (k_first k) (k_cur k) (k_cons k) (k_uart k) (k_pr k) (tickslock k) (ticks k) (k_csr k) (k_plic k) (k_vdisk k) (k_text k).
Definition set_initproc x k := mkKernel (k_fs k) (k_kmem k) (k_kpagetable k) (ft_lock k) (ft_file k) (k_devsw k) (k_pipes k) (k_procs k) (pid_lock k) (wait_lock k) (nextpid k) x (k_first k) (k_cur k) (k_cons k) (k_uart k) (k_pr k) (tickslock k) (ticks k) (k_csr k) (k_plic k) (k_vdisk k) (k_text k).
Definition set_first x k := mkKernel (k_fs k) (k_kmem k) (k_kpagetable k) (ft_lock k) (ft_file k) (k_devsw k) (k_pipes k) (k_procs k) (pid_lock k) (wait_lock k) (nextpid k) (initproc k) x (k_cur k) (k_cons k) (k_uart k) (k_pr k) (tickslock k) (ticks k) (k_csr k) (k_plic k) (k_vdisk k) (k_text k).
Definition set_cur x k := mkKernel (k_fs k) (k_kmem k) (k_kpagetable k) (ft_lock k) (ft_file k) (k_devsw k) (k_pipes k) (k_procs k) (pid_lock k) (wait_lock k) (nextpid k) (initproc k) (k_first k) x (k_cons k) (k_uart k) (k_pr k) (tickslock k) (ticks k) (k_csr k) (k_plic k) (k_vdisk k) (k_text k).
Definition set_cons x k := mkKernel (k_fs k) (k_kmem k) (k_kpagetable k) (ft_lock k) (ft_file k) (k_devsw k) (k_pipes k) (k_procs k) (pid_lock k) (wait_lock k) (nextpid k) (initproc k) (k_first k) (k_cur k) x (k_uart k) (k_pr k) (tickslock k) (ticks k) (k_csr k) (k_plic k) (k_vdisk k) (k_text k).
Definition set_uart x k := mkKernel (k_fs k) (k_kmem k) (k_kpagetable k) (ft_lock k) (ft_file k) (k_devsw k) (k_pipes k) (k_procs k) (pid_lock k) (wait_lock k) (nextpid k) (initproc k) (k_first k) (k_cur k) (k_cons k) x (k_pr k) (tickslock k) (ticks k) (k_csr k) (k_plic k) (k_vdisk k) (k_text k).
Definition set_pr x k := mkKernel (k_fs k) (k_kmem k) (k_kpagetable k) (ft_lock k) (ft_file k) (k_devsw k) (k_pipes k) (k_procs k) (pid_lock k) (wait_lock k) (nextpid k) (initproc k) (k_first k) (k_cur k) (k_cons k) (k_uart k) x (tickslock k) (ticks k) (k_csr k) (k_plic k) (k_vdisk k) (k_text k).
Definition set_tickslock x k := mkKernel (k_fs k) (k_kmem k) (k_kpagetable k) (ft_lock k) (ft_file k) (k_devsw k) (k_pipes k) (k_procs k) (pid_lock k) (wait_lock k) (nextpid k) (initproc k) (k_first k) (k_cur k) (k_cons k) (k_uart k) (k_pr k) x (ticks k) (k_csr k) (k_plic k) (k_vdisk k) (k_text k).
Definition set_ticks x k := mkKernel (k_fs k) (k_kmem k) (k_kpagetable k) (ft_lock k) (ft_file k) (k_devsw k) (k_pipes k) (k_procs k) (pid_lock k) (wait_lock k) (nextpid k) (initproc k) (k_first k) (k_cur k) (k_cons k) (k_uart k) (k_pr k) (tickslock k) x (k_csr k) (k_plic k) (k_vdisk k) (k_text k).
Definition set_csr x k := mkKernel (k_fs k) (k_kmem k) (k_kpagetable k) (ft_lock k) (ft_file k) (k_devsw k) (k_pipes k) (k_procs k) (pid_lock k) (wait_lock k) (nextpid k) (initproc k) (k_first k) (k_cur k) (k_cons k) (k_uart k) (k_pr k) (tickslock k) (ticks k) x (k_plic k) (k_vdisk k) (k_text k).
Definition set_plic x k := mkKernel (k_fs k) (k_kmem k) (k_kpagetable k) (ft_lock k) (ft_file k) (k_devsw k) (k_pipes k) (k_procs k) (pid_lock k) (wait_lock k) (nextpid k) (initproc k) (k_first k) (k_cur k) (k_cons k) (k_uart k) (k_pr k) (tickslock k) (ticks k) (k_csr k) x (k_vdisk k) (k_text k).
Definition set_vdisk x k := mkKernel (k_fs k) (k_kmem k) (k_kpagetable k) (ft_lock k) (ft_file k) (k_devsw k) (k_pipes k) (k_procs k) (pid_lock k) (wait_lock k) (nextpid k) (initproc k) (k_first k) (k_cur k) (k_cons k) (k_uart k) (k_pr k) (tickslock k) (ticks k) (k_csr k) (k_plic k) x (k_text k).

#[export] Instance HasEnv_kernel : HasEnv kernel :=
  mkLens (fun k => lget env_of (k_fs k)) (fun e k => set_fs (lset env_of e (k_fs k)) k).

Definition fs_l : lens kernel fs := mkLens k_fs set_fs.

(** The allocator and the page tables run in the environment of the thread
    that calls them; the environment stored with them is not used. *)
Definition kenv0 : kenv := mkKenv 0 0 false false 0 false [] [].
Definition kmem_l : lens kernel kmem :=
  mkLens (fun k => set_kenv (lget env_of k) (k_kmem k))
         (fun s k => set_kkmem (set_kenv kenv0 s) (lset env_of (km_env s) k)).

(** The driver's queues; the transfers of the buffer cache are complete when
    its routines return. *)
Definition vdisk_l : lens kernel vdisk :=
  mkLens (fun k => set_vdenv (lget env_of k) (k_vdisk k))
         (fun v k => set_vdisk (set_vdenv kenv0 v) (lset env_of (vd_env v) k)).

Definition proc_lock (i : nat) : lens kernel spinlock :=
  mkLens (fun k => p_lock (k_procs k !!! i))
         (fun l k => set_procs (alter (set_plock l) i (k_procs k)) k).
Definition ftable_lock : lens kernel spinlock := mkLens ft_lock set_ftlock.
Definition pidlock_l : lens kernel spinlock := mkLens pid_lock set_pidlock.
Definition waitlock_l : lens kernel spinlock := mkLens wait_lock set_waitlock.
Definition tickslock_l : lens kernel spinlock := mkLens tickslock set_tickslock.
Definition pipe_lock (pa : Z) : lens kernel spinlock :=
  mkLens (fun k => pi_lock (k_pipes k !!! pa))
         (fun l k => set_pipes (alter (set_pilock l) pa (k_pipes k)) k).
Definition cons_lock : lens kernel spinlock :=
  mkLens (fun k => cn_lock (k_cons k)) (fun l k => set_cons (set_cnlock l (k_cons k)) k).
Definition uart_lock : lens kernel spinlock :=
  mkLens (fun k => tx_lock (k_uart k)) (fun l k => set_uart (set_txlock l (k_uart k)) k).
Definition printf_lock : lens kernel spinlock :=
  mkLens (fun k => pr_lock (k_pr k)) (fun l k => set_pr (set_prlock l (k_pr k)) k).

Definition getp (i : nat) : M kernel proc := gets (fun k => k_procs k !!! i).
Definition updp (i : nat) (f : proc -> proc) : M kernel unit :=
  modify (fun k => set_procs (alter f i (k_procs k)) k).
Definition getf (i : nat) : M kernel file := gets (fun k => ft_file k !!! i).
Definition updf (i : nat) (f : file -> file) : M kernel unit :=
  modify (fun k => set_files (alter f i (ft_file k)) k).
Definition getpi (pa : Z) : M kernel pipe := gets (fun k => k_pipes k !!! pa).
Definition updpi (pa : Z) (f : pipe -> pipe) : M kernel unit :=
  modify (fun k => set_pipes (alter f pa (k_pipes k)) k).
Definition updc (f : cons -> cons) : M kernel unit := modify (fun k => set_cons (f (k_cons k)) k).
Definition updu (f : uart -> uart) : M kernel unit := modify (fun k => set_uart (f (k_uart k)) k).
Definition updcsr (f : csr -> csr) : M kernel unit := modify (fun k => set_csr (f (k_csr k)) k).

(** The body of the loop of [wakeup] on the process table. *)
Definition wake_one (c : chan) (p : proc) : proc :=
  if bool_decide (p_state p = SLEEPING) && bool_decide (p_chan p = Some c) then set_pstate RUNNABLE p else p.
Definition wake_all (cur : option nat) (c : chan) (ps : list proc) : list proc :=
  imap (fun i p => if bool_decide (cur = Some i) then p else wake_one c p) ps.

(** The layers below record the channels they call [wakeup] on; the process
    table hears of them, oldest first, when control is back in this one. *)
Definition clear_woken (e : kenv) : kenv :=
  mkKenv (e_cpu e) (e_noff e) (e_intena e) (e_sie e) (e_pid e) (e_killed e) [] (e_out e).
Definition deliver (k : kernel) : kernel :=
  let e := lget env_of k in
  lset env_of (clear_woken e) (set_procs (fold_right (wake_all (k_cur k)) (k_procs k) (e_woken e)) k).
Definition lower {T A} (l : lens kernel T) (m : M T A) : M kernel A :=
  fun k =>
    match zoom l m k with
    | Ok a k' => Ok a (deliver k')
    | Panic msg => Panic msg
    | Block c k' => Block c (deliver k')
    | NoFuel => NoFuel
    end.
Definition kfs {A} : M fs A -> M kernel A := lower fs_l.
Definition kdisk {A} : M vdisk A -> M kernel A := lower vdisk_l.
(** The allocator and the page tables never call [wakeup]. *)
Definition kmm {A} : M kmem A -> M kernel A := zoom kmem_l.

(** Trap frame fields of process [i]. *)
Definition tf_get (i : nat) (off : Z) : M kernel Z :=
  p <- getp i ;; kmm (load (p_trapframe p + off)).
Definition tf_set (i : nat) (off v : Z) : M kernel unit :=
  p <- getp i ;; kmm (store (p_trapframe p + off) (u64 v)).

(** What the memory routines read of a process. *)
Definition uproc_of (p : proc) : uproc := mkUproc (p_sz p) (p_pagetable p).

(** The static data at boot: zeroed, over memory [s] and disk [d]. *)
Definition kernel_boot (e : kenv) (d : disk) (s : kmem) (t : text) : kernel :=
  mkKernel (fs_boot e d) (set_kenv kenv0 s) 0 initlock (replicate NFILE file0) (replicate (Z.to_nat NDEV) (mkDevsw None None)) ∅
    (replicate NPROC proc0) initlock initlock 1 None true None
    (mkCons initlock (replicate (Z.to_nat INPUT_BUF_SIZE) 0) 0 0 0)
    (mkUart initlock false true [] [] [])
    (mkPr initlock false false) initlock 0
    (mkCsr 0 0 0 0 0 0 0 0) (mkPlic [] [])
    (mkVdisk kenv0 initlock [] 0 [] 0 [] (replicate NUM false) 0 (replicate NUM (mkInfo None 0))
       (replicate NUM (mkReq 0 0 0)) [] d 0 [] ∅) t.
