(* ===== verification/Asm.v ===== *)
(** * The assembly of the kernel (kernel/trampoline.S, swtch.S, kernelvec.S,
    entry.S)

    The instructions the four files use, with their effect on a hart whose
    loads, stores and instruction fetches go through the page table in
    [satp].  The programs below are the source's, one constructor for each
    instruction.  *)

From S2P Require Import Prelude Mem VmSpec VmProps.

Module RV.

Inductive reg :=
| ra | sp | gp | tp | t0 | t1 | t2 | s0 | s1
| a0 | a1 | a2 | a3 | a4 | a5 | a6 | a7
| s2 | s3 | s4 | s5 | s6 | s7 | s8 | s9 | s10 | s11
| t3 | t4 | t5 | t6.
#[export] Instance reg_eq_dec : EqDecision reg.
Proof. solve_decision. Defined.

Inductive csr := sscratch | satp | sepc | mhartid.
#[export] Instance csr_eq_dec : EqDecision csr.
Proof. solve_decision. Defined.

Inductive instr :=
| sd (src : reg) (off : Z) (base : reg)
| ld (dst : reg) (off : Z) (base : reg)
| li (dst : reg) (imm : Z)
| la (dst : reg) (sym : Z)
| addi (dst src : reg) (imm : Z)
| add (dst src1 src2 : reg)
| mul (dst src1 src2 : reg)
| csrw (c : csr) (src : reg)
| csrr (dst : reg) (c : csr)
| sfence_vma
| jalr (target : reg) (next : Z)     (* [next]: the address after the instruction *)
| call (target : Z) (next : Z)
| ret
| sret.

Record hart := mkHart {
  h_regs : reg -> Z;
  h_csrs : csr -> Z;
  h_pc : Z;
  h_mem : mem
}.
Definition upd {K} `{EqDecision K} (k : K) (v : Z) (f : K -> Z) : K -> Z := fun x => if decide (x = k) then v else f x.
Definition set_reg r v h := mkHart (upd r v (h_regs h)) (h_csrs h) (h_pc h) (h_mem h).
Definition set_csr c v h := mkHart (h_regs h) (upd c v (h_csrs h)) (h_pc h) (h_mem h).
Definition set_pc v h := mkHart (h_regs h) (h_csrs h) v (h_mem h).
Definition set_mem m h := mkHart (h_regs h) (h_csrs h) (h_pc h) m.

(** ** Address translation

    [satp] is 0 (no paging) or names a Sv39 root; supervisor mode has no
    access to pages with [PTE_U]. *)
Definition translate (m : mem) (satp va need : Z) : option Z :=
  if satp =? 0 then Some va else
  if negb (Z.shiftr satp 60 =? 8) || (va <? 0) || (MAXVA <=? va) then None else
  match sv39 m (Z.shiftl (Z.land satp (Z.ones 44)) 12) va with
  | Some pte =>
      if (Z.land pte need =? need) && (Z.land pte PTE_U =? 0) then Some (PTE2PA pte + va mod PGSIZE) else None
  | None => None
  end.

(** ** Instructions *)

Definition exec (i : instr) (h : hart) : option hart :=
  match i with
  | sd r off b =>
      pa ← translate (h_mem h) (h_csrs h satp) (u64 (h_regs h b + off)) PTE_W;
      Some (set_mem (store64 pa (h_regs h r) (h_mem h)) h)
  | ld r off b =>
      pa ← translate (h_mem h) (h_csrs h satp) (u64 (h_regs h b + off)) PTE_R;
      Some (set_reg r (load64 (h_mem h) pa) h)
  | li r v | la r v => Some (set_reg r (u64 v) h)
  | addi r s v => Some (set_reg r (u64 (h_regs h s + v)) h)
  | add r s t => Some (set_reg r (u64 (h_regs h s + h_regs h t)) h)
  | mul r s t => Some (set_reg r (u64 (h_regs h s * h_regs h t)) h)
  | csrw c r => Some (set_csr c (h_regs h r) h)
  | csrr r c => Some (set_reg r (h_csrs h c) h)
  | sfence_vma => Some h
  | jalr r next => Some (set_pc (h_regs h r) (set_reg ra next h))
  | call f next => Some (set_pc f (set_reg ra next h))
  | ret => Some (set_pc (h_regs h ra) h)
  | sret => Some (set_pc (h_csrs h sepc) h)
  end.

(** A straight run of code on the page [vpage]: each instruction is fetched
    through the page table of the moment, which has to map the page to the
    physical page [ppage] that holds the code. *)
Fixpoint run (vpage ppage : Z) (prog : list instr) (h : hart) : option hart :=
  match prog with
  | [] => Some h
  | i :: prog' =>
      if bool_decide (translate (h_mem h) (h_csrs h satp) vpage PTE_X = Some ppage)
      then h' ← exec i h; run vpage ppage prog' h' else None
  end.

(** ** trampoline.S *)

(** Where a register is saved in [struct trapframe]. *)
Definition tf_off (r : reg) : Z :=
  match r with
  | ra => 40 | sp => 48 | gp => 56 | tp => 64
  | t0 => 72 | t1 => 80 | t2 => 88
  | s0 => 96 | s1 => 104
  | a0 => 112 | a1 => 120 | a2 => 128 | a3 => 136 | a4 => 144 | a5 => 152 | a6 => 160 | a7 => 168
  | s2 => 176 | s3 => 184 | s4 => 192 | s5 => 200 | s6 => 208 | s7 => 216 | s8 => 224 | s9 => 232
  | s10 => 240 | s11 => 248
  | t3 => 256 | t4 => 264 | t5 => 272 | t6 => 280
  end.

Definition uservec (userret : Z) : list instr := [
  csrw sscratch a0;
  li a0 TRAPFRAME;
  sd ra 40 a0;
  sd sp 48 a0;
  sd gp 56 a0;
  sd tp 64 a0;
  sd t0 72 a0;
  sd t1 80 a0;
  sd t2 88 a0;
  sd s0 96 a0;
  sd s1 104 a0;
  sd a1 120 a0;
  sd a2 128 a0;
  sd a3 136 a0;
  sd a4 144 a0;
  sd a5 152 a0;
  sd a6 160 a0;
  sd a7 168 a0;
  sd s2 176 a0;
  sd s3 184 a0;
  sd s4 192 a0;
  sd s5 200 a0;
  sd s6 208 a0;
  sd s7 216 a0;
  sd s8 224 a0;
  sd s9 232 a0;
  sd s10 240 a0;
  sd s11 248 a0;
  sd t3 256 a0;
  sd t4 264 a0;
  sd t5 272 a0;
  sd t6 280 a0;
  csrr t0 sscratch;
  sd t0 112 a0;
  ld sp 8 a0;
  ld tp 32 a0;
  ld t0 16 a0;
  ld t1 0 a0;
  sfence_vma;
  csrw satp t1;
  sfence_vma;
  jalr t0 userret
].

Definition userret : list instr := [
  sfence_vma;
  csrw satp a0;
  sfence_vma;
  li a0 TRAPFRAME;
  ld ra 40 a0;
  ld sp 48 a0;
  ld gp 56 a0;
  ld tp 64 a0;
  ld t0 72 a0;
  ld t1 80 a0;
  ld t2 88 a0;
  ld s0 96 a0;
  ld s1 104 a0;
  ld a1 120 a0;
  ld a2 128 a0;
  ld a3 136 a0;
  ld a4 144 a0;
  ld a5 152 a0;
  ld a6 160 a0;
  ld a7 168 a0;
  ld s2 176 a0;
  ld s3 184 a0;
  ld s4 192 a0;
  ld s5 200 a0;
  ld s6 208 a0;
  ld s7 216 a0;
  ld s8 224 a0;
  ld s9 232 a0;
  ld s10 240 a0;
  ld s11 248 a0;
  ld t3 256 a0;
  ld t4 264 a0;
  ld t5 272 a0;
  ld t6 280 a0;
  ld a0 112 a0;
  sret
].

(** ** swtch.S *)

Definition swtch : list instr := [
  sd ra 0 a0;
  sd sp 8 a0;
  sd s0 16 a0;
  sd s1 24 a0;
  sd s2 32 a0;
  sd s3 40 a0;
  sd s4 48 a0;
  sd s5 56 a0;
  sd s6 64 a0;
  sd s7 72 a0;
  sd s8 80 a0;
  sd s9 88 a0;
  sd s10 96 a0;
  sd s11 104 a0;
  ld ra 0 a1;
  ld sp 8 a1;
  ld s0 16 a1;
  ld s1 24 a1;
  ld s2 32 a1;
  ld s3 40 a1;
  ld s4 48 a1;
  ld s5 56 a1;
  ld s6 64 a1;
  ld s7 72 a1;
  ld s8 80 a1;
  ld s9 88 a1;
  ld s10 96 a1;
  ld s11 104 a1;
  ret
].

(** ** kernelvec.S, up to the call of [kerneltrap] and after it *)

Definition kernelvec (kerneltrap next : Z) : list instr := [
  addi sp sp (-256);
  sd ra 0 sp;
  sd gp 16 sp;
  sd tp 24 sp;
  sd t0 32 sp;
  sd t1 40 sp;
  sd t2 48 sp;
  sd a0 72 sp;
  sd a1 80 sp;
  sd a2 88 sp;
  sd a3 96 sp;
  sd a4 104 sp;
  sd a5 112 sp;
  sd a6 120 sp;
  sd a7 128 sp;
  sd t3 216 sp;
  sd t4 224 sp;
  sd t5 232 sp;
  sd t6 240 sp;
  call kerneltrap next
].

Definition kernelvec_ret : list instr := [
  ld ra 0 sp;
  ld gp 16 sp;
  ld t0 32 sp;
  ld t1 40 sp;
  ld t2 48 sp;
  ld a0 72 sp;
  ld a1 80 sp;
  ld a2 88 sp;
  ld a3 96 sp;
  ld a4 104 sp;
  ld a5 112 sp;
  ld a6 120 sp;
  ld a7 128 sp;
  ld t3 216 sp;
  ld t4 224 sp;
  ld t5 232 sp;
  ld t6 240 sp;
  addi sp sp 256;
  sret
].

(** ** entry.S *)

Definition entry (stack0 start next : Z) : list instr := [
  la sp stack0;
  li a0 (1024 * 4);
  csrr a1 mhartid;
  addi a1 a1 1;
  mul a0 a0 a1;
  add sp sp a0;
  call start next
].

End RV.
