(* ===== verification/AsmProps.v ===== *)
(** * Entering and leaving the kernel, and switching between threads *)

From S2P Require Import Prelude Mem Vm VmSpec VmCopy VmProps Kernel Asm.
Import RV.

(** ** Registers and memory *)

Lemma reg_upd_eq {K} `{EqDecision K} k v (f : K -> Z) : upd k v f k = v.
Proof. unfold upd. by rewrite decide_True. Qed.
Lemma reg_upd_ne {K} `{EqDecision K} k k' v (f : K -> Z) : k' <> k -> upd k v f k' = f k'.
Proof. intros. unfold upd. by rewrite decide_False. Qed.

Definition same_outside (m m' : mem) (a n : Z) : Prop := forall x, ~ a <= x < a + n -> mget m' x = mget m x.

Lemma same_outside_refl m a n : same_outside m m a n.
Proof. by intros x _. Qed.
Lemma same_outside_trans m1 m2 m3 a n : same_outside m1 m2 a n -> same_outside m2 m3 a n -> same_outside m1 m3 a n.
Proof. intros H1 H2 x Hx. by rewrite H2, H1. Qed.
Lemma same_outside_store m a n pa v : a <= pa -> pa + 8 <= a + n -> same_outside m (store64 pa v m) a n.
Proof. intros ? ? x Hx. apply mget_store64. lia. Qed.

(** The registers saved by a series of stores at [base], and restored by a
    series of loads. *)
Definition saves (base : reg) (l : list (reg * Z)) : list instr := (fun x => sd x.1 x.2 base) <$> l.
Definition loads (base : reg) (l : list (reg * Z)) : list instr := (fun x => ld x.1 x.2 base) <$> l.
Definition saved (pa : Z) (f : reg -> Z) (l : list (reg * Z)) (m : mem) : mem := foldl (fun m x => store64 (pa + x.2) (f x.1) m) m l.
Definition loaded (pa : Z) (m : mem) (l : list (reg * Z)) (f : reg -> Z) : reg -> Z := foldl (fun f x => upd x.1 (load64 m (pa + x.2)) f) f l.

(** Offsets of double words in an area of [n] bytes. *)
Definition offsets_ok (n : Z) (l : list (reg * Z)) : Prop := Forall (fun x => 0 <= x.2 /\ x.2 + 8 <= n /\ x.2 mod 8 = 0) l.
#[export] Instance offsets_ok_dec n l : Decision (offsets_ok n l).
Proof. apply _. Defined.

Lemma saved_outside pa f l m n : offsets_ok n l -> same_outside m (saved pa f l m) pa n.
Proof.
  revert m. induction l as [|[r o] l IH]; intros m Hl; [apply same_outside_refl|]. apply Forall_cons in Hl as [(? & ? & _) Hl]. cbn [fst snd] in *.
  eapply same_outside_trans; [|by apply IH]. apply same_outside_store; cbn [snd]; lia.
Qed.

Lemma saved_other pa f l m n o : offsets_ok n l -> o mod 8 = 0 -> o ∉ l.*2 -> load64 (saved pa f l m) (pa + o) = load64 m (pa + o).
Proof.
  revert m. induction l as [|[r o'] l IH]; intros m Hl Ho Hn; [done|]. apply Forall_cons in Hl as [(? & ? & Hm) Hl]. cbn [fst snd] in *.
  apply not_elem_of_cons in Hn as [Hne Hn]. cbn [fst snd] in Hne. cbn [saved foldl]. change (load64 (saved pa f l (store64 (pa + o') (f r) m)) (pa + o) = load64 m (pa + o)).
  rewrite IH by done. apply load64_agree, agree_store64. pose proof (Z.div_mod o 8 ltac:(done)). pose proof (Z.div_mod o' 8 ltac:(done)). lia.
Qed.
Lemma saved_at pa f l m n r o : offsets_ok n l -> NoDup l.*2 -> (r, o) ∈ l -> load64 (saved pa f l m) (pa + o) = u64 (f r).
Proof.
  revert m. induction l as [|[r' o'] l IH]; intros m Hl Hnd Hin; [by apply elem_of_nil in Hin|].
  pose proof Hl as [(? & ? & Hm) Hl']%Forall_cons. cbn [fst snd] in *. apply NoDup_cons in Hnd as [Hni Hnd].
  apply elem_of_cons in Hin as [[= <- <-]|Hin]; [|by apply IH]. change (load64 (saved pa f l (store64 (pa + o) (f r) m)) (pa + o) = u64 (f r)).
  rewrite (saved_other _ _ _ _ n) by done. apply load_store64.
Qed.

Lemma loaded_other pa m l f r : r ∉ l.*1 -> loaded pa m l f r = f r.
Proof.
  revert f. induction l as [|[r' o'] l IH]; intros f Hn; [done|]. apply not_elem_of_cons in Hn as [Hne Hn]. cbn [fst] in *.
  change (loaded pa m l (upd r' (load64 m (pa + o')) f) r = f r). rewrite IH by done. by apply reg_upd_ne.
Qed.
Lemma loaded_at pa m l f r o : NoDup l.*1 -> (r, o) ∈ l -> loaded pa m l f r = load64 m (pa + o).
Proof.
  revert f. induction l as [|[r' o'] l IH]; intros f Hnd Hin; [by apply elem_of_nil in Hin|]. apply NoDup_cons in Hnd as [Hni Hnd]. cbn [fst snd] in *.
  apply elem_of_cons in Hin as [[= <- <-]|Hin]; [|by apply IH]. change (loaded pa m l (upd r (load64 m (pa + o)) f) r = load64 m (pa + o)).
  rewrite loaded_other by done. by rewrite reg_upd_eq.
Qed.

(** ** Running code

    The tables that map the code and the area of [n] bytes at [va] lie
    outside the area, so that stores to it do not affect the mapping. *)
Definition area_mapped (m : mem) (st va pa n : Z) : Prop :=
  forall m', same_outside m m' pa n -> forall x need, 0 <= x -> x + 8 <= n -> need = PTE_R \/ need = PTE_W ->
    translate m' st (va + x) need = Some (pa + x).
Definition code_mapped (m : mem) (st vpage ppage pa n : Z) : Prop :=
  forall m', same_outside m m' pa n -> translate m' st vpage PTE_X = Some ppage.

Lemma area_mapped_mono m m' st va pa n : same_outside m m' pa n -> area_mapped m st va pa n -> area_mapped m' st va pa n.
Proof. intros H A m'' H'. apply A. by eapply same_outside_trans. Qed.
Lemma code_mapped_mono m m' st vp pp pa n : same_outside m m' pa n -> code_mapped m st vp pp pa n -> code_mapped m' st vp pp pa n.
Proof. intros H A m'' H'. apply A. by eapply same_outside_trans. Qed.

Section running.
Context (vpage ppage pa n : Z).

Lemma run_step i prog h h' : code_mapped (h_mem h) (h_csrs h satp) vpage ppage pa n -> exec i h = Some h' ->
  run vpage ppage (i :: prog) h = run vpage ppage prog h'.
Proof. intros C E. cbn [run]. rewrite bool_decide_eq_true_2 by apply C, same_outside_refl. by rewrite E. Qed.

Lemma run_saves base va l prog h :
  h_regs h base = va -> 0 <= va -> va + n <= 2 ^ 64 -> offsets_ok n l ->
  area_mapped (h_mem h) (h_csrs h satp) va pa n -> code_mapped (h_mem h) (h_csrs h satp) vpage ppage pa n ->
  run vpage ppage (saves base l ++ prog) h = run vpage ppage prog (set_mem (saved pa (h_regs h) l (h_mem h)) h).
Proof.
  revert h. induction l as [|[r o] l IH]; intros h Hb Hva Hn Ho A C; [by destruct h|]. apply Forall_cons in Ho as [(? & ? & _) Ho]. cbn [fst snd] in *.
  cbn [saves fmap list_fmap app fst snd]. erewrite run_step; [|exact C|].
  - pose proof (same_outside_store (h_mem h) pa n (pa + o) (h_regs h r) ltac:(lia) ltac:(lia)) as Hs.
    etransitivity; [refine (IH (set_mem (store64 (pa + o) (h_regs h r) (h_mem h)) h) Hb Hva Hn Ho _ _)|by destruct h]; [by eapply area_mapped_mono|by eapply code_mapped_mono].
  - cbn [exec]. rewrite Hb, u64_small, (A _ (same_outside_refl _ _ _)) by (lia || by right). done.
Qed.

Lemma run_loads base va l prog h :
  h_regs h base = va -> 0 <= va -> va + n <= 2 ^ 64 -> offsets_ok n l -> base ∉ l.*1 ->
  area_mapped (h_mem h) (h_csrs h satp) va pa n -> code_mapped (h_mem h) (h_csrs h satp) vpage ppage pa n ->
  run vpage ppage (loads base l ++ prog) h =
    run vpage ppage prog (mkHart (loaded pa (h_mem h) l (h_regs h)) (h_csrs h) (h_pc h) (h_mem h)).
Proof.
  revert h. induction l as [|[r o] l IH]; intros h Hb Hva Hn Ho Hni A C; [by destruct h|]. apply Forall_cons in Ho as [(? & ? & _) Ho]. cbn [fst snd] in *.
  apply not_elem_of_cons in Hni as [Hne Hni]. cbn [fst] in Hne. cbn [loads fmap list_fmap app fst snd]. erewrite run_step; [|exact C|].
  - etransitivity; [refine (IH (set_reg r (load64 (h_mem h) (pa + o)) h) _ Hva Hn Ho Hni A C)|done]. cbn [set_reg h_regs]. by rewrite reg_upd_ne.
  - cbn [exec]. rewrite Hb, u64_small, (A _ (same_outside_refl _ _ _)) by (lia || by left). done.
Qed.
End running.

(** ** The trampoline *)

(** Decidable facts about concrete lists, by evaluation. *)
Ltac by_eval := refine (bool_decide_unpack _ _); vm_compute; exact I.

Definition all_but_a0 : list reg :=
  [ra; sp; gp; tp; t0; t1; t2; s0; s1; a1; a2; a3; a4; a5; a6; a7; s2; s3; s4; s5; s6; s7; s8; s9; s10; s11; t3; t4; t5; t6].
Definition tf_slots : list (reg * Z) := (fun r => (r, tf_off r)) <$> all_but_a0.

Lemma tf_slot r : r <> a0 -> (r, tf_off r) ∈ tf_slots.
Proof. intros Hr. apply list_elem_of_fmap. exists r. split; [done|]. destruct r; (done || by_eval). Qed.
Lemma tf_off_apart r : r <> a0 -> tf_a0 + 8 <= tf_off r \/ tf_off r + 8 <= tf_a0.
Proof. intros Hr. destruct r; (done || cbn [tf_off]; lia). Qed.

Section trampoline.
Context (tf tramp : Z).
Abbreviation area := (fun m st => area_mapped m st TRAPFRAME tf sizeof_trapframe).
Abbreviation code := (fun m st => code_mapped m st TRAMPOLINE tramp tf sizeof_trapframe).

(** The hart as [uservec] leaves it for [usertrap]. *)
Record entered (userret : Z) (h h1 : hart) : Prop := {
  en_pc : h_pc h1 = load64 (h_mem h) (tf + tf_kernel_trap);
  en_sp : h_regs h1 sp = load64 (h_mem h) (tf + tf_kernel_sp);
  en_tp : h_regs h1 tp = load64 (h_mem h) (tf + tf_kernel_hartid);
  en_satp : h_csrs h1 satp = load64 (h_mem h) (tf + tf_kernel_satp);
  en_ra : h_regs h1 ra = userret;
  en_regs : forall r, load64 (h_mem h1) (tf + tf_off r) = h_regs h r;
  en_mem : same_outside (h_mem h) (h_mem h1) tf sizeof_trapframe
}.

(** The user registers in the trap frame. *)
Definition all_saved (f : reg -> Z) (m : mem) : mem := store64 (tf + 112) (f a0) (saved tf (upd a0 (u64 TRAPFRAME) f) tf_slots m).

Lemma tf_slots_ok : offsets_ok sizeof_trapframe tf_slots.
Proof. by_eval. Qed.
Lemma all_saved_outside f m : same_outside m (all_saved f m) tf sizeof_trapframe.
Proof. eapply same_outside_trans; [eapply saved_outside, tf_slots_ok|]. apply same_outside_store; unfold sizeof_trapframe; lia. Qed.
Lemma all_saved_kernel f m o : o mod 8 = 0 -> o < 40 -> load64 (all_saved f m) (tf + o) = load64 m (tf + o).
Proof.
  intros Ho Hlt. unfold all_saved. rewrite (load64_agree (saved tf (upd a0 (u64 TRAPFRAME) f) tf_slots m)) by (apply agree_store64; lia).
  apply (saved_other _ _ _ _ sizeof_trapframe); [apply tf_slots_ok|done|]. change (tf_slots.*2) with [40; 48; 56; 64; 72; 80; 88; 96; 104; 120; 128; 136; 144; 152; 160; 168; 176; 184; 192; 200; 208; 216; 224; 232; 240; 248; 256; 264; 272; 280].
  rewrite !elem_of_cons, elem_of_nil. lia.
Qed.
Lemma all_saved_regs f m r : 0 <= f r < 2 ^ 64 -> load64 (all_saved f m) (tf + tf_off r) = f r.
Proof.
  intros Hr. unfold all_saved. destruct (decide (r = a0)) as [->|Hne]; [rewrite load_store64; by apply u64_small|].
  rewrite (load64_agree (saved tf (upd a0 (u64 TRAPFRAME) f) tf_slots m)) by (apply agree_store64; pose proof (tf_off_apart r Hne); lia).
  rewrite (saved_at _ _ _ _ sizeof_trapframe r (tf_off r)); [|apply tf_slots_ok|by_eval|by apply tf_slot]. rewrite reg_upd_ne by done. by apply u64_small.
Qed.

Lemma uservec_saves prog h :
  area (h_mem h) (h_csrs h satp) -> code (h_mem h) (h_csrs h satp) ->
  run TRAMPOLINE tramp (csrw sscratch a0 :: li a0 TRAPFRAME :: saves a0 tf_slots ++ csrr t0 sscratch :: saves a0 [(t0, 112)] ++ prog) h =
  run TRAMPOLINE tramp prog (mkHart (upd t0 (h_regs h a0) (upd a0 TRAPFRAME (h_regs h))) (upd sscratch (h_regs h a0) (h_csrs h)) (h_pc h) (all_saved (h_regs h) (h_mem h))).
Proof.
  intros A C. erewrite run_step; [|exact C|reflexivity]. erewrite run_step; [|exact C|reflexivity].
  erewrite (run_saves _ _ tf sizeof_trapframe _ TRAPFRAME); [|reflexivity|done|done|exact tf_slots_ok|exact A|exact C]. cbn [set_mem h_mem h_regs h_csrs set_reg set_csr].
  pose proof (saved_outside tf (upd a0 (u64 TRAPFRAME) (h_regs h)) tf_slots (h_mem h) _ tf_slots_ok) as S1.
  erewrite run_step; [|by eapply code_mapped_mono; [exact S1|exact C]|reflexivity]. cbn [set_reg h_regs h_mem h_csrs set_mem set_csr].
  erewrite (run_saves _ _ tf sizeof_trapframe _ TRAPFRAME); [|reflexivity|done|done|by_eval|by eapply area_mapped_mono; [exact S1|exact A]|by eapply code_mapped_mono; [exact S1|exact C]].
  done.
Qed.

Lemma uservec_spec link h :
  area (h_mem h) (h_csrs h satp) -> code (h_mem h) (h_csrs h satp) -> code (h_mem h) (load64 (h_mem h) (tf + tf_kernel_satp)) ->
  (forall r, 0 <= h_regs h r < 2 ^ 64) ->
  exists h1, run TRAMPOLINE tramp (uservec link) h = Some h1 /\ entered link h h1.
Proof.
  intros A C Ck Hr.
  change (uservec link) with (csrw sscratch a0 :: li a0 TRAPFRAME :: saves a0 tf_slots ++ csrr t0 sscratch :: saves a0 [(t0, 112)] ++
    (loads a0 [(sp, 8); (tp, 32); (t0, 16); (t1, 0)] ++ [sfence_vma; csrw satp t1; sfence_vma; jalr t0 link])).
  rewrite uservec_saves by done. set (m2 := all_saved (h_regs h) (h_mem h)).
  pose proof (all_saved_outside (h_regs h) (h_mem h)) as S2. fold m2 in S2.
  assert (forall o, o mod 8 = 0 -> o < 40 -> load64 m2 (tf + o) = load64 (h_mem h) (tf + o)) as Hk by (intros; by apply all_saved_kernel).
  erewrite (run_loads _ _ tf sizeof_trapframe _ TRAPFRAME); [|reflexivity|done|done|by_eval|by_eval|by eapply area_mapped_mono; [exact S2|exact A]|by eapply code_mapped_mono; [exact S2|exact C]].
  cbn [h_mem h_regs h_csrs h_pc loaded foldl fst snd]. rewrite !Hk by done.
  erewrite run_step; [|by eapply code_mapped_mono; [exact S2|exact C]|reflexivity].
  erewrite run_step; [|by eapply code_mapped_mono; [exact S2|exact C]|reflexivity].
  erewrite run_step; [|by eapply code_mapped_mono; [exact S2|exact Ck]|reflexivity].
  erewrite run_step; [|by eapply code_mapped_mono; [exact S2|exact Ck]|reflexivity].
  eexists. split; [reflexivity|]. split; [done..|intros r; by apply all_saved_regs|done].
Qed.

(** [userret]: every register from the trap frame. *)
Lemma userret_spec h :
  code (h_mem h) (h_csrs h satp) -> code (h_mem h) (h_regs h a0) -> area (h_mem h) (h_regs h a0) ->
  exists h', run TRAMPOLINE tramp userret h = Some h' /\ (forall r, h_regs h' r = load64 (h_mem h) (tf + tf_off r)) /\
    h_csrs h' satp = h_regs h a0 /\ h_pc h' = h_csrs h sepc /\ h_mem h' = h_mem h.
Proof.
  intros Ck C A. change userret with (sfence_vma :: csrw satp a0 :: sfence_vma :: li a0 TRAPFRAME :: loads a0 tf_slots ++ [ld a0 112 a0; sret]).
  erewrite run_step; [|exact Ck|reflexivity]. erewrite run_step; [|exact Ck|reflexivity].
  erewrite run_step; [|exact C|reflexivity]. erewrite run_step; [|exact C|reflexivity].
  erewrite (run_loads _ _ tf sizeof_trapframe _ TRAPFRAME); [|reflexivity|done|done|exact tf_slots_ok|by_eval|exact A|exact C].
  cbn [set_mem h_mem h_regs h_csrs set_reg set_csr h_pc]. set (f := loaded tf (h_mem h) tf_slots _).
  assert (f a0 = TRAPFRAME) as Hf by (unfold f; rewrite loaded_other by by_eval; by rewrite reg_upd_eq).
  erewrite run_step; [|exact C|cbn [exec h_regs h_mem h_csrs]; rewrite Hf, u64_small by done; change (upd satp (h_regs h a0) (h_csrs h) satp) with (h_regs h a0); rewrite (A _ (same_outside_refl _ _ _)) by (done || by left); reflexivity].
  erewrite run_step; [|exact C|reflexivity]. eexists. split; [reflexivity|]. cbn [set_pc set_reg h_regs h_csrs h_pc h_mem]. split_and!; [|done..].
  intros r. destruct (decide (r = a0)) as [->|Hne]; [by rewrite reg_upd_eq|]. rewrite reg_upd_ne by done. apply loaded_at; [by_eval|by apply tf_slot].
Qed.
End trampoline.

(** ** Page tables that map the trampoline and the trap frame *)

(** The entries the hardware reads to translate [va]. *)
Definition pte_addrs (m : mem) (root va : Z) : list Z :=
  let p2 := root + 8 * idx 2 (vpn va) in
  let p1 := PTE2PA (load64 m p2) + 8 * idx 1 (vpn va) in
  [p2; p1; PTE2PA (load64 m p1) + 8 * idx 0 (vpn va)].

(** [root] maps the page [va] to [pa] with [perm], through tables that do not
    overlap the trap frame at [tf]. *)
Record page_mapped (tf : Z) (m : mem) (root va pa perm : Z) : Prop := {
  pm_root : phys root;
  pm_pa : phys pa;
  pm_pte : sv39 m root va = Some (mkpte pa perm);
  pm_sep : Forall (fun x => x + 8 <= tf \/ tf + sizeof_trapframe <= x) (pte_addrs m root va)
}.

Lemma sv39_frame tf m m' root va pa perm x :
  page_mapped tf m root va pa perm -> same_outside m m' tf sizeof_trapframe -> vpn x = vpn va -> sv39 m' root x = Some (mkpte pa perm).
Proof.
  intros [_ _ <- Hs] Hm Hx. unfold sv39. rewrite Hx. unfold pte_addrs in Hs. apply Forall_cons in Hs as [H2 [H1 [H0 _]%Forall_cons]%Forall_cons].
  assert (forall p, p + 8 <= tf \/ tf + sizeof_trapframe <= p -> load64 m' p = load64 m p) as E.
  { intros p Hp. apply load64_agree. intros y Hy. apply Hm. lia. }
  rewrite (E _ H2), (E _ H1), (E _ H0). done.
Qed.

Lemma satp_root root : phys root -> Z.shiftr (MAKE_SATP root) 60 = 8 /\ Z.shiftl (Z.land (MAKE_SATP root) (Z.ones 44)) 12 = root /\ MAKE_SATP root <> 0.
Proof.
  intros [Ha Hr]. unfold MAKE_SATP. assert (0 <= Z.shiftr root 12 < 2 ^ 44) as H.
  { rewrite Z.shiftr_div_pow2 by lia. change (2 ^ 12) with 4096. split; [apply Z.div_pos; lia|apply Z.div_lt_upper_bound; lia]. }
  split_and!.
  - rewrite Z.shiftr_lor, (shiftr_small (Z.shiftr root 12)) by lia. done.
  - rewrite Z.land_lor_distr_l. change (Z.land (Z.shiftl 8 60) (Z.ones 44)) with 0. rewrite Z.lor_0_l, Z.land_ones, Z.mod_small by lia. by apply shiftr_aligned.
  - intros [E _]%Z.lor_eq_0_iff. done.
Qed.

Lemma translate_page tf m m' root va pa perm need x :
  page_mapped tf m root va pa perm -> same_outside m m' tf sizeof_trapframe -> aligned va -> 0 <= va < MAXVA -> 0 <= x < PGSIZE ->
  0 <= perm < 1024 -> 0 <= need < 1024 -> Z.land (Z.lor perm PTE_V) need = need -> Z.land (Z.lor perm PTE_V) PTE_U = 0 ->
  translate m' (MAKE_SATP root) (va + x) need = Some (pa + x).
Proof.
  intros M Hs Hal Hva Hx Hperm Hn En EU. destruct (satp_root root (pm_root _ _ _ _ _ _ M)) as (E1 & E2 & E3). unfold translate.
  assert (va + x < MAXVA) as Hmax.
  { unfold aligned, PGSIZE in *. change MAXVA with (67108864 * 4096) in *. pose proof (Z.div_mod va 4096 ltac:(done)). lia. }
  rewrite (proj2 (Z.eqb_neq _ _)), E1, (proj2 (Z.ltb_ge _ _)), (proj2 (Z.leb_gt _ _)) by (done || lia). cbn [negb orb Z.eqb].
  rewrite E2, (sv39_frame tf m m' root va pa perm); [|done|done|].
  - pose proof (pm_pa _ _ _ _ _ _ M) as Hp. rewrite !mkpte_bits, En, EU, Z.eqb_refl by (done || by vm_compute). cbn [andb Z.eqb].
    destruct (mkpte_spec pa perm Hp Hperm) as (_ & _ & -> & _). do 2 f_equal. unfold aligned in Hal.
    rewrite <- Zplus_mod_idemp_l, Hal, Z.add_0_l. apply Z.mod_small. unfold PGSIZE in *. lia.
  - unfold vpn, aligned, PGSIZE in *. pose proof (Z.div_mod va 4096 ltac:(done)). symmetry. apply (Z.div_unique _ _ _ x); lia.
Qed.

Lemma page_mapped_frame tf m m' root va pa perm :
  page_mapped tf m root va pa perm -> same_outside m m' tf sizeof_trapframe -> page_mapped tf m' root va pa perm.
Proof.
  intros M Hs. split; [apply M|apply M|by eapply sv39_frame|]. pose proof (pm_sep _ _ _ _ _ _ M) as H. unfold pte_addrs in *.
  pose proof H as [H2 [H1 [H0 _]%Forall_cons]%Forall_cons]%Forall_cons.
  assert (forall p, p + 8 <= tf \/ tf + sizeof_trapframe <= p -> load64 m' p = load64 m p) as E.
  { intros p Hp. apply load64_agree. intros y Hy. apply Hs. lia. }
  by rewrite (E _ H2), (E _ H1).
Qed.

(** C4: a trap from user space and the return from it.  [uservec] saves the 31
    registers in the process's trap frame through the user page table, installs
    the kernel's page table, stack pointer and hart id from the trap frame and
    enters [usertrap]; it changes no other memory.  When [usertrap] has
    returned the user [satp], [userret] gives back every register as the trap
    found it, except that [a0] is what the trap frame then says, the way a
    system call returns its result.  The code keeps being fetched from the
    trampoline across both switches of the page table. *)
Theorem trap_roundtrip uroot kroot tf tramp link h :
  page_mapped tf (h_mem h) uroot TRAMPOLINE tramp (Z.lor PTE_R PTE_X) ->
  page_mapped tf (h_mem h) uroot TRAPFRAME tf (Z.lor PTE_R PTE_W) ->
  page_mapped tf (h_mem h) kroot TRAMPOLINE tramp (Z.lor PTE_R PTE_X) ->
  h_csrs h satp = MAKE_SATP uroot -> load64 (h_mem h) (tf + tf_kernel_satp) = MAKE_SATP kroot ->
  (forall r, 0 <= h_regs h r < 2 ^ 64) ->
  exists h1, run TRAMPOLINE tramp (uservec link) h = Some h1 /\ entered tf link h h1 /\
    forall h2, h_regs h2 a0 = MAKE_SATP uroot -> h_csrs h2 satp = MAKE_SATP kroot ->
      page_mapped tf (h_mem h2) uroot TRAMPOLINE tramp (Z.lor PTE_R PTE_X) ->
      page_mapped tf (h_mem h2) uroot TRAPFRAME tf (Z.lor PTE_R PTE_W) ->
      page_mapped tf (h_mem h2) kroot TRAMPOLINE tramp (Z.lor PTE_R PTE_X) ->
      (forall r, r <> a0 -> load64 (h_mem h2) (tf + tf_off r) = load64 (h_mem h1) (tf + tf_off r)) ->
      exists h3, run TRAMPOLINE tramp userret h2 = Some h3 /\
        (forall r, r <> a0 -> h_regs h3 r = h_regs h r) /\ h_regs h3 a0 = load64 (h_mem h2) (tf + tf_a0) /\
        h_csrs h3 satp = MAKE_SATP uroot /\ h_pc h3 = h_csrs h2 sepc /\ h_mem h3 = h_mem h2.
Proof.
  intros Mu Mt Mk Eu Ek Hr.
  assert (forall m root, page_mapped tf m root TRAMPOLINE tramp (Z.lor PTE_R PTE_X) -> code_mapped m (MAKE_SATP root) TRAMPOLINE tramp tf sizeof_trapframe) as HC.
  { intros m root M m' Hm. replace TRAMPOLINE with (TRAMPOLINE + 0) by done. replace tramp with (tramp + 0) by lia. by eapply translate_page. }
  assert (forall m root, page_mapped tf m root TRAPFRAME tf (Z.lor PTE_R PTE_W) -> area_mapped m (MAKE_SATP root) TRAPFRAME tf sizeof_trapframe) as HA.
  { intros m root M m' Hm x need ? ? Hneed. unfold sizeof_trapframe in *. eapply translate_page; [done..|unfold PGSIZE; lia|done| | |done]; by destruct Hneed as [->| ->]. }
  destruct (uservec_spec tf tramp link h) as (h1 & E1 & En); [rewrite Eu; by apply HA|rewrite Eu; by apply HC|rewrite Ek; by apply HC|done|].
  exists h1. split_and!; [done|done|]. intros h2 Ea Es Mu2 Mt2 Mk2 Hsame.
  destruct (userret_spec tf tramp h2) as (h3 & E3 & Hregs & Hs & Hpc & Hm); [rewrite Es; by apply HC|rewrite Ea; by apply HC|rewrite Ea; by apply HA|].
  exists h3. split_and!; [done| |by rewrite Hregs|congruence|done|done]. intros r Hne. rewrite Hregs, Hsame by done. apply (en_regs _ _ _ _ En).
Qed.

(** A process with its page table, trap frame and the kernel's page table in
    memory, and a system call that returns 5. *)
Module TrapDemo.
Definition uroot := 0x80100000.
Definition kroot := 0x80103000.
Definition tf := 0x80106000.
Definition tramp := 0x80007000.
Definition link := TRAMPOLINE + 0x9c.
Definition table (root p1 p0 : Z) (m : mem) : mem :=
  store64 (root + 8 * 255) (mkpte p1 0) (store64 (p1 + 8 * 511) (mkpte p0 0)
    (store64 (p0 + 8 * 511) (mkpte tramp (Z.lor PTE_R PTE_X)) m)).
Definition m0 : mem :=
  store64 (0x80102000 + 8 * 510) (mkpte tf (Z.lor PTE_R PTE_W))
    (table uroot 0x80101000 0x80102000 (table kroot 0x80104000 0x80105000
      (store64 (tf + tf_kernel_satp) (MAKE_SATP kroot) (store64 (tf + tf_kernel_trap) 0x80002000 ∅)))).
Definition h : hart := mkHart (fun r => 1000 * tf_off r) (fun c => match c with satp => MAKE_SATP uroot | _ => 0 end) 0 m0.
(** As [usertrap] returns to the trampoline. *)
Definition back (h1 : hart) : hart :=
  mkHart (fun r => match r with a0 => MAKE_SATP uroot | _ => 77 end)
    (fun c => match c with satp => MAKE_SATP kroot | sepc => 0x1004 | _ => 0 end) link (store64 (tf + tf_a0) 5 (h_mem h1)).
End TrapDemo.

Lemma trap_roundtrip_witness :
  exists h1 h3, run TRAMPOLINE TrapDemo.tramp (uservec TrapDemo.link) TrapDemo.h = Some h1 /\ h_pc h1 = 0x80002000 /\
    run TRAMPOLINE TrapDemo.tramp userret (TrapDemo.back h1) = Some h3 /\
    h_regs h3 s1 = 104000 /\ h_regs h3 a0 = 5 /\ h_pc h3 = 0x1004.
Proof.
  assert (page_mapped TrapDemo.tf TrapDemo.m0 TrapDemo.uroot TRAMPOLINE TrapDemo.tramp (Z.lor PTE_R PTE_X)) as Mu by (split; [by split|by split|by vm_compute|by_eval]).
  assert (page_mapped TrapDemo.tf TrapDemo.m0 TrapDemo.uroot TRAPFRAME TrapDemo.tf (Z.lor PTE_R PTE_W)) as Mt by (split; [by split|by split|by vm_compute|by_eval]).
  assert (page_mapped TrapDemo.tf TrapDemo.m0 TrapDemo.kroot TRAMPOLINE TrapDemo.tramp (Z.lor PTE_R PTE_X)) as Mk by (split; [by split|by split|by vm_compute|by_eval]).
  destruct (trap_roundtrip TrapDemo.uroot TrapDemo.kroot TrapDemo.tf TrapDemo.tramp TrapDemo.link TrapDemo.h Mu Mt Mk eq_refl) as (h1 & E1 & En & Hret);
    [by vm_compute|intros r; cbn; destruct r; cbn; lia|].
  assert (same_outside TrapDemo.m0 (h_mem (TrapDemo.back h1)) TrapDemo.tf sizeof_trapframe) as S2.
  { eapply same_outside_trans; [exact (en_mem _ _ _ _ En)|]. apply same_outside_store; by vm_compute. }
  destruct (Hret (TrapDemo.back h1)) as (h3 & E3 & Hregs & Ha & _ & Hpc & _); [reflexivity|reflexivity|exact (page_mapped_frame _ _ _ _ _ _ _ Mu S2)|exact (page_mapped_frame _ _ _ _ _ _ _ Mt S2)|exact (page_mapped_frame _ _ _ _ _ _ _ Mk S2)| |].
  { intros r Hne. cbn [TrapDemo.back h_mem]. apply load64_agree, agree_store64. pose proof (tf_off_apart r Hne) as Ha. clear -Ha. lia. }
  exists h1, h3. split; [exact E1|]. split; [rewrite (en_pc _ _ _ _ En); vm_compute; reflexivity|].
  split; [exact E3|]. split; [rewrite Hregs by discriminate; reflexivity|]. split; [rewrite Ha; apply load_store64|rewrite Hpc; reflexivity].
Defined.

(** ** Context switches *)

(** [struct context]. *)
Definition ctx_slots : list (reg * Z) :=
  [(ra, 0); (sp, 8); (s0, 16); (s1, 24); (s2, 32); (s3, 40); (s4, 48); (s5, 56); (s6, 64); (s7, 72); (s8, 80); (s9, 88); (s10, 96); (s11, 104)].
Definition ctx_size : Z := 112.
Lemma ctx_slots_ok : offsets_ok ctx_size ctx_slots.
Proof. by_eval. Qed.

(** The kernel's page table maps the code and both contexts, whatever is
    stored in the context being saved. *)
Record switchable (vpage ppage old new : Z) (h : hart) : Prop := {
  sw_a0 : h_regs h a0 = old;
  sw_a1 : h_regs h a1 = new;
  sw_old : 0 <= old /\ old + ctx_size <= 2 ^ 64;
  sw_new : 0 <= new /\ new + ctx_size <= 2 ^ 64;
  sw_apart : old + ctx_size <= new \/ new + ctx_size <= old;
  sw_area : area_mapped (h_mem h) (h_csrs h satp) old old ctx_size;
  sw_code : code_mapped (h_mem h) (h_csrs h satp) vpage ppage old ctx_size;
  sw_area' : forall m, same_outside (h_mem h) m old ctx_size -> area_mapped m (h_csrs h satp) new new ctx_size;
  sw_code' : forall m, same_outside (h_mem h) m old ctx_size -> code_mapped m (h_csrs h satp) vpage ppage new ctx_size
}.

Lemma swtch_spec vpage ppage old new h :
  switchable vpage ppage old new h -> (forall r, 0 <= h_regs h r < 2 ^ 64) ->
  exists h', run vpage ppage swtch h = Some h' /\
    (forall r o, (r, o) ∈ ctx_slots -> load64 (h_mem h') (old + o) = h_regs h r) /\
    (forall r o, (r, o) ∈ ctx_slots -> h_regs h' r = load64 (h_mem h) (new + o)) /\
    (forall r, r ∉ ctx_slots.*1 -> h_regs h' r = h_regs h r) /\
    h_pc h' = load64 (h_mem h) new /\ h_csrs h' = h_csrs h /\ same_outside (h_mem h) (h_mem h') old ctx_size.
Proof.
  intros Sw Hr. change swtch with (saves a0 ctx_slots ++ loads a1 ctx_slots ++ [ret]).
  erewrite (run_saves _ _ old ctx_size _ old); [|apply Sw|apply Sw|apply Sw|exact ctx_slots_ok|apply Sw|apply Sw].
  pose proof (saved_outside old (h_regs h) ctx_slots (h_mem h) _ ctx_slots_ok) as S1. set (m1 := saved old (h_regs h) ctx_slots (h_mem h)) in *.
  erewrite (run_loads _ _ new ctx_size _ new); [|apply Sw|apply Sw|apply Sw|exact ctx_slots_ok|by_eval|by eapply (sw_area' _ _ _ _ _ Sw)|by eapply (sw_code' _ _ _ _ _ Sw)].
  cbn [set_mem h_mem h_regs h_csrs h_pc]. assert (forall o, 0 <= o -> o + 8 <= ctx_size -> load64 m1 (new + o) = load64 (h_mem h) (new + o)) as Hnew.
  { intros o ? ?. apply load64_agree. intros x Hx. apply S1. destruct (sw_apart _ _ _ _ _ Sw); lia. }
  assert (forall r o, (r, o) ∈ ctx_slots -> loaded new m1 ctx_slots (h_regs h) r = load64 (h_mem h) (new + o)) as Hl.
  { intros r o Hin. rewrite (loaded_at _ _ _ _ r o) by (done || by_eval). pose proof ctx_slots_ok as Hok. unfold offsets_ok in Hok. rewrite Forall_forall in Hok.
    destruct (Hok _ Hin) as (? & ? & _). by apply Hnew. }
  erewrite run_step; [|by eapply (sw_code' _ _ _ _ _ Sw)|reflexivity]. eexists. split; [reflexivity|]. cbn [set_pc h_regs h_mem h_csrs h_pc]. split_and!; [| |by intros; apply loaded_other| |done|done].
  - intros r o Hin. unfold m1. rewrite (saved_at _ _ _ _ ctx_size r o) by (exact ctx_slots_ok || by_eval || done). by apply u64_small.
  - done.
  - rewrite (Hl ra 0) by by_eval. by rewrite Z.add_0_r.
Qed.

(** C25: a context switch is resumed where it was made.  A thread that calls
    [swtch(&a, &b)] continues, when some CPU later switches to [a], at its
    return address with its stack pointer and callee-saved registers; nothing
    but the context [a] was written by the first switch. *)
Theorem swtch_resumes vpage ppage a b c h h1 :
  switchable vpage ppage a b h -> (forall r, 0 <= h_regs h r < 2 ^ 64) -> (forall r, 0 <= h_regs h1 r < 2 ^ 64) ->
  exists h', run vpage ppage swtch h = Some h' /\ h_pc h' = load64 (h_mem h) b /\ same_outside (h_mem h) (h_mem h') a ctx_size /\
    (switchable vpage ppage c a h1 -> agree (h_mem h') (h_mem h1) a ctx_size ->
     exists h2, run vpage ppage swtch h1 = Some h2 /\ h_pc h2 = h_regs h ra /\
       forall r, r ∈ ctx_slots.*1 -> h_regs h2 r = h_regs h r).
Proof.
  intros Sw Hr Hr1. destruct (swtch_spec _ _ _ _ _ Sw Hr) as (h' & E & Hs & _ & _ & Hpc & _ & Hm). exists h'. split_and!; [done..|].
  intros Sw1 Hag. destruct (swtch_spec _ _ _ _ _ Sw1 Hr1) as (h2 & E2 & _ & Hl & _ & Hpc2 & _).
  assert (forall r o, (r, o) ∈ ctx_slots -> load64 (h_mem h1) (a + o) = h_regs h r) as Hk.
  { intros r o Hin. pose proof ctx_slots_ok as Hok. unfold offsets_ok in Hok. rewrite Forall_forall in Hok. destruct (Hok _ Hin) as (? & ? & _). cbn [snd] in *.
    rewrite (load64_agree (h_mem h')); [by apply Hs|]. eapply agree_sub; [exact Hag|lia|lia]. }
  exists h2. split_and!; [done| |].
  - rewrite Hpc2. replace a with (a + 0) by lia. apply Hk. by_eval.
  - intros r ([r' o] & -> & Hin)%list_elem_of_fmap. cbn [fst]. rewrite (Hl _ _ Hin). by apply Hk.
Qed.

(** ** Interrupts in the kernel *)

(** The frame [kernelvec] pushes. *)
Definition kv_slots : list (reg * Z) :=
  [(ra, 0); (gp, 16); (tp, 24); (t0, 32); (t1, 40); (t2, 48); (a0, 72); (a1, 80); (a2, 88); (a3, 96); (a4, 104); (a5, 112); (a6, 120); (a7, 128);
   (t3, 216); (t4, 224); (t5, 232); (t6, 240)].
(** The registers it takes from there; [tp] stays. *)
Definition kv_restored : list (reg * Z) := filter (fun x => x.1 <> tp) kv_slots.
Definition frame_size : Z := 256.
Lemma kv_slots_ok : offsets_ok frame_size kv_slots.
Proof. by_eval. Qed.
Lemma kv_restored_ok : offsets_ok frame_size kv_restored.
Proof. by_eval. Qed.

(** The registers a C function preserves. *)
Definition callee_saved : list reg := [sp; s0; s1; s2; s3; s4; s5; s6; s7; s8; s9; s10; s11].

Lemma kv_cases r : r = tp \/ r ∈ callee_saved \/ exists o, (r, o) ∈ kv_restored.
Proof.
  destruct (decide (r = tp)) as [|Hne]; [by left|right]. destruct (decide (r ∈ callee_saved)) as [|Hc]; [by left|right].
  assert (r ∈ kv_restored.*1) as ([r' o] & -> & Hin)%list_elem_of_fmap; [|by exists o].
  destruct r; try done; first [by_eval|exfalso; apply Hc; by_eval].
Qed.

(** C26: an interrupt in the kernel is invisible to the code it interrupts.
    [kernelvec] saves the caller-saved registers below the stack pointer and
    calls [kerneltrap]; if that returns like a C function, with the frame
    intact, then [kernelvec] returns to the interrupted instruction with every
    register as it was, except [tp]: the hart may be another one. *)
Theorem kernelvec_transparent vpage ppage kerneltrap next h h2 :
  let top := h_regs h sp in
  frame_size <= top -> (forall r, 0 <= h_regs h r < 2 ^ 64) ->
  area_mapped (h_mem h) (h_csrs h satp) (top - frame_size) (top - frame_size) frame_size ->
  code_mapped (h_mem h) (h_csrs h satp) vpage ppage (top - frame_size) frame_size ->
  exists h1, run vpage ppage (kernelvec kerneltrap next) h = Some h1 /\ h_pc h1 = kerneltrap /\ h_regs h1 ra = next /\
    same_outside (h_mem h) (h_mem h1) (top - frame_size) frame_size /\
    ((forall r, r ∈ callee_saved -> h_regs h2 r = h_regs h1 r) -> agree (h_mem h1) (h_mem h2) (top - frame_size) frame_size ->
     area_mapped (h_mem h2) (h_csrs h2 satp) (top - frame_size) (top - frame_size) frame_size ->
     code_mapped (h_mem h2) (h_csrs h2 satp) vpage ppage (top - frame_size) frame_size ->
     exists h3, run vpage ppage kernelvec_ret h2 = Some h3 /\ h_pc h3 = h_csrs h2 sepc /\ h_mem h3 = h_mem h2 /\
       h_regs h3 tp = h_regs h2 tp /\ forall r, r <> tp -> h_regs h3 r = h_regs h r).
Proof.
  intros top Htop Hr A C. pose proof (Hr sp) as Hsp. fold top in Hsp. unfold frame_size in Htop.
  change (kernelvec kerneltrap next) with (addi sp sp (-256) :: saves sp kv_slots ++ [call kerneltrap next]).
  erewrite run_step; [|exact C|reflexivity]. set (f := upd sp (u64 (h_regs h sp + -256)) (h_regs h)).
  assert (f sp = top - frame_size) as Hf by (unfold f, frame_size; rewrite reg_upd_eq; fold top; rewrite u64_small; lia).
  erewrite (run_saves _ _ (top - frame_size) frame_size _ (top - frame_size)); [|exact Hf|unfold frame_size; lia|unfold frame_size; lia|exact kv_slots_ok|exact A|exact C].
  pose proof (saved_outside (top - frame_size) f kv_slots (h_mem h) _ kv_slots_ok) as S1. cbn [set_mem set_reg h_regs h_mem h_csrs]. fold f.
  set (m1 := saved (top - frame_size) f kv_slots (h_mem h)) in *.
  erewrite run_step; [|by eapply code_mapped_mono; [exact S1|exact C]|reflexivity]. eexists. split; [reflexivity|]. cbn [set_pc set_mem set_reg h_regs h_mem h_csrs h_pc].
  split_and!; [done|by rewrite reg_upd_eq|done|]. intros Hcs Hag A2 C2.
  assert (h_regs h2 sp = top - frame_size) as Hsp2 by (rewrite Hcs by by_eval; rewrite reg_upd_ne by done; exact Hf).
  change kernelvec_ret with (loads sp kv_restored ++ [addi sp sp 256; sret]).
  erewrite (run_loads _ _ (top - frame_size) frame_size _ (top - frame_size)); [|exact Hsp2|unfold frame_size; lia|unfold frame_size; lia|exact kv_restored_ok|by_eval|exact A2|exact C2].
  erewrite run_step; [|exact C2|reflexivity]. erewrite run_step; [|exact C2|reflexivity]. eexists. split; [reflexivity|].
  cbn [set_pc set_mem set_reg h_regs h_mem h_csrs h_pc]. split_and!; [done|done|rewrite reg_upd_ne, loaded_other by (done || by_eval); done|].
  intros r Hne. destruct (decide (r = sp)) as [->|Hs].
  { rewrite reg_upd_eq, loaded_other, Hsp2 by by_eval. unfold frame_size. rewrite u64_small by lia. fold top. lia. }
  rewrite reg_upd_ne by done. destruct (kv_cases r) as [?|[Hc|(o & Hin)]]; [done| |].
  - rewrite loaded_other; [|intros Hx; revert Hc Hx; clear; intros Hc Hx; destruct r; revert Hc Hx; by_eval].
    rewrite Hcs by done. rewrite reg_upd_ne; [|by intros ->; revert Hc; clear; by_eval]. unfold f. by rewrite reg_upd_ne.
  - rewrite (loaded_at _ _ _ _ r o) by (done || by_eval). pose proof kv_restored_ok as Hok. unfold offsets_ok in Hok. rewrite Forall_forall in Hok.
    destruct (Hok _ Hin) as (? & ? & _). cbn [snd] in *. rewrite (load64_agree m1) by (eapply agree_sub; [exact Hag|lia|lia]).
    apply list_elem_of_filter in Hin as [_ Hin]. unfold m1. rewrite (saved_at _ _ _ _ frame_size r o) by (exact kv_slots_ok || by_eval || done).
    unfold f. rewrite reg_upd_ne by done. by apply u64_small.
Qed.

(** ** Boot *)

(** [_entry] gives each hart its own 4096 bytes of [stack0]. *)
Lemma entry_spec vpage stack0 start next h :
  h_csrs h satp = 0 -> 0 <= h_csrs h mhartid -> 0 <= stack0 -> stack0 + (h_csrs h mhartid + 1) * 4096 < 2 ^ 64 ->
  exists h', run vpage vpage (entry stack0 start next) h = Some h' /\ h_pc h' = start /\
    h_regs h' sp = stack0 + (h_csrs h mhartid + 1) * 4096 /\ h_mem h' = h_mem h.
Proof.
  intros Hs Hh H0 Hmax. assert (forall m, code_mapped m (h_csrs h satp) vpage vpage 0 0) as C by (intros m m' _; unfold translate; by rewrite Hs).
  unfold entry. do 7 (erewrite run_step; [|apply C|reflexivity]). eexists. split; [reflexivity|]. cbn [set_pc set_reg h_regs h_csrs h_pc h_mem]. split_and!; [done| |done].
  rewrite (reg_upd_ne ra) by done. rewrite reg_upd_eq. repeat (rewrite reg_upd_eq || rewrite reg_upd_ne by done). rewrite (u64_small stack0), (u64_small (1024 * 4)), (u64_small (h_csrs h mhartid + 1)) by lia. rewrite (u64_small (1024 * 4 * _)), u64_small by lia. lia.
Qed.

(** ** Examples, before paging is on *)

Lemma bare_area m va n : area_mapped m 0 va va n.
Proof. by intros m' _ x need _ _ _. Qed.
Lemma bare_code m vp pa n : code_mapped m 0 vp vp pa n.
Proof. by intros m' _. Qed.

Module SwitchDemo.
Definition h : hart := mkHart (fun r => match r with a0 => 0x1000 | a1 => 0x2000 | _ => 9 * tf_off r end) (fun _ => 0) 0 ∅.
Definition h1 : hart :=
  mkHart (fun r => match r with a0 => 0x2000 | a1 => 0x1000 | _ => 0 end) (fun _ => 0) 0 (default ∅ (h_mem <$> run 0 0 swtch h)).
End SwitchDemo.

Lemma swtch_resumes_witness :
  exists h2, run 0 0 swtch SwitchDemo.h1 = Some h2 /\ h_pc h2 = 360 /\ h_regs h2 s3 = 9 * 184.
Proof.
  destruct (swtch_resumes 0 0 0x1000 0x2000 0x2000 SwitchDemo.h SwitchDemo.h1) as (h' & E & _ & _ & H).
  { split; [done..|unfold ctx_size; lia|unfold ctx_size; lia|unfold ctx_size; lia|apply bare_area|apply bare_code|intros; apply bare_area|intros; apply bare_code]. }
  { intros r. destruct r; cbn; lia. }
  { intros r. destruct r; cbn; lia. }
  destruct H as (h2 & E2 & Hpc & Hr).
  { split; [done..|unfold ctx_size; lia|unfold ctx_size; lia|unfold ctx_size; lia|apply bare_area|apply bare_code|intros; apply bare_area|intros; apply bare_code]. }
  { unfold SwitchDemo.h1. cbn [h_mem]. rewrite E. apply agree_refl. }
  exists h2. split; [exact E2|]. split; [rewrite Hpc; reflexivity|]. rewrite Hr by by_eval. reflexivity.
Defined.

Module VecDemo.
Definition h : hart := mkHart (fun r => 4096 + tf_off r) (fun _ => 0) 0 ∅.
Definition h2 : hart :=
  mkHart (fun r => match r with tp => 3 | _ => if decide (r ∈ callee_saved) then (if decide (r = sp) then 4096 + 48 - 256 else 4096 + tf_off r) else 0 end)
    (fun c => match c with sepc => 1234 | _ => 0 end) 0 (default ∅ (h_mem <$> run 0 0 (kernelvec 77 88) h)).
End VecDemo.

Lemma kernelvec_transparent_witness :
  exists h3, run 0 0 kernelvec_ret VecDemo.h2 = Some h3 /\ h_pc h3 = 1234 /\ h_regs h3 t5 = 4096 + 272 /\ h_regs h3 tp = 3.
Proof.
  destruct (kernelvec_transparent 0 0 77 88 VecDemo.h VecDemo.h2) as (h1 & E & _ & _ & _ & H).
  { unfold frame_size. cbn. lia. }
  { intros r. destruct r; cbn; lia. }
  { apply bare_area. }
  { apply bare_code. }
  destruct H as (h3 & E3 & Hpc & _ & Htp & Hr).
  { intros r Hc. assert (h_regs <$> run 0 0 (kernelvec 77 88) VecDemo.h = Some (h_regs h1)) as Er by by rewrite E. revert Er. vm_compute (h_regs <$> _).
    intros [= <-]. revert Hc. destruct r; by_eval. }
  { unfold VecDemo.h2. cbn [h_mem]. rewrite E. apply agree_refl. }
  { apply bare_area. }
  { apply bare_code. }
  exists h3. split; [exact E3|]. split; [rewrite Hpc; reflexivity|]. split; [rewrite Hr by discriminate; reflexivity|rewrite Htp; reflexivity].
Defined.
