(* ===== verification/Proc.v ===== *)
(** * Processes: the table, scheduling, sleep and wakeup, user memory
    (kernel/proc.c)

    A thread that calls [sched] leaves the CPU: the routine ends in [Block]
    with the process table as the switch leaves it.  What the thread does
    when the scheduler has picked it again is a definition of its own
    ([sched_return], [sleep_return], [yield_return]).  *)

From Stdlib Require Import String.
From S2P Require Import Prelude Param Spinlock Sleeplock Str Fs Mem Kalloc Vm Kernel.

(** The indices [p - proc] of the loops over the process table. *)
Definition all_procs : list nat := seq 0 NPROC.

Definition procinit : M kernel unit :=
  modify (set_pidlock initlock) ;;
  modify (set_waitlock initlock) ;;
  for_each all_procs (fun i =>
    updp i (set_plock initlock) ;;
    updp i (set_pstate UNUSED) ;;
    updp i (set_pkstack (KSTACK (Z.of_nat i)))).

Definition cpuid : M kernel Z := gets (fun k => e_cpu (lget env_of k)).

Definition myproc : M kernel (option nat) :=
  in_env push_off ;;
  p <- gets k_cur ;;
  in_env pop_off ;;
  ret p.

(** [myproc()] where the code goes on to use the pointer. *)
Definition myproc_ptr : M kernel nat := p <- myproc ;; match p with Some i => ret i | None => panic "null proc" end.

Definition allocpid : M kernel Z :=
  with_env pidlock_l acquire ;;
  pid <- gets nextpid ;;
  modify (set_nextpid (s32 (pid + 1))) ;;
  with_env pidlock_l release ;;
  ret pid.

(** ** Page tables of processes *)

Definition proc_pagetable (i : nat) : M kernel Z :=
  pagetable <- kmm uvmcreate ;;
  if pagetable =? 0 then ret 0 else
  tr <- gets (fun k => ld_trampoline (km_syms (k_kmem k))) ;;
  r <- kmm (mappages pagetable TRAMPOLINE PGSIZE tr (Z.lor PTE_R PTE_X)) ;;
  if r <? 0 then kmm (uvmfree pagetable 0) ;; ret 0 else
  p <- getp i ;;
  r <- kmm (mappages pagetable TRAPFRAME PGSIZE (p_trapframe p) (Z.lor PTE_R PTE_W)) ;;
  if r <? 0 then
    kmm (uvmunmap pagetable TRAMPOLINE 1 false) ;;
    kmm (uvmfree pagetable 0) ;;
    ret 0
  else ret pagetable.

Definition proc_freepagetable (pagetable sz : Z) : M kernel unit :=
  kmm (uvmunmap pagetable TRAMPOLINE 1 false) ;;
  kmm (uvmunmap pagetable TRAPFRAME 1 false) ;;
  kmm (uvmfree pagetable sz).

(** ** Allocation *)

Definition freeproc (i : nat) : M kernel unit :=
  p <- getp i ;;
  (when (negb (p_trapframe p =? 0)) do kmm (kfree (p_trapframe p))) ;;
  updp i (set_ptrapframe 0) ;;
  (when (negb (p_pagetable p =? 0)) do proc_freepagetable (p_pagetable p) (p_sz p)) ;;
  updp i (set_ppagetable 0) ;;
  updp i (set_psz 0) ;;
  updp i (set_ppid 0) ;;
  updp i (set_pparent None) ;;
  updp i (fun p => set_pname (<[0%nat := 0]> (p_name p)) p) ;;
  updp i (set_pchan None) ;;
  updp i (set_pkilled false) ;;
  updp i (set_pxstate 0) ;;
  updp i (set_pstate UNUSED).

(** The search of [allocproc]: the lock of the process found is kept. *)
Definition find_unused_proc : M kernel (option nat) :=
  for_find all_procs (fun i =>
    with_env (proc_lock i) acquire ;;
    p <- getp i ;;
    if bool_decide (p_state p = UNUSED) then ret (Some i)
    else with_env (proc_lock i) release ;; ret None).

Definition allocproc : M kernel (option nat) :=
  f <- find_unused_proc ;;
  match f with
  | None => ret None
  | Some i =>
      pid <- allocpid ;;
      updp i (set_ppid pid) ;;
      updp i (set_pstate USED) ;;
      tf <- kmm kalloc ;;
      updp i (set_ptrapframe tf) ;;
      if tf =? 0 then freeproc i ;; with_env (proc_lock i) release ;; ret None else
      pt <- proc_pagetable i ;;
      updp i (set_ppagetable pt) ;;
      if pt =? 0 then freeproc i ;; with_env (proc_lock i) release ;; ret None else
      ra <- gets (fun k => t_forkret (k_text k)) ;;
      p <- getp i ;;
      updp i (set_pcontext (mkContext ra (p_kstack p + PGSIZE) (replicate 12 0))) ;;
      ret (Some i)
  end.

Definition userinit : M kernel unit :=
  p <- allocproc ;;
  modify (set_initproc p) ;;
  match p with
  | None => panic "null proc"
  | Some i =>
      (* an absolute path: the working directory is not looked at *)
      d <- kfs (namei 0 [slash]) ;;
      updp i (set_pcwd d) ;;
      updp i (set_pstate RUNNABLE) ;;
      with_env (proc_lock i) release
  end.

Definition growproc (n : Z) : M kernel Z :=
  i <- myproc_ptr ;;
  p <- getp i ;;
  let sz := p_sz p in
  if 0 <? n then
    sz' <- kmm (uvmalloc (p_pagetable p) sz (u64 (sz + n)) PTE_W) ;;
    if sz' =? 0 then ret (-1) else
    updp i (set_psz sz') ;; ret 0
  else if n <? 0 then
    sz' <- kmm (uvmdealloc (p_pagetable p) sz (u64 (sz + n))) ;;
    updp i (set_psz sz') ;; ret 0
  else updp i (set_psz sz) ;; ret 0.

(** ** Giving up the CPU *)

Definition sched : M kernel unit :=
  i <- myproc_ptr ;;
  h <- with_env (proc_lock i) holding ;;
  if negb h then panic "sched p->lock" else
  n <- gets (fun k => e_noff (lget env_of k)) ;;
  if negb (n =? 1) then panic "sched locks" else
  p <- getp i ;;
  if bool_decide (p_state p = RUNNING) then panic "sched RUNNING" else
  on <- in_env intr_get ;;
  if on : bool then panic "sched interruptible" else
  (* swtch(&p->context, &mycpu()->context) *)
  block_on ("sched", Z.of_nat i).

(** [intena] is a local variable of [sched]. *)
Definition sched_return (intena : bool) : M kernel unit := in_env (modify (set_intena intena)).

Definition yield : M kernel unit :=
  i <- myproc_ptr ;;
  with_env (proc_lock i) acquire ;;
  updp i (set_pstate RUNNABLE) ;;
  sched.
Definition yield_return (intena : bool) (i : nat) : M kernel unit :=
  sched_return intena ;;
  with_env (proc_lock i) release.

(** [sleep(chan, lk)], the lock given by its place in the kernel's state. *)
Definition sleep (c : chan) (lk : lens kernel spinlock) : M kernel unit :=
  i <- myproc_ptr ;;
  with_env (proc_lock i) acquire ;;
  with_env lk release ;;
  updp i (set_pchan (Some c)) ;;
  updp i (set_pstate SLEEPING) ;;
  sched.
Definition sleep_return (intena : bool) (i : nat) (lk : lens kernel spinlock) : M kernel unit :=
  sched_return intena ;;
  updp i (set_pchan None) ;;
  with_env (proc_lock i) release ;;
  with_env lk acquire.

Definition wakeup (c : chan) : M kernel unit :=
  for_each all_procs (fun i =>
    me <- myproc ;;
    when (negb (bool_decide (me = Some i))) do
      (with_env (proc_lock i) acquire ;;
       p <- getp i ;;
       (when (bool_decide (p_state p = SLEEPING) && bool_decide (p_chan p = Some c)) do
          updp i (set_pstate RUNNABLE)) ;;
       with_env (proc_lock i) release)).

(** ** The scheduler

    One visit to a table entry: [scheduler_visit i] up to the switch to the
    process (the result says whether there is one), [scheduler_back i] when
    the process has switched back. *)

Definition set_current (i : nat) : M kernel unit :=
  p <- getp i ;;
  modify (set_cur (Some i)) ;;
  in_env (modify (fun e => mkKenv (e_cpu e) (e_noff e) (e_intena e) (e_sie e) (p_pid p) (p_killed p) (e_woken e) (e_out e))).

Definition scheduler_visit (i : nat) : M kernel bool :=
  with_env (proc_lock i) acquire ;;
  p <- getp i ;;
  if bool_decide (p_state p = RUNNABLE) then
    updp i (set_pstate RUNNING) ;;
    set_current i ;;
    ret true
  else
    with_env (proc_lock i) release ;;
    ret false.
Definition scheduler_back (i : nat) : M kernel unit :=
  modify (set_cur None) ;;
  with_env (proc_lock i) release.

(** One scan of the table from entry [i] on; it stops at the first process
    it switches to. *)
Definition scheduler_scan (l : list nat) : M kernel (option nat) :=
  for_find l (fun i => b <- scheduler_visit i ;; ret (if b : bool then Some i else None)).
Definition scheduler : M kernel (option nat) :=
  modify (set_cur None) ;;
  in_env intr_on ;;
  in_env intr_off ;;
  scheduler_scan all_procs.

(** ** Killing *)

Definition kkill (pid : Z) : M kernel Z :=
  r <- for_find all_procs (fun i =>
    with_env (proc_lock i) acquire ;;
    p <- getp i ;;
    if p_pid p =? pid then
      updp i (set_pkilled true) ;;
      (when (bool_decide (p_state p = SLEEPING)) do updp i (set_pstate RUNNABLE)) ;;
      with_env (proc_lock i) release ;;
      ret (Some 0)
    else
      with_env (proc_lock i) release ;;
      ret None) ;;
  ret (default (-1) r).

Definition setkilled (i : nat) : M kernel unit :=
  with_env (proc_lock i) acquire ;;
  updp i (set_pkilled true) ;;
  with_env (proc_lock i) release.

Definition killed (i : nat) : M kernel bool :=
  with_env (proc_lock i) acquire ;;
  p <- getp i ;;
  with_env (proc_lock i) release ;;
  ret (p_killed p).

(** ** Copies to and from user or kernel addresses *)

Definition either_copyout (user_dst : bool) (dst : Z) (src : list Z) : M kernel Z :=
  i <- myproc_ptr ;;
  p <- getp i ;;
  if user_dst then kmm (copyout (uproc_of p) (p_pagetable p) dst src)
  else kmm (modify (fun s => set_mem (mwrite dst src (km_mem s)) s)) ;; ret 0.

Definition either_copyin (user_src : bool) (src len : Z) : M kernel (Z * list Z) :=
  i <- myproc_ptr ;;
  p <- getp i ;;
  if user_src then kmm (copyin (uproc_of p) (p_pagetable p) src len)
  else bs <- kmm (gets (fun s => mread (km_mem s) src len)) ;; ret (0, bs).
