(* ===== verification/Sched.v ===== *)
(** * Sleep and wakeup under every interleaving (kernel/proc.c)

    Threads share any number of conditions; condition [c] is protected by a
    spinlock and has the channel [c].  A process waits for a condition the way
    every caller of [sleep] does:

      acquire(lk); while(!cond) sleep(chan, lk); ...; release(lk)

    and any thread may make it true:

      acquire(lk); cond = 1; wakeup(chan); release(lk)

    A thread chooses freely, again and again, which condition to wait for or to
    make true, and may look at any process under its lock as [kkill] (which
    wakes a sleeper) and [scheduler] do.  One transition is one lock operation,
    one test or one assignment to shared data; the transitions of [sleep] and
    [wakeup] are the statements of proc.c in their order.  The scheduler's
    acquire, its test for RUNNABLE and the switch are one transition.  *)

From S2P Require Import Prelude Kernel.

Inductive pc :=
| Idle                                   (* holds nothing *)
| SCheck (c : nat)                       (* holds the lock of [c], about to test the condition *)
| SCrit (c : nat)                        (* the condition was true *)
| SPlock (c : nat)                       (* sleep(): acquire(&p->lock) *)
| SRelLk (c : nat)                       (* sleep(): release(lk) *)
| SChan (c : nat)                        (* sleep(): p->chan = chan *)
| SState (c : nat)                       (* sleep(): p->state = SLEEPING *)
| SSwitch (c : nat)                      (* sleep(): sched(); the scheduler releases p->lock *)
| SAsleep (c : nat)                      (* off the CPU *)
| SWake (c : nat)                        (* sleep(), with p->lock from the scheduler: p->chan = 0 *)
| SRelP (c : nat)                        (* sleep(): release(&p->lock) *)
| SReacq (c : nat)                       (* sleep(): acquire(lk) *)
| WSet (c : nat)                         (* holds the lock of [c], about to make the condition true *)
| WLoop (c : nat) (l : list nat)         (* wakeup(): processes still to visit *)
| WLook (c : nat) (p : nat) (l : list nat) (* wakeup(): holds p->lock *)
| WRel (c : nat) (p : nat) (l : list nat)  (* wakeup(): release(&p->lock) *)
| KLook (p : nat)                        (* kkill() or scheduler(): holds p->lock *)
| KRel (p : nat)                         (* kkill() or scheduler(): release(&p->lock) *).

Record state := mkState {
  pcs : nat -> pc;
  st : nat -> procstate;                 (* p->state *)
  chan : nat -> option nat;              (* p->chan, 0 is [None] *)
  lk : nat -> option nat;                (* holder of the lock of condition [c] *)
  plk : nat -> option nat;               (* holder of p->lock *)
  cond : nat -> bool
}.

Definition upd {A} (f : nat -> A) (t : nat) (a : A) : nat -> A := fun t' => if decide (t' = t) then a else f t'.

Definition set_pc t x s := mkState (upd (pcs s) t x) (st s) (chan s) (lk s) (plk s) (cond s).
Definition set_st p x s := mkState (pcs s) (upd (st s) p x) (chan s) (lk s) (plk s) (cond s).
Definition set_chan p x s := mkState (pcs s) (st s) (upd (chan s) p x) (lk s) (plk s) (cond s).
Definition set_lk c x s := mkState (pcs s) (st s) (chan s) (upd (lk s) c x) (plk s) (cond s).
Definition set_plk p x s := mkState (pcs s) (st s) (chan s) (lk s) (upd (plk s) p x) (cond s).
Definition set_cond c x s := mkState (pcs s) (st s) (chan s) (lk s) (plk s) (upd (cond s) c x).

Section sched.
(** The process table. *)
Context (procs : list nat).

Inductive step : state -> state -> Prop :=
| s_lock t c s : pcs s t = Idle -> t ∈ procs -> lk s c = None -> step s (set_pc t (SCheck c) (set_lk c (Some t) s))
| s_go t c s : pcs s t = SCheck c -> cond s c = true -> step s (set_pc t (SCrit c) s)
| s_sleep t c s : pcs s t = SCheck c -> cond s c = false -> step s (set_pc t (SPlock c) s)
| s_crit t c s b : pcs s t = SCrit c -> step s (set_pc t Idle (set_cond c b (set_lk c None s)))
| s_plock t c s : pcs s t = SPlock c -> plk s t = None -> step s (set_pc t (SRelLk c) (set_plk t (Some t) s))
| s_rel t c s : pcs s t = SRelLk c -> step s (set_pc t (SChan c) (set_lk c None s))
| s_chan t c s : pcs s t = SChan c -> step s (set_pc t (SState c) (set_chan t (Some c) s))
| s_state t c s : pcs s t = SState c -> step s (set_pc t (SSwitch c) (set_st t SLEEPING s))
| s_switch t c s : pcs s t = SSwitch c -> step s (set_pc t (SAsleep c) (set_plk t None s))
| s_run t c s : pcs s t = SAsleep c -> plk s t = None -> st s t = RUNNABLE ->
    step s (set_pc t (SWake c) (set_st t RUNNING (set_plk t (Some t) s)))
| s_wake t c s : pcs s t = SWake c -> step s (set_pc t (SRelP c) (set_chan t None s))
| s_relp t c s : pcs s t = SRelP c -> step s (set_pc t (SReacq c) (set_plk t None s))
| s_reacq t c s : pcs s t = SReacq c -> lk s c = None -> step s (set_pc t (SCheck c) (set_lk c (Some t) s))
| w_lock t c s : pcs s t = Idle -> lk s c = None -> step s (set_pc t (WSet c) (set_lk c (Some t) s))
| w_set t c s : pcs s t = WSet c -> step s (set_pc t (WLoop c procs) (set_cond c true s))
| w_self t c s l : pcs s t = WLoop c (t :: l) -> step s (set_pc t (WLoop c l) s)
| w_acq t c s p l : pcs s t = WLoop c (p :: l) -> p <> t -> plk s p = None ->
    step s (set_pc t (WLook c p l) (set_plk p (Some t) s))
| w_look t c s p l : pcs s t = WLook c p l ->
    step s (set_pc t (WRel c p l) (if decide (st s p = SLEEPING /\ chan s p = Some c) then set_st p RUNNABLE s else s))
| w_rel t c s p l : pcs s t = WRel c p l -> step s (set_pc t (WLoop c l) (set_plk p None s))
| k_acq t p s : pcs s t = Idle -> plk s p = None -> step s (set_pc t (KLook p) (set_plk p (Some t) s))
| k_kill t p s : pcs s t = KLook p -> step s (set_pc t (KRel p) (if decide (st s p = SLEEPING) then set_st p RUNNABLE s else s))
| k_skip t p s : pcs s t = KLook p -> step s (set_pc t (KRel p) s)
| k_rel t p s : pcs s t = KRel p -> step s (set_pc t Idle (set_plk p None s))
| w_done t c s : pcs s t = WLoop c [] -> step s (set_pc t Idle (set_lk c None s)).

(** Everybody is idle. *)
Definition init (s : state) : Prop :=
  (forall t, pcs s t = Idle) /\ (forall t, st s t = RUNNING) /\ (forall c, lk s c = None) /\ (forall p, plk s p = None).

(** ** Invariant *)

(** The condition whose lock a thread holds, and the process. *)
Definition lk_of (x : pc) : option nat :=
  match x with SCheck c | SCrit c | SPlock c | SRelLk c | WSet c | WLoop c _ | WLook c _ _ | WRel c _ _ => Some c | _ => None end.
Definition plk_of (t : nat) (x : pc) : option nat :=
  match x with
  | SRelLk _ | SChan _ | SState _ | SSwitch _ | SWake _ | SRelP _ => Some t
  | WLook _ p _ | WRel _ p _ | KLook p | KRel p => Some p
  | _ => None
  end.
(** The condition a thread waits for. *)
Definition waits (x : pc) : option nat :=
  match x with
  | SCheck c | SCrit c | SPlock c | SRelLk c | SChan c | SState c | SSwitch c | SAsleep c | SWake c | SRelP c | SReacq c => Some c
  | _ => None
  end.
(** The waker still has to visit [p] for condition [c]. *)
Definition will_visit (c p : nat) (x : pc) : Prop :=
  match x with
  | WLoop c' l | WRel c' _ l => c' = c /\ p ∈ l
  | WLook c' q l => c' = c /\ (p = q \/ p ∈ l)
  | _ => False
  end.
(** What [p->state] and [p->chan] are at each place. *)
Definition proc_ok (x : pc) (b : procstate) (ch : option nat) : Prop :=
  match x with
  | SState c => b = RUNNING /\ ch = Some c
  | SSwitch c => b = SLEEPING /\ ch = Some c
  | SAsleep c => (b = SLEEPING \/ b = RUNNABLE) /\ ch = Some c
  | _ => b = RUNNING
  end.
(** About to be asleep on [c] with the lock of [c] given up, or asleep. *)
Definition sleeping (c : nat) (x : pc) (b : procstate) : Prop :=
  match x with
  | SChan c' | SState c' | SSwitch c' => c' = c
  | SAsleep c' => c' = c /\ b = SLEEPING
  | _ => False
  end.

Record inv (s : state) : Prop := {
  i_lk : forall t c, lk_of (pcs s t) = Some c <-> lk s c = Some t;
  i_plk : forall t p, plk_of t (pcs s t) = Some p <-> plk s p = Some t;
  i_role : forall t c, waits (pcs s t) = Some c -> t ∈ procs;
  i_proc : forall p, proc_ok (pcs s p) (st s p) (chan s p);
  i_cond : forall p c, pcs s p = SPlock c \/ pcs s p = SRelLk c -> cond s c = false;
  i_crit : forall p c, pcs s p = SCrit c -> cond s c = true;
  i_pending : forall p c, cond s c = true -> sleeping c (pcs s p) (st s p) -> exists w, will_visit c p (pcs s w)
}.

Lemma upd_at {A} (f : nat -> A) t a : upd f t a t = a.
Proof. unfold upd. by rewrite decide_True. Qed.
Lemma upd_off {A} (f : nat -> A) t t' a : t' <> t -> upd f t a t' = f t'.
Proof. intros. unfold upd. by rewrite decide_False. Qed.

Lemma sched_inv_init s : init s -> inv s.
Proof.
  intros (Hpc & Hst & Hlk & Hplk). split; intros *; rewrite ?Hpc, ?Hst, ?Hlk, ?Hplk; cbn; naive_solver.
Qed.

(** Case analysis of a step: the fields of the state after it, at every index. *)
Ltac step_cases :=
  repeat match goal with |- context [if decide (?P /\ ?Q) then _ else _] => destruct (decide (P /\ Q)) as [[? ?]|?]
    | H : context [if decide (?P /\ ?Q) then _ else _] |- _ => destruct (decide (P /\ Q)) as [[? ?]|?]
    | |- context [if decide (st ?s ?p = SLEEPING) then _ else _] => destruct (decide (st s p = SLEEPING))
    | H : context [if decide (st ?s ?p = SLEEPING) then _ else _] |- _ => destruct (decide (st s p = SLEEPING)) end;
  cbn [pcs st chan lk plk cond set_pc set_st set_chan set_lk set_plk set_cond] in *; unfold upd in *;
  repeat (case_decide; subst); simplify_eq/=.

Lemma inv_lk_step s s' : inv s -> step s s' -> forall t c, lk_of (pcs s' t) = Some c <-> lk s' c = Some t.
Proof.
  intros I Hs t' c'. pose proof (i_lk s I t' c') as Hold. destruct Hs; pose proof (i_lk s I t) as Hme; rewrite H in Hme; cbn [lk_of] in Hme;
    step_cases; naive_solver.
Qed.

Lemma inv_plk_step s s' : inv s -> step s s' -> forall t p, plk_of t (pcs s' t) = Some p <-> plk s' p = Some t.
Proof.
  intros I Hs t' p'. pose proof (i_plk s I t' p') as Hold. destruct Hs; pose proof (i_plk s I t) as Hme; rewrite H in Hme; cbn [plk_of] in Hme;
    step_cases; naive_solver.
Qed.

Lemma lk_unique s c t t' : inv s -> lk_of (pcs s t) = Some c -> lk_of (pcs s t') = Some c -> t = t'.
Proof. intros I H1 H2. apply (i_lk s I) in H1, H2. congruence. Qed.
Lemma plk_unique s p t t' : inv s -> plk_of t (pcs s t) = Some p -> plk_of t' (pcs s t') = Some p -> t = t'.
Proof. intros I H1 H2. apply (i_plk s I) in H1, H2. congruence. Qed.

Lemma inv_role_step s s' : inv s -> step s s' -> forall t c, waits (pcs s' t) = Some c -> t ∈ procs.
Proof.
  intros I Hs t' c'. pose proof (i_role s I t' c') as Hold. destruct Hs; pose proof (i_role s I t) as Hme; rewrite H in Hme; cbn [waits] in Hme;
    step_cases; naive_solver.
Qed.

(** A process another thread looks at is not on its way to sleep. *)
Lemma looked_at s t p : inv s -> (exists c l, pcs s t = WLook c p l) \/ pcs s t = KLook p -> st s p = SLEEPING -> exists c, pcs s p = SAsleep c.
Proof.
  intros I Ht Hp. pose proof (i_proc s I p) as Ho. destruct (pcs s p) eqn:E; cbn in Ho; try (naive_solver congruence).
  assert (t = p) as -> by (apply (plk_unique s p); [done|destruct Ht as [(? & ? & ->)| ->]; done|by rewrite E]). naive_solver congruence.
Qed.

Lemma inv_proc_step s s' : inv s -> step s s' -> forall p, proc_ok (pcs s' p) (st s' p) (chan s' p).
Proof.
  intros I Hs p'. pose proof (i_proc s I p') as Hold. destruct Hs; pose proof (i_proc s I t) as Hme; rewrite H in Hme; cbn [proc_ok] in Hme.
  all: try (step_cases; naive_solver).
  all: assert (st s p = SLEEPING -> exists c', pcs s p = SAsleep c') as Hl by (apply (looked_at s t p I); eauto); step_cases; try naive_solver.
  all: destruct Hl as [c' E]; [done|]; rewrite E in *; naive_solver.
Qed.

Lemma inv_cond_step s s' : inv s -> step s s' ->
  (forall p c, pcs s' p = SPlock c \/ pcs s' p = SRelLk c -> cond s' c = false) /\ (forall p c, pcs s' p = SCrit c -> cond s' c = true).
Proof.
  intros I Hs.
  assert (forall p c, ((pcs s' p = SPlock c \/ pcs s' p = SRelLk c) -> cond s' c = false) /\ (pcs s' p = SCrit c -> cond s' c = true)) as Hnew;
    [|split; intros p c; apply Hnew].
  intros p' c'. pose proof (i_cond s I p' c') as H1. pose proof (i_crit s I p' c') as H2.
  assert (forall t, lk_of (pcs s t) = Some c' -> lk_of (pcs s p') = Some c' -> p' = t) as Hu by (intros; by apply (lk_unique s c')).
  destruct Hs; specialize (Hu t); pose proof (i_cond s I t c') as Hct; rewrite H in Hu, Hct; cbn [lk_of] in Hu; step_cases.
  all: split; [intros [E|E]|intros E]; try discriminate; simplify_eq; try (by eauto).
  all: exfalso; rewrite E in Hu; cbn in Hu; naive_solver.
Qed.

Lemma sleeping_role s c p : inv s -> sleeping c (pcs s p) (st s p) -> p ∈ procs.
Proof. intros I H. apply (i_role s I p c). destruct (pcs s p); cbn in *; naive_solver. Qed.

(** A visit that is due after a step was due before it, unless the step did it. *)
Lemma inv_pending_step s s' : inv s -> step s s' ->
  forall p c, cond s' c = true -> sleeping c (pcs s' p) (st s' p) -> exists w, will_visit c p (pcs s' w).
Proof.
  intros I Hs p' c' Hc Hp.
  assert (forall t x, pcs s' = upd (pcs s) t x -> cond s c' = true -> sleeping c' (pcs s p') (st s p') ->
    (will_visit c' p' (pcs s t) -> will_visit c' p' x) -> exists w, will_visit c' p' (pcs s' w)) as Hkeep.
  { intros t x -> H1 H2 H3. destruct (i_pending s I p' c' H1 H2) as [w Hw]. exists w.
    destruct (decide (w = t)) as [->|Hne]; [rewrite upd_at; by apply H3|by rewrite upd_off]. }
  destruct Hs; try pose proof (i_crit s I t c H) as Hcr; try pose proof (i_cond s I t c (or_intror H)) as Hco.
  all: try (eapply (Hkeep t); [reflexivity|step_cases; by eauto|revert Hp; step_cases; try rewrite H; cbn; naive_solver|rewrite H; cbn; naive_solver]).
  - destruct (decide (p' = t)) as [->|Hne].
    + cbn in Hp, Hc. rewrite upd_at in Hp. cbn in Hp. congruence.
    + eapply (Hkeep t); [reflexivity|done|cbn in Hp; by rewrite upd_off in Hp|by rewrite H].
  - assert (sleeping c' (pcs s p') (st s p')) as Hp' by (revert Hp; step_cases; naive_solver).
    destruct (decide (c' = c)) as [->|Hne].
    + exists t. cbn. rewrite upd_at. cbn. split; [done|]. by apply (sleeping_role s c p').
    + eapply (Hkeep t); [reflexivity|cbn in Hc; by rewrite upd_off in Hc|done|by rewrite H].
  - assert (p' <> t) as Hne by (intros ->; cbn in Hp; by rewrite upd_at in Hp).
    eapply (Hkeep t); [reflexivity|done|cbn in Hp; by rewrite upd_off in Hp|]. rewrite H. cbn. set_solver.
  - assert (p' <> t) as Hne by (intros ->; cbn in Hp; by rewrite upd_at in Hp).
    eapply (Hkeep t); [reflexivity|done|cbn in Hp; by rewrite upd_off in Hp|]. rewrite H. cbn. set_solver.
  - assert (p' <> t) as Hne by (intros ->; revert Hp; step_cases; done).
    assert (sleeping c' (pcs s p') (st s p')) as Hp' by (revert Hp; step_cases; try done; match goal with |- sleeping _ ?x _ -> _ => destruct x end; cbn; naive_solver).
    apply (Hkeep t (WRel c p l)); [by step_cases|revert Hc; by step_cases|done|]. rewrite H. cbn. intros [-> [->|Hin]]; [|done]. exfalso.
    pose proof (i_proc s I p) as Ho. destruct (decide (st s p = SLEEPING)) as [Hsl|Hsl].
    + destruct (looked_at s t p I) as [d E]; [by eauto|done|]. rewrite E in *. cbn in Ho, Hp'. destruct Hp' as [-> _]. destruct Ho as [_ Ho].
      revert Hp. rewrite decide_True by done. cbn. rewrite upd_off, upd_at, E by done. cbn. by intros [_ ?].
    + assert (plk_of p (pcs s p) = Some p) as Hpl by (destruct (pcs s p); cbn in *; naive_solver).
      destruct Hne. eapply (plk_unique s p); [done|done|by rewrite H].
  - assert (p' <> t) as Hne by (intros ->; revert Hp; step_cases; done).
    apply (Hkeep t (KRel p)); [by step_cases|revert Hc; by step_cases| |by rewrite H].
    revert Hp. step_cases; try done. match goal with |- sleeping _ ?x _ -> _ => destruct x end; cbn; naive_solver.
  - assert (p' <> t) as Hne by (intros ->; cbn in Hp; by rewrite upd_at in Hp).
    eapply (Hkeep t); [reflexivity|done|cbn in Hp; by rewrite upd_off in Hp|]. rewrite H. cbn. set_solver.
Qed.

Lemma sched_inv_step s s' : step s s' -> inv s -> inv s'.
Proof.
  intros Hs I. destruct (inv_cond_step s s' I Hs).
  split; [by apply (inv_lk_step s)|by apply (inv_plk_step s)|by apply (inv_role_step s)|by apply (inv_proc_step s)|done|done|by apply (inv_pending_step s)].
Qed.

Lemma sched_inv_reachable s0 s : init s0 -> rtc step s0 s -> inv s.
Proof. intros H0 Hr. exact (rtc_preserves step inv s0 s sched_inv_step Hr (sched_inv_init s0 H0)). Qed.

(** ** The sleeper gets the CPU back *)

Definition asleep_on (c p : nat) (s : state) : Prop := pcs s p = SAsleep c /\ st s p = SLEEPING.
Definition can_run (p : nat) (s : state) : Prop := exists s', rtc step s s' /\ st s' p = RUNNABLE.

Lemma can_run_rtc p s s' : rtc step s s' -> can_run p s' -> can_run p s.
Proof. intros R (s2 & R2 & H). exists s2. split; [by etransitivity|done]. Qed.

(** The steps until a thread gives up the lock of a process. *)
Definition rank (x : pc) : nat :=
  match x with
  | SRelLk _ => 4 | SChan _ => 3 | SState _ | SWake _ | WLook _ _ _ | KLook _ => 2
  | SSwitch _ | SRelP _ | WRel _ _ _ | KRel _ => 1 | _ => 0
  end%nat.

Lemma release_step s t q :
  plk_of t (pcs s t) = Some q ->
  exists s', step s s' /\ (forall w, w <> t -> pcs s' w = pcs s w /\ (st s' w = st s w \/ st s' w = RUNNABLE)) /\
    (plk s' q = None \/ (plk_of t (pcs s' t) = Some q /\ (rank (pcs s' t) < rank (pcs s t))%nat)).
Proof.
  destruct (pcs s t) eqn:E; cbn [plk_of]; intros Hq; simplify_eq.
  1: eexists; split; [by apply (s_rel q)|].
  2: eexists; split; [by apply (s_chan q)|].
  3: eexists; split; [by apply (s_state q)|].
  4: eexists; split; [by apply (s_switch q)|].
  5: eexists; split; [by apply (s_wake q)|].
  6: eexists; split; [by apply (s_relp q)|].
  7: eexists; split; [by apply (w_look t)|].
  8: eexists; split; [by apply (w_rel t)|].
  9: eexists; split; [by apply (k_skip t)|].
  10: eexists; split; [by apply (k_rel t)|].
  all: split; [intros w Hw; step_cases; by eauto|step_cases; first [by left|right; split; [done|cbn; lia]]].
Qed.

Lemma lock_released n s t q w c l p :
  (rank (pcs s t) <= n)%nat -> plk_of t (pcs s t) = Some q -> pcs s w = WLoop c l -> asleep_on c p s ->
  can_run p s \/ exists s', rtc step s s' /\ plk s' q = None /\ pcs s' w = WLoop c l /\ asleep_on c p s'.
Proof.
  revert s. induction n as [|n IH]; intros s Hr Hq Hw [Hp Hs]; [destruct (pcs s t); cbn in *; (discriminate || lia)|].
  destruct (release_step s t q Hq) as (s1 & S1 & Hoff & Hend).
  assert (w <> t) as Hwt by (intros ->; by rewrite Hw in Hq). assert (p <> t) as Hpt by (intros ->; by rewrite Hp in Hq).
  destruct (Hoff w Hwt) as [Ew _]. destruct (Hoff p Hpt) as [Ep Es]. rewrite Hw in Ew. rewrite Hp in Ep. rewrite Hs in Es.
  destruct Es as [Es|Es]; [|left; exists s1; split; [by apply rtc_once|done]].
  destruct Hend as [Hn|[Hq1 Hr1]]; [right; exists s1; split_and!; [by apply rtc_once|done..]|].
  destruct (IH s1) as [Hc|(s2 & R2 & H2)]; [lia|done..|left|right].
  - eapply can_run_rtc; [by apply rtc_once|done].
  - exists s2. split; [by eapply rtc_l|done].
Qed.

(** One round of wakeup's loop. *)
Lemma visit_one s w c q l p :
  inv s -> pcs s w = WLoop c (q :: l) -> q <> w -> plk s q = None -> asleep_on c p s ->
  exists s', rtc step s s' /\ (st s' p = RUNNABLE \/ (p <> q /\ pcs s' w = WLoop c l /\ asleep_on c p s')).
Proof.
  intros I Hw Hqw Hq [Hp Hs]. pose proof (i_proc s I p) as Ho. rewrite Hp in Ho. destruct Ho as [_ Hch].
  assert (p <> w) as Hpw by (intros ->; congruence).
  eexists. split.
  - eapply rtc_l; [by apply (w_acq w c s q l)|]. eapply rtc_l; [apply (w_look w c _ q l); cbn; apply upd_at|].
    apply rtc_once, (w_rel w c _ q l). cbn. apply upd_at.
  - destruct (decide (p = q)) as [->|Hne].
    + left. cbn. rewrite decide_True by done. cbn. apply upd_at.
    + right. split; [done|]. unfold asleep_on. step_cases; try done; cbn; rewrite ?upd_at, ?upd_off by done; by split_and!.
Qed.

Lemma visited s w c l p : inv s -> pcs s w = WLoop c l -> p ∈ l -> asleep_on c p s -> can_run p s.
Proof.
  revert s. induction l as [|q l IH]; intros s I Hw Hin Ha; [by apply not_elem_of_nil in Hin|].
  assert (p <> w) as Hpw by (intros ->; destruct Ha; congruence).
  destruct (decide (q = w)) as [->|Hqw].
  { eapply can_run_rtc; [apply rtc_once, (w_self w c s l Hw)|]. apply IH; [by eapply sched_inv_step; [apply (w_self w c s l)|]|cbn; apply upd_at|set_solver|].
    unfold asleep_on. cbn. by rewrite upd_off. }
  assert (can_run p s \/ exists s1, rtc step s s1 /\ plk s1 q = None /\ pcs s1 w = WLoop c (q :: l) /\ asleep_on c p s1)
    as [Hc|(s1 & R1 & Hq1 & Hw1 & Ha1)]; [|done|].
  { destruct (plk s q) as [t|] eqn:Hq; [|right; by exists s]. apply (i_plk s I) in Hq. by eapply (lock_released _ s t). }
  assert (inv s1) as I1 by exact (rtc_preserves step inv s s1 sched_inv_step R1 I).
  destruct (visit_one s1 w c q l p I1 Hw1 Hqw Hq1 Ha1) as (s2 & R2 & [Hr|(Hne & Hw2 & Ha2)]).
  - exists s2. split; [by etransitivity|done].
  - eapply can_run_rtc; [by etransitivity|]. apply IH; [|done|set_solver|done].
    exact (rtc_preserves step inv s1 s2 sched_inv_step R2 I1).
Qed.

Lemma pending_wakes s c p : inv s -> cond s c = true -> asleep_on c p s -> can_run p s.
Proof.
  intros I Hc Ha. pose proof Ha as [Hp Hs]. destruct (i_pending s I p c Hc) as [w Hv]; [by rewrite Hp|].
  assert (w <> p) as Hwp by (intros ->; by rewrite Hp in Hv). pose proof (i_proc s I p) as Ho. rewrite Hp in Ho. destruct Ho as [_ Hch].
  destruct (pcs s w) as [| | | | | | | | | | | | |d l|d q l|d q l| |] eqn:Hw; try done; cbn in Hv; destruct Hv as [-> Hv].
  - by apply (visited s w c l).
  - destruct (decide (p = q)) as [->|Hne].
    + eexists. split; [apply rtc_once, (w_look w c s q l Hw)|]. rewrite decide_True by done. cbn. apply upd_at.
    + destruct Hv as [|Hv]; [done|]. eassert (rtc step s _) as R.
      { eapply rtc_l; [apply (w_look w c s q l Hw)|]. apply rtc_once, (w_rel w c _ q l). cbn. apply upd_at. }
      eapply can_run_rtc; [exact R|]. eapply (visited _ w c l); [exact (rtc_preserves step inv s _ sched_inv_step R I)|cbn; apply upd_at|done|].
      unfold asleep_on. step_cases; try done; cbn; rewrite ?upd_at, ?upd_off by done; done.
  - pose proof (w_rel w c s q l Hw) as S1. eapply can_run_rtc; [by apply rtc_once|].
    eapply (visited _ w c l); [by eapply sched_inv_step|cbn; apply upd_at|done|]. unfold asleep_on. cbn. by rewrite upd_off.
Qed.

(** C8: no wakeup is lost.  Under every interleaving of any number of threads
    that wait for and make true any number of conditions, a process that is
    asleep in [sleep(c, lk)] while the condition [c] is true is about to be
    visited by a wakeup on [c] that is under way (so that no process is left
    asleep when no wakeup is under way); the system can always go on to a state
    in which that process is runnable, no thread the wakeup needs being blocked
    for good; and nothing but a wakeup on its own channel or a kill ends its
    sleep. *)
Theorem no_lost_wakeup s0 s c p :
  init s0 -> rtc step s0 s -> pcs s p = SAsleep c -> st s p = SLEEPING ->
  (cond s c = true ->
    (exists w, w <> p /\ lk s c = Some w /\ will_visit c p (pcs s w)) /\
    exists s', rtc step s s' /\ st s' p = RUNNABLE) /\
  (forall s', step s s' -> st s' p <> SLEEPING -> exists w, (exists l, pcs s w = WLook c p l) \/ pcs s w = KLook p).
Proof.
  intros H0 Hr Hp Hs. pose proof (sched_inv_reachable s0 s H0 Hr) as I. split; [intros Hc; split; [|by apply (pending_wakes s c)]|].
  - destruct (i_pending s I p c Hc) as [w Hw]; [by rewrite Hp|]. exists w. split_and!; [| |done].
    + intros ->. by rewrite Hp in Hw.
    + apply (i_lk s I). destruct (pcs s w); cbn in *; naive_solver.
  - pose proof (i_proc s I p) as Ho. rewrite Hp in Ho. destruct Ho as [_ Hch]. intros s' S. destruct S; step_cases; intros Hn; try congruence; exists t; by eauto.
Qed.
End sched.

(** Process 0 waits for condition 7 and is asleep when thread 1 makes it
    true. *)
Module SchedDemo.
Definition s0 : state := mkState (fun _ => Idle) (fun _ => RUNNING) (fun _ => None) (fun _ => None) (fun _ => None) (fun _ => false).

Lemma asleep : exists s, rtc (step [0%nat]) s0 s /\ cond s 7%nat = true /\ pcs s 0%nat = SAsleep 7 /\ st s 0%nat = SLEEPING.
Proof.
  eexists. split.
  - eapply rtc_l; [apply (s_lock _ 0 7); [done|by apply list_elem_of_singleton|done]|]. eapply rtc_l; [by apply (s_sleep _ 0 7)|].
    eapply rtc_l; [by apply (s_plock _ 0 7)|]. eapply rtc_l; [by apply (s_rel _ 0 7)|]. eapply rtc_l; [by apply (s_chan _ 0 7)|].
    eapply rtc_l; [by apply (s_state _ 0 7)|]. eapply rtc_l; [by apply (s_switch _ 0 7)|].
    eapply rtc_l; [by apply (w_lock _ 1 7)|]. eapply rtc_l; [by apply (w_set _ 1 7)|]. apply rtc_refl.
  - done.
Qed.
End SchedDemo.

Lemma no_lost_wakeup_witness : exists s s', rtc (step [0%nat]) s s' /\ st s 0%nat = SLEEPING /\ st s' 0%nat = RUNNABLE.
Proof.
  destruct SchedDemo.asleep as (s & Hr & Hc & Hp & Hs).
  destruct (no_lost_wakeup [0%nat] SchedDemo.s0 s 7%nat 0%nat ltac:(done) Hr Hp Hs) as [H _].
  destruct (H Hc) as [_ (s' & R & E)]. by exists s, s'.
Defined.
