(* ===== verification/KernelSpec.v ===== *)
(** * Running kernel code on a quiet machine

    The state a routine starts from when no other CPU holds the locks it
    needs, and what the small routines of proc.c do there.  *)

From Stdlib Require Import String.
From S2P Require Import Prelude Param Spinlock Sleeplock Str Fs Mem Kalloc Vm Kernel Proc.

(** ** Lens laws *)

Lemma kenv_set_get (k : kernel) : lset env_of (lget env_of k) k = k.
Proof. by destruct k as [[[[] ? ? ? ? ? ? ?] ? ? ?]]. Qed.

Lemma set_procs_same k : set_procs (k_procs k) k = k.
Proof. by destruct k. Qed.

(** ** Locks of processes *)

Definition procs_free (k : kernel) : Prop := Forall (fun p => p_lock p = initlock) (k_procs k).

Lemma alter_plock_restore (ps : list proc) i (f : proc -> proc) l :
  p_lock (ps !!! i) = initlock -> (forall p x, p_lock (f p) = p_lock p /\ f (set_plock x p) = set_plock x (f p)) ->
  alter (set_plock initlock) i (alter f i (alter (set_plock l) i ps)) = alter f i ps.
Proof.
  intros Hi Hf. apply list_eq. intros j.
  destruct (decide (j = i)) as [->|Hne]; [|by rewrite !list_lookup_alter_ne by done].
  rewrite !list_lookup_alter_eq. destruct (ps !! i) as [p|] eqn:E; [|done]. cbn. f_equal.
  rewrite (list_lookup_total_correct _ _ _ E) in Hi.
  destruct (Hf p l) as [Hl ->]. rewrite <- Hi. destruct (f p) eqn:Ef. unfold set_plock; cbn in *. by rewrite <- Hl.
Qed.

Lemma alter_id_plock (ps : list proc) i l :
  p_lock (ps !!! i) = initlock -> alter (set_plock initlock) i (alter (set_plock l) i ps) = ps.
Proof.
  intros Hi. pose proof (alter_plock_restore ps i (fun p => p) l Hi ltac:(done)) as H.
  by rewrite !(list_alter_id (fun p => p)) in H.
Qed.

Section quiet.
Context (k : kernel) (Hok : env_ok (lget env_of k)).

(** [acquire(&p->lock)]; an update of [p]; [release(&p->lock)]. *)
Lemma wp_locked_update i (f : proc -> proc) (Q : unit -> kernel -> Prop) :
  (i < length (k_procs k))%nat -> p_lock (k_procs k !!! i) = initlock ->
  (forall p x, p_lock (f p) = p_lock p /\ f (set_plock x p) = set_plock x (f p)) ->
  (forall e, env_same (lget env_of k) e -> Q tt (set_procs (alter f i (k_procs k)) (lset env_of e k))) ->
  wp (with_env (proc_lock i) acquire ;; updp i f ;; with_env (proc_lock i) release) Q k.
Proof.
  intros Hi Hl Hf HQ. wp_step. apply wp_acquire; [by cbn; rewrite Hl|]. wp_step. apply wp_modify.
  apply (wp_release_same (proc_lock i) _ (lget env_of k)); [done|reflexivity| |].
  - cbn [lget lset proc_lock k_procs set_procs set_fs]. rewrite !list_lookup_total_alter_eq by (by rewrite ?length_alter).
    by match goal with |- p_lock (f ?x) = _ => destruct (Hf x initlock) as [-> _] end.
  - intros e He.
    change (Q tt (set_procs (alter (set_plock initlock) i (alter f i (alter (set_plock (mkSpinlock true (Some (e_cpu (lget env_of k))))) i
      (k_procs k)))) (lset env_of e k))).
    rewrite alter_plock_restore by done. by apply HQ.
Qed.

Lemma wp_myproc Q :
  (forall e, env_same (lget env_of k) e -> Q (k_cur k) (lset env_of e k)) -> wp myproc Q k.
Proof.
  intros HQ. unfold myproc, in_env. wp_step. apply wp_zoom. eapply wp_intro; [apply push_off_spec|].
  wp_step. wp_step. wp_step. apply wp_zoom. pose proof (push_env_fields (lget env_of k)) as (_ & _ & _ & Hs).
  pose proof (push_env_noff (lget env_of k)) as Hn. destruct Hok as [Hn0 _].
  eapply wp_intro; [apply pop_off_spec; [exact Hs|change (1 <= e_noff (push_env (lget env_of k))); lia]|].
  wp_step. apply HQ. by apply pop_push_same.
Qed.

Lemma wp_myproc_ptr i Q :
  k_cur k = Some i -> (forall e, env_same (lget env_of k) e -> Q i (lset env_of e k)) -> wp myproc_ptr Q k.
Proof.
  intros Hc HQ. unfold myproc_ptr. wp_step. apply wp_myproc. intros e He. rewrite Hc. apply wp_ret. by apply HQ.
Qed.

Lemma wp_killed i Q :
  (i < length (k_procs k))%nat -> p_lock (k_procs k !!! i) = initlock ->
  (forall e, env_same (lget env_of k) e -> Q (p_killed (k_procs k !!! i)) (lset env_of e k)) -> wp (killed i) Q k.
Proof.
  intros Hi Hl HQ. unfold killed. wp_step. apply wp_acquire; [by cbn; rewrite Hl|]. wp_step. apply wp_gets. wp_step.
  apply (wp_release_same (proc_lock i) _ (lget env_of k)); [done|reflexivity| |].
  - cbn [lget lset proc_lock k_procs set_procs set_fs]. by rewrite list_lookup_total_alter_eq.
  - intros e He. wp_step. specialize (HQ e He). set (l := mkSpinlock true (Some (e_cpu (lget env_of k)))).
    change (Q (p_killed (alter (set_plock l) i (k_procs k) !!! i))
              (set_procs (alter (set_plock initlock) i (alter (set_plock l) i (k_procs k))) (lset env_of e k))).
    rewrite list_lookup_total_alter_eq, alter_id_plock by done.
    change (k_procs k) with (k_procs (lset env_of e k)) at 2. rewrite set_procs_same. exact HQ.
Qed.
End quiet.

(** ** wakeup *)

(** The table after [wakeup] has visited the first [n] entries. *)
Definition woken_upto (cur : option nat) (c : chan) (n : nat) (ps : list proc) : list proc :=
  imap (fun i p => if bool_decide (i < n)%nat && negb (bool_decide (cur = Some i)) then wake_one c p else p) ps.

Lemma wake_one_lock c p : p_lock (wake_one c p) = p_lock p.
Proof. unfold wake_one. by destruct (_ && _). Qed.
Lemma wake_one_set_plock c p x : wake_one c (set_plock x p) = set_plock x (wake_one c p).
Proof. unfold wake_one. cbn. by destruct (_ && _). Qed.

Lemma woken_upto_0 cur c ps : woken_upto cur c 0 ps = ps.
Proof.
  apply list_eq. intros i. unfold woken_upto. rewrite list_lookup_imap. destruct (ps !! i); [|done]. cbn.
  by rewrite bool_decide_eq_false_2 by lia.
Qed.

Lemma woken_upto_S cur c n ps :
  woken_upto cur c (S n) ps =
  if bool_decide (cur = Some n) then woken_upto cur c n ps else alter (wake_one c) n (woken_upto cur c n ps).
Proof.
  case_bool_decide as Hc; apply list_eq; intros i; [|destruct (decide (i = n)) as [->|Hne]]; unfold woken_upto.
  - rewrite !list_lookup_imap. destruct (ps !! i); [|done]. cbn. f_equal.
    destruct (decide (i = n)) as [->|]; [by rewrite (bool_decide_eq_true_2 (cur = Some n)), !andb_false_r by done|].
    by rewrite (bool_decide_ext (i < S n)%nat (i < n)%nat) by lia.
  - rewrite list_lookup_alter_eq, !list_lookup_imap. destruct (ps !! n); [|done]. cbn.
    rewrite (bool_decide_eq_true_2 (n < S n)%nat), (bool_decide_eq_false_2 (n < n)%nat), (bool_decide_eq_false_2 (cur = Some n)) by (done || lia). done.
  - rewrite list_lookup_alter_ne, !list_lookup_imap by done. destruct (ps !! i); [|done]. cbn.
    by rewrite (bool_decide_ext (i < S n)%nat (i < n)%nat) by lia.
Qed.

Lemma woken_upto_all cur c n ps : (length ps <= n)%nat -> woken_upto cur c n ps = wake_all cur c ps.
Proof.
  intros Hn. apply imap_ext. intros i p Hi. apply lookup_lt_Some in Hi.
  rewrite bool_decide_eq_true_2 by lia. by case_bool_decide.
Qed.

Lemma woken_upto_length cur c n ps : length (woken_upto cur c n ps) = length ps.
Proof. apply length_imap. Qed.

Lemma woken_upto_free cur c n ps :
  Forall (fun p => p_lock p = initlock) ps -> Forall (fun p => p_lock p = initlock) (woken_upto cur c n ps).
Proof.
  intros H. apply Forall_lookup. intros i p Hp. unfold woken_upto in Hp. rewrite list_lookup_imap in Hp.
  destruct (ps !! i) as [q|] eqn:E; [|done]. injection Hp as <-. apply (proj1 (Forall_lookup _ _) H) in E.
  case_match; [by rewrite wake_one_lock|done].
Qed.

Lemma wake_branch c i k :
  (i < length (k_procs k))%nat ->
  (when (bool_decide (p_state (k_procs k !!! i) = SLEEPING) && bool_decide (p_chan (k_procs k !!! i) = Some c)) do
     updp i (set_pstate RUNNABLE)) k = updp i (wake_one c) k.
Proof.
  intros Hi. apply lookup_lt_is_Some in Hi as [p Ep]. rewrite (list_lookup_total_correct _ _ _ Ep).
  unfold updp, modify. rewrite (list_alter_ext (wake_one c) (fun _ => wake_one c p) (k_procs k) (k_procs k) i);
    [|intros q Hq; rewrite Ep in Hq; by injection Hq as <-|done].
  unfold wake_one. destruct (_ && _) eqn:Ec; unfold ret.
  - do 2 f_equal. apply list_alter_ext; [|done]. intros q Hq. rewrite Ep in Hq. by injection Hq as <-.
  - rewrite <- (set_procs_same k) at 1. do 2 f_equal. rewrite <- (list_alter_id id (k_procs k) i) at 1 by done.
    apply list_alter_ext; [|done]. intros q Hq. rewrite Ep in Hq. by injection Hq as <-.
Qed.

(** The body of the loop: one entry other than the caller's. *)
Lemma wp_wake_entry c i k Q :
  env_ok (lget env_of k) -> (i < length (k_procs k))%nat -> p_lock (k_procs k !!! i) = initlock ->
  (forall e, env_same (lget env_of k) e -> Q tt (set_procs (alter (wake_one c) i (k_procs k)) (lset env_of e k))) ->
  wp (with_env (proc_lock i) acquire ;;
      p <- getp i ;;
      (when (bool_decide (p_state p = SLEEPING) && bool_decide (p_chan p = Some c)) do updp i (set_pstate RUNNABLE)) ;;
      with_env (proc_lock i) release) Q k.
Proof.
  intros Hok Hi Hl HQ.
  pose proof (wp_locked_update k Hok i (wake_one c) Q Hi Hl ltac:(intros; split; [apply wake_one_lock|apply wake_one_set_plock]) HQ) as H.
  revert H. unfold wp, bind, getp, gets.
  destruct (with_env (proc_lock i) acquire k) as [[] k1| | |] eqn:E; [|done..]. intros H.
  rewrite wake_branch; [exact H|]. revert E. unfold with_env. destruct (acquire _) as [a [e l]| |c' [e l]|]; [|done..].
  intros [= _ <-]. cbn [k_procs set_procs lset proc_lock]. by rewrite length_alter.
Qed.

(** [wakeup(chan)] makes every other process that sleeps on [chan]
    runnable and changes nothing else. *)
Lemma wp_wakeup c k Q :
  env_ok (lget env_of k) -> length (k_procs k) = NPROC -> procs_free k ->
  (forall e, env_same (lget env_of k) e -> Q tt (set_procs (wake_all (k_cur k) c (k_procs k)) (lset env_of e k))) ->
  wp (wakeup c) Q k.
Proof.
  intros Hok Hlen Hfree HQ. unfold wakeup.
  eapply wp_mono; [apply (wp_for_each _ (fun dn _ k' => exists e, env_same (lget env_of k) e /\
    k' = set_procs (woken_upto (k_cur k) c (length dn) (k_procs k)) (lset env_of e k)))|].
  - exists (lget env_of k). rewrite woken_upto_0, kenv_set_get. split; [reflexivity|by rewrite set_procs_same].
  - intros dn i rest k' Hl (e & He & ->).
    assert (i = length dn /\ (i < NPROC)%nat) as [-> Hi].
    { assert (all_procs !! length dn = Some i) as Hx by (rewrite Hl; by apply list_lookup_middle).
      apply lookup_seq in Hx. lia. }
    set (n := length dn) in *. rewrite length_app, Nat.add_comm. cbn [length Nat.add]. fold n.
    set (k1 := set_procs _ _). assert (env_ok (lget env_of k1)) as Hok1 by (by eapply env_same_ok).
    wp_step. apply wp_myproc; [done|]. intros e1 He1. change (k_cur k1) with (k_cur k). rewrite woken_upto_S.
    assert (env_same (lget env_of k) e1) as He2 by (by transitivity (lget env_of k1)).
    case_bool_decide as Hc; cbn [negb]; [apply wp_ret; by exists e1|].
    apply wp_wake_entry.
    + by eapply env_same_ok.
    + change (n < length (woken_upto (k_cur k) c n (k_procs k)))%nat. rewrite woken_upto_length. lia.
    + change (p_lock (woken_upto (k_cur k) c n (k_procs k) !!! n) = initlock).
      assert (n < length (woken_upto (k_cur k) c n (k_procs k)))%nat as Hlt by (rewrite woken_upto_length; lia).
      apply lookup_lt_is_Some in Hlt as [p Hp]. rewrite (list_lookup_total_correct _ _ _ Hp).
      by apply (proj1 (Forall_lookup _ _) (woken_upto_free (k_cur k) c n _ Hfree) n p).
    + intros e2 He3. exists e2. split; [|done]. by transitivity e1.
  - intros [] k' (e & He & ->). unfold all_procs. rewrite length_seq, woken_upto_all by lia. by apply HQ.
Qed.
