(* ===== verification/Console.v ===== *)
(** * Serial line, printf and the console
    (kernel/uart.c, kernel/printf.c, kernel/console.c)  *)

From Stdlib Require Import String.
From S2P Require Import Prelude Param Spinlock Str Mem Kalloc Vm Printf Kernel Proc.

(** ** 16550 UART *)

Abbreviation RHR := 0%Z (only parsing).
Abbreviation THR := 0%Z (only parsing).
Abbreviation IER := 1%Z (only parsing).
Abbreviation IER_RX_ENABLE := (Z.shiftl 1 0)%Z (only parsing).
Abbreviation IER_TX_ENABLE := (Z.shiftl 1 1)%Z (only parsing).
Abbreviation FCR := 2%Z (only parsing).
Abbreviation FCR_FIFO_ENABLE := (Z.shiftl 1 0)%Z (only parsing).
Abbreviation FCR_FIFO_CLEAR := (Z.shiftl 3 1)%Z (only parsing).
Abbreviation LCR := 3%Z (only parsing).
Abbreviation LCR_EIGHT_BITS := (Z.shiftl 3 0)%Z (only parsing).
Abbreviation LCR_BAUD_LATCH := (Z.shiftl 1 7)%Z (only parsing).
Abbreviation LSR_RX_READY := (Z.shiftl 1 0)%Z (only parsing).
Abbreviation LSR_TX_IDLE := (Z.shiftl 1 5)%Z (only parsing).

(** The line status register and the two data registers. *)
Definition read_lsr : M kernel Z :=
  gets (fun k => Z.lor (if hw_idle (k_uart k) then LSR_TX_IDLE else 0)
                       (if bool_decide (hw_rx (k_uart k) = []) then 0 else LSR_RX_READY)).
Definition write_thr (c : Z) : M kernel unit := updu (fun u => set_hwidle false (set_hwtx (u8 c :: hw_tx u) u)).
Definition read_rhr : M kernel Z :=
  c <- gets (fun k => hd 0 (hw_rx (k_uart k))) ;;
  updu (fun u => set_hwrx (tl (hw_rx u)) u) ;;
  ret c.
Definition write_config (reg v : Z) : M kernel unit := updu (fun u => set_hwreg ((reg, v) :: hw_regs u) u).

(** [while((ReadReg(LSR) & LSR_TX_IDLE) == 0) ;] ends when the device has
    taken the previous character. *)
Definition wait_tx_idle : M kernel unit := updu (set_hwidle true).

Definition tx_chan : chan := ("tx_chan", 0).

Definition uartinit : M kernel unit :=
  write_config IER 0x00 ;;
  write_config LCR LCR_BAUD_LATCH ;;
  write_config 0 0x03 ;;
  write_config 1 0x00 ;;
  write_config LCR LCR_EIGHT_BITS ;;
  write_config FCR (Z.lor FCR_FIFO_ENABLE FCR_FIFO_CLEAR) ;;
  write_config IER (Z.lor IER_TX_ENABLE IER_RX_ENABLE) ;;
  updu (set_txlock initlock).

(** A turn of the loop of [uartwrite]: send [c], after a sleep when the
    previous character is still on its way. *)
Definition uartwrite_one (c : Z) : M kernel unit :=
  busy <- gets (fun k => tx_busy (k_uart k)) ;;
  if busy : bool then sleep tx_chan uart_lock else
  write_thr c ;;
  updu (set_txbusy true).
Definition uartwrite (buf : list Z) : M kernel unit :=
  with_env uart_lock acquire ;;
  for_each buf uartwrite_one ;;
  with_env uart_lock release.

Definition uartputc_sync (c : Z) : M kernel unit :=
  pk <- gets (fun k => panicking (k_pr k)) ;;
  (when (negb pk) do in_env push_off) ;;
  dead <- gets (fun k => panicked (k_pr k)) ;;
  if dead : bool then block_on ("panicked", 0) else
  wait_tx_idle ;;
  write_thr c ;;
  when (negb pk) do in_env pop_off.

Definition uartgetc : M kernel Z :=
  lsr <- read_lsr ;;
  if negb (Z.land lsr LSR_RX_READY =? 0) then read_rhr else ret (-1).

(** ** Console output and printf *)

Definition BACKSPACE : Z := 0x100.
Definition C (x : string) : Z := chr x - chr "@".

Definition consputc (c : Z) : M kernel unit :=
  if c =? BACKSPACE then
    uartputc_sync 8 ;; uartputc_sync (chr " ") ;; uartputc_sync 8
  else uartputc_sync c.

Definition printf (fmt : list Z) (args : list parg) : M kernel unit :=
  pk <- gets (fun k => panicking (k_pr k)) ;;
  (when (negb pk) do with_env printf_lock acquire) ;;
  for_each (printf_chars fmt args) consputc ;;
  when (negb pk) do with_env printf_lock release.

(** The C [panic]; where it is called the model ends in [Panic]. *)
Definition kpanic (s : list Z) : M kernel unit :=
  modify (fun k => set_pr (set_panicking true (k_pr k)) k) ;;
  printf (chars "panic: ") [] ;;
  printf (chars "%s" ++ [10]) [AStr (Some s)] ;;
  modify (fun k => set_pr (set_panicked true (k_pr k)) k) ;;
  block_on ("panicked", 0).

Definition printfinit : M kernel unit := modify (fun k => set_pr (set_prlock initlock (k_pr k)) k).

Definition state_name (s : procstate) : list Z :=
  match s with
  | UNUSED => chars "unused"
  | USED => chars "used"
  | SLEEPING => chars "sleep "
  | RUNNABLE => chars "runble"
  | RUNNING => chars "run   "
  | ZOMBIE => chars "zombie"
  end.

Definition procdump : M kernel unit :=
  printf [10] [] ;;
  for_each all_procs (fun i =>
    p <- getp i ;;
    if bool_decide (p_state p = UNUSED) then ret tt else
    printf (chars "%d %s %s") [AInt (p_pid p); AStr (Some (state_name (p_state p))); AStr (Some (p_name p))] ;;
    printf [10] []).

(** ** Console input: the line discipline

    The buffer operations of [consoleintr], without the echo. *)

Definition buf_at (c : cons) (i : Z) : Z := rd (cn_buf c) (Z.to_nat (i mod INPUT_BUF_SIZE)).

(** [cons.e--] *)
Definition cons_erase (c : cons) : cons := set_cne (u32 (cn_e c - 1)) c.
(** [cons.buf[cons.e++ % INPUT_BUF_SIZE] = ch] *)
Definition cons_store (ch : Z) (c : cons) : cons :=
  set_cne (u32 (cn_e c + 1)) (set_cnbuf (<[Z.to_nat (cn_e c mod INPUT_BUF_SIZE) := u8 ch]> (cn_buf c)) c).
Definition can_erase (c : cons) : bool := negb (cn_e c =? cn_w c).
Definition cons_full (c : cons) : bool := u32 (cn_e c - cn_r c) =? INPUT_BUF_SIZE.
Definition cons_chan : chan := ("cons.r", 0).

(** The loop of control-U: one turn for each character of the edit line. *)
Fixpoint kill_line (fuel : nat) : M kernel unit :=
  match fuel with
  | O => no_fuel
  | S fuel' =>
      c <- gets k_cons ;;
      if can_erase c && negb (buf_at c (u32 (cn_e c - 1)) =? 10) then
        updc cons_erase ;; consputc BACKSPACE ;; kill_line fuel'
      else ret tt
  end.
Definition line_fuel : nat := S (Z.to_nat INPUT_BUF_SIZE).

Definition consoleintr (ch : Z) : M kernel unit :=
  with_env cons_lock acquire ;;
  (if ch =? C "P" then procdump
   else if ch =? C "U" then kill_line line_fuel
   else if (ch =? C "H") || (ch =? 127) then
     c <- gets k_cons ;;
     when (can_erase c) do (updc cons_erase ;; consputc BACKSPACE)
   else
     c <- gets k_cons ;;
     when (negb (ch =? 0) && (u32 (cn_e c - cn_r c) <? INPUT_BUF_SIZE)) do
       (let ch := if ch =? 13 then 10 else ch in
        consputc ch ;;
        updc (cons_store ch) ;;
        c <- gets k_cons ;;
        when ((ch =? 10) || (ch =? C "D") || cons_full c) do
          (updc (fun c => set_cnw (cn_e c) c) ;; wakeup cons_chan))) ;;
  with_env cons_lock release.

(** [uartintr]: the loop takes the input bytes that are waiting. *)
Fixpoint uart_input (fuel : nat) : M kernel unit :=
  match fuel with
  | O => no_fuel
  | S fuel' =>
      c <- uartgetc ;;
      if c =? -1 then ret tt else consoleintr c ;; uart_input fuel'
  end.
Definition uartintr : M kernel unit :=
  with_env uart_lock acquire ;;
  lsr <- read_lsr ;;
  (when (negb (Z.land lsr LSR_TX_IDLE =? 0)) do (updu (set_txbusy false) ;; wakeup tx_chan)) ;;
  with_env uart_lock release ;;
  n <- gets (fun k => length (hw_rx (k_uart k))) ;;
  uart_input (S n).

(** ** Reads and writes of the console device *)

(** The result of a turn of a loop: go on with the new local variables, or
    leave it. *)
Inductive turn (L R : Type) := Again (l : L) | Leave (r : R).
Arguments Again {L R} l.
Arguments Leave {L R} r.

(** [cons.buf[cons.r++ % INPUT_BUF_SIZE]] *)
Definition cons_take (c : cons) : cons := set_cnr (u32 (cn_r c + 1)) c.

Definition consoleread_turn (user_dst : bool) (target : Z) (dst n : Z) : M kernel (turn (Z * Z) Z) :=
  if n <=? 0 then ret (Leave (target - n)) else
  c <- gets k_cons ;;
  if cn_r c =? cn_w c then
    i <- myproc_ptr ;;
    kd <- killed i ;;
    if kd : bool then ret (Leave (-1)) else
    sleep cons_chan cons_lock ;; ret (Again (dst, n))
  else
    let ch := buf_at c (cn_r c) in
    updc cons_take ;;
    if ch =? C "D" then
      (when (u32 n <? target) do updc (fun c => set_cnr (u32 (cn_r c - 1)) c)) ;;
      ret (Leave (target - n))
    else
      r <- either_copyout user_dst dst [ch] ;;
      if r =? -1 then ret (Leave (target - n)) else
      if ch =? 10 then ret (Leave (target - (n - 1))) else
      ret (Again (u64 (dst + 1), n - 1)).

Fixpoint consoleread_loop (fuel : nat) (user_dst : bool) (target dst n : Z) : M kernel Z :=
  match fuel with
  | O => no_fuel
  | S fuel' =>
      t <- consoleread_turn user_dst target dst n ;;
      match t with
      | Again (dst, n) => consoleread_loop fuel' user_dst target dst n
      | Leave r => ret r
      end
  end.

Definition consoleread (user_dst : bool) (dst n : Z) : M kernel Z :=
  with_env cons_lock acquire ;;
  r <- consoleread_loop (S (Z.to_nat n)) user_dst (u32 n) dst n ;;
  with_env cons_lock release ;;
  ret (s32 r).

(** 32 bytes at a time through a buffer on the stack. *)
Fixpoint consolewrite_loop (fuel : nat) (user_src : bool) (src n i : Z) : M kernel Z :=
  match fuel with
  | O => no_fuel
  | S fuel' =>
      if n <=? i then ret i else
      let nn := if n - i <? 32 then n - i else 32 in
      r <- either_copyin user_src (u64 (src + i)) nn ;;
      if fst r =? -1 then ret i else
      uartwrite (snd r) ;;
      consolewrite_loop fuel' user_src src n (i + nn)
  end.
Definition consolewrite (user_src : bool) (src n : Z) : M kernel Z :=
  consolewrite_loop (S (Z.to_nat n)) user_src src n 0.

Definition consoleinit : M kernel unit :=
  updc (set_cnlock initlock) ;;
  uartinit ;;
  modify (fun k => set_devsw (<[Z.to_nat CONSOLE := mkDevsw (Some consoleread_fn) (Some consolewrite_fn)]> (k_devsw k)) k).
