(* ===== verification/ConsoleProps.v ===== *)
(** * The console's line discipline *)

From Stdlib Require Import String.
From S2P Require Import Prelude Param Spinlock Str Ring Fs Mem Kalloc Vm Printf Kernel Proc KernelSpec Console.

(** ** Synchronous output *)

(** [k'] is [k] after the characters [out] were sent: only the UART and the
    environment have changed. *)
Definition uout (out : list Z) (k k' : kernel) : Prop :=
  exists e u, env_same (lget env_of k) e /\ k' = set_uart u (lset env_of e k) /\
    tx_lock u = tx_lock (k_uart k) /\ tx_busy u = tx_busy (k_uart k) /\ hw_rx u = hw_rx (k_uart k) /\
    hw_tx u = reverse out ++ hw_tx (k_uart k).

Lemma uout_refl k : uout [] k k.
Proof.
  exists (lget env_of k), (k_uart k). rewrite kenv_set_get. split_and!; try done. by destruct k.
Qed.

Lemma uout_trans o1 o2 k1 k2 k3 : uout o1 k1 k2 -> uout o2 k2 k3 -> uout (o1 ++ o2) k1 k3.
Proof.
  intros (e1 & u1 & He1 & -> & ? & ? & ? & Ht1) (e2 & u2 & He2 & -> & ? & ? & ? & Ht2).
  exists e2, u2. split_and!; [by transitivity e1|done|etransitivity; done..|].
  rewrite Ht2, reverse_app, <- app_assoc. f_equal. exact Ht1.
Qed.

Definition alive (k : kernel) : Prop :=
  env_ok (lget env_of k) /\ panicking (k_pr k) = false /\ panicked (k_pr k) = false.

Lemma uout_alive o k k' : uout o k k' -> alive k -> alive k'.
Proof. intros (e & u & He & -> & _) (Hok & ? & ?). split_and!; [by eapply env_same_ok|done|done]. Qed.

Lemma wp_uartputc_sync c k : alive k -> wp (uartputc_sync c) (fun _ k' => uout [u8 c] k k') k.
Proof.
  intros (Hok & Hp1 & Hp2). unfold uartputc_sync. wp_step. apply wp_gets. rewrite Hp1. cbn [negb].
  wp_step. apply wp_zoom. eapply wp_intro; [apply push_off_spec|]. wp_step. apply wp_gets.
  change (k_pr _) with (k_pr k). rewrite Hp2. wp_step. apply wp_modify. wp_step. apply wp_modify. apply wp_zoom.
  pose proof (push_env_fields (lget env_of k)) as (_ & _ & _ & Hs). pose proof (push_env_noff (lget env_of k)) as Hn.
  destruct Hok as [Hn0 Hi0].
  eapply wp_intro; [apply pop_off_spec; [exact Hs|change (1 <= e_noff (push_env (lget env_of k))); lia]|].
  eexists _, _. split_and!; [apply pop_push_same; [by split|reflexivity]|reflexivity|done..].
Qed.

(** What [consputc] sends. *)
Definition echo (c : Z) : list Z := if c =? BACKSPACE then [8; 32; 8] else [u8 c].

Lemma wp_consputc c k : alive k -> wp (consputc c) (fun _ k' => uout (echo c) k k') k.
Proof.
  intros Ha. unfold consputc, echo. destruct (c =? BACKSPACE); [|by apply wp_uartputc_sync].
  wp_step. wp_use (wp_uartputc_sync 8 k Ha). intros [] k1 H1.
  wp_step. wp_use (wp_uartputc_sync (chr " ") k1 (uout_alive _ _ _ H1 Ha)). intros [] k2 H2.
  pose proof (uout_trans _ _ _ _ _ H1 H2) as H12.
  wp_use (wp_uartputc_sync 8 k2 (uout_alive _ _ _ H12 Ha)). intros [] k3 H3.
  exact (uout_trans _ _ _ _ _ H12 H3).
Qed.

Lemma wp_putchars l k : alive k -> wp (for_each l consputc) (fun _ k' => uout (concat (echo <$> l)) k k') k.
Proof.
  revert k. induction l as [|c l IH]; intros k Ha; cbn [for_each fmap list_fmap concat]; [apply wp_ret, uout_refl|].
  wp_step. wp_use (wp_consputc c k Ha). intros [] k1 H1. wp_use (IH k1 (uout_alive _ _ _ H1 Ha)).
  intros [] k2 H2. by eapply uout_trans.
Qed.

Lemma wp_printf fmt args k :
  alive k -> pr_lock (k_pr k) = initlock ->
  wp (Console.printf fmt args) (fun _ k' => uout (concat (echo <$> printf_chars fmt args)) k k') k.
Proof.
  intros Ha Hl. destruct Ha as (Hok & Hp1 & Hp2). unfold Console.printf. wp_step. apply wp_gets. rewrite Hp1. cbn [negb].
  wp_step. apply wp_acquire; [by cbn; rewrite Hl|]. wp_step.
  set (k1 := lset printf_lock _ _). assert (alive k1) as Ha1 by (split_and!; [by apply push_env_ok|done|done]).
  wp_use (wp_putchars (printf_chars fmt args) k1 Ha1). intros [] k2 (e & u & He & -> & H1 & H2 & H3 & H4).
  apply (wp_release_same printf_lock _ (lget env_of k)); [done|exact He|done|].
  intros e' He'. exists e', u. split_and!; [done| |done..].
  change (set_pr (set_prlock initlock (set_prlock (mkSpinlock true (Some (e_cpu (lget env_of k)))) (k_pr k))) (set_uart u (lset env_of e' k)) =
    set_uart u (lset env_of e' k)).
  replace (set_prlock initlock _) with (k_pr k) by (destruct (k_pr k); cbn in *; by subst). by destruct k.
Qed.

Lemma wp_procdump k :
  alive k -> pr_lock (k_pr k) = initlock -> wp procdump (fun _ k' => exists out, uout out k k') k.
Proof.
  intros Ha Hl. unfold procdump. wp_step. wp_use (wp_printf [10] [] k Ha Hl). intros [] k1 H1.
  assert (forall l k1 o, uout o k k1 -> wp (for_each l (fun i => p <- getp i ;;
    if bool_decide (p_state p = UNUSED) then ret tt else
    Console.printf (chars "%d %s %s") [AInt (p_pid p); AStr (Some (state_name (p_state p))); AStr (Some (p_name p))] ;;
    Console.printf [10] [])) (fun _ k' => exists out, uout out k k') k1) as Hloop; [|by eapply Hloop].
  clear k1 H1. induction l as [|i l IH]; intros k1 o H1; cbn [for_each]; [apply wp_ret; by exists o|].
  assert (forall k2 o, uout o k k2 -> alive k2 /\ pr_lock (k_pr k2) = initlock) as Hk.
  { intros k2 o2 H. split; [by eapply uout_alive|]. destruct H as (? & ? & _ & -> & _). done. }
  wp_step. wp_step. apply wp_gets. case_bool_decide; [wp_step; by apply (IH k1 o)|].
  destruct (Hk k1 o H1) as [Ha1 Hl1]. wp_step. eapply wp_mono; [by apply wp_printf|]. intros [] k2 H2.
  pose proof (uout_trans _ _ _ _ _ H1 H2) as H12. destruct (Hk k2 _ H12) as [Ha2 Hl2].
  eapply wp_mono; [by apply wp_printf|]. intros [] k3 H3. eapply IH. by eapply uout_trans.
Qed.

(** ** The buffer: lines for the reader, and the line being edited *)

Record cons_ok (c : cons) (cm ed : list Z) : Prop := {
  co_buf : length (cn_buf c) = Z.to_nat INPUT_BUF_SIZE;
  co_r : 0 <= cn_r c < 2 ^ 32;
  co_w : cn_w c = u32 (cn_r c + Z.of_nat (length cm));
  co_e : cn_e c = u32 (cn_r c + Z.of_nat (length cm + length ed));
  co_len : (length cm + length ed <= Z.to_nat INPUT_BUF_SIZE)%nat;
  co_bytes : ring INPUT_BUF_SIZE (cn_buf c) (cn_r c) (Z.of_nat (length cm + length ed)) = cm ++ ed
}.

Lemma cons_ring : ring_size INPUT_BUF_SIZE.
Proof. exact ring_size_128. Qed.

Lemma buf_size : Z.to_nat INPUT_BUF_SIZE = 128%nat.
Proof. done. Qed.

Lemma co_used c cm ed : cons_ok c cm ed -> u32 (cn_e c - cn_r c) = Z.of_nat (length cm + length ed).
Proof. intros H. rewrite (co_e _ _ _ H). apply u32_sub_add. pose proof (co_len _ _ _ H) as Hl. rewrite buf_size in Hl. lia. Qed.

Lemma can_erase_spec c cm ed : cons_ok c cm ed -> can_erase c = negb (bool_decide (ed = [])).
Proof.
  intros H. unfold can_erase. f_equal. pose proof (co_len _ _ _ H) as Hl. rewrite buf_size in Hl.
  rewrite (co_e _ _ _ H), (co_w _ _ _ H). case_bool_decide as E; [subst; cbn [length]; by rewrite Nat.add_0_r, Z.eqb_refl|].
  apply Z.eqb_neq. intros E'.
  assert (u32 (u32 (cn_r c + Z.of_nat (length cm + length ed)) - cn_r c) = u32 (u32 (cn_r c + Z.of_nat (length cm)) - cn_r c)) as Hd by (by rewrite E').
  rewrite !u32_sub_add in Hd by lia. apply E, nil_length_inv. lia.
Qed.

(** The byte under the edit index, and stepping back over it. *)
Lemma cons_erase_spec c cm ed x :
  cons_ok c cm (ed ++ [x]) -> cons_ok (cons_erase c) cm ed /\ buf_at c (u32 (cn_e c - 1)) = x.
Proof.
  intros H. pose proof (co_len _ _ _ H) as Hl. rewrite length_app, buf_size in Hl. cbn [length] in Hl.
  set (n := (length cm + length ed)%nat).
  assert (ring INPUT_BUF_SIZE (cn_buf c) (cn_r c) (Z.of_nat n + 1) = (cm ++ ed) ++ [x]) as Hb.
  { rewrite <- app_assoc, <- (co_bytes _ _ _ H), length_app. cbn [length]. f_equal. unfold n. lia. }
  rewrite (ring_app _ _ _ (Z.of_nat n) 1), (ring_one _ cons_ring) in Hb by lia.
  apply app_inj_2 in Hb as [Hb Hx]; [|done]. injection Hx as Hx.
  assert (u32 (cn_e c - 1) = u32 (cn_r c + Z.of_nat n)) as He.
  { rewrite (co_e _ _ _ H), u32_sub_l, length_app. cbn [length]. f_equal. unfold n. lia. }
  split.
  - destruct H as [H1 H2 H3 H4 H5 H6]. split; cbn [cn_buf cn_r cn_w cn_e cons_erase set_cne]; try done.
    rewrite buf_size. lia.
  - unfold buf_at. rewrite He, (ring_mod _ cons_ring). exact Hx.
Qed.

Lemma cons_store_spec c cm ed ch :
  cons_ok c cm ed -> (length cm + length ed < 128)%nat -> cons_ok (cons_store ch c) cm (ed ++ [u8 ch]).
Proof.
  intros H Hlt. set (n := (length cm + length ed)%nat) in *.
  assert (Z.of_nat (length cm + length (ed ++ [u8 ch])) = Z.of_nat n + 1) as Hn.
  { rewrite length_app. cbn [length]. unfold n. lia. }
  split; cbn [cn_buf cn_r cn_w cn_e cons_store set_cne set_cnbuf].
  - rewrite length_insert. apply H.
  - apply H.
  - apply H.
  - rewrite (co_e _ _ _ H), u32_add_l, Hn. f_equal. unfold n. lia.
  - rewrite buf_size. lia.
  - rewrite Hn, (co_e _ _ _ H). fold n.
    rewrite (ring_push _ cons_ring); [|by rewrite (co_buf _ _ _ H)|unfold INPUT_BUF_SIZE; lia].
    unfold n. by rewrite (co_bytes _ _ _ H), <- app_assoc.
Qed.

Lemma cons_commit_spec c cm ed : cons_ok c cm ed -> cons_ok (set_cnw (cn_e c) c) (cm ++ ed) [].
Proof.
  intros H. split; cbn [cn_buf cn_r cn_w cn_e set_cnw length]; rewrite ?Nat.add_0_r, ?length_app, ?app_nil_r; apply H.
Qed.

Lemma cons_full_spec c cm ed : cons_ok c cm ed -> cons_full c = (length cm + length ed =? 128)%nat.
Proof.
  intros H. unfold cons_full. rewrite (co_used _ _ _ H). unfold INPUT_BUF_SIZE.
  destruct (Nat.eqb_spec (length cm + length ed) 128); [apply Z.eqb_eq|apply Z.eqb_neq]; lia.
Qed.

(** ** What a typed character does

    [cm] are the characters readers may take, [ed] the line being typed. *)
Definition edit (ch : Z) (cm ed : list Z) : list Z * list Z :=
  if ch =? C "P" then (cm, ed)
  else if ch =? C "U" then (cm, [])
  else if (ch =? C "H") || (ch =? 127) then (cm, removelast ed)
  else if (ch =? 0) || (length cm + length ed =? 128)%nat then (cm, ed)
  else
    let ch := if ch =? 13 then 10 else ch in
    if (ch =? 10) || (ch =? C "D") || (length cm + length ed =? 127)%nat then (cm ++ ed ++ [ch], [])
    else (cm, ed ++ [ch]).

(** The echo on the screen. *)
Definition edit_echo (ch : Z) (cm ed : list Z) : list Z :=
  if ch =? C "U" then concat (replicate (length ed) (echo BACKSPACE))
  else if (ch =? C "H") || (ch =? 127) then (if bool_decide (ed = []) then [] else echo BACKSPACE)
  else if (ch =? 0) || (length cm + length ed =? 128)%nat then []
  else [if ch =? 13 then 10 else ch].

(** ** The interrupt handler

    The state of the handler: the console's data, the UART and the
    environment change, the process table only by a wakeup. *)
Definition kcs (k : kernel) (c : cons) (u : uart) (e : kenv) : kernel := set_cons c (set_uart u (lset env_of e k)).

Lemma uout_kcs o k c u e k' :
  uout o (kcs k c u e) k' -> exists e' u', env_same e e' /\ k' = kcs k c u' e' /\
    tx_lock u' = tx_lock u /\ tx_busy u' = tx_busy u /\ hw_rx u' = hw_rx u /\ hw_tx u' = reverse o ++ hw_tx u.
Proof. intros (e' & u' & He & -> & H). by exists e', u'. Qed.

(** The loop of control-U empties the line. *)
Lemma wp_kill_line k cm ed fuel :
  (length ed < fuel)%nat -> (10 ∉ ed) -> cons_ok (k_cons k) cm ed -> alive k ->
  wp (kill_line fuel) (fun _ k' => exists c', cons_ok c' cm [] /\ cn_lock c' = cn_lock (k_cons k) /\
    uout (concat (replicate (length ed) (echo BACKSPACE))) (set_cons c' k) k') k.
Proof.
  revert k fuel. induction ed as [|x ed IH] using rev_ind; intros k fuel Hf Hnl Hc Ha; (destruct fuel as [|fuel]; [cbn in Hf; lia|]);
    cbn [kill_line]; wp_step; apply wp_gets; rewrite (can_erase_spec _ _ _ Hc).
  - rewrite bool_decide_eq_true_2 by done. cbn [negb andb]. wp_step. exists (k_cons k). split_and!; [done|done|]. replace (set_cons (k_cons k) k) with k by (by destruct k). apply uout_refl.
  - rewrite bool_decide_eq_false_2 by (by destruct ed). cbn [negb andb].
    destruct (cons_erase_spec _ _ _ _ Hc) as [Hc' ->]. rewrite (proj2 (Z.eqb_neq x 10)) by set_solver. cbn [negb].
    wp_step. apply wp_modify. wp_step. wp_use (wp_consputc BACKSPACE (set_cons (cons_erase (k_cons k)) k)); [done|].
    intros [] k1 H1. pose proof H1 as (e & u & He & -> & _). rewrite length_app in Hf |- *. cbn [length] in Hf |- *.
    eapply wp_mono; [apply (IH (set_uart u (lset env_of e (set_cons (cons_erase (k_cons k)) k)))); [lia|set_solver|done|]|].
    { by eapply uout_alive. }
    intros [] k2 (c' & Hok' & Hl & H2). exists c'. split_and!; [done|done|]. rewrite Nat.add_comm. cbn [replicate concat Nat.add].
    eapply uout_trans; [|exact H2]. destruct H1 as (e1 & u1 & He1 & E & Hu). exists e, u. split_and!; try done.
    + assert (e1 = e) as -> by (by injection E). assert (u1 = u) as -> by (by injection E). apply Hu.
    + assert (u1 = u) as -> by (by injection E). apply Hu.
    + assert (u1 = u) as -> by (by injection E). apply Hu.
    + assert (u1 = u) as -> by (by injection E). apply Hu.
Qed.

(** What the handler has done for [ch]. *)
Definition handled (ch : Z) (cm ed : list Z) (k k' : kernel) : Prop :=
  cons_ok (k_cons k') (edit ch cm ed).1 (edit ch cm ed).2 /\ (10 ∉ (edit ch cm ed).2) /\
  cn_lock (k_cons k') = cn_lock (k_cons k) /\
  k_procs k' = (if bool_decide ((edit ch cm ed).1 = cm) then k_procs k else wake_all (k_cur k) cons_chan (k_procs k)) /\
  (ch <> C "P" -> hw_tx (k_uart k') = reverse (edit_echo ch cm ed) ++ hw_tx (k_uart k)) /\
  env_same (lget env_of k) (lget env_of k').

Section handler.
Context (k : kernel) (cm ed : list Z).
Context (Ha : alive k) (Hc : cons_ok (k_cons k) cm ed) (Hnl : 10 ∉ ed).

(** A branch that only edits the line and echoes. *)
Lemma handled_edit ch c' ed' out k' :
  edit ch cm ed = (cm, ed') -> cons_ok c' cm ed' -> (10 ∉ ed') -> cn_lock c' = cn_lock (k_cons k) ->
  (ch <> C "P" -> out = edit_echo ch cm ed) -> uout out (set_cons c' k) k' -> handled ch cm ed k k'.
Proof.
  intros E Hc' Hn Hl Ho (e & u & He & -> & _ & _ & _ & Ht). unfold handled. rewrite E. cbn [fst snd].
  rewrite bool_decide_eq_true_2 by done. split_and!; try done. intros Hp. rewrite <- Ho by done. exact Ht.
Qed.

Lemma set_cons_same : set_cons (k_cons k) k = k.
Proof. by destruct k. Qed.

Lemma wp_erase ch :
  (ch =? C "P") = false -> (ch =? C "U") = false -> (ch =? C "H") || (ch =? 127) = true ->
  wp (c <- gets k_cons ;; when (can_erase c) do (updc cons_erase ;; consputc BACKSPACE)) (fun _ k' => handled ch cm ed k k') k.
Proof.
  intros H1 H2 H3. wp_step. apply wp_gets. rewrite (can_erase_spec _ _ _ Hc).
  assert (edit ch cm ed = (cm, removelast ed)) as E by (unfold edit; by rewrite H1, H2, H3).
  assert (edit_echo ch cm ed = if bool_decide (ed = []) then [] else echo BACKSPACE) as Eo by (unfold edit_echo; by rewrite H2, H3).
  case_bool_decide as Hed; cbn [negb].
  - wp_step. eapply (handled_edit ch (k_cons k) ed []); [by rewrite E, Hed|done|done|done|by rewrite Eo|].
    rewrite set_cons_same. apply uout_refl.
  - destruct (exists_last Hed) as (ed0 & x & Heq). rewrite Heq, removelast_last, <- Heq in E. pose proof Hc as Hc2. rewrite Heq in Hc2.
    wp_step. apply wp_modify. wp_use (wp_consputc BACKSPACE (set_cons (cons_erase (k_cons k)) k)); [done|].
    intros [] k' Hk'. eapply handled_edit; [exact E|by apply cons_erase_spec in Hc2 as [? _]|set_solver|done|by rewrite Eo|exact Hk'].
Qed.

Lemma wp_type ch :
  (ch =? C "P") = false -> (ch =? C "U") = false -> (ch =? C "H") || (ch =? 127) = false -> 0 <= ch < 256 ->
  length (k_procs k) = NPROC -> procs_free k ->
  wp (c <- gets k_cons ;;
      when (negb (ch =? 0) && (u32 (cn_e c - cn_r c) <? INPUT_BUF_SIZE)) do
        (let ch := if ch =? 13 then 10 else ch in
         consputc ch ;;
         updc (cons_store ch) ;;
         c <- gets k_cons ;;
         when ((ch =? 10) || (ch =? C "D") || cons_full c) do
           (updc (fun c => set_cnw (cn_e c) c) ;; wakeup cons_chan))) (fun _ k' => handled ch cm ed k k') k.
Proof.
  intros H1 H2 H3 Hr Hlen Hfree. wp_step. apply wp_gets. rewrite (co_used _ _ _ Hc).
  pose proof (co_len _ _ _ Hc) as Hl. rewrite buf_size in Hl.
  assert ((Z.of_nat (length cm + length ed) <? INPUT_BUF_SIZE) = negb (length cm + length ed =? 128)%nat) as ->.
  { unfold INPUT_BUF_SIZE. destruct (Nat.eqb_spec (length cm + length ed) 128); [apply Z.ltb_ge|apply Z.ltb_lt]; lia. }
  rewrite <- negb_orb. destruct ((ch =? 0) || (length cm + length ed =? 128)%nat) eqn:Hno; cbn [negb].
  { wp_step. eapply (handled_edit _ (k_cons k) ed []); [unfold edit; by rewrite H1, H2, H3, Hno|done|done|done| |].
    - intros _. unfold edit_echo. by rewrite H2, H3, Hno.
    - rewrite set_cons_same. apply uout_refl. }
  pose proof Hno as [_ Hroom%Nat.eqb_neq]%orb_false_iff. cbv zeta.
  set (c := if ch =? 13 then 10 else ch). assert (0 <= c < 256) as Hcr by (unfold c; destruct (ch =? 13); lia).
  assert (u8 c = c) as Hu8 by (apply Z.mod_small; exact Hcr).
  assert (echo c = [c]) as He by (unfold echo; rewrite (proj2 (Z.eqb_neq c BACKSPACE)), Hu8 by (unfold BACKSPACE; lia); done).
  assert (edit_echo ch cm ed = [c]) as Eo by (unfold edit_echo; by rewrite H2, H3, Hno).
  wp_step. wp_use (wp_consputc c k Ha). intros [] k1 (e & u & Hee & -> & Hu1 & Hu2 & Hu3 & Ht). rewrite He in Ht.
  pose proof (cons_store_spec _ _ _ c Hc ltac:(lia)) as Hst. rewrite Hu8 in Hst.
  wp_step. apply wp_modify. wp_step. apply wp_gets.
  set (k2 := set_cons (cons_store c (k_cons k)) (set_uart u (lset env_of e k))).
  change (set_cons _ _) with k2. change (k_cons k2) with (cons_store c (k_cons k)).
  rewrite (cons_full_spec _ _ _ Hst), length_app. cbn [length].
  replace (length cm + (length ed + 1) =? 128)%nat with (length cm + length ed =? 127)%nat
    by (destruct (Nat.eqb_spec (length cm + length ed) 127), (Nat.eqb_spec (length cm + (length ed + 1)) 128); lia || done).
  assert (edit ch cm ed = if (c =? 10) || (c =? C "D") || (length cm + length ed =? 127)%nat
            then (cm ++ ed ++ [c], []) else (cm, ed ++ [c])) as Hed by (unfold edit; by rewrite H1, H2, H3, Hno).
  destruct ((c =? 10) || (c =? C "D") || (length cm + length ed =? 127)%nat) eqn:Hcommit.
  - wp_step. apply wp_modify. apply wp_wakeup; [by eapply env_same_ok; [|apply Ha]|done|done|].
    intros e2 He2. unfold handled. rewrite Hed. cbn [fst snd]. split_and!.
    + by apply cons_commit_spec.
    + set_solver.
    + done.
    + rewrite bool_decide_eq_false_2; [done|]. intros E. apply (f_equal length) in E. rewrite !length_app in E. cbn in E. lia.
    + intros _. rewrite Eo. exact Ht.
    + by transitivity e.
  - apply orb_false_iff in Hcommit as [[Hn10%Z.eqb_neq _]%orb_false_iff _].
    wp_step. eapply (handled_edit _ (cons_store c (k_cons k)) _ [c]); [exact Hed|done|set_solver|done|by rewrite Eo|].
    exists e, u. by split_and!.
Qed.
End handler.

(** C37: the line discipline.  [consoleintr], called for an input character
    with the console's locks free, returns; control-U drops the line being
    typed, control-H and delete drop its last character, control-P leaves it
    alone, a NUL or a character for which the buffer is full is ignored, and
    any other character is appended, carriage return as newline; a newline,
    an end-of-file mark or a full buffer hands the line to the readers and
    wakes them.  Every change is echoed.  The 32-bit indices may wrap
    around. *)
Theorem consoleintr_correct k ch cm ed :
  alive k -> length (k_procs k) = NPROC -> procs_free k -> pr_lock (k_pr k) = initlock ->
  cn_lock (k_cons k) = initlock -> cons_ok (k_cons k) cm ed -> (10 ∉ ed) -> 0 <= ch < 256 ->
  wp (consoleintr ch) (fun _ k' => handled ch cm ed k k') k.
Proof.
  intros Ha Hlen Hfree Hpr Hlk Hc Hnl Hch. unfold consoleintr. wp_step. apply wp_acquire; [by cbn; rewrite Hlk|].
  set (lk := mkSpinlock true _). set (k1 := lset cons_lock _ _).
  assert (alive k1) as Ha1 by (destruct Ha as (? & ? & ?); split_and!; [by apply push_env_ok|done|done]).
  assert (cons_ok (k_cons k1) cm ed) as Hc1 by (by destruct Hc).
  wp_step. eapply (wp_mono _ (fun _ k' => handled ch cm ed k1 k')).
  - destruct (ch =? C "P") eqn:E1.
    { wp_use (wp_procdump k1 Ha1 Hpr). intros [] k' (out & Hout).
      eapply (handled_edit k1 cm ed ch (k_cons k1) ed out); try done; [unfold edit; by rewrite E1|].
      apply Z.eqb_eq in E1. by intros []. }
    destruct (ch =? C "U") eqn:E2.
    { wp_use (wp_kill_line k1 cm ed line_fuel); [|done|done|done|].
      - pose proof (co_len _ _ _ Hc) as Hl. unfold line_fuel. rewrite buf_size in *. lia.
      - intros [] k' (c' & Hc' & Hl & Hout). eapply handled_edit; [unfold edit; by rewrite E1, E2|exact Hc'|set_solver|exact Hl| |exact Hout].
        intros _. unfold edit_echo. by rewrite E2. }
    destruct ((ch =? C "H") || (ch =? 127)) eqn:E3; [by apply wp_erase|by apply wp_type].
  - intros [] k2 (H1 & H2 & H3 & H4 & H5 & H6).
    apply (wp_release_same cons_lock _ (lget env_of k)); [apply Ha|exact H6|by cbn; rewrite H3|].
    intros e He. unfold handled. split_and!; try done. by destruct H1.
Qed.

(** The console at boot. *)
Lemma cons_boot_ok : cons_ok (mkCons initlock (replicate (Z.to_nat INPUT_BUF_SIZE) 0) 0 0 0) [] [].
Proof. split; try done; vm_compute; lia. Qed.

Lemma consoleintr_correct_witness :
  let k := kernel_boot (mkKenv 0 0 false true 1 false [] []) [] (kboot kenv0 (mkSyms 0 0 0) ∅) (mkText 0 0 0 0 0) in
  wp (consoleintr 13) (fun _ k' => cons_ok (k_cons k') [10] [] /\ hw_tx (k_uart k') = [10]) k.
Proof.
  intros k. eapply wp_mono; [apply (consoleintr_correct k 13 [] [])|].
  - split_and!; [split; cbn; lia|done|done].
  - done.
  - apply Forall_replicate. done.
  - done.
  - done.
  - exact cons_boot_ok.
  - set_solver.
  - lia.
  - intros [] k' (H1 & _ & _ & _ & H5 & _). split; [exact H1|]. by rewrite H5.
Defined.
