(* ===== verification/Pipe.v ===== *)
(** * Pipes and open files (kernel/pipe.c, kernel/file.c)

    The two files call each other: closing a file closes a pipe, making a
    pipe allocates files.  *)

From Stdlib Require Import String.
From S2P Require Import Prelude Param Spinlock Sleeplock Str Bio Log Fs Mem Kalloc Vm Kernel Proc Console.

(** ** Ring buffer of a pipe *)

(** [pi->data[pi->nwrite++ % PIPESIZE] = ch] *)
Definition pipe_put (ch : Z) (pi : pipe) : pipe :=
  set_pinwrite (u32 (pi_nwrite pi + 1)) (set_pidata (<[Z.to_nat (pi_nwrite pi mod PIPESIZE) := ch]> (pi_data pi)) pi).
(** [pi->data[pi->nread++ % PIPESIZE]] *)
Definition pipe_head (pi : pipe) : Z := rd (pi_data pi) (Z.to_nat (pi_nread pi mod PIPESIZE)).
Definition pipe_take (pi : pipe) : pipe := set_pinread (u32 (pi_nread pi + 1)) pi.
Definition pipe_full (pi : pipe) : bool := pi_nwrite pi =? u32 (pi_nread pi + PIPESIZE).
Definition pipe_empty (pi : pipe) : bool := pi_nread pi =? pi_nwrite pi.

Definition nread_chan (pa : Z) : chan := ("pipe.nread", pa).
Definition nwrite_chan (pa : Z) : chan := ("pipe.nwrite", pa).

Definition pipeclose (pa : Z) (writable : bool) : M kernel unit :=
  with_env (pipe_lock pa) acquire ;;
  (if writable then updpi pa (set_piwo false) ;; wakeup (nread_chan pa)
   else updpi pa (set_piro false) ;; wakeup (nwrite_chan pa)) ;;
  pi <- getpi pa ;;
  if negb (pi_readopen pi) && negb (pi_writeopen pi) then
    with_env (pipe_lock pa) release ;;
    kmm (kfree pa) ;;
    modify (fun k => set_pipes (delete pa (k_pipes k)) k)
  else with_env (pipe_lock pa) release.

(** One turn of the loop of [pipewrite] at index [i]. *)
Definition pipewrite_turn (pa addr n : Z) (pr : nat) (i : Z) : M kernel (turn Z Z) :=
  if n <=? i then ret (Leave i) else
  pi <- getpi pa ;;
  kd <- (if negb (pi_readopen pi) then ret true else killed pr) ;;
  if kd : bool then ret (Leave (-1)) else
  if pipe_full pi then
    wakeup (nread_chan pa) ;;
    sleep (nwrite_chan pa) (pipe_lock pa) ;;
    ret (Again i)
  else
    p <- getp pr ;;
    r <- kmm (copyin (uproc_of p) (p_pagetable p) (u64 (addr + i)) 1) ;;
    if fst r =? -1 then ret (Leave i) else
    updpi pa (pipe_put (hd 0 (snd r))) ;;
    ret (Again (i + 1)).

Fixpoint pipewrite_loop (fuel : nat) (pa addr n : Z) (pr : nat) (i : Z) : M kernel Z :=
  match fuel with
  | O => no_fuel
  | S fuel' =>
      t <- pipewrite_turn pa addr n pr i ;;
      match t with
      | Again i => pipewrite_loop fuel' pa addr n pr i
      | Leave r => ret r
      end
  end.

(** The early return of a killed writer or a closed reader skips the
    wakeup. *)
Definition pipewrite (pa addr n : Z) : M kernel Z :=
  pr <- myproc_ptr ;;
  with_env (pipe_lock pa) acquire ;;
  r <- pipewrite_loop (S (Z.to_nat n)) pa addr n pr 0 ;;
  if r =? -1 then with_env (pipe_lock pa) release ;; ret (-1) else
  wakeup (nread_chan pa) ;;
  with_env (pipe_lock pa) release ;;
  ret r.

(** The wait of [piperead]: [Some] is its early return. *)
Definition piperead_wait (pa : Z) (pr : nat) : M kernel (option Z) :=
  pi <- getpi pa ;;
  if pipe_empty pi && pi_writeopen pi then
    kd <- killed pr ;;
    if kd : bool then ret (Some (-1))
    else sleep (nread_chan pa) (pipe_lock pa) ;; ret None
  else ret None.

Definition piperead_copy (pa addr : Z) (pr : nat) (n : Z) : M kernel Z :=
  r <- for_find (seqZ 0 n) (fun i =>
    pi <- getpi pa ;;
    if pipe_empty pi then ret (Some i) else
    let ch := pipe_head pi in
    updpi pa pipe_take ;;
    p <- getp pr ;;
    r <- kmm (copyout (uproc_of p) (p_pagetable p) (u64 (addr + i)) [ch]) ;;
    if r =? -1 then ret (Some i) else ret None) ;;
  ret (default (Z.max 0 n) r).

Definition piperead (pa addr n : Z) : M kernel Z :=
  pr <- myproc_ptr ;;
  with_env (pipe_lock pa) acquire ;;
  w <- piperead_wait pa pr ;;
  match w with
  | Some r => with_env (pipe_lock pa) release ;; ret r
  | None =>
      i <- piperead_copy pa addr pr n ;;
      wakeup (nwrite_chan pa) ;;
      with_env (pipe_lock pa) release ;;
      ret i
  end.

(** ** The file table *)

Definition all_files : list nat := seq 0 NFILE.

Definition fileinit : M kernel unit := modify (set_ftlock initlock).

Definition filealloc : M kernel (option nat) :=
  with_env ftable_lock acquire ;;
  r <- for_find all_files (fun i =>
    f <- getf i ;;
    if f_ref f =? 0 then updf i (set_fref 1) ;; ret (Some i) else ret None) ;;
  with_env ftable_lock release ;;
  ret r.

Definition filedup (i : nat) : M kernel nat :=
  with_env ftable_lock acquire ;;
  f <- getf i ;;
  if f_ref f <? 1 then panic "filedup" else
  updf i (fun f => set_fref (f_ref f + 1) f) ;;
  with_env ftable_lock release ;;
  ret i.

Definition kbegin_op : M kernel unit := kfs (flog begin_op).
Definition kend_op : M kernel unit := kfs (flog end_op).

Definition fileclose (i : nat) : M kernel unit :=
  with_env ftable_lock acquire ;;
  f <- getf i ;;
  if f_ref f <? 1 then panic "fileclose" else
  updf i (set_fref (f_ref f - 1)) ;;
  if 0 <? f_ref f - 1 then with_env ftable_lock release else
  ff <- getf i ;;
  updf i (set_fref 0) ;;
  updf i (set_ftype FD_NONE) ;;
  with_env ftable_lock release ;;
  match f_type ff with
  | FD_PIPE => pipeclose (f_pipe ff) (f_writable ff)
  | FD_INODE | FD_DEVICE =>
      kbegin_op ;;
      kfs (iput (f_ip ff)) ;;
      kend_op
  | FD_NONE => ret tt
  end.

Definition opt_do {A} (o : option A) (f : A -> M kernel unit) : M kernel unit :=
  match o with Some a => f a | None => ret tt end.

(** The two files, or the cleanup at [bad]. *)
Definition pipealloc : M kernel (option (nat * nat)) :=
  f0 <- filealloc ;;
  f1 <- (match f0 with Some _ => filealloc | None => ret None end) ;;
  pi <- (match f1 with Some _ => kmm kalloc | None => ret 0 end) ;;
  match f0, f1 with
  | Some i0, Some i1 =>
      if pi =? 0 then
        fileclose i0 ;; fileclose i1 ;; ret None
      else
        modify (fun k => set_pipes (<[pi := mkPipe initlock (replicate 512 5) 0 0 true true]> (k_pipes k)) k) ;;
        updf i0 (fun f => set_fpipe pi (set_fwritable false (set_freadable true (set_ftype FD_PIPE f)))) ;;
        updf i1 (fun f => set_fpipe pi (set_fwritable true (set_freadable false (set_ftype FD_PIPE f)))) ;;
        ret (Some (i0, i1))
  | _, _ => opt_do f0 fileclose ;; opt_do f1 fileclose ;; ret None
  end.

(** [struct stat] as it is laid out in memory: [int dev; uint ino; short
    type; short nlink; uint64 size]. *)
Definition enc_stat (st : stat) : list Z :=
  le_encode 4 (st_dev st) ++ le_encode 4 (st_ino st) ++ le_encode 2 (st_type st) ++
  le_encode 2 (st_nlink st) ++ replicate 4 0 ++ le_encode 8 (st_size st).

Definition filestat (i : nat) (addr : Z) : M kernel Z :=
  pr <- myproc_ptr ;;
  f <- getf i ;;
  match f_type f with
  | FD_INODE | FD_DEVICE =>
      kfs (ilock (Some (f_ip f))) ;;
      st <- kfs (stati (f_ip f)) ;;
      kfs (iunlock (Some (f_ip f))) ;;
      p <- getp pr ;;
      r <- kmm (copyout (uproc_of p) (p_pagetable p) addr (enc_stat st)) ;;
      if r <? 0 then ret (-1) else ret 0
  | _ => ret (-1)
  end.

(** [readi] and [writei] between a file and a user or kernel address. *)
Definition readi_at (user_dst : bool) (dst : Z) (ip : nat) (off n : Z) : M kernel Z :=
  readi fs_l (fun o bs => r <- either_copyout user_dst (u64 (dst + o)) bs ;; ret (negb (r =? -1))) ip off (u32 n).
Definition writei_at (user_src : bool) (src : Z) (ip : nat) (off n : Z) : M kernel Z :=
  writei fs_l (fun o m => r <- either_copyin user_src (u64 (src + o)) m ;; ret (negb (fst r =? -1), snd r)) ip off (u32 n).

Definition call_dev (fn : devfn) (addr n : Z) : M kernel Z :=
  match fn with
  | consoleread_fn => consoleread true addr n
  | consolewrite_fn => consolewrite true addr n
  end.
Definition dev_of (major : Z) : M kernel (option devsw) :=
  if (major <? 0) || (NDEV <=? major) then ret None
  else gets (fun k => k_devsw k !! Z.to_nat major).

Definition fileread (i : nat) (addr n : Z) : M kernel Z :=
  f <- getf i ;;
  if negb (f_readable f) then ret (-1) else
  match f_type f with
  | FD_PIPE => piperead (f_pipe f) addr n
  | FD_DEVICE =>
      d <- dev_of (f_major f) ;;
      match d with
      | Some (mkDevsw (Some fn) _) => call_dev fn addr n
      | _ => ret (-1)
      end
  | FD_INODE =>
      kfs (ilock (Some (f_ip f))) ;;
      r <- readi_at true addr (f_ip f) (f_off f) n ;;
      (when (0 <? r) do updf i (fun f => set_foff (u32 (f_off f + r)) f)) ;;
      kfs (iunlock (Some (f_ip f))) ;;
      ret r
  | FD_NONE => panic "fileread"
  end.

(** A write is cut into pieces that fit in a log transaction. *)
Definition max_write : Z := (MAXOPBLOCKS - 1 - 1 - 2) / 2 * BSIZE.

Fixpoint filewrite_loop (fuel : nat) (f : nat) (addr n i : Z) : M kernel Z :=
  match fuel with
  | O => no_fuel
  | S fuel' =>
      if n <=? i then ret i else
      let n1 := if max_write <? n - i then max_write else n - i in
      kbegin_op ;;
      fl <- getf f ;;
      kfs (ilock (Some (f_ip fl))) ;;
      r <- writei_at true (u64 (addr + i)) (f_ip fl) (f_off fl) n1 ;;
      (when (0 <? r) do updf f (fun f => set_foff (u32 (f_off f + r)) f)) ;;
      kfs (iunlock (Some (f_ip fl))) ;;
      kend_op ;;
      if negb (r =? n1) then ret i else
      filewrite_loop fuel' f addr n (i + r)
  end.

Definition filewrite (i : nat) (addr n : Z) : M kernel Z :=
  f <- getf i ;;
  if negb (f_writable f) then ret (-1) else
  match f_type f with
  | FD_PIPE => pipewrite (f_pipe f) addr n
  | FD_DEVICE =>
      d <- dev_of (f_major f) ;;
      match d with
      | Some (mkDevsw _ (Some fn)) => call_dev fn addr n
      | _ => ret (-1)
      end
  | FD_INODE =>
      r <- filewrite_loop (S (Z.to_nat n)) i addr n 0 ;;
      ret (if r =? n then n else -1)
  | FD_NONE => panic "filewrite"
  end.
