(* ===== verification/PipeProps.v ===== *)
(** * Pipes are byte queues *)

From Stdlib Require Import String.
From S2P Require Import Prelude Param Spinlock Sleeplock Str Ring Fs Mem Kalloc Vm VmSpec VmUser VmCopy VmProps Kernel Proc KernelSpec Console Pipe.

(** ** The queue in the ring buffer *)

Definition contents (pi : pipe) : list Z :=
  ring PIPESIZE (pi_data pi) (pi_nread pi) (u32 (pi_nwrite pi - pi_nread pi)).

Record pipe_ok (pi : pipe) : Prop := {
  po_data : length (pi_data pi) = Z.to_nat PIPESIZE;
  po_nread : 0 <= pi_nread pi < 2 ^ 32;
  po_nwrite : 0 <= pi_nwrite pi < 2 ^ 32;
  po_len : u32 (pi_nwrite pi - pi_nread pi) <= PIPESIZE
}.

Lemma contents_length pi : Z.of_nat (length (contents pi)) = u32 (pi_nwrite pi - pi_nread pi).
Proof. unfold contents. rewrite ring_length. pose proof (u32_range (pi_nwrite pi - pi_nread pi)). lia. Qed.

Lemma nwrite_eq pi : pipe_ok pi -> pi_nwrite pi = u32 (pi_nread pi + u32 (pi_nwrite pi - pi_nread pi)).
Proof. intros H. apply u32_sub_eq; [apply H..|done]. Qed.

Lemma pipe_full_spec pi : pipe_ok pi -> pipe_full pi = bool_decide (Z.of_nat (length (contents pi)) = PIPESIZE).
Proof.
  intros H. rewrite contents_length. unfold pipe_full. rewrite (nwrite_eq pi H) at 1.
  pose proof (u32_range (pi_nwrite pi - pi_nread pi)) as Hr. pose proof (po_len pi H). set (n := u32 _) in *.
  case_bool_decide as E; [rewrite E; apply Z.eqb_refl|]. apply Z.eqb_neq. intros E'. apply E.
  assert (u32 (u32 (pi_nread pi + n) - pi_nread pi) = u32 (u32 (pi_nread pi + PIPESIZE) - pi_nread pi)) as Hd by (by rewrite E').
  rewrite !u32_sub_add in Hd; unfold PIPESIZE in *; lia.
Qed.

Lemma pipe_empty_spec pi : pipe_ok pi -> pipe_empty pi = bool_decide (contents pi = []).
Proof.
  intros H. unfold pipe_empty. pose proof (contents_length pi) as Hl. case_bool_decide as E.
  - rewrite E in Hl. cbn in Hl. apply Z.eqb_eq. rewrite (nwrite_eq pi H), <- Hl, Z.add_0_r. symmetry. apply u32_small, H.
  - apply Z.eqb_neq. intros E'. apply E, nil_length_inv. rewrite <- E', Z.sub_diag in Hl. change (u32 0) with 0 in Hl. lia.
Qed.

Lemma pipe_put_spec pi ch :
  pipe_ok pi -> pipe_full pi = false ->
  pipe_ok (pipe_put ch pi) /\ contents (pipe_put ch pi) = contents pi ++ [ch].
Proof.
  intros H Hf. rewrite pipe_full_spec, contents_length in Hf by done. apply bool_decide_eq_false in Hf.
  pose proof (u32_range (pi_nwrite pi - pi_nread pi)) as Hr. pose proof (po_len pi H) as Hlen. pose proof (nwrite_eq pi H) as Hw.
  unfold contents, pipe_put. cbn [pi_nwrite pi_nread pi_data set_pinwrite set_pidata].
  set (n := u32 (pi_nwrite pi - pi_nread pi)) in *.
  assert (u32 (u32 (pi_nwrite pi + 1) - pi_nread pi) = n + 1) as Hn.
  { rewrite Hw, u32_add_l, <- Z.add_assoc, u32_sub_add; [done|unfold PIPESIZE in *; lia]. }
  split.
  - split; cbn; [by rewrite length_insert; apply H|apply H|apply u32_range|rewrite Hn; lia].
  - rewrite Hn, Hw. apply ring_push; [apply ring_size_512|by rewrite (po_data pi H)|lia].
Qed.

Lemma pipe_take_spec pi :
  pipe_ok pi -> pipe_empty pi = false ->
  pipe_ok (pipe_take pi) /\ contents pi = pipe_head pi :: contents (pipe_take pi).
Proof.
  intros H He. rewrite pipe_empty_spec in He by done. apply bool_decide_eq_false in He.
  pose proof (contents_length pi) as Hl. pose proof (po_len pi H) as Hlen. pose proof (nwrite_eq pi H) as Hw.
  assert (0 < u32 (pi_nwrite pi - pi_nread pi)) as Hpos by (destruct (contents pi); [done|cbn in Hl; lia]).
  unfold contents, pipe_take, pipe_head. cbn [pi_nwrite pi_nread pi_data set_pinread].
  set (n := u32 (pi_nwrite pi - pi_nread pi)) in *.
  assert (u32 (pi_nwrite pi - u32 (pi_nread pi + 1)) = n - 1) as Hn.
  { rewrite u32_sub_r. replace (pi_nwrite pi - (pi_nread pi + 1)) with (pi_nwrite pi - pi_nread pi - 1) by lia.
    rewrite <- u32_sub_l. fold n. apply u32_small. unfold PIPESIZE in *. lia. }
  split.
  - split; cbn; [apply H|apply u32_range|apply H|rewrite Hn; lia].
  - rewrite Hn. by apply ring_pop; [apply ring_size_512|].
Qed.

(** ** Writers and readers under the pipe's lock

    Every transition is one turn of the loop of [pipewrite] or [piperead];
    [w] and [r] are the bytes put in and taken out so far. *)

Inductive pipe_step : pipe * list Z * list Z -> pipe * list Z * list Z -> Prop :=
| step_put pi w r ch : pipe_full pi = false -> pipe_step (pi, w, r) (pipe_put ch pi, w ++ [ch], r)
| step_take pi w r : pipe_empty pi = false -> pipe_step (pi, w, r) (pipe_take pi, w, r ++ [pipe_head pi])
| step_close_write pi w r : pipe_step (pi, w, r) (set_piwo false pi, w, r)
| step_close_read pi w r : pipe_step (pi, w, r) (set_piro false pi, w, r).

(** A pipe as [pipealloc] makes it, in a page with any contents. *)
Definition pipe_new (data : list Z) : pipe := mkPipe initlock data 0 0 true true.

(** C18: a pipe is a FIFO queue of at most PIPESIZE bytes.  However writers
    and readers interleave, and however often the 32-bit counters wrap
    around, what has been read is a prefix of what has been written, the
    rest is in the buffer; the writer waits exactly when PIPESIZE bytes are
    there and the reader exactly when there is none. *)
Theorem pipe_fifo data pi w r :
  length data = Z.to_nat PIPESIZE -> rtc pipe_step (pipe_new data, [], []) (pi, w, r) ->
  w = r ++ contents pi /\ (length (contents pi) <= Z.to_nat PIPESIZE)%nat /\
  (pipe_full pi = true <-> length w = (length r + Z.to_nat PIPESIZE)%nat) /\
  (pipe_empty pi = true <-> w = r).
Proof.
  intros Hd Hr.
  assert (pipe_ok pi /\ w = r ++ contents pi) as [Hok ->].
  { refine (rtc_preserves pipe_step (fun s => pipe_ok (fst (fst s)) /\ snd (fst s) = snd s ++ contents (fst (fst s))) _ _ _ Hr _).
    - intros s1 s2 Hs [Hok Hw]. destruct Hs as [pi0 w0 r0 ch Hf|pi0 w0 r0 He|pi0 w0 r0|pi0 w0 r0]; cbn [fst snd] in *.
      + destruct (pipe_put_spec pi0 ch Hok Hf) as [? ->]. split; [done|]. by rewrite Hw, app_assoc.
      + destruct (pipe_take_spec pi0 Hok He) as [? E]. split; [done|]. by rewrite Hw, E, <- app_assoc.
      + by destruct Hok.
      + by destruct Hok.
    - cbn. split; [split; cbn; try lia; by vm_compute|done]. }
  pose proof (contents_length pi) as Hl. pose proof (po_len pi Hok).
  rewrite pipe_full_spec, pipe_empty_spec, !bool_decide_eq_true, length_app by done. split_and!; [done|lia|lia|].
  split; [by intros ->; rewrite app_nil_r|]. intros E. apply (app_inv_head r). by rewrite E, app_nil_r.
Qed.

Lemma pipe_fifo_witness :
  let data := replicate 512 5 in
  exists pi, rtc pipe_step (pipe_new data, [], []) (pi, [104; 105], [104]) /\ [104; 105] = [104] ++ contents pi.
Proof.
  set (pi := pipe_take (pipe_put 105 (pipe_put 104 (pipe_new (replicate 512 5))))). exists pi.
  assert (rtc pipe_step (pipe_new (replicate 512 5), [], []) (pi, [104; 105], [104])) as Hr.
  { eapply rtc_l; [by apply (step_put _ _ _ 104)|]. eapply rtc_l; [by apply (step_put _ _ _ 105)|].
    eapply rtc_l; [by apply step_take|]. apply rtc_refl. }
  split; [exact Hr|]. by apply (pipe_fifo (replicate 512 5) pi [104; 105] [104]).
Defined.
