(* ===== verification/PipeUser.v ===== *)
(** * Pipes between user processes

    [pipewrite] moves bytes of the caller's address space into the pipe. *)

From Stdlib Require Import String.
From S2P Require Import Prelude Param Spinlock Sleeplock Str Ring Fs Mem Kalloc Vm VmSpec VmUser VmCopy VmProps Kernel Proc KernelSpec Console Pipe PipeProps.

(** The kernel with memory [s] and pipes [P]. *)
Definition kst (k : kernel) (P : gmap Z pipe) (s : kmem) : kernel := set_pipes P (lset kmem_l s k).

Lemma kst_kmem k P s : lget kmem_l (kst k P s) = s.
Proof. by destruct s. Qed.
Lemma kst_env k P s e : lset env_of e (kst k P s) = kst k P (set_kenv e s).
Proof. done. Qed.

Lemma us_ok_env s root T fl L e : us_ok s root T fl L -> env_ok e -> us_ok (set_kenv e s) root T fl L.
Proof.
  intros [[K V W] ? ? ? ?] He. split; try done. split; [by destruct K; split|done|done].
Qed.

Lemma faulted_env s root T fl L sz e :
  us_ok s root T fl L -> env_same (km_env s) e -> faulted s root T fl L sz (set_kenv e s) T fl L.
Proof.
  intros U He. split; try done; [|by left].
  apply us_ok_env; [done|]. eapply env_same_ok; [done|]. apply U.
Qed.

(** The running process [pr] with its address space: not killed, its lock
    free, at most as large as user space. *)
Record runs (k : kernel) (pr : nat) (root sz : Z) : Prop := {
  rn_cur : k_cur k = Some pr;
  rn_lt : (pr < length (k_procs k))%nat;
  rn_lock : p_lock (k_procs k !!! pr) = initlock;
  rn_killed : p_killed (k_procs k !!! pr) = false;
  rn_pagetable : p_pagetable (k_procs k !!! pr) = root;
  rn_sz : p_sz (k_procs k !!! pr) = sz;
  rn_small : sz <= TRAPFRAME
}.

(** A byte the process cannot read: outside its memory, or with no memory
    left to bring it in. *)
Definition unreadable (m : mem) (L : Z -> Z) (sz va : Z) (fl : list Z) : Prop :=
  ubyte m L sz (PGROUNDDOWN va) = None \/ (length fl <= 1)%nat.

Section write.
Context (k : kernel) (P : gmap Z pipe) (pa addr n : Z) (pr : nat) (root sz : Z).
Context (Hrun : runs k pr root sz) (Haddr : 0 <= addr) (Hend : addr + n <= 2 ^ 64).

(** One byte from user memory into a pipe that has room. *)
Lemma wp_pipewrite_turn s T fl L pi i :
  us_ok s root T fl L -> pipe_ok pi -> pi_readopen pi = true -> pipe_full pi = false -> 0 <= i < n ->
  wp (pipewrite_turn pa addr n pr i) (fun t k' => exists s' T' fl' L', faulted s root T fl L sz s' T' fl' L' /\
    ((exists b, t = Again (i + 1) /\ k' = kst k (<[pa := pipe_put b pi]> P) s' /\ ubyte (km_mem s) L sz (addr + i) = Some b) \/
     (t = Leave i /\ k' = kst k (<[pa := pi]> P) s' /\ unreadable (km_mem s) L sz (addr + i) fl')))
    (kst k (<[pa := pi]> P) s).
Proof.
  intros U Hpi Hro Hfull Hi. unfold pipewrite_turn. rewrite (proj2 (Z.leb_gt n i)) by lia.
  wp_step. apply wp_gets. change (k_pipes (kst k (<[pa := pi]> P) s)) with (<[pa := pi]> P).
  rewrite lookup_total_insert_eq, Hro. cbn [negb]. wp_step.
  apply wp_killed; [apply U|apply Hrun|apply Hrun|]. intros e He. rewrite kst_env.
  change (k_procs (kst k (<[pa := pi]> P) s)) with (k_procs k). rewrite (rn_killed _ _ _ _ Hrun), Hfull.
  pose proof (faulted_env s root T fl L sz e U He) as F0.
  wp_step. apply wp_gets. change (k_procs (kst k (<[pa := pi]> P) (set_kenv e s))) with (k_procs k).
  unfold uproc_of. rewrite (rn_pagetable _ _ _ _ Hrun), (rn_sz _ _ _ _ Hrun), u64_small by lia.
  wp_step. apply wp_zoom. rewrite kst_kmem. unfold copyin.
  wp_use (wp_copyin_loop (copy_fuel 1) (set_kenv e s) root T fl L sz (addr + i) 1 []);
    [apply F0|apply Hrun|lia|lia|by apply cturns_fuel|].
  intros [st bs'] s' (bs & Hb & T' & fl' & L' & F & Hat & Hres). cbn [fst snd app] in *. subst bs'.
  pose proof (faulted_trans _ _ _ _ _ _ _ _ _ _ _ _ _ _ F0 F) as F1.
  change (lset kmem_l s' (kst k (<[pa := pi]> P) (set_kenv e s))) with (kst k (<[pa := pi]> P) s').
  destruct Hres as [[-> Hlen]|[-> (j & Hj & Hwhy)]]; cbn [Z.eqb].
  - destruct bs as [|b [|]]; [done| |cbn in Hlen; lia]. cbn [hd]. wp_step. apply wp_modify. wp_step.
    exists s', T', fl', L'. split; [done|]. left. exists b. split_and!; [done| |].
    + change (set_pipes (alter (pipe_put b) pa (<[pa := pi]> P)) (lset kmem_l s' k) = kst k (<[pa := pipe_put b pi]> P) s').
      by rewrite alter_insert_eq.
    + specialize (Hat 0%nat b eq_refl). by rewrite Z.add_0_r in Hat.
  - cbn [Pos.eqb]. wp_step. exists s', T', fl', L'. split; [done|]. right. split_and!; [done|done|]. assert (j = 0) as -> by lia.
    rewrite Z.add_0_r in Hwhy. destruct Hwhy as [?|[_ ?]]; [by left|by right].
Qed.

(** What has happened after a number of turns. *)
Definition written (s : kmem) (T : tree) (fl : list Z) (L : Z -> Z) (pi : pipe) (i r : Z) (k' : kernel) : Prop :=
  exists bs pi' s' T' fl' L', r = i + Z.of_nat (length bs) /\ r <= n /\ k' = kst k (<[pa := pi']> P) s' /\
    faulted s root T fl L sz s' T' fl' L' /\ pipe_ok pi' /\ contents pi' = contents pi ++ bs /\
    pi_lock pi' = pi_lock pi /\ at_user (km_mem s) L sz (addr + i) bs /\
    (r < n -> unreadable (km_mem s) L sz (addr + r) fl').

Lemma written_step s T fl L pi i b s1 T1 f1 L1 r k' :
  faulted s root T fl L sz s1 T1 f1 L1 -> pipe_ok pi -> pipe_full pi = false -> 0 <= i ->
  ubyte (km_mem s) L sz (addr + i) = Some b ->
  written s1 T1 f1 L1 (pipe_put b pi) (i + 1) r k' -> written s T fl L pi i r k'.
Proof.
  intros F Hpi Hf Hi Hb (bs & pi' & s' & T' & f' & L' & -> & Hrn & -> & F' & Hok & Hc & Hl & Hat & Hu).
  destruct (pipe_put_spec pi b Hpi Hf) as [_ Hput]. exists (b :: bs), pi', s', T', f', L'. cbn [length].
  split_and!; [lia|lia|done|by eapply faulted_trans|done| |done| |].
  - by rewrite Hc, Hput, <- app_assoc.
  - intros [|x] c Hx; cbn in Hx; [injection Hx as <-; by rewrite Z.add_0_r|].
    rewrite <- (faulted_ubyte _ _ _ _ _ _ _ _ _ _ _ F) by lia. rewrite <- (Hat x c Hx). f_equal. lia.
  - intros Hlt. destruct (Hu Hlt) as [E|]; [left|by right].
    rewrite <- E. symmetry. eapply faulted_ubyte; [done|]. apply rounddown_nonneg. lia.
Qed.

Lemma wp_pipewrite_loop fuel s T fl L pi i :
  us_ok s root T fl L -> pipe_ok pi -> pi_readopen pi = true -> 0 <= i <= n ->
  Z.of_nat (length (contents pi)) + (n - i) <= PIPESIZE -> n - i < Z.of_nat fuel ->
  wp (pipewrite_loop fuel pa addr n pr i) (written s T fl L pi i) (kst k (<[pa := pi]> P) s).
Proof.
  revert s T fl L pi i. induction fuel as [|fuel IH]; intros s T fl L pi i U Hpi Hro Hi Hroom Hf; [lia|].
  cbn [pipewrite_loop]. destruct (decide (i = n)) as [->|Hne].
  { unfold pipewrite_turn at 1. rewrite (proj2 (Z.leb_le n n)) by lia. wp_steps.
    exists [], pi, s, T, fl, L. cbn [length]. rewrite app_nil_r.
    split_and!; by apply faulted_refl || lia || done. }
  assert (pipe_full pi = false) as Hfull.
  { rewrite pipe_full_spec by done. apply bool_decide_eq_false. lia. }
  wp_step. wp_use (wp_pipewrite_turn s T fl L pi i U Hpi Hro Hfull); [lia|].
  intros t k' (s1 & T1 & f1 & L1 & F & [(b & -> & -> & Hb)|(-> & -> & Hu)]).
  - destruct (pipe_put_spec pi b Hpi Hfull) as [Hok Hc].
    eapply wp_mono; [apply (IH s1 T1 f1 L1 (pipe_put b pi) (i + 1)); [apply F|done|done|lia| |lia]|].
    + rewrite Hc, length_app. cbn [length]. lia.
    + intros r k' Hw. by eapply written_step; [done..|lia| |].
  - wp_step. exists [], pi, s1, T1, f1, L1. cbn [length]. rewrite app_nil_r.
    split_and!; try done; lia.
Qed.
End write.

(** No lock is held and the environment is in order. *)
Record quiet (k : kernel) : Prop := {
  q_env : env_ok (lget env_of k);
  q_kmem : km_env (k_kmem k) = kenv0;
  q_len : length (k_procs k) = NPROC;
  q_procs : procs_free k
}.

(** The kernel with another environment, as [kst] writes it. *)
Lemma kst_intro k P e :
  km_env (k_kmem k) = kenv0 -> set_pipes P (lset env_of e k) = kst k P (set_kenv e (lget kmem_l k)).
Proof.
  intros H. change (set_pipes P (lset env_of e k) = set_pipes P (set_kkmem (set_kenv kenv0 (k_kmem k)) (lset env_of e k))).
  rewrite <- H. by destruct k as [? []].
Qed.

(** C36: [pipewrite] on a pipe with room for the request.  It returns the
    number of bytes taken; these are the bytes of the caller's address space
    at [addr], appended to the queue in order; the count is short only at an
    address the caller cannot read; user memory, the other pipes and the
    other processes are unchanged, except that the sleeping readers of this
    pipe become runnable; all locks are free again. *)
Theorem pipewrite_correct k pa addr n pr pi root sz T fl L :
  quiet k -> runs k pr root sz -> us_ok (lget kmem_l k) root T fl L ->
  k_pipes k !! pa = Some pi -> pipe_ok pi -> pi_lock pi = initlock -> pi_readopen pi = true ->
  0 <= addr -> 0 <= n -> addr + n <= 2 ^ 64 -> Z.of_nat (length (contents pi)) + n <= PIPESIZE ->
  wp (pipewrite pa addr n) (fun r k' => exists bs pi' T' fl' L',
    r = Z.of_nat (length bs) /\ at_user (km_mem (k_kmem k)) L sz addr bs /\
    (r = n \/ r < n /\ unreadable (km_mem (k_kmem k)) L sz (addr + r) fl') /\
    k_pipes k' = <[pa := pi']> (k_pipes k) /\ pipe_ok pi' /\ pi_lock pi' = initlock /\ contents pi' = contents pi ++ bs /\
    k_procs k' = wake_all (Some pr) (nread_chan pa) (k_procs k) /\
    us_ok (lget kmem_l k') root T' fl' L' /\
    (forall x, 0 <= x -> ubyte (km_mem (k_kmem k')) L' sz x = ubyte (km_mem (k_kmem k)) L sz x) /\
    env_same (lget env_of k) (lget env_of k')) k.
Proof.
  intros [Hok Hkm Hlen Hfree] Hrun U Hpi Hpok Hlk Hro Ha Hn Hend Hroom. unfold pipewrite.
  wp_step. apply (wp_myproc_ptr k Hok pr); [apply Hrun|]. intros e1 He1.
  pose proof (env_same_ok _ _ He1 Hok) as Hok1.
  wp_step. apply wp_acquire.
  { cbn [lget pipe_lock]. change (k_pipes (lset env_of e1 k)) with (k_pipes k). by rewrite (lookup_total_correct _ _ _ Hpi), Hlk. }
  set (lk := mkSpinlock true (Some (e_cpu (lget env_of (lset env_of e1 k))))).
  set (s0 := set_kenv (push_env e1) (lget kmem_l k)).
  assert (lset (pipe_lock pa) lk (lset env_of (push_env (lget env_of (lset env_of e1 k))) (lset env_of e1 k)) =
    kst k (<[pa := set_pilock lk pi]> (k_pipes k)) s0) as ->.
  { unfold s0. rewrite <- kst_intro by done.
    change (set_pipes (alter (set_pilock lk) pa (k_pipes k)) (lset env_of (push_env e1) k) =
      set_pipes (<[pa := set_pilock lk pi]> (k_pipes k)) (lset env_of (push_env e1) k)).
    f_equal. apply map_eq. intros i. destruct (decide (i = pa)) as [->|]; [by rewrite lookup_alter_eq, lookup_insert_eq, Hpi|].
    by rewrite lookup_alter_ne, lookup_insert_ne. }
  wp_step. wp_use (wp_pipewrite_loop k (k_pipes k) pa addr n pr root sz Hrun Ha Hend (S (Z.to_nat n)) s0 T fl L (set_pilock lk pi) 0).
  { apply us_ok_env; [done|by apply push_env_ok]. } { by destruct Hpok. } { done. } { lia. } { change (contents (set_pilock lk pi)) with (contents pi). lia. } { lia. }
  intros r k1 (bs & pi' & s' & T' & fl' & L' & -> & Hrn & -> & F & Hok' & Hc & Hl' & Hat & Hu).
  rewrite Z.add_0_l in *. rewrite (proj2 (Z.eqb_neq _ (-1))) by lia.
  pose proof (fa_frame _ _ _ _ _ _ _ _ _ _ F) as (_ & He2 & _).
  wp_step. apply wp_wakeup; [apply (fa_ok _ _ _ _ _ _ _ _ _ _ F)|done|done|]. intros e2 He3.
  wp_step. apply (wp_release_same (pipe_lock pa) _ e1); [done| | |].
  { change (lget env_of _) with e2. transitivity (km_env s'); [exact He2|exact He3]. }
  { change (pi_lock (<[pa := pi']> (k_pipes k) !!! pa) = mkSpinlock true (Some (e_cpu e1))).
    by rewrite lookup_total_insert_eq, Hl'. }
  intros e3 He4. wp_step. exists bs, (set_pilock initlock pi'), T', fl', L'.
  split_and!.
  - done.
  - by rewrite Z.add_0_r in Hat.
  - destruct (decide (Z.of_nat (length bs) = n)) as [|Hne]; [by left|right]. split; [lia|]. apply Hu. lia.
  - change (alter (set_pilock initlock) pa (<[pa := pi']> (k_pipes k)) = <[pa := set_pilock initlock pi']> (k_pipes k)).
    by rewrite alter_insert_eq.
  - by destruct Hok'.
  - done.
  - exact Hc.
  - change (k_cur (kst k (<[pa := pi']> (k_pipes k)) s')) with (k_cur k). by rewrite (rn_cur _ _ _ _ Hrun).
  - change (us_ok (set_kenv e3 (set_kenv kenv0 s')) root T' fl' L'). apply (us_ok_env (set_kenv kenv0 s')).
    + apply us_ok_env; [apply F|]. split; cbn; lia.
    + by eapply env_same_ok.
  - intros x Hx. change (ubyte (km_mem s') L' sz x = ubyte (km_mem s0) L sz x). eapply faulted_ubyte; done.
  - change (env_same (lget env_of k) e3). by transitivity e1.
Qed.

(** A machine with one process whose address space is empty but may grow to
    a page, and a pipe. *)
Module PipeDemo.
Definition p0 (root : Z) : proc := set_psz PGSIZE (set_ppagetable root (set_ppid 1 (set_pstate RUNNING proc0))).
Definition k0 (s : kmem) (root : Z) : kernel :=
  set_pipes {[ 4096 := pipe_new (replicate 512 5) ]}
    (set_cur (Some 0%nat) (set_procs (p0 root :: replicate 63 proc0)
      (kernel_boot (mkKenv 0 0 false true 1 false [] []) [] s (mkText 0 0 0 0 0)))).

Lemma k0_quiet s root : quiet (k0 s root).
Proof.
  split; [split; cbn; lia|done|done|]. unfold procs_free, k0. cbn [k_procs set_pipes set_cur set_procs].
  constructor; [done|]. apply Forall_replicate. done.
Qed.

Lemma k0_runs s root : runs (k0 s root) 0 root PGSIZE.
Proof. split; try done. unfold k0. cbn [k_procs set_pipes set_cur set_procs length]. lia. Qed.

Lemma k0_us s root T fl L : us_ok s root T fl L -> us_ok (lget kmem_l (k0 s root)) root T fl L.
Proof.
  intros U. change (us_ok (set_kenv (mkKenv 0 0 false true 1 false [] []) (set_kenv kenv0 s)) root T fl L).
  apply us_ok_env; [apply us_ok_env; [done|]|]; split; cbn; lia.
Qed.
End PipeDemo.

Lemma pipewrite_correct_witness :
  exists k, wp (pipewrite 4096 10 3) (fun r k' => 0 <= r) k.
Proof.
  destruct VmDemo.vm_booted as (s & root & fl & U & Hl). exists (PipeDemo.k0 s root).
  eapply wp_mono; [apply (pipewrite_correct (PipeDemo.k0 s root) 4096 10 3 0 (pipe_new (replicate 512 5)) root PGSIZE
    {[ [] := root ]} fl (fun _ => 0))|].
  - apply PipeDemo.k0_quiet.
  - apply PipeDemo.k0_runs.
  - by apply PipeDemo.k0_us.
  - done.
  - split; cbn; try lia; by vm_compute.
  - done.
  - done.
  - lia.
  - lia.
  - lia.
  - by vm_compute.
  - intros r k' (bs & _ & _ & _ & _ & -> & _). lia.
Defined.
