(* ===== verification/ProcLife.v ===== *)
(** * Fork, exit and wait (kernel/proc.c) *)

From Stdlib Require Import String.
From S2P Require Import Prelude Param Spinlock Sleeplock Str Bio Log Fs Mem Kalloc Vm Kernel Proc Console Pipe.

Definition all_fds : list nat := seq 0 NOFILE.

Definition kfork : M kernel Z :=
  i <- myproc_ptr ;;
  a <- allocproc ;;
  match a with
  | None => ret (-1)
  | Some np =>
      p <- getp i ;;
      q <- getp np ;;
      r <- kmm (uvmcopy (p_pagetable p) (p_pagetable q) (p_sz p)) ;;
      if r <? 0 then freeproc np ;; with_env (proc_lock np) release ;; ret (-1) else
      updp np (set_psz (p_sz p)) ;;
      (* *(np->trapframe) = *(p->trapframe) *)
      kmm (modify (fun s => set_mem (mmove (p_trapframe q) (p_trapframe p) sizeof_trapframe (km_mem s)) s)) ;;
      tf_set np tf_a0 0 ;;
      for_each all_fds (fun fd =>
        opt_do (default None (p_ofile p !! fd)) (fun f =>
          f' <- filedup f ;;
          updp np (fun q => set_pofile (<[fd := Some f']> (p_ofile q)) q))) ;;
      (match p_cwd p with
       | Some c => c' <- kfs (idup c) ;; updp np (set_pcwd (Some c'))
       | None => panic "null inode"
       end) ;;
      updp np (fun q => set_pname (safestrcpy (p_name q) (p_name p) 16) q) ;;
      q <- getp np ;;
      let pid := p_pid q in
      with_env (proc_lock np) release ;;
      with_env waitlock_l acquire ;;
      updp np (set_pparent (Some i)) ;;
      with_env waitlock_l release ;;
      with_env (proc_lock np) acquire ;;
      updp np (set_pstate RUNNABLE) ;;
      with_env (proc_lock np) release ;;
      ret pid
  end.

(** A process pointer as a wait channel; [wakeup(0)] for a null one. *)
Definition proc_chan (p : option nat) : chan := ("proc", match p with Some i => Z.of_nat i | None => -1 end).

Definition reparent (i : nat) : M kernel unit :=
  for_each all_procs (fun j =>
    pp <- getp j ;;
    when (bool_decide (p_parent pp = Some i)) do
      (ini <- gets initproc ;;
       updp j (set_pparent ini) ;;
       wakeup (proc_chan ini))).

(** [kexit] up to the switch to the scheduler, from which it never comes
    back. *)
Definition kexit (status : Z) : M kernel unit :=
  i <- myproc_ptr ;;
  ini <- gets initproc ;;
  if bool_decide (ini = Some i) then panic "init exiting" else
  for_each all_fds (fun fd =>
    p <- getp i ;;
    opt_do (default None (p_ofile p !! fd)) (fun f =>
      fileclose f ;;
      updp i (fun p => set_pofile (<[fd := None]> (p_ofile p)) p))) ;;
  kbegin_op ;;
  p <- getp i ;;
  (match p_cwd p with Some c => kfs (iput c) | None => panic "null inode" end) ;;
  kend_op ;;
  updp i (set_pcwd None) ;;
  with_env waitlock_l acquire ;;
  reparent i ;;
  p <- getp i ;;
  wakeup (proc_chan (p_parent p)) ;;
  with_env (proc_lock i) acquire ;;
  updp i (set_pxstate status) ;;
  updp i (set_pstate ZOMBIE) ;;
  with_env waitlock_l release ;;
  sched ;;
  panic "zombie exit".

(** The scan of [kwait] for a child that has exited: [inl] is the result of
    the call, [inr] says whether there is any child. *)
Fixpoint wait_scan (i : nat) (addr : Z) (havekids : bool) (l : list nat) : M kernel (Z + bool) :=
  match l with
  | [] => ret (inr havekids)
  | j :: l' =>
      pp <- getp j ;;
      if bool_decide (p_parent pp = Some i) then
        with_env (proc_lock j) acquire ;;
        pp <- getp j ;;
        if bool_decide (p_state pp = ZOMBIE) then
          let pid := p_pid pp in
          p <- getp i ;;
          r <- (if addr =? 0 then ret 0
                else kmm (copyout (uproc_of p) (p_pagetable p) addr (le_encode 4 (p_xstate pp)))) ;;
          if r <? 0 then
            with_env (proc_lock j) release ;;
            with_env waitlock_l release ;;
            ret (inl (-1))
          else
            freeproc j ;;
            with_env (proc_lock j) release ;;
            with_env waitlock_l release ;;
            ret (inl pid)
        else
          with_env (proc_lock j) release ;;
          wait_scan i addr true l'
      else wait_scan i addr havekids l'
  end.

(** [kwait]: the loop comes round again only after a sleep. *)
Definition kwait (addr : Z) : M kernel Z :=
  i <- myproc_ptr ;;
  with_env waitlock_l acquire ;;
  r <- wait_scan i addr false all_procs ;;
  match r with
  | inl v => ret v
  | inr havekids =>
      kd <- (if havekids : bool then killed i else ret true) ;;
      if kd : bool then with_env waitlock_l release ;; ret (-1) else
      sleep (proc_chan (Some i)) waitlock_l ;;
      ret (-1)
  end.
