(* ===== verification/Exec.v ===== *)
(** * Program loading (kernel/exec.c, kernel/elf.h) *)

From Stdlib Require Import String.
From S2P Require Import Prelude Param Spinlock Sleeplock Str Bio Log Fs Mem Kalloc Vm Printf Kernel Proc Console Pipe.

Definition ELF_MAGIC : Z := 0x464C457F.
Definition ELF_PROG_LOAD : Z := 1.

Record elfhdr := mkElfhdr {
  e_magic : Z;
  e_entry : Z;
  e_phoff : Z;
  e_phnum : Z
}.
Definition sizeof_elfhdr : Z := 64.
Definition get_u16 (off : nat) (bs : list Z) : Z := le_decode (slice off 2 bs).
Definition get_u64 (off : nat) (bs : list Z) : Z := le_decode (slice off 8 bs).
Definition dec_elfhdr (bs : list Z) : elfhdr :=
  mkElfhdr (get_u32 0 bs) (get_u64 24 bs) (get_u64 32 bs) (get_u16 56 bs).

Record proghdr := mkProghdr {
  ph_type : Z;
  ph_flags : Z;
  ph_off : Z;
  ph_vaddr : Z;
  ph_filesz : Z;
  ph_memsz : Z
}.
Definition sizeof_proghdr : Z := 56.
Definition dec_proghdr (bs : list Z) : proghdr :=
  mkProghdr (get_u32 0 bs) (get_u32 4 bs) (get_u64 8 bs) (get_u64 16 bs) (get_u64 32 bs) (get_u64 40 bs).

Definition flags2perm (flags : Z) : Z :=
  let perm := if negb (Z.land flags 0x1 =? 0) then PTE_X else 0 in
  if negb (Z.land flags 0x2 =? 0) then Z.lor perm PTE_W else perm.

(** The page offsets [0, PGSIZE, ...] below [sz]. *)
Definition page_offsets (sz : Z) : list Z := (fun k => k * PGSIZE) <$> seqZ 0 ((sz + PGSIZE - 1) / PGSIZE).

Definition loadseg (pagetable va : Z) (ip : nat) (offset sz : Z) : M kernel Z :=
  r <- for_find (page_offsets sz) (fun i =>
    pa <- kmm (walkaddr pagetable (u64 (va + i))) ;;
    if pa =? 0 then panic "loadseg: address should exist" else
    let n := if sz - i <? PGSIZE then sz - i else PGSIZE in
    r <- readi_at false pa ip (u32 (offset + i)) n ;;
    if negb (u32 r =? n) then ret (Some (-1)) else ret None) ;;
  ret (default 0 r).

(** One program header: the new size, or the jump to [bad] with the size
    reached. *)
Definition load_one (pagetable : Z) (ip : nat) (sz : Z) (ph : proghdr) : M kernel (Z + Z) :=
  if negb (ph_type ph =? ELF_PROG_LOAD) then ret (inr sz) else
  if ph_memsz ph <? ph_filesz ph then ret (inl sz) else
  if u64 (ph_vaddr ph + ph_memsz ph) <? ph_vaddr ph then ret (inl sz) else
  if negb (ph_vaddr ph mod PGSIZE =? 0) then ret (inl sz) else
  sz1 <- kmm (uvmalloc pagetable sz (u64 (ph_vaddr ph + ph_memsz ph)) (flags2perm (ph_flags ph))) ;;
  if sz1 =? 0 then ret (inl sz) else
  r <- loadseg pagetable (ph_vaddr ph) ip (u32 (ph_off ph)) (u32 (ph_filesz ph)) ;;
  if r <? 0 then ret (inl sz1) else ret (inr sz1).

Fixpoint load_loop (n : nat) (pagetable : Z) (ip : nat) (sz off : Z) : M kernel (Z + Z) :=
  match n with
  | O => ret (inr sz)
  | S n' =>
      r <- kfs (readi_kernel ip (u32 off) sizeof_proghdr) ;;
      if negb (fst r =? sizeof_proghdr) then ret (inl sz) else
      l <- load_one pagetable ip sz (dec_proghdr (snd r)) ;;
      match l with
      | inl sz => ret (inl sz)
      | inr sz => load_loop n' pagetable ip sz (s32 (off + sizeof_proghdr))
      end
  end.

(** The argument strings go on the new stack from the top down, each at an
    address that is a multiple of 16; [ustack] collects the addresses.  The
    copy to user memory is the argument [put]. *)
Section args.
Context {S : Type} (put : Z -> list Z -> M S Z).

Definition align16 (sp : Z) : Z := sp - sp mod 16.

Fixpoint push_args (stackbase argc sp : Z) (ustack : list Z) (argv : list (list Z)) : M S (option (Z * list Z)) :=
  match argv with
  | [] => ret (Some (sp, ustack))
  | s :: argv' =>
      if MAXARG <=? argc then ret None else
      let sp := align16 (u64 (sp - (strlen s + 1))) in
      if sp <? stackbase then ret None else
      r <- put sp (cstr s ++ [0]) ;;
      if r <? 0 then ret None else
      push_args stackbase (argc + 1) sp (ustack ++ [sp]) argv'
  end.

(** The strings and then the array of their addresses; the result is the
    stack pointer and the number of arguments. *)
Definition push_argv (stackbase sp : Z) (argv : list (list Z)) : M S (option (Z * Z)) :=
  a <- push_args stackbase 0 sp [] argv ;;
  match a with
  | None => ret None
  | Some (sp, ustack) =>
      let argc := Z.of_nat (length ustack) in
      let sp := align16 (u64 (sp - (argc + 1) * 8)) in
      if sp <? stackbase then ret None else
      r <- put sp (concat (le_encode 8 <$> (ustack ++ [0]))) ;;
      if r <? 0 then ret None else ret (Some (sp, argc))
  end.
End args.

(** The part of the path after the last slash. *)
Fixpoint last_elem (last path : list Z) : list Z :=
  match path with
  | [] => last
  | c :: path' => if c =? 0 then last else last_elem (if c =? slash then path' else last) path'
  end.

(** [bad]: free the new page table and, before the file is closed, let go
    of it. *)
Definition exec_bad (pagetable sz : Z) (ip : option nat) : M kernel Z :=
  (when (negb (pagetable =? 0)) do proc_freepagetable pagetable sz) ;;
  (match ip with Some ip => kfs (iunlockput ip) ;; kend_op | None => ret tt end) ;;
  ret (-1).

(** From the opened file to the loaded image: [inr (pagetable, sz, entry)],
    or the result of the call. *)
Definition exec_load (i ip : nat) : M kernel (Z + Z * Z * Z) :=
  r <- kfs (readi_kernel ip 0 sizeof_elfhdr) ;;
  if negb (fst r =? sizeof_elfhdr) then v <- exec_bad 0 0 (Some ip) ;; ret (inl v) else
  let elf := dec_elfhdr (snd r) in
  if negb (e_magic elf =? ELF_MAGIC) then v <- exec_bad 0 0 (Some ip) ;; ret (inl v) else
  pagetable <- proc_pagetable i ;;
  if pagetable =? 0 then v <- exec_bad 0 0 (Some ip) ;; ret (inl v) else
  l <- load_loop (Z.to_nat (e_phnum elf)) pagetable ip 0 (s32 (e_phoff elf)) ;;
  match l with
  | inl sz => v <- exec_bad pagetable sz (Some ip) ;; ret (inl v)
  | inr sz =>
      kfs (iunlockput ip) ;;
      kend_op ;;
      ret (inr (pagetable, sz, e_entry elf))
  end.

(** From the loaded image to the new process image. *)
Definition exec_commit (i : nat) (pagetable sz entry : Z) (path : list Z) (argv : list (list Z)) : M kernel Z :=
  p <- getp i ;;
  let oldsz := p_sz p in
  let sz := PGROUNDUP sz in
  sz1 <- kmm (uvmalloc pagetable sz (u64 (sz + (USERSTACK + 1) * PGSIZE)) PTE_W) ;;
  if sz1 =? 0 then exec_bad pagetable sz None else
  let sz := sz1 in
  kmm (uvmclear pagetable (sz - (USERSTACK + 1) * PGSIZE)) ;;
  let stackbase := sz - USERSTACK * PGSIZE in
  a <- push_argv (fun va bs => p <- getp i ;; kmm (copyout (uproc_of p) pagetable va bs)) stackbase sz argv ;;
  match a with
  | None => exec_bad pagetable sz None
  | Some (sp, argc) =>
      tf_set i tf_a1 sp ;;
      updp i (fun p => set_pname (safestrcpy (p_name p) (last_elem path path) 16) p) ;;
      p <- getp i ;;
      let oldpagetable := p_pagetable p in
      updp i (set_ppagetable pagetable) ;;
      updp i (set_psz sz) ;;
      tf_set i tf_epc entry ;;
      tf_set i tf_sp sp ;;
      proc_freepagetable oldpagetable oldsz ;;
      ret argc
  end.

Definition kexec (path : list Z) (argv : list (list Z)) : M kernel Z :=
  i <- myproc_ptr ;;
  kbegin_op ;;
  p <- getp i ;;
  ip <- kfs (namei (default 0%nat (p_cwd p)) path) ;;
  match ip with
  | None => kend_op ;; ret (-1)
  | Some ip =>
      kfs (ilock (Some ip)) ;;
      l <- exec_load i ip ;;
      match l with
      | inl v => ret v
      | inr (pagetable, sz, entry) => exec_commit i pagetable sz entry path argv
      end
  end.
