(* ===== verification/Sysfile.v ===== *)
(** * System call arguments and the file system calls
    (kernel/syscall.c: argument fetching; kernel/sysfile.c)  *)

From Stdlib Require Import String.
From S2P Require Import Prelude Param Spinlock Sleeplock Str Bio Log Fs Mem Kalloc Vm Printf Kernel Proc Console Pipe ProcLife Exec.

(** ** Arguments *)

Definition fetchaddr (addr : Z) : M kernel (option Z) :=
  i <- myproc_ptr ;;
  p <- getp i ;;
  if (p_sz p <=? addr) || (p_sz p <? u64 (addr + 8)) then ret None else
  r <- kmm (copyin (uproc_of p) (p_pagetable p) addr 8) ;;
  if negb (fst r =? 0) then ret None else ret (Some (le_decode (snd r))).

(** The string (without its NUL), or [None] for the result -1; the length
    is what the C function returns. *)
Definition fetchstr (addr max : Z) : M kernel (option (list Z)) :=
  i <- myproc_ptr ;;
  p <- getp i ;;
  r <- kmm (copyinstr (p_pagetable p) addr max) ;;
  if fst r <? 0 then ret None else ret (Some (cstr (snd r))).

Definition argraw (n : Z) : M kernel Z :=
  i <- myproc_ptr ;;
  if n =? 0 then tf_get i tf_a0
  else if n =? 1 then tf_get i tf_a1
  else if n =? 2 then tf_get i tf_a2
  else if n =? 3 then tf_get i tf_a3
  else if n =? 4 then tf_get i tf_a4
  else if n =? 5 then tf_get i tf_a5
  else panic "argraw".

Definition argint (n : Z) : M kernel Z := v <- argraw n ;; ret (s32 v).
Definition argaddr (n : Z) : M kernel Z := argraw n.
Definition argstr (n max : Z) : M kernel (option (list Z)) := a <- argaddr n ;; fetchstr a max.

(** The descriptor and its file. *)
Definition argfd (n : Z) : M kernel (option (nat * nat)) :=
  fd <- argint n ;;
  if (fd <? 0) || (Z.of_nat NOFILE <=? fd) then ret None else
  i <- myproc_ptr ;;
  p <- getp i ;;
  ret ((fun f => (Z.to_nat fd, f)) <$> default None (p_ofile p !! Z.to_nat fd)).

Definition fdalloc (f : nat) : M kernel (option nat) :=
  i <- myproc_ptr ;;
  for_find all_fds (fun fd =>
    p <- getp i ;;
    match default None (p_ofile p !! fd) with
    | None => updp i (fun p => set_pofile (<[fd := Some f]> (p_ofile p)) p) ;; ret (Some fd)
    | Some _ => ret None
    end).

Definition clear_fd (i fd : nat) : M kernel unit :=
  updp i (fun p => set_pofile (<[fd := None]> (p_ofile p)) p).

(** ** Calls on descriptors *)

Definition sys_dup : M kernel Z :=
  a <- argfd 0 ;;
  match a with
  | None => ret (-1)
  | Some (_, f) =>
      fd <- fdalloc f ;;
      match fd with
      | None => ret (-1)
      | Some fd => filedup f ;; ret (Z.of_nat fd)
      end
  end.

Definition sys_read : M kernel Z :=
  p <- argaddr 1 ;;
  n <- argint 2 ;;
  a <- argfd 0 ;;
  match a with
  | None => ret (-1)
  | Some (_, f) => fileread f p n
  end.

Definition sys_write : M kernel Z :=
  p <- argaddr 1 ;;
  n <- argint 2 ;;
  a <- argfd 0 ;;
  match a with
  | None => ret (-1)
  | Some (_, f) => filewrite f p n
  end.

Definition sys_close : M kernel Z :=
  a <- argfd 0 ;;
  match a with
  | None => ret (-1)
  | Some (fd, f) =>
      i <- myproc_ptr ;;
      clear_fd i fd ;;
      fileclose f ;;
      ret 0
  end.

Definition sys_fstat : M kernel Z :=
  st <- argaddr 1 ;;
  a <- argfd 0 ;;
  match a with
  | None => ret (-1)
  | Some (_, f) => filestat f st
  end.

(** ** Names

    The working directory of the running process. *)
Definition kcwd : M kernel nat := i <- myproc_ptr ;; p <- getp i ;; ret (default 0%nat (p_cwd p)).
Definition knamei (path : list Z) : M kernel (option nat) := c <- kcwd ;; kfs (namei c path).
Definition knameiparent (path : list Z) : M kernel (option nat * list Z) :=
  c <- kcwd ;; kfs (nameiparent c path (replicate (Z.to_nat DIRSIZ) 0)).
Definition kinode (i : nat) : M kernel inode := kfs (geti i).
Definition add_nlink (d : Z) (i : nat) : M kernel unit :=
  kfs (updi i (fun ip => set_inlink (s16 (i_nlink ip + d)) ip)) ;; kfs (iupdate i).

Definition sys_link_bad (ip : nat) : M kernel Z :=
  kfs (ilock (Some ip)) ;;
  add_nlink (-1) ip ;;
  kfs (iunlockput ip) ;;
  kend_op ;;
  ret (-1).

Definition sys_link : M kernel Z :=
  old <- argstr 0 MAXPATH ;;
  new <- (match old with Some _ => argstr 1 MAXPATH | None => ret None end) ;;
  match old, new with
  | Some old, Some new =>
      kbegin_op ;;
      r <- knamei old ;;
      match r with
      | None => kend_op ;; ret (-1)
      | Some ip =>
          kfs (ilock (Some ip)) ;;
          x <- kinode ip ;;
          if i_type x =? T_DIR then kfs (iunlockput ip) ;; kend_op ;; ret (-1) else
          add_nlink 1 ip ;;
          kfs (iunlock (Some ip)) ;;
          d <- knameiparent new ;;
          match fst d with
          | None => sys_link_bad ip
          | Some dp =>
              kfs (ilock (Some dp)) ;;
              x <- kinode ip ;;
              y <- kinode dp ;;
              r <- (if negb (i_dev y =? i_dev x) then ret (-1)
                    else kfs (dirlink dp (snd d) (i_inum x))) ;;
              if r <? 0 then kfs (iunlockput dp) ;; sys_link_bad ip else
              kfs (iunlockput dp) ;;
              kfs (iput ip) ;;
              kend_op ;;
              ret 0
          end
      end
  | _, _ => ret (-1)
  end.

(** The offsets of the entries after "." and "..". *)
Definition isdirempty (dp : nat) : M kernel bool :=
  x <- kinode dp ;;
  r <- for_find ((fun k => k * dirent_size) <$> seqZ 2 ((i_size x + dirent_size - 1) / dirent_size - 2)) (fun off =>
    de <- kfs (read_dirent dp off "isdirempty: readi") ;;
    if negb (de_inum de =? 0) then ret (Some false) else ret None) ;;
  ret (default true r).

Definition unlink_bad (dp : nat) : M kernel Z := kfs (iunlockput dp) ;; kend_op ;; ret (-1).

(** [sys_unlink] with the parent directory locked. *)
Definition unlink_in (dp : nat) (name : list Z) : M kernel Z :=
  if (namecmp name (chars ".") =? 0) || (namecmp name (chars "..") =? 0) then unlink_bad dp else
  r <- kfs (dirlookup dp name) ;;
  match r with
  | None => unlink_bad dp
  | Some (ip, off) =>
      kfs (ilock (Some ip)) ;;
      x <- kinode ip ;;
      if i_nlink x <? 1 then panic "unlink: nlink < 1" else
      e <- (if i_type x =? T_DIR then isdirempty ip else ret true) ;;
      if negb e then kfs (iunlockput ip) ;; unlink_bad dp else
      w <- kfs (writei_kernel dp (replicate (Z.to_nat dirent_size) 0) off dirent_size) ;;
      if negb (w =? dirent_size) then panic "unlink: writei" else
      (when (i_type x =? T_DIR) do add_nlink (-1) dp) ;;
      kfs (iunlockput dp) ;;
      add_nlink (-1) ip ;;
      kfs (iunlockput ip) ;;
      kend_op ;;
      ret 0
  end.

Definition sys_unlink : M kernel Z :=
  path <- argstr 0 MAXPATH ;;
  match path with
  | None => ret (-1)
  | Some path =>
      kbegin_op ;;
      d <- knameiparent path ;;
      match fst d with
      | None => kend_op ;; ret (-1)
      | Some dp => kfs (ilock (Some dp)) ;; unlink_in dp (snd d)
      end
  end.

(** ** Creation *)

Definition create_fail (ip dp : nat) : M kernel (option nat) :=
  kfs (updi ip (set_inlink 0)) ;;
  kfs (iupdate ip) ;;
  kfs (iunlockput ip) ;;
  kfs (iunlockput dp) ;;
  ret None.

(** [dirlink] of "." and "..": false for a failure. *)
Definition link_dots (ip : nat) (inum parent : Z) : M kernel bool :=
  r <- kfs (dirlink ip (chars ".") inum) ;;
  if r <? 0 then ret false else
  r <- kfs (dirlink ip (chars "..") parent) ;;
  ret (negb (r <? 0)).

(** The new inode [ip], locked, in the locked directory [dp]. *)
Definition create_new (dp ip : nat) (name : list Z) (type major minor : Z) : M kernel (option nat) :=
  kfs (ilock (Some ip)) ;;
  kfs (updi ip (fun x => set_inlink 1 (set_iminor minor (set_imajor major x)))) ;;
  kfs (iupdate ip) ;;
  x <- kinode ip ;;
  y <- kinode dp ;;
  ok <- (if type =? T_DIR then link_dots ip (i_inum x) (i_inum y) else ret true) ;;
  if negb ok then create_fail ip dp else
  r <- kfs (dirlink dp name (i_inum x)) ;;
  if r <? 0 then create_fail ip dp else
  (when (type =? T_DIR) do add_nlink 1 dp) ;;
  kfs (iunlockput dp) ;;
  ret (Some ip).

Definition create (path : list Z) (type major minor : Z) : M kernel (option nat) :=
  d <- knameiparent path ;;
  match fst d with
  | None => ret None
  | Some dp =>
      let name := snd d in
      kfs (ilock (Some dp)) ;;
      r <- kfs (dirlookup dp name) ;;
      match r with
      | Some (ip, _) =>
          kfs (iunlockput dp) ;;
          kfs (ilock (Some ip)) ;;
          x <- kinode ip ;;
          if (type =? T_FILE) && ((i_type x =? T_FILE) || (i_type x =? T_DEVICE)) then ret (Some ip) else
          kfs (iunlockput ip) ;;
          ret None
      | None =>
          y <- kinode dp ;;
          a <- kfs (ialloc (i_dev y) type) ;;
          match a with
          | None => kfs (iunlockput dp) ;; ret None
          | Some ip => create_new dp ip name type major minor
          end
      end
  end.

(** ** open *)

(** The inode to open, locked; [None] after [end_op]. *)
Definition open_inode (path : list Z) (omode : Z) : M kernel (option nat) :=
  if negb (Z.land omode O_CREATE =? 0) then
    r <- create path T_FILE 0 0 ;;
    match r with
    | None => kend_op ;; ret None
    | Some ip => ret (Some ip)
    end
  else
    r <- knamei path ;;
    match r with
    | None => kend_op ;; ret None
    | Some ip =>
        kfs (ilock (Some ip)) ;;
        x <- kinode ip ;;
        if (i_type x =? T_DIR) && negb (omode =? O_RDONLY) then
          kfs (iunlockput ip) ;; kend_op ;; ret None
        else ret (Some ip)
    end.

Definition open_readable (omode : Z) : bool := Z.land omode O_WRONLY =? 0.
Definition open_writable (omode : Z) : bool :=
  negb (Z.land omode O_WRONLY =? 0) || negb (Z.land omode O_RDWR =? 0).

Definition sys_open : M kernel Z :=
  omode <- argint 1 ;;
  path <- argstr 0 MAXPATH ;;
  match path with
  | None => ret (-1)
  | Some path =>
      kbegin_op ;;
      o <- open_inode path omode ;;
      match o with
      | None => ret (-1)
      | Some ip =>
          x <- kinode ip ;;
          if (i_type x =? T_DEVICE) && ((i_major x <? 0) || (NDEV <=? i_major x)) then
            kfs (iunlockput ip) ;; kend_op ;; ret (-1)
          else
          f <- filealloc ;;
          fd <- (match f with Some f => fdalloc f | None => ret None end) ;;
          match f, fd with
          | Some f, Some fd =>
              (if i_type x =? T_DEVICE then updf f (fun y => set_fmajor (i_major x) (set_ftype FD_DEVICE y))
               else updf f (fun y => set_foff 0 (set_ftype FD_INODE y))) ;;
              updf f (set_fip ip) ;;
              updf f (set_freadable (open_readable omode)) ;;
              updf f (set_fwritable (open_writable omode)) ;;
              (when (negb (Z.land omode O_TRUNC =? 0) && (i_type x =? T_FILE)) do kfs (itrunc ip)) ;;
              kfs (iunlock (Some ip)) ;;
              kend_op ;;
              ret (Z.of_nat fd)
          | _, _ =>
              opt_do f fileclose ;;
              kfs (iunlockput ip) ;;
              kend_op ;;
              ret (-1)
          end
      end
  end.

(** [create], the new inode let go again. *)
Definition make_node (path : option (list Z)) (type major minor : Z) : M kernel Z :=
  r <- (match path with Some path => create path type major minor | None => ret None end) ;;
  match r with
  | None => kend_op ;; ret (-1)
  | Some ip => kfs (iunlockput ip) ;; kend_op ;; ret 0
  end.

Definition sys_mkdir : M kernel Z :=
  kbegin_op ;;
  path <- argstr 0 MAXPATH ;;
  make_node path T_DIR 0 0.

Definition sys_mknod : M kernel Z :=
  kbegin_op ;;
  major <- argint 1 ;;
  minor <- argint 2 ;;
  path <- argstr 0 MAXPATH ;;
  make_node path T_DEVICE (s16 major) (s16 minor).

Definition sys_chdir : M kernel Z :=
  i <- myproc_ptr ;;
  kbegin_op ;;
  path <- argstr 0 MAXPATH ;;
  r <- (match path with Some path => knamei path | None => ret None end) ;;
  match r with
  | None => kend_op ;; ret (-1)
  | Some ip =>
      kfs (ilock (Some ip)) ;;
      x <- kinode ip ;;
      if negb (i_type x =? T_DIR) then kfs (iunlockput ip) ;; kend_op ;; ret (-1) else
      kfs (iunlock (Some ip)) ;;
      p <- getp i ;;
      (match p_cwd p with Some c => kfs (iput c) | None => panic "null inode" end) ;;
      kend_op ;;
      updp i (set_pcwd (Some ip)) ;;
      ret 0
  end.

(** ** exec and pipe *)

(** The argument vector: a page from the allocator for each string.  The
    pages are returned also when the call fails. *)
Fixpoint fetch_argv (fuel : nat) (uargv i : Z) (pages : list Z) (argv : list (list Z)) : M kernel (bool * list Z * list (list Z)) :=
  match fuel with
  | O => ret (false, pages, argv)
  | S fuel' =>
      a <- fetchaddr (u64 (uargv + 8 * i)) ;;
      match a with
      | None => ret (false, pages, argv)
      | Some uarg =>
          if uarg =? 0 then ret (true, pages, argv) else
          pg <- kmm kalloc ;;
          if pg =? 0 then ret (false, pages, argv) else
          s <- fetchstr uarg PGSIZE ;;
          match s with
          | None => ret (false, pages ++ [pg], argv)
          | Some s =>
              kmm (modify (fun m => set_mem (mwrite pg (s ++ [0]) (km_mem m)) m)) ;;
              fetch_argv fuel' uargv (i + 1) (pages ++ [pg]) (argv ++ [s])
          end
      end
  end.

Definition sys_exec : M kernel Z :=
  uargv <- argaddr 1 ;;
  path <- argstr 0 MAXPATH ;;
  match path with
  | None => ret (-1)
  | Some path =>
      a <- fetch_argv (Z.to_nat MAXARG) uargv 0 [] [] ;;
      let '(ok, pages, argv) := a in
      if ok : bool then
        r <- kexec path argv ;;
        for_each pages (fun pg => kmm (kfree pg)) ;;
        ret r
      else
        for_each pages (fun pg => kmm (kfree pg)) ;;
        ret (-1)
  end.

(** Two 32-bit stores to user memory. *)
Definition put_fds (i : nat) (fdarray : Z) (fd0 fd1 : nat) : M kernel bool :=
  p <- getp i ;;
  r <- kmm (copyout (uproc_of p) (p_pagetable p) fdarray (le_encode 4 (Z.of_nat fd0))) ;;
  if r <? 0 then ret false else
  r <- kmm (copyout (uproc_of p) (p_pagetable p) (u64 (fdarray + 4)) (le_encode 4 (Z.of_nat fd1))) ;;
  ret (negb (r <? 0)).

Definition sys_pipe : M kernel Z :=
  i <- myproc_ptr ;;
  fdarray <- argaddr 0 ;;
  a <- pipealloc ;;
  match a with
  | None => ret (-1)
  | Some (rf, wf) =>
      fd0 <- fdalloc rf ;;
      fd1 <- (match fd0 with Some _ => fdalloc wf | None => ret None end) ;;
      match fd0, fd1 with
      | Some fd0, Some fd1 =>
          ok <- put_fds i fdarray fd0 fd1 ;;
          if ok : bool then ret 0 else
          clear_fd i fd0 ;;
          clear_fd i fd1 ;;
          fileclose rf ;;
          fileclose wf ;;
          ret (-1)
      | _, _ =>
          opt_do fd0 (clear_fd i) ;;
          fileclose rf ;;
          fileclose wf ;;
          ret (-1)
      end
  end.
