(* ===== verification/Trap.v ===== *)
(** * Process system calls, dispatch and traps
    (kernel/sysproc.c, kernel/syscall.c, kernel/trap.c, kernel/plic.c)  *)

From Stdlib Require Import String.
From S2P Require Import Prelude Param Spinlock Sleeplock Str Bio Log Fs Mem Kalloc Vm Printf Virtio Kernel Proc Console Pipe ProcLife Exec Sysfile.

(** ** sysproc.c *)


Definition sys_exit : M kernel Z :=
  n <- argint 0 ;;
  kexit n ;;
  ret 0.

Definition sys_getpid : M kernel Z := i <- myproc_ptr ;; p <- getp i ;; ret (p_pid p).
Definition sys_fork : M kernel Z := kfork.
Definition sys_wait : M kernel Z := a <- argaddr 0 ;; kwait a.

Definition sys_sbrk : M kernel Z :=
  n <- argint 0 ;;
  t <- argint 1 ;;
  i <- myproc_ptr ;;
  p <- getp i ;;
  let addr := p_sz p in
  if (t =? SBRK_EAGER) || (n <? 0) then
    r <- growproc n ;;
    if r <? 0 then ret (-1) else ret addr
  else
    if u64 (addr + n) <? addr then ret (-1) else
    updp i (fun p => set_psz (u64 (p_sz p + n)) p) ;;
    ret addr.

Definition ticks_chan : chan := ("ticks", 0).

(** The loop of [sys_pause] comes round again only after a sleep. *)
Definition pause_wait (ticks0 n : Z) : M kernel Z :=
  t <- gets ticks ;;
  if u32 (t - ticks0) <? u32 n then
    i <- myproc_ptr ;;
    kd <- killed i ;;
    if kd : bool then with_env tickslock_l release ;; ret (-1)
    else sleep ticks_chan tickslock_l ;; ret (-1)
  else with_env tickslock_l release ;; ret 0.
Definition sys_pause : M kernel Z :=
  n <- argint 0 ;;
  let n := if n <? 0 then 0 else n in
  with_env tickslock_l acquire ;;
  ticks0 <- gets ticks ;;
  pause_wait ticks0 n.

Definition sys_kill : M kernel Z := pid <- argint 0 ;; kkill pid.

Definition sys_uptime : M kernel Z :=
  with_env tickslock_l acquire ;;
  x <- gets ticks ;;
  with_env tickslock_l release ;;
  ret x.

(** ** Dispatch *)

Definition syscalls : list (option (M kernel Z)) :=
  [None; Some sys_fork; Some sys_exit; Some sys_wait; Some sys_pipe; Some sys_read; Some sys_kill;
   Some sys_exec; Some sys_fstat; Some sys_chdir; Some sys_dup; Some sys_getpid; Some sys_sbrk;
   Some sys_pause; Some sys_uptime; Some sys_open; Some sys_write; Some sys_mknod; Some sys_unlink;
   Some sys_link; Some sys_mkdir; Some sys_close].

Definition syscall : M kernel unit :=
  i <- myproc_ptr ;;
  a7 <- tf_get i tf_a7 ;;
  let num := s32 a7 in
  match (if (0 <? num) && (num <? Z.of_nat (length syscalls)) then syscalls !!! Z.to_nat num else None) with
  | Some call =>
      r <- call ;;
      tf_set i tf_a0 r
  | None =>
      p <- getp i ;;
      printf (chars "%d %s: unknown sys call %d" ++ [10]) [AInt (p_pid p); AStr (Some (p_name p)); AInt num] ;;
      tf_set i tf_a0 (-1)
  end.

(** ** PLIC *)

Definition UART0_IRQ : Z := 10.
Definition VIRTIO0_IRQ : Z := 1.
Definition PLIC_SENABLE (hart : Z) : Z := PLIC + 0x2080 + hart * 0x100.
Definition PLIC_SPRIORITY (hart : Z) : Z := PLIC + 0x201000 + hart * 0x2000.
Definition PLIC_SCLAIM (hart : Z) : Z := PLIC + 0x201004 + hart * 0x2000.

Definition write_plic (a v : Z) : M kernel unit :=
  modify (fun k => set_plic (mkPlic ((a, v) :: plic_regs (k_plic k)) (plic_pending (k_plic k))) k).

Definition plicinit : M kernel unit :=
  write_plic (PLIC + UART0_IRQ * 4) 1 ;;
  write_plic (PLIC + VIRTIO0_IRQ * 4) 1.

Definition plicinithart : M kernel unit :=
  hart <- cpuid ;;
  write_plic (PLIC_SENABLE hart) (Z.lor (Z.shiftl 1 UART0_IRQ) (Z.shiftl 1 VIRTIO0_IRQ)) ;;
  write_plic (PLIC_SPRIORITY hart) 0.

(** Reading the claim register takes the pending interrupt, 0 if there is
    none. *)
Definition plic_claim : M kernel Z :=
  irq <- gets (fun k => hd 0 (plic_pending (k_plic k))) ;;
  modify (fun k => set_plic (mkPlic (plic_regs (k_plic k)) (tl (plic_pending (k_plic k)))) k) ;;
  ret irq.

Definition plic_complete (irq : Z) : M kernel unit :=
  hart <- cpuid ;;
  write_plic (PLIC_SCLAIM hart) irq.

(** ** Traps *)

Definition SSTATUS_SPP : Z := Z.shiftl 1 8.
Definition SSTATUS_SPIE : Z := Z.shiftl 1 5.
Definition SSTATUS_SIE : Z := Z.shiftl 1 1.

(** [sstatus.SIE] is the interrupt-enable state of the environment. *)
Definition r_sstatus : M kernel Z :=
  gets (fun k => Z.lor (Z.land (sstatus (k_csr k)) (Z.lnot SSTATUS_SIE))
                       (if e_sie (lget env_of k) then SSTATUS_SIE else 0)).
Definition w_sstatus (x : Z) : M kernel unit :=
  updcsr (w_sstatus_ x) ;;
  in_env (modify (set_sie (negb (Z.land x SSTATUS_SIE =? 0)))).

Definition trapinit : M kernel unit := modify (set_tickslock initlock).

Definition trapinithart : M kernel unit :=
  a <- gets (fun k => t_kernelvec (k_text k)) ;;
  updcsr (w_stvec_ a).

Definition clockintr : M kernel unit :=
  id <- cpuid ;;
  (when (id =? 0) do
     (with_env tickslock_l acquire ;;
      modify (fun k => set_ticks (u32 (ticks k + 1)) k) ;;
      wakeup ticks_chan ;;
      with_env tickslock_l release)) ;;
  updcsr (fun c => w_stimecmp_ (u64 (time c + 1000000)) c).

Definition devintr : M kernel Z :=
  cause <- gets (fun k => scause (k_csr k)) ;;
  if cause =? 0x8000000000000009 then
    irq <- plic_claim ;;
    (if irq =? UART0_IRQ then uartintr
     else if irq =? VIRTIO0_IRQ then kdisk virtio_disk_intr
     else when (negb (irq =? 0)) do printf (chars "unexpected interrupt irq=%d" ++ [10]) [AInt irq]) ;;
    (when (negb (irq =? 0)) do plic_complete irq) ;;
    ret 1
  else if cause =? 0x8000000000000005 then
    clockintr ;; ret 2
  else ret 0.

Definition prepare_return : M kernel unit :=
  i <- myproc_ptr ;;
  in_env intr_off ;;
  t <- gets k_text ;;
  tr <- gets (fun k => ld_trampoline (km_syms (k_kmem k))) ;;
  updcsr (w_stvec_ (TRAMPOLINE + (t_uservec t - tr))) ;;
  c <- gets k_csr ;;
  tf_set i tf_kernel_satp (satp c) ;;
  p <- getp i ;;
  tf_set i tf_kernel_sp (p_kstack p + PGSIZE) ;;
  tf_set i tf_kernel_trap (t_usertrap t) ;;
  hart <- cpuid ;;
  tf_set i tf_kernel_hartid hart ;;
  x <- r_sstatus ;;
  w_sstatus (Z.lor (Z.land x (Z.lnot SSTATUS_SPP)) SSTATUS_SPIE) ;;
  epc <- tf_get i tf_epc ;;
  updcsr (w_sepc_ epc).

(** The four ways [usertrap] takes; the result is [which_dev]. *)
Definition usertrap_cause (i : nat) : M kernel Z :=
  c <- gets k_csr ;;
  if scause c =? 8 then
    kd <- killed i ;;
    (when kd do kexit (-1)) ;;
    epc <- tf_get i tf_epc ;;
    tf_set i tf_epc (epc + 4) ;;
    in_env intr_on ;;
    syscall ;;
    ret 0
  else
    which_dev <- devintr ;;
    if negb (which_dev =? 0) then ret which_dev else
    p <- getp i ;;
    r <- (if (scause c =? 15) || (scause c =? 13)
          then kmm (vmfault (uproc_of p) (p_pagetable p) (stval c)) else ret 0) ;;
    if negb (r =? 0) then ret 0 else
    printf (chars "usertrap(): unexpected scause 0x%lx pid=%d" ++ [10]) [AInt (scause c); AInt (p_pid p)] ;;
    printf (chars "            sepc=0x%lx stval=0x%lx" ++ [10]) [AInt (sepc c); AInt (stval c)] ;;
    setkilled i ;;
    ret 0.

Definition usertrap : M kernel Z :=
  st <- r_sstatus ;;
  if negb (Z.land st SSTATUS_SPP =? 0) then panic "usertrap: not from user mode" else
  trapinithart ;;
  i <- myproc_ptr ;;
  c <- gets k_csr ;;
  tf_set i tf_epc (sepc c) ;;
  which_dev <- usertrap_cause i ;;
  kd <- killed i ;;
  (when kd do kexit (-1)) ;;
  (when (which_dev =? 2) do yield) ;;
  prepare_return ;;
  p <- getp i ;;
  ret (MAKE_SATP (p_pagetable p)).

Definition kerneltrap : M kernel unit :=
  c <- gets k_csr ;;
  st <- r_sstatus ;;
  if Z.land st SSTATUS_SPP =? 0 then panic "kerneltrap: not from supervisor mode" else
  on <- in_env intr_get ;;
  if on : bool then panic "kerneltrap: interrupts enabled" else
  which_dev <- devintr ;;
  if which_dev =? 0 then
    printf (chars "scause=0x%lx sepc=0x%lx stval=0x%lx" ++ [10]) [AInt (scause c); AInt (sepc c); AInt (stval c)] ;;
    panic "kerneltrap"
  else
  me <- (if which_dev =? 2 then myproc else ret None) ;;
  opt_do me (fun _ => yield) ;;
  updcsr (w_sepc_ (sepc c)) ;;
  w_sstatus st.

(** [forkret]: where a new process starts. *)
Definition forkret : M kernel Z :=
  i <- myproc_ptr ;;
  with_env (proc_lock i) release ;;
  first <- gets k_first ;;
  (when first do
     (kfs (fsinit ROOTDEV) ;;
      modify (set_first false) ;;
      r <- kexec (chars "/init") [chars "/init"] ;;
      tf_set i tf_a0 r ;;
      when (r =? -1) do panic "exec")) ;;
  prepare_return ;;
  p <- getp i ;;
  ret (MAKE_SATP (p_pagetable p)).
