(* ===== verification/SysProps.v ===== *)
(** * System calls that change the size of a process *)

From Stdlib Require Import String.
From S2P Require Import Prelude Param Spinlock Sleeplock Mem Kalloc Vm VmSpec VmWalk VmMap VmUser VmProps VmFree Kernel Proc KernelSpec Sysfile Trap.

(** States that differ at most in the bookkeeping of interrupts. *)
Record kernel_same (k k' : kernel) : Prop := {
  ks_procs : k_procs k' = k_procs k;
  ks_cur : k_cur k' = k_cur k;
  ks_mem : km_mem (k_kmem k') = km_mem (k_kmem k);
  ks_env : env_same (lget env_of k) (lget env_of k')
}.

Lemma kernel_same_trans k1 k2 k3 : kernel_same k1 k2 -> kernel_same k2 k3 -> kernel_same k1 k3.
Proof. intros [A1 A2 A3 A4] [B1 B2 B3 B4]. split; [congruence..|]. by transitivity (lget env_of k2). Qed.

Lemma wp_current k i Q : env_ok (lget env_of k) -> k_cur k = Some i -> (forall k', kernel_same k k' -> Q i k') -> wp myproc_ptr Q k.
Proof. intros He Hc HQ. apply (wp_myproc_ptr k He i); [done|]. intros e Hs. apply HQ. split; [done..|]. by cbn. Qed.

Lemma wp_tf_get k i off Q :
  (forall k', kernel_same k k' -> Q (load64 (km_mem (k_kmem k)) (p_trapframe (k_procs k !!! i) + off)) k') -> wp (tf_get i off) Q k.
Proof. intros HQ. unfold tf_get. wp_step. apply wp_gets. apply wp_zoom, wp_gets. apply HQ. split; done. Qed.

Lemma kernel_same_ok k k' : kernel_same k k' -> env_ok (lget env_of k) -> env_ok (lget env_of k').
Proof. intros S H. eapply env_same_ok; [apply S|done]. Qed.

(** The first arguments of a system call, as C's [int]. *)
Definition int_arg (k : kernel) (i : nat) (off : Z) : Z := s32 (load64 (km_mem (k_kmem k)) (p_trapframe (k_procs k !!! i) + off)).

Lemma wp_argint k i n off Q :
  env_ok (lget env_of k) -> k_cur k = Some i -> (n, off) ∈ [(0, tf_a0); (1, tf_a1)] ->
  (forall k', kernel_same k k' -> Q (int_arg k i off) k') -> wp (argint n) Q k.
Proof.
  intros He Hc Hn HQ. unfold argint, argraw. wp_step. wp_step. apply (wp_current k i); [done|done|]. intros k1 S1.
  assert (wp (tf_get i off) (fun v k' => wp (ret (s32 v)) Q k') k1) as H.
  { apply wp_tf_get. intros k2 S2. apply wp_ret. rewrite (ks_mem _ _ S1), (ks_procs _ _ S1). apply HQ. by eapply kernel_same_trans. }
  rewrite !elem_of_cons, elem_of_nil in Hn. destruct Hn as [[= -> ->]|[[= -> ->]|[]]]; exact H.
Qed.

(** C30: [sbrk] in lazy mode checks nothing but wrap-around.  A process may grow
    past the largest virtual address; the call succeeds, and when the process
    is freed later, [uvmfree] runs into the check of [walk]: any user program
    can stop the kernel. *)
Theorem sbrk_lazy_unbounded k i n :
  let p := k_procs k !!! i in
  env_ok (lget env_of k) -> k_cur k = Some i -> (i < length (k_procs k))%nat ->
  int_arg k i tf_a0 = n -> int_arg k i tf_a1 = SBRK_LAZY -> 0 <= n -> 0 <= p_sz p -> MAXVA < p_sz p + n -> p_sz p + n < 2 ^ 64 - PGSIZE ->
  wp sys_sbrk (fun r k' => let p' := k_procs k' !!! i in
    r = p_sz p /\ p_sz p' = p_sz p + n /\ p_pagetable p' = p_pagetable p /\
    forall s T fl L, us_ok s (p_pagetable p') T fl L -> (forall v, ulimit <= v < maxvpn -> dpage L v = None) ->
      panics (uvmfree (p_pagetable p') (p_sz p')) "walk" s) k.
Proof.
  intros p He Hc Hi Ha0 Ha1 Hn Hp Hmax Hlim. unfold sys_sbrk. wp_step. apply (wp_argint k i 0 tf_a0); [done|done|by left|]. intros k1 S1. rewrite Ha0.
  wp_step. apply (wp_argint k1 i 1 tf_a1); [by eapply kernel_same_ok|by rewrite (ks_cur _ _ S1)|by right; left|]. intros k2 S2.
  unfold int_arg. rewrite (ks_mem _ _ S1), (ks_procs _ _ S1). change (s32 (load64 (km_mem (k_kmem k)) (p_trapframe (k_procs k !!! i) + tf_a1))) with (int_arg k i tf_a1). rewrite Ha1.
  pose proof (kernel_same_trans _ _ _ S1 S2) as S12. wp_step. apply (wp_current k2 i); [by eapply kernel_same_ok|by rewrite (ks_cur _ _ S12)|]. intros k3 S3.
  pose proof (kernel_same_trans _ _ _ S12 S3) as S. wp_step. apply wp_gets. rewrite (ks_procs _ _ S). fold p. change (SBRK_LAZY =? SBRK_EAGER) with false.
  rewrite (proj2 (Z.ltb_ge n 0)) by lia. cbn [orb]. change PGSIZE with 4096 in Hlim. rewrite (u64_small (p_sz p + n)) by lia. rewrite (proj2 (Z.ltb_ge _ _)) by lia.
  wp_step. apply wp_modify. apply wp_ret. cbn [set_procs k_procs]. rewrite (ks_procs _ _ S), list_lookup_total_alter_eq by done. fold p. cbn [set_psz p_sz p_pagetable].
  rewrite u64_small by lia. split_and!; [done|done|done|]. intros s T fl L U Htop. eapply uvmfree_huge_panics; [exact U|done|unfold PGSIZE; lia|done].
Qed.

Module SbrkDemo.
Definition tf : Z := KERNBASE + 0x6000.
(** The registers of the call [sbrk(0x7fffffff, SBRK_LAZY)]. *)
Definition m0 : mem := store64 (tf + tf_a0) 0x7fffffff (store64 (tf + tf_a1) SBRK_LAZY ∅).
Definition p0 (root : Z) : proc := set_psz (MAXVA - PGSIZE) (set_ptrapframe tf (set_ppagetable root proc0)).
Definition k0 (root : Z) : kernel :=
  set_cur (Some 0%nat) (set_procs (p0 root :: replicate 63 proc0)
    (kernel_boot (mkKenv 0 0 false true 1 false [] []) [] (kboot kenv0 KDemo.sy0 m0) (mkText 0 0 0 0 0))).
End SbrkDemo.

Lemma sbrk_lazy_unbounded_witness :
  exists s root, wp sys_sbrk (fun r k' => r = MAXVA - PGSIZE /\ panics (uvmfree root (p_sz (k_procs k' !!! 0%nat))) "walk" s) (SbrkDemo.k0 root).
Proof.
  destruct VmDemo.vm_booted as (s & root & fl & U & Hl). exists s, root.
  eapply wp_mono; [apply (sbrk_lazy_unbounded (SbrkDemo.k0 root) 0 0x7fffffff)|].
  - split; cbn; lia.
  - done.
  - cbn. lia.
  - by vm_compute.
  - by vm_compute.
  - lia.
  - by vm_compute.
  - by vm_compute.
  - by vm_compute.
  - intros r k' (-> & _ & Ept & Hp). split; [reflexivity|]. cbn zeta in Ept, Hp. change (p_pagetable (k_procs (SbrkDemo.k0 root) !!! 0%nat)) with root in Ept. rewrite Ept in Hp.
    exact (Hp s _ fl (fun _ => 0) U (fun _ _ => eq_refl)).
Defined.
