(* ===== verification/Frames.v ===== *)
(** * What kernel code leaves alone

    Most of the kernel never touches the descriptors of a process or the
    reference counts of open files.  [frames m] says that [m] leaves them as
    they are, whether it returns or blocks; it composes along the structure
    of the code, so that it holds of every routine but the few that open,
    duplicate and close files.  *)

From Stdlib Require Import String.
From S2P Require Import Prelude Param Spinlock Sleeplock Str Bio Log Fs Mem Kalloc Vm Printf Virtio Kernel Proc Console Pipe ProcLife Exec Sysfile Trap.

(** The reference counts, the descriptor tables, the lock of the file table
    and the running process. *)
Definition refs (k : kernel) : list Z := f_ref <$> ft_file k.
Definition ofiles (k : kernel) : list (list (option nat)) := p_ofile <$> k_procs k.
Definition fdview (k : kernel) : list Z * list (list (option nat)) * spinlock * option nat :=
  (refs k, ofiles k, ft_lock k, k_cur k).

(** A process that runs no user program: it has no open files. *)
Definition idle (p : proc) : bool := match p_state p with UNUSED | ZOMBIE => true | _ => false end.

Definition idle_le (ps ps' : list proc) : Prop :=
  forall i p', ps' !! i = Some p' -> idle p' = true -> exists p, ps !! i = Some p /\ idle p = true.

Definition frame (k k' : kernel) : Prop := fdview k' = fdview k /\ idle_le (k_procs k) (k_procs k').

#[export] Instance frame_preorder : PreOrder frame.
Proof.
  split.
  - intros k. split; [done|]. intros i p ??. by exists p.
  - intros k1 k2 k3 [V1 I1] [V2 I2]. split; [congruence|]. intros i p Hp Hi.
    destruct (I2 i p Hp Hi) as (q & Hq & Hi'). by apply (I1 i q).
Qed.

Lemma frame_same k k' : fdview k' = fdview k -> k_procs k' = k_procs k -> frame k k'.
Proof. intros Hv Hp. split; [done|]. rewrite Hp. intros i p ??. by exists p. Qed.

Definition frames {A} (m : M kernel A) : Prop :=
  forall k, match m k with Ok _ k' | Block _ k' => frame k k' | _ => True end.

Lemma frames_ret {A} (a : A) : frames (ret a).
Proof. intros k. cbn. reflexivity. Qed.
Lemma frames_gets {A} (f : kernel -> A) : frames (gets f).
Proof. intros k. cbn. reflexivity. Qed.
Lemma frames_panic {A} msg : frames (panic msg : M kernel A).
Proof. by intros k. Qed.
Lemma frames_block {A} c : frames (block_on c : M kernel A).
Proof. intros k. cbn. reflexivity. Qed.
Lemma frames_nofuel {A} : frames (no_fuel : M kernel A).
Proof. by intros k. Qed.
Lemma frames_bind {A B} (m : M kernel A) (c : A -> M kernel B) : frames m -> (forall a, frames (c a)) -> frames (bind m c).
Proof.
  intros Hm Hc k. unfold bind. specialize (Hm k). destruct (m k) as [a k1| |c' k1|]; [|done..].
  specialize (Hc a k1). destruct (c a k1); try done; by etransitivity.
Qed.
Lemma frames_modify (f : kernel -> kernel) : (forall k, frame k (f k)) -> frames (modify f).
Proof. intros Hf k. apply Hf. Qed.
Lemma frames_for_each {A} (l : list A) (body : A -> M kernel unit) : (forall x, frames (body x)) -> frames (for_each l body).
Proof. intros Hb. induction l as [|x l IH]; [apply frames_ret|]. cbn. by apply frames_bind. Qed.
Lemma frames_for_find {A B} (l : list A) (body : A -> M kernel (option B)) : (forall x, frames (body x)) -> frames (for_find l body).
Proof.
  intros Hb. induction l as [|x l IH]; [apply frames_ret|]. cbn. apply frames_bind; [done|]. intros [r|]; [apply frames_ret|done].
Qed.
(** Parts of the state. *)
Definition lframes {T} (L : lens kernel T) : Prop := forall t k, frame k (lset L t k).

Lemma frame_env e k : frame k (lset env_of e k).
Proof. by apply frame_same. Qed.

Lemma frames_zoom {T A} (L : lens kernel T) (m : M T A) : lframes L -> frames (zoom L m).
Proof. intros HL k. unfold zoom. destruct (m _); try done; apply HL. Qed.
Lemma frames_in_env {A} (m : M kenv A) : frames (in_env m : M kernel A).
Proof. apply frames_zoom. intros e k. apply frame_env. Qed.
Lemma frames_with_env {T A} (L : lens kernel T) (m : M (kenv * T) A) : lframes L -> frames (with_env L m).
Proof.
  intros HL k. unfold with_env. destruct (m _) as [a [e t]| |c [e t]|]; try done;
    (transitivity (lset env_of e k); [apply frame_env|apply HL]).
Qed.

(** Updates of one process. *)
Lemma alter_id_list {A B} (g : A -> B) (f : A -> A) (i : nat) (l : list A) : (forall x, g (f x) = g x) -> g <$> alter f i l = g <$> l.
Proof.
  intros Hf. apply list_eq. intros j. rewrite !list_lookup_fmap. destruct (decide (i = j)) as [->|Hne].
  - rewrite list_lookup_alter_eq. destruct (l !! j); cbn; by rewrite ?Hf.
  - by rewrite list_lookup_alter_ne.
Qed.

Definition tame (f : proc -> proc) : Prop := forall p, p_ofile (f p) = p_ofile p /\ (idle (f p) = true -> idle p = true).

Lemma frame_procs f i k : tame f -> frame k (set_procs (alter f i (k_procs k)) k).
Proof.
  intros Hf. split.
  - unfold fdview, ofiles. cbn. by rewrite alter_id_list by (intros p; apply Hf).
  - cbn. intros j p' Hp Hi. destruct (decide (i = j)) as [->|Hne].
    + rewrite list_lookup_alter_eq in Hp. destruct (k_procs k !! j) as [p|]; [|done]. injection Hp as <-. exists p. split; [done|]. by apply Hf.
    + rewrite list_lookup_alter_ne in Hp by done. by exists p'.
Qed.
Lemma frames_updp i f : tame f -> frames (updp i f).
Proof. intros Hf k. by apply frame_procs. Qed.
Lemma frames_updf i f : (forall x, f_ref (f x) = f_ref x) -> frames (updf i f).
Proof.
  intros Hf k. split; [|intros j p ??; by exists p]. unfold fdview, refs. cbn. by rewrite alter_id_list.
Qed.

(** Wake-ups recorded by the layers below. *)
Lemma wake_all_frame cur c ps :
  p_ofile <$> wake_all cur c ps = p_ofile <$> ps /\ idle_le ps (wake_all cur c ps).
Proof.
  assert (forall p, p_ofile (wake_one c p) = p_ofile p /\ (idle (wake_one c p) = true -> idle p = true)) as Hw.
  { intros p. unfold wake_one. destruct (_ && _); [|done]. split; [done|]. by intros [=]. }
  split.
  - apply list_eq. intros i. rewrite !list_lookup_fmap. unfold wake_all. rewrite list_lookup_imap.
    destruct (ps !! i) as [p|]; [|done]. cbn. case_bool_decide; [done|]. by destruct (Hw p) as [-> _].
  - intros i p' Hp Hi. unfold wake_all in Hp. rewrite list_lookup_imap in Hp. destruct (ps !! i) as [p|]; [|done].
    injection Hp as <-. exists p. split; [done|]. case_bool_decide; [done|]. by apply Hw.
Qed.

Lemma frame_deliver k : frame k (deliver k).
Proof.
  unfold deliver. set (w := e_woken _). clearbody w.
  transitivity (set_procs (fold_right (wake_all (k_cur k)) (k_procs k) w) k); [|apply frame_env].
  induction w as [|c w IH]; cbn [fold_right]; [by apply frame_same|].
  destruct IH as [V I]. destruct (wake_all_frame (k_cur k) c (fold_right (wake_all (k_cur k)) (k_procs k) w)) as [Ho Hl]. split.
  - unfold fdview, ofiles in *. cbn in *. rewrite Ho. exact V.
  - intros i p Hp Hi. destruct (Hl i p Hp Hi) as (q & Hq & Hi'). by apply (I i q).
Qed.

Lemma frames_lower {T A} (L : lens kernel T) (m : M T A) : lframes L -> frames (lower L m).
Proof.
  intros HL k. unfold lower. pose proof (frames_zoom L m HL k) as Hz. destruct (zoom L m k); try done;
    (etransitivity; [exact Hz|apply frame_deliver]).
Qed.

(** ** Automation *)

Create HintDb frames.

Lemma lframes_fs : lframes fs_l.
Proof. intros t k. by apply frame_same. Qed.
Lemma lframes_kmem : lframes kmem_l.
Proof. intros t k. by apply frame_same. Qed.
Lemma lframes_proc_lock i : lframes (proc_lock i).
Proof. intros l k. apply frame_procs. by intros p. Qed.
Lemma lframes_pidlock : lframes pidlock_l.
Proof. intros t k. by apply frame_same. Qed.
Lemma lframes_waitlock : lframes waitlock_l.
Proof. intros t k. by apply frame_same. Qed.
Lemma lframes_tickslock : lframes tickslock_l.
Proof. intros t k. by apply frame_same. Qed.
Lemma lframes_pipe_lock pa : lframes (pipe_lock pa).
Proof. intros t k. by apply frame_same. Qed.
Lemma lframes_cons_lock : lframes cons_lock.
Proof. intros t k. by apply frame_same. Qed.
Lemma lframes_uart_lock : lframes uart_lock.
Proof. intros t k. by apply frame_same. Qed.
Lemma lframes_printf_lock : lframes printf_lock.
Proof. intros t k. by apply frame_same. Qed.
#[export] Hint Resolve lframes_fs lframes_kmem lframes_proc_lock lframes_pidlock lframes_waitlock lframes_tickslock
  lframes_pipe_lock lframes_cons_lock lframes_uart_lock lframes_printf_lock : frames.

Lemma frames_kfs {A} (m : M fs A) : frames (kfs m).
Proof. apply frames_lower, lframes_fs. Qed.
Lemma frames_kmm {A} (m : M kmem A) : frames (kmm m).
Proof. apply frames_zoom, lframes_kmem. Qed.
Lemma frames_getp i : frames (getp i).
Proof. apply frames_gets. Qed.
Lemma frames_getf i : frames (getf i).
Proof. apply frames_gets. Qed.
Lemma frames_getpi pa : frames (getpi pa).
Proof. apply frames_gets. Qed.
Lemma frames_updpi pa f : frames (updpi pa f).
Proof. intros k. by apply frame_same. Qed.
Lemma frames_updc f : frames (updc f).
Proof. intros k. by apply frame_same. Qed.
Lemma frames_updu f : frames (updu f).
Proof. intros k. by apply frame_same. Qed.
#[export] Hint Resolve frames_ret frames_gets frames_panic frames_block frames_nofuel frames_in_env frames_kfs frames_kmm
  frames_getp frames_getf frames_getpi frames_updpi frames_updc frames_updu : frames.

(** [frames_auto] decomposes a routine down to the hints. *)
Ltac frames_auto :=
  repeat first
    [ solve [auto with frames nocore]
    | apply frames_bind; [|intros ?]
    | apply frames_for_each; intros ?
    | apply frames_for_find; intros ?
    | apply frames_with_env
    | apply frames_zoom
    | apply frames_updp; intros ?; split; [reflexivity|done]
    | apply frames_updf; intros ?; reflexivity
    | apply frames_modify; intros ?; by apply frame_same
    | progress cbv beta iota zeta
    | case_match ].

(** ** Processes *)

Lemma frames_myproc : frames myproc.
Proof. unfold myproc. frames_auto. Qed.
#[export] Hint Resolve frames_myproc : frames.
Lemma frames_myproc_ptr : frames myproc_ptr.
Proof. unfold myproc_ptr. frames_auto. Qed.
#[export] Hint Resolve frames_myproc_ptr : frames.
Lemma frames_killed i : frames (killed i).
Proof. unfold killed. frames_auto. Qed.
#[export] Hint Resolve frames_killed : frames.
Lemma frames_sched : frames sched.
Proof. unfold sched. frames_auto. Qed.
#[export] Hint Resolve frames_sched : frames.
Lemma frames_sleep c lk : lframes lk -> frames (sleep c lk).
Proof. intros Hl. unfold sleep. frames_auto. Qed.
#[export] Hint Resolve frames_sleep : frames.
Lemma frames_wakeup c : frames (wakeup c).
Proof. unfold wakeup. frames_auto. Qed.
#[export] Hint Resolve frames_wakeup : frames.
Lemma frames_kkill pid : frames (kkill pid).
Proof. unfold kkill. frames_auto. Qed.
#[export] Hint Resolve frames_kkill : frames.
Lemma frames_either_copyout b dst src : frames (either_copyout b dst src).
Proof. unfold either_copyout. frames_auto. Qed.
#[export] Hint Resolve frames_either_copyout : frames.
Lemma frames_either_copyin b src n : frames (either_copyin b src n).
Proof. unfold either_copyin. frames_auto. Qed.
#[export] Hint Resolve frames_either_copyin : frames.
Lemma frames_tf_get i off : frames (tf_get i off).
Proof. unfold tf_get. frames_auto. Qed.
#[export] Hint Resolve frames_tf_get : frames.
Lemma frames_tf_set i off v : frames (tf_set i off v).
Proof. unfold tf_set. frames_auto. Qed.
#[export] Hint Resolve frames_tf_set : frames.
Lemma frames_growproc n : frames (growproc n).
Proof. unfold growproc. frames_auto. Qed.
#[export] Hint Resolve frames_growproc : frames.
Lemma frames_allocpid : frames allocpid.
Proof. unfold allocpid. frames_auto. Qed.
#[export] Hint Resolve frames_allocpid : frames.
Lemma frames_proc_pagetable i : frames (proc_pagetable i).
Proof. unfold proc_pagetable. frames_auto. Qed.
#[export] Hint Resolve frames_proc_pagetable : frames.
Lemma frames_proc_freepagetable pt sz : frames (proc_freepagetable pt sz).
Proof. unfold proc_freepagetable. frames_auto. Qed.
#[export] Hint Resolve frames_proc_freepagetable : frames.

(** ** Console and printf *)

Lemma frames_uartwrite_one c : frames (uartwrite_one c).
Proof. unfold uartwrite_one, write_thr. frames_auto. Qed.
#[export] Hint Resolve frames_uartwrite_one : frames.
Lemma frames_uartwrite buf : frames (uartwrite buf).
Proof. unfold uartwrite. frames_auto. Qed.
#[export] Hint Resolve frames_uartwrite : frames.
Lemma frames_uartputc_sync c : frames (uartputc_sync c).
Proof. unfold uartputc_sync, wait_tx_idle, write_thr. frames_auto. Qed.
#[export] Hint Resolve frames_uartputc_sync : frames.
Lemma frames_consputc c : frames (consputc c).
Proof. unfold consputc. frames_auto. Qed.
#[export] Hint Resolve frames_consputc : frames.
Lemma frames_printf fmt a : frames (printf fmt a).
Proof. unfold printf. frames_auto. Qed.
#[export] Hint Resolve frames_printf : frames.
Lemma frames_consoleread_turn b t dst n : frames (consoleread_turn b t dst n).
Proof. unfold consoleread_turn. frames_auto. Qed.
#[export] Hint Resolve frames_consoleread_turn : frames.
Lemma frames_consoleread_loop fuel b t dst n : frames (consoleread_loop fuel b t dst n).
Proof. revert dst n. induction fuel as [|fuel IH]; intros dst n; cbn [consoleread_loop]; frames_auto. Qed.
#[export] Hint Resolve frames_consoleread_loop : frames.
Lemma frames_consoleread b dst n : frames (consoleread b dst n).
Proof. unfold consoleread. frames_auto. Qed.
#[export] Hint Resolve frames_consoleread : frames.
Lemma frames_consolewrite_loop fuel b src n i : frames (consolewrite_loop fuel b src n i).
Proof. revert i. induction fuel as [|fuel IH]; intros i; cbn [consolewrite_loop]; frames_auto. Qed.
#[export] Hint Resolve frames_consolewrite_loop : frames.
Lemma frames_consolewrite b src n : frames (consolewrite b src n).
Proof. unfold consolewrite. frames_auto. Qed.
#[export] Hint Resolve frames_consolewrite : frames.

(** ** Pipes and files *)

Lemma frames_pipeclose pa w : frames (pipeclose pa w).
Proof. unfold pipeclose. frames_auto. Qed.
#[export] Hint Resolve frames_pipeclose : frames.
Lemma frames_pipewrite_turn pa addr n pr i : frames (pipewrite_turn pa addr n pr i).
Proof. unfold pipewrite_turn. frames_auto. Qed.
#[export] Hint Resolve frames_pipewrite_turn : frames.
Lemma frames_pipewrite_loop fuel pa addr n pr i : frames (pipewrite_loop fuel pa addr n pr i).
Proof. revert i. induction fuel as [|fuel IH]; intros i; cbn [pipewrite_loop]; frames_auto. Qed.
#[export] Hint Resolve frames_pipewrite_loop : frames.
Lemma frames_pipewrite pa addr n : frames (pipewrite pa addr n).
Proof. unfold pipewrite. frames_auto. Qed.
#[export] Hint Resolve frames_pipewrite : frames.
Lemma frames_piperead_wait pa pr : frames (piperead_wait pa pr).
Proof. unfold piperead_wait. frames_auto. Qed.
#[export] Hint Resolve frames_piperead_wait : frames.
Lemma frames_piperead_copy pa addr pr n : frames (piperead_copy pa addr pr n).
Proof. unfold piperead_copy. frames_auto. Qed.
#[export] Hint Resolve frames_piperead_copy : frames.
Lemma frames_piperead pa addr n : frames (piperead pa addr n).
Proof. unfold piperead. frames_auto. Qed.
#[export] Hint Resolve frames_piperead : frames.
Lemma frames_kbegin_op : frames kbegin_op.
Proof. unfold kbegin_op. frames_auto. Qed.
#[export] Hint Resolve frames_kbegin_op : frames.
Lemma frames_kend_op : frames kend_op.
Proof. unfold kend_op. frames_auto. Qed.
#[export] Hint Resolve frames_kend_op : frames.
Lemma frames_filestat i addr : frames (filestat i addr).
Proof. unfold filestat. frames_auto. Qed.
#[export] Hint Resolve frames_filestat : frames.
Lemma frames_readi out i off n : (forall o bs, frames (out o bs)) -> frames (readi fs_l out i off n).
Proof.
  intros Ho. unfold readi. apply frames_bind; [frames_auto|]. intros ip. destruct (_ || _); [frames_auto|]. cbv zeta.
  generalize (rw_fuel (if i_size ip <? u32 (off + n) then i_size ip - off else n)) as fuel, 0 as tot. intros fuel.
  generalize (if i_size ip <? u32 (off + n) then i_size ip - off else n) as m. intros m.
  revert off. induction fuel as [|fuel IH]; intros off tot; cbn [readi_loop]; frames_auto.
Qed.
Lemma frames_writei inp i off n : (forall o m, frames (inp o m)) -> frames (writei fs_l inp i off n).
Proof.
  intros Ho. unfold writei. apply frames_bind; [frames_auto|]. intros ip. destruct (_ || _); [frames_auto|]. destruct (_ <? _); [frames_auto|].
  apply frames_bind; [|intros; frames_auto]. generalize (rw_fuel n) as fuel, 0 as tot. intros fuel.
  revert off. induction fuel as [|fuel IH]; intros off tot; cbn [writei_loop]; frames_auto.
Qed.
Lemma frames_readi_at b a ip off n : frames (readi_at b a ip off n).
Proof. apply frames_readi. intros. frames_auto. Qed.
#[export] Hint Resolve frames_readi_at : frames.
Lemma frames_writei_at b a ip off n : frames (writei_at b a ip off n).
Proof. apply frames_writei. intros. frames_auto. Qed.
#[export] Hint Resolve frames_writei_at : frames.
Lemma frames_call_dev fn addr n : frames (call_dev fn addr n).
Proof. unfold call_dev. frames_auto. Qed.
#[export] Hint Resolve frames_call_dev : frames.
Lemma frames_dev_of major : frames (dev_of major).
Proof. unfold dev_of. frames_auto. Qed.
#[export] Hint Resolve frames_dev_of : frames.
Lemma frames_fileread i addr n : frames (fileread i addr n).
Proof. unfold fileread. frames_auto. Qed.
#[export] Hint Resolve frames_fileread : frames.
Lemma frames_filewrite_loop fuel f addr n i : frames (filewrite_loop fuel f addr n i).
Proof. revert i. induction fuel as [|fuel IH]; intros i; cbn [filewrite_loop]; frames_auto. Qed.
#[export] Hint Resolve frames_filewrite_loop : frames.
Lemma frames_filewrite i addr n : frames (filewrite i addr n).
Proof. unfold filewrite. frames_auto. Qed.
#[export] Hint Resolve frames_filewrite : frames.

(** ** System calls *)

Lemma frames_fetchaddr addr : frames (fetchaddr addr).
Proof. unfold fetchaddr. frames_auto. Qed.
#[export] Hint Resolve frames_fetchaddr : frames.
Lemma frames_fetchstr addr max : frames (fetchstr addr max).
Proof. unfold fetchstr. frames_auto. Qed.
#[export] Hint Resolve frames_fetchstr : frames.
Lemma frames_argraw n : frames (argraw n).
Proof. unfold argraw. frames_auto. Qed.
#[export] Hint Resolve frames_argraw : frames.
Lemma frames_argint n : frames (argint n).
Proof. unfold argint. frames_auto. Qed.
#[export] Hint Resolve frames_argint : frames.
Lemma frames_argaddr n : frames (argaddr n).
Proof. unfold argaddr. frames_auto. Qed.
#[export] Hint Resolve frames_argaddr : frames.
Lemma frames_argstr n max : frames (argstr n max).
Proof. unfold argstr. frames_auto. Qed.
#[export] Hint Resolve frames_argstr : frames.
Lemma frames_argfd n : frames (argfd n).
Proof. unfold argfd. frames_auto. Qed.
#[export] Hint Resolve frames_argfd : frames.
Lemma frames_kcwd : frames kcwd.
Proof. unfold kcwd. frames_auto. Qed.
#[export] Hint Resolve frames_kcwd : frames.
Lemma frames_knamei path : frames (knamei path).
Proof. unfold knamei. frames_auto. Qed.
#[export] Hint Resolve frames_knamei : frames.
Lemma frames_knameiparent path : frames (knameiparent path).
Proof. unfold knameiparent. frames_auto. Qed.
#[export] Hint Resolve frames_knameiparent : frames.
Lemma frames_kinode i : frames (kinode i).
Proof. unfold kinode. frames_auto. Qed.
#[export] Hint Resolve frames_kinode : frames.
Lemma frames_add_nlink d i : frames (add_nlink d i).
Proof. unfold add_nlink. frames_auto. Qed.
#[export] Hint Resolve frames_add_nlink : frames.
Lemma frames_sys_read : frames sys_read.
Proof. unfold sys_read. frames_auto. Qed.
#[export] Hint Resolve frames_sys_read : frames.
Lemma frames_sys_write : frames sys_write.
Proof. unfold sys_write. frames_auto. Qed.
#[export] Hint Resolve frames_sys_write : frames.
Lemma frames_sys_fstat : frames sys_fstat.
Proof. unfold sys_fstat. frames_auto. Qed.
#[export] Hint Resolve frames_sys_fstat : frames.
Lemma frames_sys_link_bad ip : frames (sys_link_bad ip).
Proof. unfold sys_link_bad. frames_auto. Qed.
#[export] Hint Resolve frames_sys_link_bad : frames.
Lemma frames_sys_link : frames sys_link.
Proof. unfold sys_link. frames_auto. Qed.
#[export] Hint Resolve frames_sys_link : frames.
Lemma frames_isdirempty dp : frames (isdirempty dp).
Proof. unfold isdirempty. frames_auto. Qed.
#[export] Hint Resolve frames_isdirempty : frames.
Lemma frames_unlink_bad dp : frames (unlink_bad dp).
Proof. unfold unlink_bad. frames_auto. Qed.
#[export] Hint Resolve frames_unlink_bad : frames.
Lemma frames_unlink_in dp name : frames (unlink_in dp name).
Proof. unfold unlink_in. frames_auto. Qed.
#[export] Hint Resolve frames_unlink_in : frames.
Lemma frames_sys_unlink : frames sys_unlink.
Proof. unfold sys_unlink. frames_auto. Qed.
#[export] Hint Resolve frames_sys_unlink : frames.
Lemma frames_create_fail ip dp : frames (create_fail ip dp).
Proof. unfold create_fail. frames_auto. Qed.
#[export] Hint Resolve frames_create_fail : frames.
Lemma frames_link_dots ip a b : frames (link_dots ip a b).
Proof. unfold link_dots. frames_auto. Qed.
#[export] Hint Resolve frames_link_dots : frames.
Lemma frames_create_new dp ip name t a b : frames (create_new dp ip name t a b).
Proof. unfold create_new. frames_auto. Qed.
#[export] Hint Resolve frames_create_new : frames.
Lemma frames_create path t a b : frames (create path t a b).
Proof. unfold create. frames_auto. Qed.
#[export] Hint Resolve frames_create : frames.
Lemma frames_open_inode path o : frames (open_inode path o).
Proof. unfold open_inode. frames_auto. Qed.
#[export] Hint Resolve frames_open_inode : frames.
Lemma frames_make_node path t a b : frames (make_node path t a b).
Proof. unfold make_node. frames_auto. Qed.
#[export] Hint Resolve frames_make_node : frames.
Lemma frames_sys_mkdir : frames sys_mkdir.
Proof. unfold sys_mkdir. frames_auto. Qed.
#[export] Hint Resolve frames_sys_mkdir : frames.
Lemma frames_sys_mknod : frames sys_mknod.
Proof. unfold sys_mknod. frames_auto. Qed.
#[export] Hint Resolve frames_sys_mknod : frames.
Lemma frames_sys_chdir : frames sys_chdir.
Proof. unfold sys_chdir. frames_auto. Qed.
#[export] Hint Resolve frames_sys_chdir : frames.

(** ** exec *)

Lemma frames_loadseg pt va ip off sz : frames (loadseg pt va ip off sz).
Proof. unfold loadseg. frames_auto. Qed.
#[export] Hint Resolve frames_loadseg : frames.
Lemma frames_load_one pt ip sz ph : frames (load_one pt ip sz ph).
Proof. unfold load_one. frames_auto. Qed.
#[export] Hint Resolve frames_load_one : frames.
Lemma frames_load_loop n pt ip sz off : frames (load_loop n pt ip sz off).
Proof. revert sz off. induction n as [|n IH]; intros sz off; cbn [load_loop]; frames_auto. Qed.
#[export] Hint Resolve frames_load_loop : frames.
Lemma frames_exec_bad pt sz ip : frames (exec_bad pt sz ip).
Proof. unfold exec_bad. frames_auto. Qed.
#[export] Hint Resolve frames_exec_bad : frames.
Lemma frames_exec_load i ip : frames (exec_load i ip).
Proof. unfold exec_load. frames_auto. Qed.
#[export] Hint Resolve frames_exec_load : frames.
Lemma frames_push_argv put base sp argv : (forall va bs, frames (put va bs)) -> frames (push_argv put base sp argv).
Proof.
  intros Hp. unfold push_argv. apply frames_bind; [|intros; frames_auto].
  generalize 0 as argc, (@nil Z) as st. revert sp. induction argv as [|s argv IH]; intros sp argc st; cbn [push_args]; frames_auto.
Qed.
Lemma frames_exec_commit i pt sz entry path argv : frames (exec_commit i pt sz entry path argv).
Proof.
  unfold exec_commit. apply frames_bind; [frames_auto|]. intros p. cbv zeta. apply frames_bind; [frames_auto|]. intros sz1.
  case_match; [frames_auto|]. apply frames_bind; [frames_auto|]. intros _.
  apply frames_bind; [apply frames_push_argv; intros; frames_auto|]. intros a. frames_auto.
Qed.
#[export] Hint Resolve frames_exec_commit : frames.
Lemma frames_kexec path argv : frames (kexec path argv).
Proof. unfold kexec. frames_auto. Qed.
#[export] Hint Resolve frames_kexec : frames.
Lemma frames_fetch_argv fuel u i pages argv : frames (fetch_argv fuel u i pages argv).
Proof. revert i pages argv. induction fuel as [|fuel IH]; intros i pages argv; cbn [fetch_argv]; frames_auto. Qed.
#[export] Hint Resolve frames_fetch_argv : frames.
Lemma frames_sys_exec : frames sys_exec.
Proof. unfold sys_exec. frames_auto. Qed.
#[export] Hint Resolve frames_sys_exec : frames.
Lemma frames_put_fds i a x y : frames (put_fds i a x y).
Proof. unfold put_fds. frames_auto. Qed.
#[export] Hint Resolve frames_put_fds : frames.

(** ** Process system calls *)

Lemma frames_sys_getpid : frames sys_getpid.
Proof. unfold sys_getpid. frames_auto. Qed.
#[export] Hint Resolve frames_sys_getpid : frames.
Lemma frames_sys_sbrk : frames sys_sbrk.
Proof. unfold sys_sbrk. frames_auto. Qed.
#[export] Hint Resolve frames_sys_sbrk : frames.
Lemma frames_pause_wait t n : frames (pause_wait t n).
Proof. unfold pause_wait. frames_auto. Qed.
#[export] Hint Resolve frames_pause_wait : frames.
Lemma frames_sys_pause : frames sys_pause.
Proof. unfold sys_pause. frames_auto. Qed.
#[export] Hint Resolve frames_sys_pause : frames.
Lemma frames_sys_kill : frames sys_kill.
Proof. unfold sys_kill. frames_auto. Qed.
#[export] Hint Resolve frames_sys_kill : frames.
Lemma frames_sys_uptime : frames sys_uptime.
Proof. unfold sys_uptime. frames_auto. Qed.
#[export] Hint Resolve frames_sys_uptime : frames.
