(* ===== verification/Descr.v ===== *)
(** * Descriptors and reference counts

    The reference count of an open file is the number of descriptors, over
    all processes, that name it.  The routines that open, duplicate and close
    files (file.c, and their callers in sysfile.c, pipe.c and proc.c) move
    references between descriptor tables and local variables: [bal h] says
    that the counts are right when the running code holds [h f] references to
    file [f] outside the tables.  Every system call starts and ends with
    [h = 0].  *)

From Stdlib Require Import String.
From S2P Require Import Prelude Param Spinlock Sleeplock Str Bio Log Fs Mem Kalloc Vm Printf Virtio Kernel Proc Console Pipe ProcLife Exec Sysfile Trap Frames.

(** ** Counting *)

Definition occ (f : nat) (t : list (option nat)) : Z := Z.of_nat (length (filter (.= Some f) t)).
Fixpoint total (f : nat) (ts : list (list (option nat))) : Z :=
  match ts with [] => 0 | t :: ts' => occ f t + total f ts' end.

Definition held := nat -> Z.
Definition one (f : nat) : held := fun j => if decide (j = f) then 1 else 0.
Definition hadd (h g : held) : held := fun j => h j + g j.
Definition hsub (h g : held) : held := fun j => h j - g j.
Definition none : held := fun _ => 0.

Lemma occ_nonneg f t : 0 <= occ f t.
Proof. unfold occ. lia. Qed.
Lemma total_nonneg f ts : 0 <= total f ts.
Proof. induction ts as [|t ts IH]; cbn; [lia|]. pose proof (occ_nonneg f t). lia. Qed.

Lemma occ_cons f x t : occ f (x :: t) = (if decide (x = Some f) then 1 else 0) + occ f t.
Proof. unfold occ. rewrite filter_cons. case_decide; cbn [length]; lia. Qed.

Lemma occ_insert f t d x y :
  t !! d = Some x -> occ f (<[d := y]> t) = occ f t - (if decide (x = Some f) then 1 else 0) + (if decide (y = Some f) then 1 else 0).
Proof.
  revert d. induction t as [|z t IH]; intros [|d] Hd; [done..| |].
  - injection Hd as ->. cbn. rewrite !occ_cons. lia.
  - change (<[S d := y]> (z :: t)) with (z :: <[d := y]> t). rewrite !occ_cons, (IH d Hd). lia.
Qed.

Lemma total_alter f ts i t (g : list (option nat) -> list (option nat)) :
  ts !! i = Some t -> total f (alter g i ts) = total f ts - occ f t + occ f (g t).
Proof.
  revert i. induction ts as [|u ts IH]; intros [|i] Hi; [done..| |].
  - injection Hi as ->. cbn. lia.
  - change (alter g (S i) (u :: ts)) with (u :: alter g i ts). cbn [total]. rewrite (IH i Hi). lia.
Qed.

Lemma occ_le_total f ts i t : ts !! i = Some t -> occ f t <= total f ts.
Proof.
  revert i. induction ts as [|u ts IH]; intros [|i] Hi; [done..| |]; cbn.
  - injection Hi as ->. pose proof (total_nonneg f ts). lia.
  - pose proof (IH i Hi). pose proof (occ_nonneg f u). lia.
Qed.

Lemma occ_elem f t d : t !! d = Some (Some f) -> 1 <= occ f t.
Proof.
  intros Hd. unfold occ. assert (Some f ∈ filter (.= Some f) t) as He by (apply list_elem_of_filter; split; [done|by eapply list_elem_of_lookup_2]).
  destruct (filter _ t); [by apply elem_of_nil in He|cbn; lia].
Qed.

(** ** The invariant *)

Definition closed (t : list (option nat)) : Prop := Forall (.= None) t.

(** The parts that only depend on what [frame] preserves. *)
Record bal (h : held) (k : kernel) : Prop := {
  bal_count : forall f, default 0 (refs k !! f) = total f (ofiles k) + h f;
  bal_idle : forall i p, k_procs k !! i = Some p -> idle p = true -> closed (p_ofile p);
  bal_files : length (refs k) = NFILE;
  bal_procs : length (ofiles k) = NPROC;
  bal_len : Forall (fun t => length t = NOFILE) (ofiles k);
  bal_cur : forall i, k_cur k = Some i -> exists p, k_procs k !! i = Some p /\ idle p = false
}.

(** Between acquisitions of its lock the file table is unlocked. *)
Definition inv (h : held) (k : kernel) : Prop := bal h k /\ locked (ft_lock k) = false.

(** The descriptors of process [i] do not count. *)
Definition others (cur : option nat) (f : nat) (ts : list (list (option nat))) : Z :=
  total f ts - default 0 (cur ≫= fun i => occ f <$> ts !! i).

(** Where the running code waits: every file has at least as many references
    as there are descriptors of other processes that name it, and a process
    that has ended has none open. *)
Definition no_dangling (k : kernel) : Prop :=
  (forall f, others (k_cur k) f (ofiles k) <= default 0 (refs k !! f)) /\
  (forall i p, k_procs k !! i = Some p -> idle p = true -> closed (p_ofile p)).

Lemma ofiles_lookup k i : ofiles k !! i = p_ofile <$> k_procs k !! i.
Proof. apply list_lookup_fmap. Qed.

Lemma bal_ext h h' k : (forall f, h f = h' f) -> bal h k -> bal h' k.
Proof. intros He []. split; try done. intros f. by rewrite <- He. Qed.
Lemma inv_ext h h' k : (forall f, h f = h' f) -> inv h k -> inv h' k.
Proof. intros He [??]. split; [by eapply bal_ext|done]. Qed.

Lemma idle_closed_le k k' :
  ofiles k' = ofiles k -> idle_le (k_procs k) (k_procs k') ->
  (forall i p, k_procs k !! i = Some p -> idle p = true -> closed (p_ofile p)) ->
  forall i p, k_procs k' !! i = Some p -> idle p = true -> closed (p_ofile p).
Proof.
  intros Vo I Bi i p' Hp Hi. destruct (I i p' Hp Hi) as (p & Hp0 & Hi0).
  assert (ofiles k' !! i = ofiles k !! i) as E by (by rewrite Vo). rewrite !ofiles_lookup, Hp, Hp0 in E.
  injection E as ->. by apply (Bi i).
Qed.

Lemma frame_bal h k k' : frame k k' -> bal h k -> bal h k'.
Proof.
  intros [V I] [Bc Bi Bf Bp Bl Bu]. unfold fdview in V. injection V as Vr Vo Vl Vc. split.
  - by rewrite Vr, Vo.
  - by eapply idle_closed_le.
  - by rewrite Vr.
  - by rewrite Vo.
  - by rewrite Vo.
  - intros i Hc. rewrite Vc in Hc. destruct (Bu i Hc) as (p & Hp & Hi).
    assert (ofiles k' !! i = ofiles k !! i) as E by (by rewrite Vo). rewrite !ofiles_lookup, Hp in E.
    destruct (k_procs k' !! i) as [p'|] eqn:Hp'; [|done]. exists p'. split; [done|]. destruct (idle p') eqn:Hi'; [|done].
    destruct (I i p' Hp' Hi') as (q & Hq & Hiq). congruence.
Qed.
Lemma frame_inv h k k' : frame k k' -> inv h k -> inv h k'.
Proof. intros F [B L]. split; [by eapply frame_bal|]. destruct F as [V _]. unfold fdview in V. congruence. Qed.
Lemma frame_ofiles k k' : frame k k' -> ofiles k' = ofiles k /\ k_cur k' = k_cur k.
Proof. intros [V _]. unfold fdview in V. by injection V. Qed.

Lemma inv_no_dangling h k : (forall f, 0 <= h f) -> inv h k -> no_dangling k.
Proof.
  intros Hh [[Bc Bi _ _ _ _] _]. split; [|done]. intros f. rewrite Bc. unfold others. pose proof (Hh f).
  destruct (k_cur k) as [i|]; cbn; [|lia]. destruct (ofiles k !! i) as [t|]; cbn; [|lia]. pose proof (occ_nonneg f t). lia.
Qed.

(** ** Triples

    [tri P m Q]: from a state in [P], when [m] returns its result and state
    are in [Q], and where it blocks no descriptor dangles. *)

Definition tri {A} (P : kernel -> Prop) (m : M kernel A) (Q : A -> kernel -> Prop) : Prop :=
  forall k, P k -> match m k with Ok a k' => Q a k' | Block _ k' => no_dangling k' | _ => True end.

Lemma tri_ret {A} (P : kernel -> Prop) (a : A) (Q : A -> kernel -> Prop) : (forall k, P k -> Q a k) -> tri P (ret a) Q.
Proof. intros H k Hk. by apply H. Qed.
Lemma tri_panic {A} P msg (Q : A -> kernel -> Prop) : tri P (panic msg) Q.
Proof. by intros k _. Qed.
Lemma tri_bind {A B} P (m : M kernel A) (c : A -> M kernel B) R Q :
  tri P m R -> (forall a, tri (R a) (c a) Q) -> tri P (bind m c) Q.
Proof.
  intros Hm Hc k Hk. unfold bind. specialize (Hm k Hk). destruct (m k) as [a k1| |b k1|]; [|done..]. exact (Hc a k1 Hm).
Qed.
Lemma tri_seq {A} P (m : M kernel unit) (c : M kernel A) R Q :
  tri P m (fun _ => R) -> tri R c Q -> tri P (m ;; c) Q.
Proof. intros Hm Hc. eapply tri_bind; [exact Hm|]. by intros []. Qed.
Lemma tri_mono {A} (P P' : kernel -> Prop) (m : M kernel A) (Q Q' : A -> kernel -> Prop) :
  tri P' m Q' -> (forall k, P k -> P' k) -> (forall a k, Q' a k -> Q a k) -> tri P m Q.
Proof. intros Hm HP HQ k Hk. specialize (Hm k (HP k Hk)). destruct (m k); try done. by apply HQ. Qed.
Lemma tri_pre {A} (P P' : kernel -> Prop) (m : M kernel A) Q : (forall k, P k -> P' k) -> tri P' m Q -> tri P m Q.
Proof. intros H Hm. by eapply tri_mono. Qed.
Lemma tri_gets {A} (P : kernel -> Prop) (g : kernel -> A) : tri P (gets g) (fun a k => P k /\ a = g k).
Proof. by intros k Hk. Qed.
Lemma tri_modify (P : kernel -> Prop) f (Q : unit -> kernel -> Prop) : (forall k, P k -> Q tt (f k)) -> tri P (modify f) Q.
Proof. intros H k Hk. by apply H. Qed.

Lemma tri_for_find {A B} (P : kernel -> Prop) (l : list A) (body : A -> M kernel (option B)) (Q : option B -> kernel -> Prop) :
  (forall x, x ∈ l -> tri P (body x) (fun r k => match r with Some v => Q (Some v) k | None => P k end)) ->
  (forall k, P k -> Q None k) -> tri P (for_find l body) Q.
Proof.
  intros Hb Hn. induction l as [|x l IH]; cbn [for_find]; [by apply tri_ret|].
  eapply tri_bind; [apply Hb; by left|]. intros [v|]; [by apply tri_ret|]. apply IH. intros y Hy. apply Hb. by right.
Qed.
Lemma tri_for_each {A} (I : list A -> list A -> kernel -> Prop) (l : list A) (body : A -> M kernel unit) :
  (forall dn x rest, l = dn ++ x :: rest -> tri (I dn (x :: rest)) (body x) (fun _ => I (dn ++ [x]) rest)) ->
  tri (I [] l) (for_each l body) (fun _ => I l []).
Proof.
  enough (forall dn rest, l = dn ++ rest ->
    (forall dn x rest, l = dn ++ x :: rest -> tri (I dn (x :: rest)) (body x) (fun _ => I (dn ++ [x]) rest)) ->
    tri (I dn rest) (for_each rest body) (fun _ => I l [])) as H by (intros Hb; by apply (H [] l)).
  intros dn rest. revert dn. induction rest as [|x rest IH]; intros dn Hl Hb; cbn [for_each].
  - apply tri_ret. intros k. by rewrite Hl, app_nil_r.
  - eapply tri_bind; [by apply Hb|]. intros []. apply IH; [by rewrite <- app_assoc|done].
Qed.

(** What a frame preserves. *)
Definition stable (P : kernel -> Prop) : Prop := forall k k', frame k k' -> P k -> P k'.

Lemma tri_frames {A} (P : kernel -> Prop) (m : M kernel A) :
  frames m -> stable P -> (forall k, P k -> no_dangling k) -> tri P m (fun _ => P).
Proof.
  intros Hf Hs Hd k Hk. specialize (Hf k). destruct (m k); try done; [by eapply Hs|]. apply Hd. by eapply Hs.
Qed.

(** Facts about descriptors and processes, which code that only works on the
    file table leaves alone. *)
Definition sframe (k k' : kernel) : Prop :=
  ofiles k' = ofiles k /\ k_cur k' = k_cur k /\ idle_le (k_procs k) (k_procs k').
Definition local (R : kernel -> Prop) : Prop := forall k k', sframe k k' -> R k -> R k'.

Lemma frame_sframe k k' : frame k k' -> sframe k k'.
Proof. intros F. destruct (frame_ofiles k k' F). split_and!; [done..|apply F]. Qed.
Lemma sframe_same k k' : k_procs k' = k_procs k -> k_cur k' = k_cur k -> sframe k k'.
Proof. intros Hp Hc. unfold sframe, ofiles. rewrite Hp. split_and!; [done..|]. intros i p ??. by exists p. Qed.

Definition st (h : held) (R : kernel -> Prop) (k : kernel) : Prop := inv h k /\ R k.
Definition bst (h : held) (R : kernel -> Prop) (k : kernel) : Prop := bal h k /\ R k.
Definition any (k : kernel) : Prop := True.

Lemma local_any : local any.
Proof. by intros k k'. Qed.
Lemma local_and R R' : local R -> local R' -> local (fun k => R k /\ R' k).
Proof. intros H H' k k' F [??]. split; [by eapply H|by eapply H']. Qed.
Lemma local_const (P : Prop) : local (fun _ => P).
Proof. by intros k k'. Qed.

Lemma no_dangling_stable : stable no_dangling.
Proof.
  intros k k' [V I] [Hc Hi]. unfold fdview in V. injection V as Vr Vo Vl Vc. split; [by rewrite Vr, Vo, Vc|]. by eapply idle_closed_le.
Qed.

Lemma st_stable h R : local R -> stable (st h R).
Proof. intros HR k k' F [I Hr]. split; [by eapply frame_inv|]. eapply HR; [by apply frame_sframe|done]. Qed.
Lemma st_safe h R : (forall f, 0 <= h f) -> forall k, st h R k -> no_dangling k.
Proof. intros Hh k [I _]. by eapply inv_no_dangling. Qed.

Lemma tri_frames_st {A} h R (m : M kernel A) :
  frames m -> local R -> (forall f, 0 <= h f) -> tri (st h R) m (fun _ => st h R).
Proof. intros Hm HR Hh. apply tri_frames; [done|by apply st_stable|by apply st_safe]. Qed.

(** ** The lock of the file table *)

Lemma bal_lock h l e k : bal h k -> bal h (lset ftable_lock l (lset env_of e k)).
Proof. intros []. by split. Qed.

Lemma tri_ft_acquire h R : local R -> tri (st h R) (with_env ftable_lock acquire) (fun _ => bst h R).
Proof.
  intros HR k [[B L] Hr]. unfold with_env, acquire, bind, zoom, holding, gets, modify, ret, panic. cbn [fst snd lget lset ftable_lock env_l].
  rewrite push_off_spec. cbn [fst snd]. rewrite L. cbn [andb fst snd]. rewrite L. cbn [fst snd].
  split; [by apply bal_lock|]. eapply HR; [|exact Hr]. by apply sframe_same.
Qed.

Lemma tri_ft_release h R : local R -> tri (bst h R) (with_env ftable_lock release) (fun _ => st h R).
Proof.
  intros HR k [B Hr]. unfold with_env, release, bind, zoom, holding, gets, modify, ret, panic. cbn [fst snd lget lset ftable_lock env_l].
  destruct (negb _); [done|]. cbn [fst snd].
  assert (forall e, st h R (lset ftable_lock (mkSpinlock false None) (lset env_of e k))) as Hst.
  { intros e. split; [split; [by apply bal_lock|done]|]. eapply HR; [|exact Hr]. by apply sframe_same. }
  assert (forall e0, match pop_off e0 with Block _ _ => False | _ => True end) as Hp
    by (intros e0; unfold pop_off, bind, intr_get, gets, modify, panic, ret; repeat (case_match; try done)).
  specialize (Hp (lget env_of k)). destruct (pop_off (lget env_of k)) as [[] e| |c e|]; [apply Hst|done..].
Qed.

(** ** Reference counts and descriptors *)

Lemma refs_alter k i g f v :
  ft_file k !! i = Some f -> f_ref (g f) = v -> refs (set_files (alter g i (ft_file k)) k) = <[i := v]> (refs k).
Proof.
  intros Hf Hv. unfold refs. cbn. apply list_eq. intros j. rewrite list_lookup_fmap. destruct (decide (i = j)) as [->|Hne].
  - rewrite list_lookup_alter_eq, Hf. cbn. rewrite Hv. symmetry. apply list_lookup_insert_eq. rewrite length_fmap.
    by eapply lookup_lt_Some.
  - by rewrite list_lookup_alter_ne, list_lookup_insert_ne, list_lookup_fmap by done.
Qed.

(** One more, or one fewer, reference in the hands of the running code. *)
Lemma bst_set_ref h h' R k i g f :
  ft_file k !! i = Some f -> (forall j, h' j = h j + (if decide (j = i) then f_ref (g f) - f_ref f else 0)) ->
  local R -> bst h R k -> bst h' R (set_files (alter g i (ft_file k)) k).
Proof.
  intros Hf Hh HR [[Bc Bi Bf Bp Bl Bu] Hr]. split; [split; try done|].
  - intros j. rewrite (refs_alter k i g f (f_ref (g f))) by done. change (ofiles (set_files _ k)) with (ofiles k). rewrite Hh.
    specialize (Bc j). case_decide as Hd; [subst j|].
    + rewrite list_lookup_insert_eq by (unfold refs; rewrite length_fmap; by eapply lookup_lt_Some). cbn.
      unfold refs in Bc. rewrite list_lookup_fmap, Hf in Bc. cbn in Bc. lia.
    + rewrite list_lookup_insert_ne by done. lia.
  - rewrite (refs_alter k i g f (f_ref (g f))), length_insert by done. done.
  - eapply HR; [|exact Hr]. by apply sframe_same.
Qed.

(** Descriptor [d] of process [i]. *)
Definition descr (k : kernel) (i d : nat) : option (option nat) := ofiles k !! i ≫= (.!! d).
Definition put_fd (i d : nat) (y : option nat) (k : kernel) : kernel :=
  set_procs (alter (fun p => set_pofile (<[d := y]> (p_ofile p)) p) i (k_procs k)) k.

Lemma ofiles_put_fd i d y k : ofiles (put_fd i d y k) = alter (<[d := y]>) i (ofiles k).
Proof.
  unfold ofiles, put_fd. cbn. apply list_eq. intros j. rewrite list_lookup_fmap. destruct (decide (i = j)) as [->|Hne].
  - rewrite !list_lookup_alter_eq, list_lookup_fmap. by destruct (k_procs k !! j).
  - by rewrite !list_lookup_alter_ne, list_lookup_fmap.
Qed.

Lemma descr_put_fd i d y i' d' k :
  descr (put_fd i d y k) i' d' =
  if decide (i' = i /\ d' = d) then (fun _ => y) <$> descr k i d else descr k i' d'.
Proof.
  unfold descr. rewrite ofiles_put_fd. destruct (decide (i = i')) as [->|Hi].
  - rewrite list_lookup_alter_eq. destruct (ofiles k !! i') as [t|]; cbn; [|by case_decide].
    destruct (decide (d' = d)) as [->|Hd]; [|rewrite decide_False by naive_solver; by rewrite list_lookup_insert_ne].
    rewrite decide_True by done. destruct (decide (d < length t)%nat) as [Hl|Hl].
    + rewrite list_lookup_insert_eq by done. by apply lookup_lt_is_Some in Hl as [x ->].
    + by rewrite list_insert_ge, lookup_ge_None_2 by lia.
  - rewrite list_lookup_alter_ne, decide_False by naive_solver. done.
Qed.

(** A descriptor changes from [x] to [y]. *)
Lemma bal_put_fd h h' i d x y k :
  descr k i d = Some x ->
  (forall f, h' f = h f + (if decide (x = Some f) then 1 else 0) - (if decide (y = Some f) then 1 else 0)) ->
  (y <> None -> exists p, k_procs k !! i = Some p /\ idle p = false) -> bal h k -> bal h' (put_fd i d y k).
Proof.
  intros Hd Hh Hy [Bc Bi Bf Bp Bl Bu]. unfold descr in Hd. destruct (ofiles k !! i) as [t|] eqn:Ht; [|done]. cbn in Hd. split.
  - intros f. change (refs (put_fd i d y k)) with (refs k).
    rewrite ofiles_put_fd, (total_alter f _ _ _ _ Ht), (occ_insert _ _ _ _ _ Hd), Hh, Bc. lia.
  - intros j p' Hp Hidle. unfold put_fd in Hp. cbn in Hp. destruct (decide (i = j)) as [->|Hne].
    + rewrite list_lookup_alter_eq in Hp. destruct (k_procs k !! j) as [p|] eqn:E; [|done]. injection Hp as <-. cbn.
      destruct y as [f|]; [destruct Hy as (q & Hq & Hi); [done|]; simplify_eq; unfold idle in *; cbn in *; congruence|].
      apply Forall_insert; [by apply (Bi j p E)|done].
    + rewrite list_lookup_alter_ne in Hp by done. by apply (Bi j).
  - done.
  - by rewrite ofiles_put_fd, length_alter.
  - rewrite ofiles_put_fd. apply Forall_lookup. intros j u Hu. pose proof (proj1 (Forall_lookup _ _) Bl) as Hb.
    destruct (decide (i = j)) as [->|Hne].
    + rewrite list_lookup_alter_eq, Ht in Hu. injection Hu as <-. rewrite length_insert. by apply (Hb j).
    + rewrite list_lookup_alter_ne in Hu by done. by apply (Hb j).
  - intros j Hc. destruct (Bu j Hc) as (p & Hp & Hi). unfold put_fd. cbn. destruct (decide (i = j)) as [->|Hne].
    + rewrite list_lookup_alter_eq, Hp. by eexists.
    + rewrite list_lookup_alter_ne by done. by exists p.
Qed.

(** ** file.c *)

Lemma tri_filealloc h R :
  local R ->
  tri (st h R) filealloc (fun r => match r with Some f => st (hadd h (one f)) R | None => st h R end).
Proof.
  intros HR. unfold filealloc. eapply tri_seq; [by apply tri_ft_acquire|].
  eapply tri_bind; [apply (tri_for_find _ _ _ (fun r => match r with Some f => bst (hadd h (one f)) R | None => bst h R end)); [|done]|].
  - intros i Hi k B. unfold bind, getf, gets. destruct (Z.eqb_spec (f_ref (ft_file k !!! i)) 0) as [E|E]; [|done].
    assert (i < length (ft_file k))%nat as Hlt.
    { pose proof (bal_files _ _ (proj1 B)) as Hf. unfold refs in Hf. rewrite length_fmap in Hf. rewrite Hf.
      apply elem_of_seq in Hi. lia. }
    apply lookup_lt_is_Some in Hlt as [f Hf]. rewrite (list_lookup_total_correct _ _ _ Hf) in E.
    cbn. eapply bst_set_ref; [exact Hf| |done|exact B]. intros j. unfold hadd, one. cbn. case_decide; lia.
  - intros [f|]; (eapply tri_seq; [by apply tri_ft_release|by apply tri_ret]).
Qed.

(** A file that has a reference count is in the table. *)
Lemma ref_in_table k i : 1 <= f_ref (ft_file k !!! i) -> exists f, ft_file k !! i = Some f /\ ft_file k !!! i = f.
Proof.
  rewrite list_lookup_total_alt. intros H. destruct (ft_file k !! i) as [f|]; [by exists f|]. cbn in H. lia.
Qed.

Lemma tri_filedup h R i : local R -> tri (st h R) (filedup i) (fun r k => r = i /\ st (hadd h (one i)) R k).
Proof.
  intros HR. unfold filedup. eapply tri_seq; [by apply tri_ft_acquire|].
  eapply tri_bind; [apply tri_gets|]. intros x. destruct (Z.ltb_spec (f_ref x) 1) as [Hx|Hx]; [apply tri_panic|].
  eapply tri_seq.
  - apply (tri_modify _ _ (fun _ => bst (hadd h (one i)) R)). intros k [B ->].
    destruct (ref_in_table k i Hx) as (f & Hf & _). eapply bst_set_ref; [exact Hf| |done|exact B].
    intros j. unfold hadd, one. cbn. case_decide; lia.
  - eapply tri_seq; [by apply tri_ft_release|]. by apply tri_ret.
Qed.

(** [fileclose] gives up a reference.  Where it blocks, the count has already
    been lowered. *)
Lemma tri_fileclose h R i :
  local R -> (forall k, st (hsub h (one i)) R k -> no_dangling k) ->
  tri (st h R) (fileclose i) (fun _ => st (hsub h (one i)) R).
Proof.
  intros HR Hd. unfold fileclose. eapply tri_seq; [by apply tri_ft_acquire|].
  eapply tri_bind; [apply tri_gets|]. intros x. destruct (Z.ltb_spec (f_ref x) 1) as [Hx|Hx]; [apply tri_panic|].
  set (h' := hsub h (one i)). eapply tri_seq.
  - apply (tri_modify _ _ (fun _ k => bst h' R k /\ exists f, ft_file k !! i = Some f /\ f_ref f = f_ref x - 1)).
    intros k [B ->]. destruct (ref_in_table k i Hx) as (f & Hf & Ef). rewrite Ef in *. split.
    + eapply bst_set_ref; [exact Hf| |done|exact B]. intros j. unfold h', hsub, one. cbn. case_decide; lia.
    + cbn. rewrite list_lookup_alter_eq, Hf. by eexists.
  - destruct (Z.ltb_spec 0 (f_ref x - 1)) as [Hp|Hp]; [eapply tri_pre; [|by apply tri_ft_release]; by intros k []|].
    eapply tri_bind; [apply tri_gets|]. intros ff.
    eapply tri_seq; [apply (tri_modify _ _ (fun _ k => bst h' R k /\ exists f, ft_file k !! i = Some f))|].
    { intros k [[B (f & Hf & Ef)] _]. split; [|cbn; rewrite list_lookup_alter_eq, Hf; by eexists].
      eapply bst_set_ref; [exact Hf| |done|exact B]. intros j. cbn. case_decide; lia. }
    eapply tri_seq; [apply (tri_modify _ _ (fun _ => bst h' R))|].
    { intros k [B (f & Hf)]. eapply bst_set_ref; [exact Hf| |done|exact B]. intros j. cbn. case_decide; lia. }
    eapply tri_seq; [by apply tri_ft_release|]. apply tri_frames; [frames_auto|by apply st_stable|done].
Qed.

(** ** Descriptors of the running process *)

Lemma tri_myproc_ptr P :
  stable P -> (forall k, P k -> no_dangling k) -> tri P myproc_ptr (fun i k => P k /\ k_cur k = Some i).
Proof.
  intros Hs Hd k Hk. pose proof (tri_frames P myproc_ptr frames_myproc_ptr Hs Hd k Hk) as H.
  pose proof (frames_myproc_ptr k) as F. destruct (myproc_ptr k) as [i k'| | |] eqn:E; try done. split; [done|].
  apply frame_ofiles in F as [_ ->]. revert E. unfold myproc_ptr, myproc, bind, gets, in_env, zoom, ret, panic.
  rewrite push_off_spec. match goal with |- context [pop_off ?e] => destruct (pop_off e); try done end.
  change (k_cur (lset env_of _ k)) with (k_cur k). destruct (k_cur k); [|done]. by intros [= <- _].
Qed.

(** The running process has descriptor [d] open on file [f]. *)
Definition owns (d f : nat) (k : kernel) : Prop := exists i, k_cur k = Some i /\ descr k i d = Some (Some f).

Lemma local_owns d f : local (owns d f).
Proof. intros k k' (Ho & Hc & _) (i & Hi & Hd). exists i. unfold descr in *. by rewrite Ho, Hc. Qed.
Lemma local_descr i d x : local (fun k => descr k i d = x).
Proof. intros k k' (Ho & _) Hd. unfold descr in *. by rewrite Ho. Qed.
Lemma local_cur i : local (fun k => k_cur k = Some i).
Proof. intros k k' (_ & Hc & _). by rewrite Hc. Qed.
#[local] Hint Resolve local_any local_owns local_descr local_cur local_and local_const : core.

Lemma none_nonneg f : 0 <= none f.
Proof. done. Qed.
Lemma one_nonneg f j : 0 <= one f j.
Proof. unfold one. case_decide; lia. Qed.
Lemma hadd_nonneg h g : (forall f, 0 <= h f) -> (forall f, 0 <= g f) -> forall f, 0 <= hadd h g f.
Proof. intros Hh Hg f. unfold hadd. pose proof (Hh f). pose proof (Hg f). lia. Qed.
#[local] Hint Resolve none_nonneg one_nonneg hadd_nonneg : core.

(** Adding a fact the running code has established. *)
Lemma st_add h R R' k : st h R k -> R' k -> st h (fun k => R k /\ R' k) k.
Proof. by intros [??]. Qed.
Lemma st_weaken h R R' k : (R k -> R' k) -> st h R k -> st h R' k.
Proof. intros H [??]. split; [done|auto]. Qed.
Lemma st_held h h' R k : (forall f, h f = h' f) -> st h R k -> st h' R k.
Proof. intros He [??]. split; [by eapply inv_ext|done]. Qed.

Lemma proc_descr k i d p : k_procs k !! i = Some p -> descr k i d = p_ofile p !! d.
Proof. intros Hp. unfold descr. by rewrite ofiles_lookup, Hp. Qed.

Lemma cur_proc h k i : bal h k -> k_cur k = Some i -> exists p, k_procs k !! i = Some p /\ idle p = false /\ length (p_ofile p) = NOFILE.
Proof.
  intros B Hc. destruct (bal_cur _ _ B i Hc) as (p & Hp & Hi). exists p. split_and!; [done..|].
  apply (proj1 (Forall_lookup _ _) (bal_len _ _ B) i). by rewrite ofiles_lookup, Hp.
Qed.

Lemma tri_argfd n h R : local R -> (forall f, 0 <= h f) ->
  tri (st h R) (argfd n) (fun r => match r with Some (d, f) => st h (fun k => R k /\ owns d f k) | None => st h R end).
Proof.
  intros HR Hh. unfold argfd. eapply tri_bind; [by apply tri_frames_st; [apply frames_argint|..]|]. intros fd.
  case_match; [by apply tri_ret|]. eapply tri_bind; [by apply tri_myproc_ptr; [apply st_stable|apply st_safe]|]. intros i.
  eapply tri_bind; [apply tri_gets|]. intros p. apply tri_ret. intros k [[Hst Hc] ->].
  destruct (cur_proc _ k i (proj1 (proj1 Hst)) Hc) as (p & Hp & _ & _). rewrite (list_lookup_total_correct _ _ _ Hp).
  destruct (p_ofile p !! Z.to_nat fd) as [[f|]|] eqn:E; try done. cbn. apply st_add; [done|]. exists i. split; [done|].
  by rewrite (proc_descr k i _ p Hp).
Qed.

(** [fdalloc] puts the file into a descriptor that was free. *)
Lemma tri_fdalloc f h R : local R -> (forall f, 0 <= h f) ->
  tri (st h R) (fdalloc f) (fun r k => match r with
    | Some d => exists k0 i, st h R k0 /\ k_cur k0 = Some i /\ descr k0 i d = Some None /\ k = put_fd i d (Some f) k0
    | None => st h R k end).
Proof.
  intros HR Hh. unfold fdalloc. eapply tri_bind; [by apply tri_myproc_ptr; [apply st_stable|apply st_safe]|]. intros i.
  apply tri_for_find; [|by intros k []]. intros d Hd k [Hst Hc]. unfold bind, getp, gets.
  destruct (cur_proc _ k i (proj1 (proj1 Hst)) Hc) as (p & Hp & Hi & Hl). rewrite (list_lookup_total_correct _ _ _ Hp).
  assert (is_Some (p_ofile p !! d)) as [x Hx] by (apply lookup_lt_is_Some; rewrite Hl; apply elem_of_seq in Hd; lia).
  rewrite Hx. cbn [default]. destruct x as [f'|]; [by split|]. cbn. exists k, i. split_and!; try done.
  by rewrite (proc_descr k i d p Hp).
Qed.

(** The state after [fdalloc]. *)
Lemma put_fd_st h R k i d f :
  st h R k -> k_cur k = Some i -> descr k i d = Some None ->
  inv (hsub h (one f)) (put_fd i d (Some f) k) /\ owns d f (put_fd i d (Some f) k).
Proof.
  intros [[B L] Hr] Hc Hd. split; [split; [|done]|].
  - destruct (cur_proc _ k i B Hc) as (p & Hp & Hi & _).
    eapply (bal_put_fd h _ i d None (Some f)); [exact Hd| |by exists p|exact B].
    intros j. unfold hsub, one. repeat case_decide; simplify_eq; lia.
  - exists i. split; [done|]. by rewrite descr_put_fd, decide_True, Hd.
Qed.

(** Clearing a descriptor of the running process. *)
Lemma tri_clear_fd h R i d f :
  tri (fun k => inv h k /\ descr k i d = Some (Some f) /\ (forall k', k' = put_fd i d None k -> R k')) (clear_fd i d)
      (fun _ => st (hadd h (one f)) R).
Proof.
  apply tri_modify. intros k ([B L] & Hd & HR). split; [split; [|done]|by apply HR].
  eapply (bal_put_fd h _ i d (Some f) None); [exact Hd| |done|exact B].
  intros j. unfold hadd, one. repeat case_decide; simplify_eq; lia.
Qed.

(** ** System calls on descriptors *)

Abbreviation balanced := (st none any).

(** A step that leaves descriptors and counts alone. *)
Ltac tframe := eapply tri_bind; [apply tri_frames_st; [solve [frames_auto]|solve [auto]..]|intros ?].
Ltac tframes := apply tri_frames_st; [solve [frames_auto]|solve [auto]..].
(** Held references that cancel. *)
Ltac held_lia := intros; unfold hadd, hsub, none, one; repeat case_decide; simplify_eq; lia.

Lemma tri_post {A} P (m : M kernel A) (Q Q' : A -> kernel -> Prop) : tri P m Q' -> (forall a k, Q' a k -> Q a k) -> tri P m Q.
Proof. intros Hm HQ. by eapply tri_mono. Qed.

(** [fileclose] of a reference the running code holds. *)
Lemma tri_close_held h h' f R :
  local R -> (forall j, h j = h' j + one f j) -> (forall j, 0 <= h' j) -> tri (st h R) (fileclose f) (fun _ => st h' R).
Proof.
  intros HR Hh Hp. eapply tri_post.
  - apply tri_fileclose; [done|]. apply st_safe. intros j. unfold hsub. rewrite Hh. pose proof (Hp j). lia.
  - intros [] k. apply st_held. intros j. unfold hsub. rewrite Hh. lia.
Qed.

Lemma sys_dup_ok : tri balanced sys_dup (fun _ => balanced).
Proof.
  unfold sys_dup. eapply tri_bind; [by apply tri_argfd; auto|]. intros [[d0 f]|]; [|by apply tri_ret].
  eapply tri_bind; [by apply tri_fdalloc; auto|]. intros [d|]; [|apply tri_ret; intros k; by apply st_weaken].
  eapply tri_pre; [|eapply tri_bind; [apply (tri_filedup (hsub none (one f)) any); auto|intros r; apply tri_ret]].
  - intros k (k0 & i & Hst & Hc & Hd & ->). split; [|done]. by apply (put_fd_st _ _ _ _ _ _ Hst Hc Hd).
  - intros k [_ Hk]. revert Hk. apply st_held. held_lia.
Qed.

Lemma sys_close_ok : tri balanced sys_close (fun _ => balanced).
Proof.
  unfold sys_close. eapply tri_bind; [by apply tri_argfd; auto|]. intros [[d f]|]; [|by apply tri_ret].
  eapply tri_bind; [by apply tri_myproc_ptr; [apply st_stable; auto|apply st_safe]|]. intros i.
  eapply tri_seq; [eapply tri_pre; [|apply (tri_clear_fd none any i d f)]|].
  - intros k [[I [_ (i' & Hi' & Hd)]] Hc]. assert (i' = i) as -> by congruence. by split_and!.
  - eapply tri_seq; [apply (tri_close_held _ none); [auto|held_lia|auto]|]. by apply tri_ret.
Qed.

Lemma sys_open_ok : tri balanced sys_open (fun _ => balanced).
Proof.
  unfold sys_open. tframe. tframe. case_match; [|by apply tri_ret]. tframe. tframe. case_match; [|by apply tri_ret].
  tframe. case_match; [tframes|]. eapply tri_bind; [by apply tri_filealloc; auto|]. intros [f|].
  - eapply tri_bind; [apply tri_fdalloc; auto|]. intros [d|].
    + eapply tri_pre; [|tframes]. intros k (k0 & i & Hst & Hc & Hd & ->).
      split; [|done]. eapply inv_ext; [|by apply (put_fd_st _ _ _ _ _ _ Hst Hc Hd)]. held_lia.
    + eapply tri_seq; [apply (tri_close_held _ none); [auto|held_lia|auto]|]. tframes.
  - eapply tri_bind; [apply (tri_ret _ _ (fun r k => r = None /\ balanced k)); by split|]. intros r.
    apply (tri_pre _ (fun k => r = None /\ balanced k)); [done|]. intros k [-> Hk]. revert k Hk.
    change (tri balanced (opt_do None fileclose ;; kfs (iunlockput n) ;; kend_op ;; ret (-1)) (fun _ => balanced)). tframes.
Qed.

Lemma tri_pipealloc R : local R ->
  tri (st none R) pipealloc (fun r => match r with Some (a, b) => st (hadd (hadd none (one a)) (one b)) R | None => st none R end).
Proof.
  intros HR. unfold pipealloc. eapply tri_bind; [by apply tri_filealloc; auto|]. intros [f0|].
  - eapply tri_bind; [by apply tri_filealloc; auto|]. intros [f1|].
    + tframe. case_match.
      * eapply tri_seq; [apply (tri_close_held _ (hadd none (one f1))); [auto|held_lia|auto]|].
        eapply tri_seq; [apply (tri_close_held _ none); [auto|held_lia|auto]|]. by apply tri_ret.
      * tframe. tframe. tframe. by apply tri_ret.
    + tframe. eapply tri_seq; [apply (tri_close_held _ none); [auto|held_lia|auto]|]. cbn [opt_do]. tframe. by apply tri_ret.
  - cbn [bind]. intros k Hk. by cbn.
Qed.

(** [fdalloc] by process [i]: what it knew of other descriptors stays true. *)
Lemma tri_fdalloc_cur f h h' i R R' :
  local R -> (forall j, 0 <= h j) -> (forall j, h j = h' j + one f j) -> (forall k, R k -> k_cur k = Some i) ->
  (forall k d, R k -> descr k i d = Some None -> R' d (put_fd i d (Some f) k)) ->
  tri (st h R) (fdalloc f) (fun r => match r with
    | Some d => st h' (fun k => k_cur k = Some i /\ descr k i d = Some (Some f) /\ R' d k)
    | None => st h R end).
Proof.
  intros HR Hh Hh' Hc HR'. eapply tri_post; [by apply tri_fdalloc|]. intros [d|] k; [|done].
  intros (k0 & i0 & Hst & Hc0 & Hd & ->). assert (i0 = i) as -> by (rewrite Hc in Hc0 by apply Hst; by injection Hc0).
  destruct (put_fd_st h R k0 i d f Hst Hc0 Hd) as [I _]. split.
  - eapply inv_ext; [|exact I]. intros j. unfold hsub. rewrite Hh'. lia.
  - split_and!; [done| |apply HR'; [apply Hst|done]]. by rewrite descr_put_fd, decide_True, Hd.
Qed.

(** Both ends are closed again when [sys_pipe] fails. *)
Lemma tri_close_both a b (h : held) : (forall j, h j = one a j + one b j) ->
  tri (st h any) (fileclose a ;; fileclose b ;; ret (-1)) (fun _ => balanced).
Proof.
  intros Hh. eapply tri_seq; [apply (tri_close_held _ (one b)); [auto|intros j; rewrite Hh; lia|auto]|].
  eapply tri_seq; [apply (tri_close_held _ none); [auto|held_lia|auto]|]. by apply tri_ret.
Qed.

Lemma sys_pipe_ok : tri balanced sys_pipe (fun _ => balanced).
Proof.
  unfold sys_pipe. eapply tri_bind; [by apply tri_myproc_ptr; [apply st_stable; auto|apply st_safe]|]. intros i.
  apply (tri_pre _ (st none (fun k => k_cur k = Some i))); [by intros k [[??]?]|]. tframe.
  eapply tri_bind; [apply tri_pipealloc; auto|]. intros [[rf wf]|]; [|apply tri_ret; intros k; by apply st_weaken].
  eapply tri_bind; [apply (tri_fdalloc_cur rf _ (one wf) i _ (fun _ => any)); [auto|auto|held_lia|done|done]|]. intros [d0|].
  - eapply tri_bind; [apply (tri_fdalloc_cur wf _ none i _ (fun d1 k => descr k i d0 = Some (Some rf) /\ d1 <> d0));
      [auto|auto|held_lia|by intros k []|]|].
    { intros k d1 (_ & Hd0 & _) Hd1. assert (d1 <> d0) as Hne by (intros ->; congruence).
      split; [|done]. rewrite descr_put_fd, decide_False by naive_solver. done. }
    intros [d1|].
    + tframe. destruct a0; [apply tri_ret; intros k; by apply st_weaken|].
      eapply tri_seq; [eapply tri_pre; [|apply (tri_clear_fd none (fun k => descr k i d1 = Some (Some wf)) i d0 rf)]|].
      { intros k [I (_ & Hd1 & Hd0 & Hne)]. split_and!; [done..|]. intros k' ->. by rewrite descr_put_fd, decide_False by naive_solver. }
      eapply tri_seq; [eapply tri_pre; [|apply (tri_clear_fd (hadd none (one rf)) any i d1 wf)]; intros k [I Hd1]; by split_and!|].
      apply tri_close_both. held_lia.
    + cbn [opt_do]. eapply tri_seq; [eapply tri_pre; [|apply (tri_clear_fd (one wf) any i d0 rf)]|].
      { intros k [I (_ & Hd0 & _)]. by split_and!. }
      apply tri_close_both. held_lia.
  - cbn [opt_do bind]. intros k Hk. eapply (tri_close_both rf wf); [|by eapply st_weaken]. held_lia.
Qed.

(** ** Fork, exit and wait *)

(** A process that is not running and has no open files. *)
Definition spare (i : nat) (k : kernel) : Prop :=
  k_cur k <> Some i /\ exists t, ofiles k !! i = Some t /\ closed t.
Definition busy (i : nat) (k : kernel) : Prop := exists p, k_procs k !! i = Some p /\ idle p = false.

Lemma local_spare i : local (spare i).
Proof. intros k k' (Ho & Hc & _) [Hn Ht]. split; [by rewrite Hc|by rewrite Ho]. Qed.
Lemma local_busy i : local (busy i).
Proof.
  intros k k' (Ho & _ & Hi) (p & Hp & Hb). assert (ofiles k' !! i = ofiles k !! i) as E by (by rewrite Ho).
  rewrite !ofiles_lookup, Hp in E. destruct (k_procs k' !! i) as [p'|] eqn:Hp'; [|done]. exists p'. split; [done|].
  destruct (idle p') eqn:Hi'; [|done]. destruct (Hi i p' Hp' Hi') as (q & Hq & Hiq). congruence.
Qed.
#[local] Hint Resolve local_spare local_busy : core.

Lemma ofiles_set_state s i k : ofiles (set_procs (alter (set_pstate s) i (k_procs k)) k) = ofiles k.
Proof. unfold ofiles. cbn. by apply alter_id_list. Qed.

(** A process without open files may become unused. *)
Lemma tri_set_idle s i h : tri (st h (spare i)) (updp i (set_pstate s)) (fun _ => st h (spare i)).
Proof.
  apply tri_modify. intros k [[[Bc Bi Bf Bp Bl Bu] L] [Hn (t & Ht & Hcl)]].
  set (k' := set_procs _ k). assert (ofiles k' = ofiles k) as Ho by apply ofiles_set_state.
  split; [split; [split|done]|split; [done|rewrite Ho; by exists t]]; rewrite ?Ho; try done.
  - intros j p' Hp Hi. unfold k' in Hp. cbn in Hp. destruct (decide (i = j)) as [->|Hne].
    + rewrite list_lookup_alter_eq in Hp. rewrite ofiles_lookup in Ht. destruct (k_procs k !! j) as [p|]; [|done].
      injection Hp as <-. by injection Ht as <-.
    + rewrite list_lookup_alter_ne in Hp by done. by apply (Bi j).
  - intros j Hc. destruct (Bu j Hc) as (p & Hp & Hi). exists p. split; [|done]. unfold k'. cbn.
    rewrite list_lookup_alter_ne; [done|]. intros ->. by apply Hn.
Qed.

Lemma tri_freeproc i : tri (st none (spare i)) (freeproc i) (fun _ => st none (spare i)).
Proof.
  unfold freeproc. do 12 tframe. apply tri_set_idle.
Qed.

(** A process found idle is spare. *)
Lemma idle_spare h k i p : bal h k -> k_procs k !! i = Some p -> idle p = true -> spare i k.
Proof.
  intros B Hp Hi. split.
  - intros Hc. destruct (bal_cur _ _ B i Hc) as (q & Hq & Hi'). congruence.
  - exists (p_ofile p). rewrite ofiles_lookup, Hp. split; [done|]. by apply (bal_idle _ _ B i).
Qed.

Lemma tri_allocproc :
  tri balanced allocproc (fun r => match r with Some i => st none (fun k => spare i k /\ busy i k) | None => balanced end).
Proof.
  unfold allocproc.
  eapply tri_bind; [apply (tri_for_find _ _ _ (fun r => match r with Some i => st none (spare i) | None => balanced end)); [|done]|].
  - intros i Hi. tframe. eapply tri_bind; [apply tri_gets|]. intros p. case_bool_decide as Hs.
    + apply tri_ret. intros k [[I _] ->]. split; [done|].
      assert (i < length (k_procs k))%nat as Hlt.
      { pose proof (bal_procs _ _ (proj1 I)) as Hl. unfold ofiles in Hl. rewrite length_fmap in Hl. rewrite Hl. apply elem_of_seq in Hi. lia. }
      apply lookup_lt_is_Some in Hlt as [p Hp]. rewrite (list_lookup_total_correct _ _ _ Hp) in Hs.
      eapply idle_spare; [apply I|exact Hp|]. unfold idle. by rewrite Hs.
    + apply (tri_pre _ balanced); [by intros k []|]. tframe. by apply tri_ret.
  - intros [i|]; [|by apply tri_ret]. tframe. tframe.
    eapply tri_seq; [apply (tri_modify _ _ (fun _ => st none (fun k => spare i k /\ busy i k)))|].
    { intros k [I S]. apply st_add.
      - eapply (st_stable none (spare i)); [auto| |by split]. apply frame_procs. intros p. by split.
      - destruct S as [_ (t & Ht & _)]. rewrite ofiles_lookup in Ht. destruct (k_procs k !! i) as [p|] eqn:Hp; [|done].
        exists (set_pstate USED p). cbn. by rewrite list_lookup_alter_eq, Hp. }
    assert (tri (st none (fun k => spare i k /\ busy i k)) (freeproc i ;; with_env (proc_lock i) release ;; ret None)
      (fun r => match r with Some i => st none (fun k => spare i k /\ busy i k) | None => balanced end)) as Hfail.
    { eapply tri_pre; [|eapply tri_seq; [apply tri_freeproc|]]; [by intros k [? []]|].
      eapply tri_seq; [tframes|]. apply tri_ret. intros k. by apply st_weaken. }
    tframe. tframe. case_match; [apply Hfail|]. tframe. tframe. case_match; [apply Hfail|].
    tframe. tframe. tframe. by apply tri_ret.
Qed.

Definition closed_at (i : nat) (k : kernel) : Prop := exists t, ofiles k !! i = Some t /\ closed t.
Lemma local_closed_at i : local (closed_at i).
Proof. intros k k' (Ho & _) Ht. unfold closed_at. by rewrite Ho. Qed.
#[local] Hint Resolve local_closed_at : core.

(** The child gets the descriptors of the snapshot [t]. *)
Lemma tri_copy_fds np (t : list (option nat)) :
  tri (st none (fun k => spare np k /\ busy np k))
    (for_each all_fds (fun fd => opt_do (default None (t !! fd)) (fun f =>
       f' <- filedup f ;; updp np (fun q => set_pofile (<[fd := Some f']> (p_ofile q)) q))))
    (fun _ => balanced).
Proof.
  set (R := fun (rest : list nat) k => busy np k /\ forall fd, fd ∈ rest -> descr k np fd = Some None).
  assert (forall rest, local (R rest)) as HR.
  { intros rest k k' F [Hb Hd]. split; [by eapply local_busy|]. intros fd Hfd. eapply local_descr; [done|auto]. }
  eapply tri_mono; [apply (tri_for_each (fun _ rest => st none (R rest)))| |].
  - intros dn fd rest Hl. destruct (default None (t !! fd)) as [f|]; cbn [opt_do].
    2:{ apply tri_ret. intros k. apply st_weaken. intros [Hb Hd]. split; [done|]. intros d Hd'. apply Hd. by right. }
    eapply tri_bind; [apply (tri_filedup none (R (fd :: rest))); done|]. intros f'. apply tri_modify.
    intros k (-> & [[B L] [Hb Hd]]). assert (fd ∉ rest) as Hnin.
    { pose proof (NoDup_seq 0 NOFILE) as Hnd. fold all_fds in Hnd. rewrite Hl in Hnd. apply NoDup_app in Hnd as (_ & _ & Hnd).
      by apply NoDup_cons in Hnd as [? _]. }
    change (st none (R rest) (put_fd np fd (Some f) k)). split; [split; [|done]|split].
    + eapply (bal_put_fd (hadd none (one f)) none np fd None (Some f)); [apply Hd; by left|held_lia|done|exact B].
    + destruct Hb as (p & Hp & Hi). unfold put_fd. exists (set_pofile (<[fd := Some f]> (p_ofile p)) p). cbn.
      by rewrite list_lookup_alter_eq, Hp.
    + intros d Hd'. rewrite descr_put_fd, decide_False by naive_solver. apply Hd. by right.
  - intros k [[B L] [[Hn (u & Hu & Hc)] Hb]]. split; [done|]. split; [done|]. intros fd Hfd. unfold descr. rewrite Hu. cbn.
    pose proof (proj1 (Forall_lookup _ _) (bal_len _ _ B) np u Hu) as Hlen. cbn in Hlen.
    assert (is_Some (u !! fd)) as [x Hx] by (apply lookup_lt_is_Some; rewrite Hlen; apply elem_of_seq in Hfd; lia).
    rewrite Hx. by rewrite (proj1 (Forall_lookup _ _) Hc fd x Hx).
  - intros [] k. by apply st_weaken.
Qed.

Lemma kfork_ok : tri balanced kfork (fun _ => balanced).
Proof.
  unfold kfork. tframe. eapply tri_bind; [apply tri_allocproc|]. intros [np|]; [|by apply tri_ret].
  do 3 tframe. case_match.
  { apply (tri_pre _ (st none (spare np))); [by intros k [? []]|]. eapply tri_seq; [apply tri_freeproc|].
    tframe. apply tri_ret. intros k. by apply st_weaken. }
  do 3 tframe. eapply tri_seq; [apply tri_copy_fds|]. tframes.
Qed.

(** Where [kexit] blocks in [fileclose], its own descriptor still names the
    file. *)
Lemma closing_safe i d f k :
  st (hsub none (one f)) (fun k => k_cur k = Some i /\ descr k i d = Some (Some f)) k -> no_dangling k.
Proof.
  intros [[[Bc Bi _ _ _ _] _] [Hc Hd]]. split; [|done]. intros j. rewrite Bc. unfold others. rewrite Hc. unfold descr in Hd. cbn.
  destruct (ofiles k !! i) as [t|] eqn:Ht; [|done]. cbn in *. pose proof (occ_nonneg j t).
  unfold hsub, none, one. case_decide; [subst|lia]. pose proof (occ_elem _ _ _ Hd). lia.
Qed.

Lemma tri_close_all i :
  tri (st none (fun k => k_cur k = Some i))
    (for_each all_fds (fun fd => p <- getp i ;; opt_do (default None (p_ofile p !! fd)) (fun f =>
       fileclose f ;; updp i (fun p => set_pofile (<[fd := None]> (p_ofile p)) p))))
    (fun _ => st none (fun k => k_cur k = Some i /\ closed_at i k)).
Proof.
  set (R := fun (dn : list nat) k => k_cur k = Some i /\ forall d, d ∈ dn -> descr k i d = Some None).
  assert (forall dn, local (R dn)) as HR.
  { intros dn k k' F [Hc Hd]. split; [by eapply local_cur|]. intros d Hd'. eapply local_descr; [done|auto]. }
  eapply tri_mono; [apply (tri_for_each (fun dn _ => st none (R dn)))| |].
  - intros dn d rest Hl. eapply tri_bind; [apply tri_gets|]. intros p.
    apply (tri_pre _ (fun k => st none (R dn) k /\ descr k i d = Some (default None (p_ofile p !! d)))).
    { intros k [Hst ->]. split; [done|]. destruct (cur_proc _ k i (proj1 (proj1 Hst)) (proj1 (proj2 Hst))) as (q & Hq & _ & Hlen).
      rewrite (list_lookup_total_correct _ _ _ Hq), (proc_descr k i d q Hq).
      assert (d ∈ all_fds) as Hin by (rewrite Hl; set_solver).
      assert (is_Some (p_ofile q !! d)) as [x ->] by (apply lookup_lt_is_Some; rewrite Hlen; apply elem_of_seq in Hin; lia). done. }
    destruct (default None (p_ofile p !! d)) as [f|]; cbn [opt_do].
    2:{ apply tri_ret. intros k [Hst Hd]. revert Hst. apply st_weaken. intros [Hc Hdn]. split; [done|].
        intros d' [Hd'| ->%list_elem_of_singleton]%elem_of_app; [auto|done]. }
    eapply tri_seq.
    + apply (tri_pre _ (st none (fun k => R dn k /\ descr k i d = Some (Some f)))); [by intros k [[??]?]|].
      apply tri_fileclose; [auto|]. intros k [I [[Hc _] Hd]]. by eapply (closing_safe i d f).
    + apply tri_modify. intros k [[B L] [[Hc Hdn] Hd]]. change (st none (R (dn ++ [d])) (put_fd i d None k)).
      split; [split; [|done]|split; [done|]].
      * eapply (bal_put_fd (hsub none (one f)) none i d (Some f) None); [exact Hd|held_lia|done|exact B].
      * intros d' Hd'. rewrite descr_put_fd. case_decide as Hdd; [by rewrite Hd|]. apply Hdn. set_solver.
  - intros k [I Hc]. split; [done|]. split; [done|]. intros d Hd. by apply elem_of_nil in Hd.
  - intros [] k [I [Hc Hd]]. split; [done|]. split; [done|].
    destruct (cur_proc _ k i (proj1 I) Hc) as (q & Hq & _ & Hlen). exists (p_ofile q). rewrite ofiles_lookup, Hq. split; [done|].
    apply Forall_lookup. intros d x Hx. assert (d ∈ all_fds) as Hin by (apply elem_of_seq; apply lookup_lt_Some in Hx; lia).
    specialize (Hd d Hin). rewrite (proc_descr k i d q Hq), Hx in Hd. by injection Hd.
Qed.

Lemma frames_reparent i : frames (reparent i).
Proof. unfold reparent. frames_auto. Qed.
#[local] Hint Resolve frames_reparent : frames.

(** The process becomes a zombie after it has closed its files. *)
Lemma zombie_safe i k :
  st none (fun k => k_cur k = Some i /\ closed_at i k) k -> no_dangling (set_procs (alter (set_pstate ZOMBIE) i (k_procs k)) k).
Proof.
  intros [I [Hc (t & Ht & Hcl)]]. destruct (inv_no_dangling none k none_nonneg I) as [Hn Hi]. split.
  - rewrite ofiles_set_state. exact Hn.
  - intros j p' Hp Hidle. cbn in Hp. destruct (decide (i = j)) as [->|Hne].
    + rewrite list_lookup_alter_eq in Hp. rewrite ofiles_lookup in Ht. destruct (k_procs k !! j) as [p|]; [|done].
      injection Hp as <-. by injection Ht as <-.
    + rewrite list_lookup_alter_ne in Hp by done. by apply (Hi j).
Qed.

Lemma kexit_ok status : tri balanced (kexit status) (fun _ => balanced).
Proof.
  unfold kexit. eapply tri_bind; [by apply tri_myproc_ptr; [apply st_stable; auto|apply st_safe]|]. intros i.
  apply (tri_pre _ (st none (fun k => k_cur k = Some i))); [by intros k [[??]?]|]. tframe. case_bool_decide; [apply tri_panic|].
  eapply tri_seq; [apply tri_close_all|].
  do 10 tframe. tframe.
  eapply tri_seq; [apply (tri_modify _ _ (fun _ => no_dangling)), zombie_safe|].
  do 2 (eapply tri_seq; [apply tri_frames; [frames_auto|apply no_dangling_stable|done]|]). apply tri_panic.
Qed.

Lemma wait_scan_ok i addr hk l : tri balanced (wait_scan i addr hk l) (fun _ => balanced).
Proof.
  revert hk. induction l as [|j l IH]; intros hk; cbn [wait_scan]; [by apply tri_ret|].
  tframe. case_bool_decide; [|apply IH]. tframe. eapply tri_bind; [apply tri_gets|]. intros pp. case_bool_decide as Hz.
  - apply (tri_pre _ (st none (spare j))).
    { intros k [[I _] ->]. split; [done|]. rewrite list_lookup_total_alt in Hz.
      destruct (k_procs k !! j) as [p|] eqn:Hp; [|done]. eapply idle_spare; [apply I|exact Hp|]. unfold idle. cbn in Hz. by rewrite Hz. }
    do 2 tframe. case_match.
    + do 2 tframe. apply tri_ret. intros k. by apply st_weaken.
    + eapply tri_seq; [apply tri_freeproc|]. do 2 tframe. apply tri_ret. intros k. by apply st_weaken.
  - apply (tri_pre _ balanced); [by intros k []|]. tframe. apply IH.
Qed.

Lemma kwait_ok addr : tri balanced (kwait addr) (fun _ => balanced).
Proof.
  unfold kwait. do 2 tframe. eapply tri_bind; [apply wait_scan_ok|]. intros [v|hk]; [by apply tri_ret|]. tframes.
Qed.

Lemma syscalls_ok call : Some call ∈ syscalls -> tri balanced call (fun _ => balanced).
Proof.
  intros Hc. assert (forall m : M kernel Z, frames m -> tri balanced m (fun _ => balanced)) as Hf by (intros; tframes).
  unfold syscalls in Hc. repeat (apply elem_of_cons in Hc as [Hc|Hc]; [try done; injection Hc as ->|]); [..|by apply elem_of_nil in Hc];
    try (apply Hf; solve [auto with frames]).
  - apply kfork_ok.
  - unfold sys_exit. tframe. eapply tri_bind; [apply kexit_ok|]. intros []. by apply tri_ret.
  - unfold sys_wait. tframe. apply kwait_ok.
  - apply sys_pipe_ok.
  - apply sys_dup_ok.
  - apply sys_open_ok.
  - apply sys_close_ok.
Qed.

(** Well-typed descriptor tables: the reference count of every open file is
    the number of descriptors that name it, and the tables have the shape the
    code relies on. *)
Definition well_typed (k : kernel) : Prop := inv none k.

Lemma descr_live k i d f : well_typed k -> descr k i d = Some (Some f) -> (f < NFILE)%nat /\ 1 <= f_ref (ft_file k !!! f).
Proof.
  intros [[Bc _ Bf _ _ _] _] Hd. unfold descr in Hd. destruct (ofiles k !! i) as [t|] eqn:Ht; [|done]. cbn in Hd.
  pose proof (occ_elem _ _ _ Hd) as H1. pose proof (occ_le_total f _ _ _ Ht) as H2. specialize (Bc f). unfold none in Bc.
  unfold refs in *. rewrite list_lookup_fmap in Bc. rewrite list_lookup_total_alt.
  destruct (ft_file k !! f) as [x|] eqn:Hx; cbn in *; [|lia]. rewrite length_fmap in Bf. apply lookup_lt_Some in Hx. lia.
Qed.

(** C13: descriptors are well typed through every system call.  Whatever the
    running process calls, with whatever arguments: a descriptor of any
    process names an entry of the file table that is in use; when the call
    returns, the reference count of every file again is the number of
    descriptors that name it; and where the call waits, no descriptor of
    another process names a file that has been given up, and a process that
    has exited has no file open. *)
Theorem syscall_well_typed k :
  well_typed k ->
  (forall i d f, descr k i d = Some (Some f) -> (f < NFILE)%nat /\ 1 <= f_ref (ft_file k !!! f)) /\
  match syscall k with
  | Ok _ k' => well_typed k'
  | Block _ k' => no_dangling k'
  | Panic _ | NoFuel => True
  end.
Proof.
  intros Hk. split; [intros i d f; by apply descr_live|].
  assert (tri balanced syscall (fun _ => balanced)) as H.
  { unfold syscall. do 2 tframe. cbv zeta. case_match; [|tframes].
    eapply tri_bind; [apply syscalls_ok|intros r; tframes].
    destruct (_ && _) in *; [|done]. rewrite list_lookup_total_alt in *.
    destruct (syscalls !! _) as [o|] eqn:Eo; [|done]. cbn in *. subst o. by eapply list_elem_of_lookup_2. }
  specialize (H k (conj Hk I)). destruct (syscall k); try done. apply H.
Qed.

(** A process that calls [dup(3)]. *)
Module DescrDemo.
Definition tf : Z := KERNBASE + 0x6000.
Definition m0 : mem := store64 (tf + tf_a0) 3 (store64 (tf + tf_a7) 10 ∅).
Definition table : list (option nat) := <[3%nat := Some 5%nat]> (replicate NOFILE None).
Definition p0 : proc := set_pstate RUNNING (set_pofile table (set_ptrapframe tf proc0)).
Definition files : list file := <[5%nat := set_fref 1 file0]> (replicate NFILE file0).
Definition k0 : kernel :=
  set_files files (set_cur (Some 0%nat) (set_procs (p0 :: replicate 63 proc0)
    (kernel_boot (mkKenv 0 0 false true 1 false [] []) [] (kboot kenv0 (mkSyms 0 0 0) m0) (mkText 0 0 0 0 0)))).

Lemma occ_none f n : occ f (replicate n None) = 0.
Proof. induction n as [|n IH]; [done|]. cbn [replicate]. by rewrite occ_cons, decide_False, IH. Qed.
Lemma total_none f n m : total f (replicate m (replicate n None)) = 0.
Proof. induction m as [|m IH]; [done|]. cbn [replicate total]. by rewrite occ_none, IH. Qed.

Lemma ofiles0 : ofiles k0 = table :: replicate 63 (replicate NOFILE None).
Proof. done. Qed.

Lemma k0_typed : well_typed k0.
Proof.
  split; [|done]. split.
  - intros f. rewrite ofiles0. cbn [total]. rewrite total_none. unfold table, none.
    rewrite (occ_insert f _ _ None) by done. rewrite occ_none, (decide_False (P := None = Some f)) by done.
    change (refs k0) with (<[5%nat := 1]> (replicate NFILE 0)). destruct (decide (f = 5%nat)) as [->|Hne].
    + rewrite list_lookup_insert_eq by (cbn; lia). by rewrite decide_True.
    + rewrite list_lookup_insert_ne by done. rewrite decide_False by naive_solver.
      destruct (decide (f < NFILE)%nat); [by rewrite lookup_replicate_2|by rewrite lookup_ge_None_2 by (rewrite length_replicate; lia)].
  - intros i p Hp Hi. destruct i as [|i]; [by injection Hp as <-|].
    change (replicate 63 proc0 !! i = Some p) in Hp. apply lookup_replicate in Hp as [-> _].
    by apply Forall_replicate.
  - done.
  - done.
  - rewrite ofiles0. apply Forall_cons. split; [done|]. by apply Forall_replicate.
  - intros i Hc. injection Hc as <-. by exists p0.
Qed.
End DescrDemo.

Lemma syscall_well_typed_witness :
  exists k', syscall DescrDemo.k0 = Ok tt k' /\ well_typed k' /\ descr k' 0 0 = Some (Some 5%nat) /\ f_ref (ft_file k' !!! 5%nat) = 2.
Proof.
  destruct (syscall_well_typed DescrDemo.k0 DescrDemo.k0_typed) as [_ H].
  assert (match syscall DescrDemo.k0 with
    | Ok _ k' => descr k' 0 0 = Some (Some 5%nat) /\ f_ref (ft_file k' !!! 5%nat) = 2 | _ => False end) as Hc by by vm_compute.
  destruct (syscall DescrDemo.k0) as [[] k'| | |]; [|done..]. destruct Hc. by exists k'.
Defined.
