(* ===== verification/Boot.v ===== *)
(** * Start-up (kernel/start.c, kernel/main.c, [virtio_disk_init])  *)

From Stdlib Require Import String.
From S2P Require Import Prelude Param Spinlock Sleeplock Str Bio Log Fs Mem Kalloc Vm Printf Virtio Kernel Proc Console Pipe ProcLife Exec Sysfile Trap.

(** ** start.c: a hart in machine mode *)

Inductive mode := User | Supervisor | Machine.

Inductive mcsr :=
| MSTATUS | MEPC | SATP | MEDELEG | MIDELEG | SIE | PMPADDR0 | PMPCFG0 | MIE | MENVCFG | MCOUNTEREN | STIMECMP | TIME | MHARTID.
#[export] Instance mcsr_eq : EqDecision mcsr.
Proof. solve_decision. Defined.

Record hart := mkHart { h_mode : mode; h_pc : Z; h_csr : mcsr -> Z; h_tp : Z }.

Definition csrw (c : mcsr) (v : Z) (h : hart) : hart :=
  mkHart (h_mode h) (h_pc h) (fun c' => if decide (c' = c) then v else h_csr h c') (h_tp h).
Definition w_tp (v : Z) (h : hart) : hart := mkHart (h_mode h) (h_pc h) (h_csr h) v.

(** [csrw(c, f(csrr(c)))] *)
Definition csr_upd (c : mcsr) (f : Z -> Z) (h : hart) : hart := csrw c (f (h_csr h c)) h.

Abbreviation MSTATUS_MPP_MASK := (Z.shiftl 3 11)%Z (only parsing).
Abbreviation MSTATUS_MPP_S := (Z.shiftl 1 11)%Z (only parsing).
Abbreviation SIE_SEIE := (Z.shiftl 1 9)%Z (only parsing).
Abbreviation SIE_STIE := (Z.shiftl 1 5)%Z (only parsing).
Abbreviation MIE_STIE := (Z.shiftl 1 5)%Z (only parsing).

Definition timerinit (h : hart) : hart :=
  let h := csr_upd MIE (fun x => Z.lor x MIE_STIE) h in
  let h := csr_upd MENVCFG (fun x => Z.lor x (Z.shiftl 1 63)) h in
  let h := csr_upd MCOUNTEREN (fun x => Z.lor x 2) h in
  csrw STIMECMP (u64 (h_csr h TIME + 1000000)) h.

(** *** The instruction [mret]

    As the privileged architecture has it: return to [mepc] in the mode of
    [mstatus.MPP]; [MIE] gets the value of [MPIE], [MPIE] becomes 1, [MPP]
    becomes U, and [MPRV] is cleared unless the hart stays in machine mode. *)
Definition put_bit (n : Z) (b : bool) (x : Z) : Z :=
  if b then Z.lor x (Z.shiftl 1 n) else Z.land x (Z.lnot (Z.shiftl 1 n)).
Definition mpp_mode (mstatus : Z) : mode :=
  match Z.testbit mstatus 12, Z.testbit mstatus 11 with
  | false, false => User
  | false, true => Supervisor
  | true, _ => Machine
  end.
Definition mret_status (x : Z) : Z :=
  let x' := put_bit 11 false (put_bit 12 false (put_bit 7 true (put_bit 3 (Z.testbit x 7) x))) in
  match mpp_mode x with Machine => x' | _ => put_bit 17 false x' end.
Definition mret (h : hart) : hart :=
  let x := h_csr h MSTATUS in
  csrw MSTATUS (mret_status x) (mkHart (mpp_mode x) (h_csr h MEPC) (h_csr h) (h_tp h)).

Definition start (main : Z) (h : hart) : hart :=
  let x := h_csr h MSTATUS in
  let x := Z.land x (Z.lnot MSTATUS_MPP_MASK) in
  let x := Z.lor x MSTATUS_MPP_S in
  let h := csrw MSTATUS x h in
  let h := csrw MEPC main h in
  let h := csrw SATP 0 h in
  let h := csrw MEDELEG 0xffff h in
  let h := csrw MIDELEG 0xffff h in
  let h := csr_upd SIE (fun x => Z.lor (Z.lor x SIE_SEIE) SIE_STIE) h in
  let h := csrw PMPADDR0 0x3fffffffffffff h in
  let h := csrw PMPCFG0 0xf h in
  let h := timerinit h in
  let h := w_tp (s32 (h_csr h MHARTID)) h in
  mret h.

(** ** virtio_disk_init *)

Abbreviation VIRTIO_MMIO_MAGIC_VALUE := 0x000%Z (only parsing).
Abbreviation VIRTIO_MMIO_VERSION := 0x004%Z (only parsing).
Abbreviation VIRTIO_MMIO_DEVICE_ID := 0x008%Z (only parsing).
Abbreviation VIRTIO_MMIO_VENDOR_ID := 0x00c%Z (only parsing).
Abbreviation VIRTIO_MMIO_DEVICE_FEATURES := 0x010%Z (only parsing).
Abbreviation VIRTIO_MMIO_DRIVER_FEATURES := 0x020%Z (only parsing).
Abbreviation VIRTIO_MMIO_QUEUE_SEL := 0x030%Z (only parsing).
Abbreviation VIRTIO_MMIO_QUEUE_NUM_MAX := 0x034%Z (only parsing).
Abbreviation VIRTIO_MMIO_QUEUE_NUM := 0x038%Z (only parsing).
Abbreviation VIRTIO_MMIO_QUEUE_READY := 0x044%Z (only parsing).
Abbreviation VIRTIO_MMIO_STATUS := 0x070%Z (only parsing).
Abbreviation VIRTIO_MMIO_QUEUE_DESC_LOW := 0x080%Z (only parsing).
Abbreviation VIRTIO_MMIO_QUEUE_DESC_HIGH := 0x084%Z (only parsing).
Abbreviation VIRTIO_MMIO_DRIVER_DESC_LOW := 0x090%Z (only parsing).
Abbreviation VIRTIO_MMIO_DRIVER_DESC_HIGH := 0x094%Z (only parsing).
Abbreviation VIRTIO_MMIO_DEVICE_DESC_LOW := 0x0a0%Z (only parsing).
Abbreviation VIRTIO_MMIO_DEVICE_DESC_HIGH := 0x0a4%Z (only parsing).

Abbreviation VIRTIO_CONFIG_S_ACKNOWLEDGE := 1%Z (only parsing).
Abbreviation VIRTIO_CONFIG_S_DRIVER := 2%Z (only parsing).
Abbreviation VIRTIO_CONFIG_S_DRIVER_OK := 4%Z (only parsing).
Abbreviation VIRTIO_CONFIG_S_FEATURES_OK := 8%Z (only parsing).

(** The features the driver turns off: RO, SCSI, CONFIG_WCE, MQ, ANY_LAYOUT,
    EVENT_IDX, INDIRECT_DESC. *)
Definition refused_features : list Z := [5; 7; 11; 12; 27; 29; 28].
Definition negotiate (features : Z) : Z :=
  fold_left (fun f b => Z.land f (Z.lnot (Z.shiftl 1 b))) refused_features features.

Definition rreg (r : Z) : M kernel Z := kdisk (read_reg r).
Definition wreg (r x : Z) : M kernel unit := kdisk (write_reg r (u32 x)).

Definition virtio_disk_init : M kernel unit :=
  kdisk (modify (set_vdlock initlock)) ;;
  magic <- rreg VIRTIO_MMIO_MAGIC_VALUE ;;
  version <- rreg VIRTIO_MMIO_VERSION ;;
  device <- rreg VIRTIO_MMIO_DEVICE_ID ;;
  vendor <- rreg VIRTIO_MMIO_VENDOR_ID ;;
  if negb (magic =? 0x74726976) || negb (version =? 2) || negb (device =? 2) || negb (vendor =? 0x554d4551)
  then panic "could not find virtio disk" else
  wreg VIRTIO_MMIO_STATUS 0 ;;
  let st1 := VIRTIO_CONFIG_S_ACKNOWLEDGE in
  wreg VIRTIO_MMIO_STATUS st1 ;;
  let st2 := Z.lor st1 VIRTIO_CONFIG_S_DRIVER in
  wreg VIRTIO_MMIO_STATUS st2 ;;
  features <- rreg VIRTIO_MMIO_DEVICE_FEATURES ;;
  wreg VIRTIO_MMIO_DRIVER_FEATURES (negotiate features) ;;
  wreg VIRTIO_MMIO_STATUS (Z.lor st2 VIRTIO_CONFIG_S_FEATURES_OK) ;;
  status <- rreg VIRTIO_MMIO_STATUS ;;
  if Z.land status VIRTIO_CONFIG_S_FEATURES_OK =? 0 then panic "virtio disk FEATURES_OK unset" else
  wreg VIRTIO_MMIO_QUEUE_SEL 0 ;;
  ready <- rreg VIRTIO_MMIO_QUEUE_READY ;;
  if negb (ready =? 0) then panic "virtio disk should not be ready" else
  max <- rreg VIRTIO_MMIO_QUEUE_NUM_MAX ;;
  if max =? 0 then panic "virtio disk has no queue 0" else
  if max <? Z.of_nat NUM then panic "virtio disk max queue too short" else
  desc <- kmm kalloc ;;
  avail <- kmm kalloc ;;
  used <- kmm kalloc ;;
  if (desc =? 0) || (avail =? 0) || (used =? 0) then panic "virtio disk kalloc" else
  kmm (memset_page desc 0) ;;
  kmm (memset_page avail 0) ;;
  kmm (memset_page used 0) ;;
  kdisk (modify (fun v => set_desc (replicate NUM desc0) (set_avidx 0 (set_avring (replicate NUM 0%nat)
                            (set_uidx 0 (set_uring (replicate NUM 0%nat) v)))))) ;;
  wreg VIRTIO_MMIO_QUEUE_NUM (Z.of_nat NUM) ;;
  wreg VIRTIO_MMIO_QUEUE_DESC_LOW desc ;;
  wreg VIRTIO_MMIO_QUEUE_DESC_HIGH (Z.shiftr desc 32) ;;
  wreg VIRTIO_MMIO_DRIVER_DESC_LOW avail ;;
  wreg VIRTIO_MMIO_DRIVER_DESC_HIGH (Z.shiftr avail 32) ;;
  wreg VIRTIO_MMIO_DEVICE_DESC_LOW used ;;
  wreg VIRTIO_MMIO_DEVICE_DESC_HIGH (Z.shiftr used 32) ;;
  wreg VIRTIO_MMIO_QUEUE_READY 0x1 ;;
  kdisk (modify (set_vfree (replicate NUM true))) ;;
  wreg VIRTIO_MMIO_STATUS (Z.lor status VIRTIO_CONFIG_S_DRIVER_OK).

(** ** main.c *)

(** [kvminit] and [kvminithart] on the kernel's state. *)
Definition kvm_l : lens kernel vm :=
  mkLens (fun k => mkVm (lget kmem_l k) (k_kpagetable k) (satp (k_csr k)))
         (fun v k => let k' := set_kpt (kernel_pagetable v) (lset kmem_l (vm_kmem v) k) in
                     set_csr (w_satp_ (vm_satp v) (k_csr k')) k').

Definition kbinit : M kernel unit := kfs (flog (lift binit)).

(** [main] on hart 0 up to [scheduler], and on the other harts once hart 0
    has set [started]. *)
Definition main_first : M kernel unit :=
  consoleinit ;;
  printfinit ;;
  printf [10] [] ;;
  printf (chars "xv6 kernel is booting" ++ [10]) [] ;;
  printf [10] [] ;;
  kmm kinit ;;
  lower kvm_l kvminit ;;
  lower kvm_l kvminithart ;;
  procinit ;;
  trapinit ;;
  trapinithart ;;
  plicinit ;;
  plicinithart ;;
  kbinit ;;
  kfs iinit ;;
  fileinit ;;
  virtio_disk_init ;;
  userinit.
Definition main_other : M kernel unit :=
  hart <- cpuid ;;
  printf (chars "hart %d starting" ++ [10]) [AInt hart] ;;
  lower kvm_l kvminithart ;;
  trapinithart ;;
  plicinithart.
Definition main : M kernel (option nat) :=
  id <- cpuid ;;
  (if id =? 0 then main_first else main_other) ;;
  scheduler.

(** ** What the registers mean

    From the privileged architecture: who may access physical memory, where a
    trap goes, and when the supervisor's timer interrupt is pending. *)

Inductive access := Read | Write | Execute.

(** The first entry of the physical memory protection, matched as a range
    from 0 when its A field is TOR (1); nothing else matches here. *)
Definition pmp_allows (h : hart) (k : access) (addr : Z) : bool :=
  match h_mode h with
  | Machine => true
  | _ =>
      let cfg := h_csr h PMPCFG0 in
      (Z.land (Z.shiftr cfg 3) 3 =? 1) && (0 <=? addr) && (addr <? Z.shiftl (h_csr h PMPADDR0) 2) &&
      Z.testbit cfg (match k with Read => 0 | Write => 1 | Execute => 2 end)
  end.

(** The mode that handles a trap with code [cause]. *)
Definition trap_mode (h : hart) (interrupt : bool) (cause : Z) : mode :=
  match h_mode h with
  | Machine => Machine
  | _ => if Z.testbit (h_csr h (if interrupt then MIDELEG else MEDELEG)) cause then Supervisor else Machine
  end.

(** With the Sstc extension on, the supervisor timer interrupt is pending from
    the time in [stimecmp] on. *)
Definition timer_pending (h : hart) (now : Z) : bool :=
  Z.testbit (h_csr h MENVCFG) 63 && (h_csr h STIMECMP <=? now).

Lemma testbit_shiftl1 n b : 0 <= n -> 0 <= b -> Z.testbit (Z.shiftl 1 n) b = bool_decide (b = n).
Proof.
  intros Hn Hb. rewrite Z.shiftl_spec by done. case_bool_decide as E; [by subst; rewrite Z.sub_diag|].
  destruct (decide (b < n)); [by rewrite Z.testbit_neg_r by lia|]. apply Z.bits_above_log2; [lia|simpl; lia].
Qed.
Lemma testbit_mask3 b : 0 <= b -> Z.testbit MSTATUS_MPP_MASK b = bool_decide (b = 11 \/ b = 12).
Proof.
  intros Hb. change MSTATUS_MPP_MASK with (Z.lor (Z.shiftl 1 11) (Z.shiftl 1 12)). rewrite Z.lor_spec, !testbit_shiftl1 by lia.
  repeat case_bool_decide; cbn; try done; lia.
Qed.
Lemma put_bit_spec n v x b : 0 <= n -> 0 <= b -> Z.testbit (put_bit n v x) b = if decide (b = n) then v else Z.testbit x b.
Proof.
  intros Hn Hb. unfold put_bit. destruct v; rewrite ?Z.lor_spec, ?Z.land_spec, ?Z.lnot_spec, testbit_shiftl1 by done;
    case_bool_decide; case_decide; cbn; try done; by rewrite ?orb_true_r, ?orb_false_r, ?andb_false_r, ?andb_true_r.
Qed.

(** The value [start] leaves in [mstatus] for [mret]. *)
Lemma start_mpp x b :
  0 <= b -> Z.testbit (Z.lor (Z.land x (Z.lnot MSTATUS_MPP_MASK)) MSTATUS_MPP_S) b =
  if decide (b = 11) then true else if decide (b = 12) then false else Z.testbit x b.
Proof.
  intros Hb. rewrite Z.lor_spec, Z.land_spec, Z.lnot_spec, testbit_mask3, testbit_shiftl1 by lia.
  repeat case_bool_decide; repeat case_decide; cbn; try lia; by rewrite ?orb_true_r, ?orb_false_r, ?andb_false_r, ?andb_true_r.
Qed.

Lemma start_status x b :
  0 <= b -> Z.testbit (mret_status (Z.lor (Z.land x (Z.lnot MSTATUS_MPP_MASK)) MSTATUS_MPP_S)) b =
  if decide (b = 17 \/ b = 11 \/ b = 12) then false else if decide (b = 7) then true else
  if decide (b = 3) then Z.testbit x 7 else Z.testbit x b.
Proof.
  intros Hb. set (y := Z.lor _ _). assert (forall c, 0 <= c -> Z.testbit y c = if decide (c = 11) then true else if decide (c = 12) then false else Z.testbit x c)
    as Hy by apply start_mpp.
  unfold mret_status. replace (mpp_mode y) with Supervisor by (unfold mpp_mode; by rewrite !Hy by lia).
  repeat (rewrite put_bit_spec by lia). rewrite !Hy by lia. repeat case_decide; try done; lia.
Qed.


