(* ===== verification/User.v ===== *)
(** * User processes and the system call interface (user/user.h, user/usys.pl)

    A user program is a function of the state [W] of the world outside the
    process.  It returns, exits, replaces itself by another program, writes
    outside its memory, or uses up the fuel of an unbounded loop.  The system
    calls are the operations of a class: programs are written against the
    class, and a theorem about a program names what it needs of them.
    [fork] returns to the process that is followed: a positive pid to the
    parent, 0 to the child.  *)

From Stdlib Require Import String.
From S2P Require Import Prelude Str Printf.

Inductive ures (W A : Type) : Type :=
| URet (a : A) (w : W)
| UExit (status : Z) (w : W)
| UExec (path : list Z) (argv : list (list Z)) (w : W)
| UFault
| UNoFuel.
Arguments URet {W A} a w.
Arguments UExit {W A} status w.
Arguments UExec {W A} path argv w.
Arguments UFault {W A}.
Arguments UNoFuel {W A}.

Definition U (W A : Type) : Type := W -> ures W A.

Definition uret {W A} (a : A) : U W A := fun w => URet a w.
Definition ubind {W A B} (m : U W A) (k : A -> U W B) : U W B :=
  fun w =>
    match m w with
    | URet a w' => k a w'
    | UExit n w' => UExit n w'
    | UExec p a w' => UExec p a w'
    | UFault => UFault
    | UNoFuel => UNoFuel
    end.
Definition u_nofuel {W A} : U W A := fun _ => UNoFuel.
Definition u_fault {W A} : U W A := fun _ => UFault.

Declare Scope user_scope.
Delimit Scope user_scope with user.
Bind Scope user_scope with U.
Notation "x <- c1 ;; c2" := (ubind c1 (fun x => c2))
  (at level 100, c1 at next level, right associativity) : user_scope.
Notation "c1 ;; c2" := (ubind c1 (fun _ => c2)) : user_scope.
Notation "'when' b 'do' c" := (if b then c else uret tt)
  (at level 99, b at level 9, c at level 99) : user_scope.

(** ** System calls

    Pointers passed to the kernel are the bytes they point to; [u_read]
    returns the result and the bytes stored, [u_fstat] the structure filled
    in.  *)

Record ustat := mkUstat { us_dev : Z; us_ino : Z; us_type : Z; us_nlink : Z; us_size : Z }.

Class Sys (W : Type) := {
  u_fork : U W Z;
  u_exit : forall {A}, Z -> U W A;
  u_wait : U W (Z * Z);
  u_pipe : U W (Z * Z * Z);
  u_write : Z -> list Z -> U W Z;
  u_read : Z -> Z -> U W (Z * list Z);
  u_close : Z -> U W Z;
  u_kill : Z -> U W Z;
  u_exec : list Z -> list (list Z) -> U W Z;
  u_open : list Z -> Z -> U W Z;
  u_mknod : list Z -> Z -> Z -> U W Z;
  u_unlink : list Z -> U W Z;
  u_fstat : Z -> U W (Z * ustat);
  u_link : list Z -> list Z -> U W Z;
  u_mkdir : list Z -> U W Z;
  u_chdir : list Z -> U W Z;
  u_dup : Z -> U W Z;
  u_getpid : U W Z;
  u_sbrk : Z -> Z -> U W Z;
  u_pause : Z -> U W Z;
  u_uptime : U W Z
}.

(** ** Rules *)

(** What a process does with other processes: the result of a fork, a wait
    with the descriptors open at that moment, a call that failed. *)
Inductive event (O : Type) := EFork (pid : Z) | EWait (open : gmap Z O) | EFail.
Arguments EFork {O} pid.
Arguments EWait {O} open.
Arguments EFail {O}.

(** Partial and total correctness: what holds when a program returns, exits
    or execs.  It does not fault, nor run out of fuel. *)
Definition uwp {W A} (m : U W A) (Q : A -> W -> Prop) (X : Z -> W -> Prop) (E : list Z -> list (list Z) -> W -> Prop) (w : W) : Prop :=
  match m w with
  | URet a w' => Q a w'
  | UExit n w' => X n w'
  | UExec p a w' => E p a w'
  | UFault => False
  | UNoFuel => False
  end.

Section rules.
Context {W A B : Type} (X : Z -> W -> Prop) (E : list Z -> list (list Z) -> W -> Prop).

Lemma uwp_ret (a : A) (Q : A -> W -> Prop) w : Q a w -> uwp (uret a) Q X E w.
Proof. exact id. Qed.
Lemma uwp_bind (m : U W A) (k : A -> U W B) Q w :
  uwp m (fun a w' => uwp (k a) Q X E w') X E w -> uwp (ubind m k) Q X E w.
Proof. unfold uwp, ubind. by destruct (m w). Qed.
Lemma uwp_mono (m : U W A) (P Q : A -> W -> Prop) w :
  uwp m P X E w -> (forall a w', P a w' -> Q a w') -> uwp m Q X E w.
Proof. unfold uwp. destruct (m w); naive_solver. Qed.
End rules.

Ltac uwp_step :=
  lazymatch goal with
  | |- uwp (ubind _ _) _ _ _ _ => apply uwp_bind
  | |- uwp (uret _) _ _ _ _ => apply uwp_ret
  end.
