(* ===== verification/UWorld.v ===== *)
(** * A world for user processes

    An instance of the system call interface, used to run programs on
    concrete inputs: descriptors are allocated lowest first, one input stream
    is delivered in pieces of at most [w_chunk] bytes, output is recorded,
    and what other processes do ([fork], [wait]) is scripted. *)

From Stdlib Require Import String.
From S2P Require Import Prelude Param Str Printf User.

Inductive obj := OFile (name : list Z) (mode : Z) | OPipeR (id : nat) | OPipeW (id : nat).

Record uworld := mkUw {
  w_fds : gmap Z obj;
  w_files : list (list Z);            (* names that can be opened *)
  w_in : list Z;
  w_chunk : nat;
  w_out : list Z;                     (* standard output *)
  w_err : list Z;
  w_pipes : nat;
  w_forks : list Z;                   (* what fork returns next *)
  w_waits : list (Z * Z);
  w_brk : Z;
  w_hist : list (event obj)           (* forks, waits and failures so far *)
}.
Definition set_fds x w := mkUw x (w_files w) (w_in w) (w_chunk w) (w_out w) (w_err w) (w_pipes w) (w_forks w) (w_waits w) (w_brk w) (w_hist w).
Definition set_win x w := mkUw (w_fds w) (w_files w) x (w_chunk w) (w_out w) (w_err w) (w_pipes w) (w_forks w) (w_waits w) (w_brk w) (w_hist w).
Definition set_wout x w := mkUw (w_fds w) (w_files w) (w_in w) (w_chunk w) x (w_err w) (w_pipes w) (w_forks w) (w_waits w) (w_brk w) (w_hist w).
Definition set_werr x w := mkUw (w_fds w) (w_files w) (w_in w) (w_chunk w) (w_out w) x (w_pipes w) (w_forks w) (w_waits w) (w_brk w) (w_hist w).
Definition set_wpipes x w := mkUw (w_fds w) (w_files w) (w_in w) (w_chunk w) (w_out w) (w_err w) x (w_forks w) (w_waits w) (w_brk w) (w_hist w).
Definition set_forks x w := mkUw (w_fds w) (w_files w) (w_in w) (w_chunk w) (w_out w) (w_err w) (w_pipes w) x (w_waits w) (w_brk w) (w_hist w).
Definition set_waits x w := mkUw (w_fds w) (w_files w) (w_in w) (w_chunk w) (w_out w) (w_err w) (w_pipes w) (w_forks w) x (w_brk w) (w_hist w).
Definition set_wbrk x w := mkUw (w_fds w) (w_files w) (w_in w) (w_chunk w) (w_out w) (w_err w) (w_pipes w) (w_forks w) (w_waits w) x (w_hist w).
Definition set_whist x w := mkUw (w_fds w) (w_files w) (w_in w) (w_chunk w) (w_out w) (w_err w) (w_pipes w) (w_forks w) (w_waits w) (w_brk w) x.
Definition log (e : event obj) (w : uworld) : uworld := set_whist (w_hist w ++ [e]) w.

(** The lowest unused descriptor, if the table is not full. *)
Fixpoint lowest (n : nat) (i : Z) (m : gmap Z obj) : option Z :=
  match n with
  | O => None
  | S n' => match m !! i with None => Some i | Some _ => lowest n' (i + 1) m end
  end.
Definition fd_alloc (o : obj) (w : uworld) : ures uworld Z :=
  match lowest 16 0 (w_fds w) with
  | Some i => URet i (set_fds (<[i := o]> (w_fds w)) w)
  | None => URet (-1) (log EFail w)
  end.

Definition w_open (name : list Z) (mode : Z) (w : uworld) : ures uworld Z :=
  if bool_decide (name ∈ w_files w) then fd_alloc (OFile name mode) w else URet (-1) (log EFail w).
Definition w_close (fd : Z) (w : uworld) : ures uworld Z :=
  match w_fds w !! fd with Some _ => URet 0 (set_fds (delete fd (w_fds w)) w) | None => URet (-1) w end.
Definition w_dup (fd : Z) (w : uworld) : ures uworld Z :=
  match w_fds w !! fd with Some o => fd_alloc o w | None => URet (-1) w end.
Definition w_pipe (w : uworld) : ures uworld (Z * Z * Z) :=
  match lowest 16 0 (w_fds w) with
  | None => URet (-1, 0, 0) (log EFail w)
  | Some i =>
      let m := <[i := OPipeR (w_pipes w)]> (w_fds w) in
      match lowest 16 0 m with
      | None => URet (-1, 0, 0) (log EFail w)
      | Some j => URet (0, i, j) (set_wpipes (S (w_pipes w)) (set_fds (<[j := OPipeW (w_pipes w)]> m) w))
      end
  end.
Definition w_read (fd n : Z) (w : uworld) : ures uworld (Z * list Z) :=
  let k := Nat.min (Nat.min (Z.to_nat n) (S (w_chunk w))) (length (w_in w)) in
  URet (Z.of_nat k, take k (w_in w)) (set_win (drop k (w_in w)) w).
Definition w_write (fd : Z) (bs : list Z) (w : uworld) : ures uworld Z :=
  URet (Z.of_nat (length bs)) (if fd =? 1 then set_wout (w_out w ++ bs) w else if fd =? 2 then set_werr (w_err w ++ bs) w else w).
Definition w_fork (w : uworld) : ures uworld Z :=
  match w_forks w with [] => URet (-1) (log (EFork (-1)) w) | p :: l => URet p (log (EFork p) (set_forks l w)) end.
Definition w_wait (w : uworld) : ures uworld (Z * Z) :=
  match w_waits w with [] => URet (-1, 0) (log (EWait (w_fds w)) w) | p :: l => URet p (log (EWait (w_fds w)) (set_waits l w)) end.

#[export] Instance Sys_uworld : Sys uworld := {|
  u_fork := w_fork;
  u_exit A n w := UExit n w;
  u_wait := w_wait;
  u_pipe := w_pipe;
  u_write := w_write;
  u_read := w_read;
  u_close := w_close;
  u_kill _ := uret 0;
  u_exec p a w := if bool_decide (p ∈ w_files w) then UExec p a w else URet (-1) (log EFail w);
  u_open := w_open;
  u_mknod _ _ _ := uret 0;
  u_unlink _ := uret 0;
  u_fstat _ := uret (0, mkUstat 1 1 T_FILE 1 0);
  u_link _ _ := uret 0;
  u_mkdir _ := uret 0;
  u_chdir _ := uret 0;
  u_dup := w_dup;
  u_getpid := uret 1;
  u_sbrk n _ w := if w_brk w + n <? 2 ^ 27 then URet (w_brk w) (set_wbrk (w_brk w + n) w) else URet (-1) w;
  u_pause _ := uret 0;
  u_uptime := uret 0
|}.

(** Standard input, output and error on the console. *)
Definition world0 (files : list (list Z)) (input : list Z) (chunk : nat) (forks : list Z) : uworld :=
  mkUw (<[0 := OFile (chars "console") O_RDWR]> (<[1 := OFile (chars "console") O_RDWR]> {[ 2 := OFile (chars "console") O_RDWR ]})) files input chunk [] [] 0 forks [] 65536 [].
