(* ===== verification/ULib.v ===== *)
(** * The user library (user/ulib.c, user/printf.c)

    Strings are the bytes from a pointer on, as in [Str]; destinations are
    byte arrays. *)

From Stdlib Require Import String.
From S2P Require Import Prelude Param Str Printf User.
#[local] Open Scope user_scope.

(** ** Strings *)

Fixpoint strcpy_loop (i : nat) (s t : list Z) : list Z :=
  match t with
  | [] => <[i := 0]> s
  | c :: t' => let s' := <[i := c]> s in if c =? 0 then s' else strcpy_loop (S i) s' t'
  end.
Definition strcpy (s t : list Z) : list Z := strcpy_loop 0 s t.

Fixpoint strcmp (p q : list Z) : Z :=
  match p with
  | [] => 0 - u8 (rd q 0)
  | c :: p' => if negb (c =? 0) && (c =? rd q 0) then strcmp p' (drop 1 q) else u8 c - u8 (rd q 0)
  end.

Fixpoint strlen (s : list Z) : Z :=
  match s with
  | [] => 0
  | c :: s' => if c =? 0 then 0 else 1 + strlen s'
  end.

Fixpoint memset_loop (n d : nat) (c : Z) (m : list Z) : list Z :=
  match n with
  | O => m
  | S n' => memset_loop n' (S d) c (<[d := u8 c]> m)
  end.
Definition memset (d : nat) (c n : Z) (m : list Z) : list Z := memset_loop (Z.to_nat n) d c m.

(** The index of the first [c] of the string, if there is one. *)
Fixpoint strchr (s : list Z) (c : Z) : option nat :=
  match s with
  | [] => None
  | x :: s' => if x =? 0 then None else if x =? c then Some 0%nat else S <$> strchr s' c
  end.

Fixpoint atoi_loop (n : Z) (s : list Z) : Z :=
  match s with
  | [] => n
  | c :: s' => if (chr "0" <=? c) && (c <=? chr "9") then atoi_loop (s32 (n * 10 + c - chr "0")) s' else n
  end.
Definition atoi (s : list Z) : Z := atoi_loop 0 s.

Definition memmove (d s : nat) (n : Z) (m : list Z) : list Z :=
  let n := Z.to_nat n in
  if (d <? s)%nat then copy_fwd n d s m else copy_bwd n (d + n) (s + n) m.

Fixpoint memcmp_loop (n a b : nat) (m : list Z) : Z :=
  match n with
  | O => 0
  | S n' => if negb (rd m a =? rd m b) then rd m a - rd m b else memcmp_loop n' (S a) (S b) m
  end.
Definition memcmp (a b : nat) (n : Z) (m : list Z) : Z := memcmp_loop (Z.to_nat n) a b m.

Definition memcpy (d s : nat) (n : Z) (m : list Z) : list Z := memmove d s n m.

(** ** Library routines over system calls *)

Section calls.
Context {W : Type} `{!Sys W}.

(** [gets]: the characters read so far. *)
Fixpoint gets_loop (n : nat) (buf : list Z) : U W (list Z) :=
  match n with
  | O => uret buf
  | S n' =>
      r <- u_read 0 1 ;;
      let '(cc, bs) := r in
      if cc <? 1 then uret buf else
      let c := rd bs 0 in
      let buf := buf ++ [c] in
      if (c =? 10) || (c =? 13) then uret buf else gets_loop n' buf
  end.
Definition gets (max : Z) : U W (list Z) := gets_loop (Z.to_nat (max - 1)) [].

Definition stat (n : list Z) : U W (Z * option ustat) :=
  fd <- u_open n O_RDONLY ;;
  if fd <? 0 then uret (-1, None) else
  r <- u_fstat fd ;;
  u_close fd ;;
  uret (fst r, Some (snd r)).

Definition sbrk (n : Z) : U W Z := u_sbrk n SBRK_EAGER.
Definition sbrklazy (n : Z) : U W Z := u_sbrk n SBRK_LAZY.

Definition start (main : U W Z) : U W unit := main ;; u_exit 0.

(** ** printf *)

Definition udigits : list Z := chars "0123456789ABCDEF".
Definition udigit (d : Z) : Z := rd udigits (Z.to_nat d).

Definition putc (fd c : Z) : U W unit := u_write fd [u8 c] ;; uret tt.

Fixpoint putcs (fd : Z) (cs : list Z) : U W unit :=
  match cs with
  | [] => uret tt
  | c :: cs' => putc fd c ;; putcs fd cs'
  end.

(** The do-while loop; [x] is a 32-bit number. *)
Fixpoint uprintint_loop (fuel : nat) (x base : Z) (buf : list Z) : option (list Z) :=
  match fuel with
  | O => None
  | S fuel' =>
      let buf := buf ++ [udigit (x mod base)] in
      let x := x / base in
      if negb (x =? 0) then uprintint_loop fuel' x base buf else Some buf
  end.
Definition uprintint_buf (xx base : Z) (sgn : bool) : list Z :=
  let neg := sgn && (xx <? 0) in
  let x := if neg then u32 (- xx) else u32 xx in
  let buf := default [] (uprintint_loop 32 x base []) in
  if neg then buf ++ [chr "-"] else buf.
Definition printint (fd xx base : Z) (sgn : bool) : U W unit := putcs fd (reverse (uprintint_buf xx base sgn)).

Fixpoint uprintptr_loop (n : nat) (x : Z) : list Z :=
  match n with
  | O => []
  | S n' => udigit (Z.shiftr x 60) :: uprintptr_loop n' (u64 (Z.shiftl x 4))
  end.
Definition printptr (fd x : Z) : U W unit := putcs fd ([chr "0"; chr "x"] ++ uprintptr_loop 16 x).

(** One conversion: its effect, how many more characters of the format it
    takes, and the arguments left. *)
Definition convert (fd c0 c1 c2 : Z) (a : list parg) : U W unit * nat * list parg :=
  let d := chr "d" in let l := chr "l" in let u := chr "u" in let x := chr "x" in
  if c0 =? d then (printint fd (s32 (arg_int a)) 10 true, 0%nat, tl a)
  else if (c0 =? l) && (c1 =? d) then (printint fd (s64 (arg_int a)) 10 true, 1%nat, tl a)
  else if (c0 =? l) && (c1 =? l) && (c2 =? d) then (printint fd (s64 (arg_int a)) 10 true, 2%nat, tl a)
  else if c0 =? u then (printint fd (u32 (arg_int a)) 10 false, 0%nat, tl a)
  else if (c0 =? l) && (c1 =? u) then (printint fd (s64 (arg_int a)) 10 false, 1%nat, tl a)
  else if (c0 =? l) && (c1 =? l) && (c2 =? u) then (printint fd (s64 (arg_int a)) 10 false, 2%nat, tl a)
  else if c0 =? x then (printint fd (u32 (arg_int a)) 16 false, 0%nat, tl a)
  else if (c0 =? l) && (c1 =? x) then (printint fd (s64 (arg_int a)) 16 false, 1%nat, tl a)
  else if (c0 =? l) && (c1 =? l) && (c2 =? x) then (printint fd (s64 (arg_int a)) 16 false, 2%nat, tl a)
  else if c0 =? chr "p" then (printptr fd (u64 (arg_int a)), 0%nat, tl a)
  else if c0 =? chr "c" then (putc fd (u32 (arg_int a)), 0%nat, tl a)
  else if c0 =? chr "s" then (putcs fd (cstr (default (chars "(null)") (arg_str a))), 0%nat, tl a)
  else if c0 =? chr "%" then (putc fd (chr "%"), 0%nat, a)
  else (putc fd (chr "%") ;; putc fd c0, 0%nat, a).

(** The loop over the format, [pct] being [state == '%']. *)
Fixpoint vprintf_loop (fuel : nat) (fd : Z) (pct : bool) (fmt : list Z) (a : list parg) : U W unit :=
  match fuel with
  | O => u_nofuel
  | S fuel' =>
      let c0 := rd fmt 0 in
      if c0 =? 0 then uret tt else
      if negb pct then
        if c0 =? chr "%" then vprintf_loop fuel' fd true (drop 1 fmt) a
        else putc fd c0 ;; vprintf_loop fuel' fd false (drop 1 fmt) a
      else
        let c1 := if c0 =? 0 then 0 else rd fmt 1 in
        let c2 := if c1 =? 0 then 0 else rd fmt 2 in
        let '(act, k, a') := convert fd c0 c1 c2 a in
        act ;; vprintf_loop fuel' fd false (drop (1 + k) fmt) a'
  end.
Definition vprintf (fd : Z) (fmt : list Z) (a : list parg) : U W unit := vprintf_loop (S (length fmt)) fd false fmt a.
Definition fprintf (fd : Z) (fmt : string) (a : list parg) : U W unit := vprintf fd (chars fmt) a.
Definition printf (fmt : string) (a : list parg) : U W unit := vprintf 1 (chars fmt) a.
End calls.
