(* ===== verification/Grep.v ===== *)
(** * grep (user/grep.c): the pattern matcher and the search through a file *)

From Stdlib Require Import String.
From S2P Require Import Prelude Param Str Printf User UWorld ULib.
#[local] Open Scope user_scope.

(** ** The matcher

    Pattern and text are C strings: the characters before the NUL.  The
    nested call of [matchhere] in [matchstar] is the argument [here]. *)

Fixpoint matchstar_loop (here : list Z -> bool) (c : Z) (text : list Z) : bool :=
  if here text then true else
  match text with
  | [] => false
  | t :: text' => if (t =? c) || (c =? chr ".") then matchstar_loop here c text' else false
  end.

Fixpoint matchhere (re text : list Z) : bool :=
  match re with
  | [] => true
  | c :: re1 =>
      let plain :=
        if (c =? chr "$") && (rd re1 0 =? 0) then bool_decide (text = [])
        else match text with
             | [] => false
             | t :: text' => if (c =? chr ".") || (c =? t) then matchhere re1 text' else false
             end in
      match re1 with
      | c1 :: re2 => if c1 =? chr "*" then matchstar_loop (matchhere re2) c text else plain
      | [] => plain
      end
  end.
Definition matchstar (c : Z) (re text : list Z) : bool := matchstar_loop (matchhere re) c text.

Fixpoint match_loop (re text : list Z) : bool :=
  if matchhere re text then true else
  match text with
  | [] => false
  | _ :: text' => match_loop re text'
  end.
Definition match_ (re text : list Z) : bool :=
  if rd re 0 =? chr "^" then matchhere (drop 1 re) text else match_loop re text.

(** ** The search *)

Section grep.
Context {W : Type} `{!Sys W}.

(** The inner loop, on the bytes from [p] to the end of the buffer; what is
    left when there is no further newline. *)
Fixpoint grep_lines (fuel : nat) (pattern p : list Z) : U W (list Z) :=
  match fuel with
  | O => u_nofuel
  | S fuel' =>
      match strchr p 10 with
      | None => uret p
      | Some q =>
          (if match_ pattern (take q p) then u_write 1 (take (S q) p) ;; uret tt else uret tt) ;;
          grep_lines fuel' pattern (drop (S q) p)
      end
  end.

Definition BUFSZ : Z := 1024.

(** The outer loop; [buf] holds the [m] bytes of the buffer in use. *)
Fixpoint grep_loop (fuel : nat) (pattern : list Z) (fd : Z) (buf : list Z) : U W unit :=
  match fuel with
  | O => u_nofuel
  | S fuel' =>
      let m := Z.of_nat (length buf) in
      r <- u_read fd (BUFSZ - m - 1) ;;
      let '(n, bs) := r in
      if n <=? 0 then uret tt else
      let buf := buf ++ take (Z.to_nat n) bs in
      rest <- grep_lines (S (length buf)) pattern buf ;;
      grep_loop fuel' pattern fd rest
  end.
Definition grep (fuel : nat) (pattern : list Z) (fd : Z) : U W unit := grep_loop fuel pattern fd [].

Definition nl : string := String (Ascii.ascii_of_nat 10) "".

Fixpoint grep_files (fuel : nat) (pattern : list Z) (files : list (list Z)) : U W unit :=
  match files with
  | [] => uret tt
  | f :: files' =>
      fd <- u_open f O_RDONLY ;;
      if fd <? 0 then printf ("grep: cannot open %s" ++ nl) [AStr (Some f)] ;; u_exit 1 else
      grep fuel pattern fd ;;
      u_close fd ;;
      grep_files fuel pattern files'
  end.
Definition main (fuel : nat) (argv : list (list Z)) : U W unit :=
  match argv with
  | [] | [_] => fprintf 2 ("usage: grep pattern [file ...]" ++ nl) [] ;; u_exit 1
  | [_; pattern] => grep fuel pattern 0 ;; u_exit 0
  | _ :: pattern :: files => grep_files fuel pattern files ;; u_exit 0
  end.
End grep.

(** ** What a pattern means *)

Inductive item := Chr (c : Z) | Star (c : Z) | End.

Fixpoint items (re : list Z) : list item :=
  match re with
  | [] => []
  | c :: re1 =>
      let plain := if (c =? chr "$") && (rd re1 0 =? 0) then [End] else Chr c :: items re1 in
      match re1 with
      | c1 :: re2 => if c1 =? chr "*" then Star c :: items re2 else plain
      | [] => plain
      end
  end.

Definition accepts (c t : Z) : Prop := c = chr "." \/ t = c.

(** [matches its u rest]: the items match the text [u], followed by [rest]. *)
Inductive matches : list item -> list Z -> list Z -> Prop :=
| m_nil rest : matches [] [] rest
| m_chr c t its u rest : accepts c t -> matches its u rest -> matches (Chr c :: its) (t :: u) rest
| m_star c u1 its u2 rest : Forall (accepts c) u1 -> matches its u2 rest -> matches (Star c :: its) (u1 ++ u2) rest
| m_end : matches [End] [] [].

Definition matches_at (its : list item) (text : list Z) : Prop := exists u rest, text = u ++ rest /\ matches its u rest.

Lemma accepts_spec c t : (t =? c) || (c =? chr ".") = true <-> accepts c t.
Proof. unfold accepts. rewrite orb_true_iff, !Z.eqb_eq. tauto. Qed.
Lemma accepts_spec' c t : (c =? chr ".") || (c =? t) = true <-> accepts c t.
Proof. unfold accepts. rewrite orb_true_iff, !Z.eqb_eq. naive_solver. Qed.

Lemma matchstar_spec here its c text :
  (forall text, here text = true <-> matches_at its text) ->
  matchstar_loop here c text = true <-> matches_at (Star c :: its) text.
Proof.
  intros Hh. induction text as [|t text IH]; cbn [matchstar_loop].
  - destruct (here []) eqn:E.
    + split; [intros _|done]. apply Hh in E as (u & rest & E & Hm). exists u, rest. split; [done|].
      by apply (m_star c [] its u rest).
    + split; [done|]. intros (u & rest & E' & Hm). inversion Hm; subst. symmetry in E'. apply app_nil in E' as [[-> ->]%app_nil ->].
      assert (here [] = true) as E2; [|congruence]. apply Hh. by exists [], [].
  - destruct (here (t :: text)) eqn:E.
    + split; [intros _|done]. apply Hh in E as (u & rest & E & Hm). exists u, rest. split; [done|].
      by apply (m_star c [] its u rest).
    + destruct ((t =? c) || (c =? chr ".")) eqn:Ea.
      * rewrite IH. apply accepts_spec in Ea. split.
        -- intros (u & rest & -> & Hm). inversion Hm as [| |? u1 ? u2 ? Hu1 Hm2|]; subst. exists (t :: u1 ++ u2), rest. split; [done|].
           apply (m_star c (t :: u1)); [by constructor|done].
        -- intros (u & rest & E' & Hm). inversion Hm as [| |? u1 ? u2 ? Hu1 Hm2|]; subst. destruct u1 as [|t1 u1].
           ++ assert (here (t :: text) = true); [|congruence]. apply Hh. by exists u2, rest.
           ++ injection E' as <- ->. exists (u1 ++ u2), rest. split; [done|]. constructor; [by apply Forall_cons in Hu1 as [_ ?]|done].
      * split; [done|]. intros (u & rest & E' & Hm). inversion Hm as [| |? u1 ? u2 ? Hu1 Hm2|]; subst. destruct u1 as [|t1 u1].
        -- assert (here (t :: text) = true); [|congruence]. apply Hh. by exists u2, rest.
        -- injection E' as <- ->. apply Forall_cons in Hu1 as [Ha _]. apply accepts_spec in Ha. congruence.
Qed.

Definition plain_here (here : list Z -> bool) (c : Z) (re1 text : list Z) : bool :=
  if (c =? chr "$") && (rd re1 0 =? 0) then bool_decide (text = [])
  else match text with
       | [] => false
       | t :: text' => if (c =? chr ".") || (c =? t) then here text' else false
       end.

Lemma plain_spec here its c re1 text :
  (forall text, here text = true <-> matches_at its text) ->
  plain_here here c re1 text = true <->
  matches_at (if (c =? chr "$") && (rd re1 0 =? 0) then [End] else Chr c :: its) text.
Proof.
  intros Hh. unfold plain_here. destruct ((c =? chr "$") && (rd re1 0 =? 0)).
  - rewrite bool_decide_eq_true. split.
    + intros ->. exists [], []. split; [done|constructor].
    + intros (u & rest & -> & Hm). by inversion Hm.
  - destruct text as [|t text].
    + split; [done|]. intros (u & rest & E & Hm). inversion Hm; subst. done.
    + destruct ((c =? chr ".") || (c =? t)) eqn:Ea.
      * apply accepts_spec' in Ea. rewrite Hh. split.
        -- intros (u & rest & -> & Hm). exists (t :: u), rest. split; [done|by constructor].
        -- intros (u & rest & E & Hm). inversion Hm; subst. injection E as <- ->. by exists u0, rest.
      * split; [done|]. intros (u & rest & E & Hm). inversion Hm as [|? ? ? ? ? Ha| |]; subst. injection E as <- ->.
        apply accepts_spec' in Ha. congruence.
Qed.

Lemma matchhere_spec re text : matchhere re text = true <-> matches_at (items re) text.
Proof.
  remember (length re) as n eqn:Hn. assert (length re <= n)%nat as Hl by lia. clear Hn. revert re text Hl.
  induction n as [|n IH]; intros re text Hl.
  - destruct re; [|cbn in Hl; lia]. split; [|done]. intros _. exists [], text. split; [done|constructor].
  - destruct re as [|c re1]; [split; [|done]; intros _; exists [], text; split; [done|constructor]|]. cbn [length] in Hl.
    destruct re1 as [|c1 re2].
    + change (plain_here (matchhere []) c [] text = true <-> matches_at (items [c]) text). apply plain_spec. intros text'. apply IH. cbn. lia.
    + cbn [length] in Hl. cbn [matchhere items]. destruct (c1 =? chr "*").
      * apply matchstar_spec. intros text'. apply IH. lia.
      * apply (plain_spec (matchhere (c1 :: re2)) (items (c1 :: re2))). intros text'. apply IH. cbn. lia.
Qed.

Lemma match_loop_spec re text :
  match_loop re text = true <-> exists pre text', text = pre ++ text' /\ matches_at (items re) text'.
Proof.
  induction text as [|t text IH]; cbn [match_loop]; destruct (matchhere re _) eqn:E.
  - split; [intros _|done]. exists [], []. split; [done|]. by apply matchhere_spec.
  - split; [done|]. intros (pre & text' & E' & Hm). symmetry in E'. apply app_nil in E' as [-> ->]. apply matchhere_spec in Hm. congruence.
  - split; [intros _|done]. exists [], (t :: text). split; [done|]. by apply matchhere_spec.
  - rewrite IH. split; intros (pre & text' & E' & Hm).
    + exists (t :: pre), text'. by rewrite E'.
    + destruct pre as [|t' pre]; [cbn in E'; subst; apply matchhere_spec in Hm; congruence|]. injection E' as <- ->. by exists pre, text'.
Qed.

(** C21: the recursive matcher agrees with the language of the pattern.  [^]
    anchors at the start, [$] at the end of the text, [.] stands for any
    character, [c*] for any number of [c]; without [^] the pattern may match
    anywhere in the text. *)
Theorem match_correct re text :
  match_ re text = true <->
  if rd re 0 =? chr "^" then exists u rest, text = u ++ rest /\ matches (items (drop 1 re)) u rest
  else exists pre u rest, text = pre ++ u ++ rest /\ matches (items re) u rest.
Proof.
  unfold match_. destruct (rd re 0 =? chr "^"); [apply matchhere_spec|]. rewrite match_loop_spec. split.
  - intros (pre & text' & -> & u & rest & -> & Hm). by exists pre, u, rest.
  - intros (pre & u & rest & -> & Hm). exists pre, (u ++ rest). split; [done|]. by exists u, rest.
Qed.

(** ** Searching a file *)

Definition text_line (l : list Z) : list Z := l ++ [10].
Definition file_of (lines : list (list Z)) : list Z := lines ≫= text_line.

(** A line the buffer can hold. *)
Definition short_line (l : list Z) : Prop := Forall (fun c => c <> 0 /\ c <> 10) l /\ Z.of_nat (length l) < BUFSZ - 1.

Lemma strchr_nl l p : Forall (fun c => c <> 0 /\ c <> 10) l -> strchr (l ++ 10 :: p) 10 = Some (length l).
Proof.
  induction 1 as [|c l [H0 H1] _ IH]; [done|]. cbn [app strchr length].
  rewrite (proj2 (Z.eqb_neq c 0)), (proj2 (Z.eqb_neq c 10)), IH by done. done.
Qed.
Lemma strchr_none l : Forall (fun c => c <> 0 /\ c <> 10) l -> strchr l 10 = None.
Proof.
  induction 1 as [|c l [H0 H1] _ IH]; [done|]. cbn [strchr].
  rewrite (proj2 (Z.eqb_neq c 0)), (proj2 (Z.eqb_neq c 10)), IH by done. done.
Qed.

(** The stream of a file, and what is written to standard output. *)
Class Stream {W} `{!Sys W} (fd : Z) (rem out : W -> list Z) := {
  stream_read n w : 0 <= n -> exists k w', u_read fd n w = URet (Z.of_nat k, take k (rem w)) w' /\
    rem w' = drop k (rem w) /\ out w' = out w /\ Z.of_nat k <= n /\ (k <= length (rem w))%nat /\ (k = 0%nat -> n = 0 \/ rem w = []);
  stream_write bs w : exists w', u_write 1 bs w = URet (Z.of_nat (length bs)) w' /\ rem w' = rem w /\ out w' = out w ++ bs
}.

Section search.
Context {W : Type} `{!Sys W} (fd : Z) (rem out : W -> list Z) `{!Stream fd rem out} (pattern : list Z).

Definition hits (lines : list (list Z)) : list (list Z) := filter (fun l => match_ pattern l = true) lines.

(** The text begins with these lines and ends with [t], which has no newline. *)
Context (t : list Z) (Ht : short_line t).
Definition upcoming (lines : list (list Z)) : list Z := default t (head lines).

Lemma prefix_of (p r l m : list Z) : p ++ r = l ++ m -> (length p <= length l)%nat -> exists l2, l = p ++ l2.
Proof.
  intros Hp Hle. exists (drop (length p) l). assert (take (length p) (p ++ r) = take (length p) (l ++ m)) as E by (by rewrite Hp).
  rewrite take_app_length, take_app_le in E by lia. rewrite E at 1. by rewrite take_drop.
Qed.

(** The inner loop deals with the complete lines in the buffer. *)
Lemma grep_lines_spec lines p r fuel w :
  Forall short_line lines -> p ++ r = file_of lines ++ t -> (length p < fuel)%nat ->
  exists done rest w' p', grep_lines fuel pattern p w = URet p' w' /\ lines = done ++ rest /\ p' ++ r = file_of rest ++ t /\
    rem w' = rem w /\ out w' = out w ++ file_of (hits done) /\ (length p' <= length (upcoming rest))%nat.
Proof.
  intros Hs. revert p fuel w. induction Hs as [|l lines [Hl Hlen] Hs IH]; intros p fuel w Hp Hf; (destruct fuel as [|fuel]; [lia|]).
  - cbn in Hp. assert (length p <= length t)%nat as Hle by (rewrite <- Hp, length_app; lia).
    destruct Ht as [Ht1 _]. rewrite <- Hp in Ht1. apply Forall_app in Ht1 as [Hp1 _].
    exists [], [], w, p. cbn [grep_lines]. rewrite (strchr_none p Hp1). cbn. by rewrite app_nil_r.
  - change (file_of (l :: lines)) with (text_line l ++ file_of lines) in Hp. unfold text_line in Hp.
    destruct (decide (length p <= length l)%nat) as [Hle|Hgt].
    + destruct (prefix_of p r l ([10] ++ file_of lines ++ t)) as [l2 ->]; [by rewrite Hp, <- !app_assoc|done|].
      apply Forall_app in Hl as [Hl1 Hl2]. exists [], ((p ++ l2) :: lines), w, p. cbn [grep_lines]. rewrite (strchr_none p Hl1).
      cbn. by rewrite app_nil_r.
    + assert (exists p2, p = l ++ 10 :: p2 /\ p2 ++ r = file_of lines ++ t) as (p2 & -> & Hp2).
      { exists (drop (S (length l)) p).
        assert (take (S (length l)) (p ++ r) = take (S (length l)) ((l ++ [10]) ++ file_of lines ++ t)) as E by (by rewrite Hp, <- !app_assoc).
        rewrite take_app_le, take_app_length' in E by (rewrite ?length_app; cbn; lia).
        assert (p = (l ++ [10]) ++ drop (S (length l)) p) as Ep by (rewrite <- E; by rewrite take_drop).
        split; [by rewrite Ep at 1; rewrite <- app_assoc|]. rewrite Ep, <- !app_assoc in Hp. by apply app_inv_head, app_inv_head in Hp. }
      rewrite length_app in Hf. cbn [length] in Hf. cbn [grep_lines]. rewrite (strchr_nl l p2 Hl).
      assert (take (length l) (l ++ 10 :: p2) = l) as -> by (by rewrite take_app_length).
      assert (take (S (length l)) (l ++ 10 :: p2) = text_line l) as ->.
      { unfold text_line. rewrite (cons_middle 10 l p2), app_assoc. apply take_app_length'. rewrite length_app. cbn. lia. }
      assert (drop (S (length l)) (l ++ 10 :: p2) = p2) as ->.
      { rewrite (cons_middle 10 l p2), app_assoc. apply drop_app_length'. rewrite length_app. cbn. lia. }
      unfold ubind. destruct (match_ pattern l) eqn:Em.
      * destruct (stream_write (text_line l) w) as (w1 & -> & Hr1 & Ho1). cbn.
        destruct (IH p2 fuel w1 Hp2) as (dn & rest & w' & p' & -> & -> & Hp' & Hr' & Ho' & Hrest); [lia|].
        exists (l :: dn), rest, w', p'. split_and!; try done; [congruence|]. unfold hits. rewrite filter_cons_True by done.
        change (file_of (l :: ?x)) with (text_line l ++ file_of x). rewrite Ho', Ho1, app_assoc. done.
      * cbn. destruct (IH p2 fuel w Hp2) as (dn & rest & w' & p' & -> & -> & Hp' & Hr' & Ho' & Hrest); [lia|].
        exists (l :: dn), rest, w', p'. split_and!; try done. unfold hits. rewrite filter_cons_False by congruence. done.
Qed.

Lemma grep_loop_spec fuel lines buf w :
  Forall short_line lines -> buf ++ rem w = file_of lines ++ t -> (length buf <= length (upcoming lines))%nat ->
  (length (rem w) < fuel)%nat ->
  exists w', grep_loop fuel pattern fd buf w = URet tt w' /\ out w' = out w ++ file_of (hits lines).
Proof.
  revert lines buf w. induction fuel as [|fuel IH]; intros lines buf w Hs Hb Hfirst Hf; [lia|]. cbn [grep_loop].
  assert (Z.of_nat (length buf) < BUFSZ - 1) as Hroom.
  { destruct lines as [|l lines]; cbn in Hfirst; [destruct Ht; lia|]. apply Forall_cons in Hs as [[_ Hlen] _]. lia. }
  destruct (stream_read (BUFSZ - Z.of_nat (length buf) - 1) w) as (k & w1 & E & Hr & Ho & Hk & Hkl & Hk0); [lia|].
  unfold ubind at 1. rewrite E. destruct (decide (k = 0%nat)) as [->|Hne].
  - cbn. exists w1. split; [done|]. rewrite Ho. destruct lines as [|l lines]; [by rewrite app_nil_r|].
    exfalso. destruct (Hk0 eq_refl) as [|E0]; [lia|]. rewrite E0, app_nil_r in Hb. cbn in Hfirst.
    assert (length buf = length ((text_line l ++ file_of lines) ++ t)) as HL by (by rewrite Hb). unfold text_line in HL. rewrite !length_app in HL. cbn in HL. lia.
  - rewrite (proj2 (Z.leb_gt _ 0)) by lia. rewrite Nat2Z.id, take_take, Nat.min_id.
    destruct (grep_lines_spec lines (buf ++ take k (rem w)) (drop k (rem w)) (S (length (buf ++ take k (rem w)))) w1 Hs)
      as (dn & rest & w2 & p' & E2 & -> & Hp' & Hr2 & Ho2 & Hrest); [by rewrite <- app_assoc, take_drop|lia|].
    unfold ubind. rewrite E2. destruct (IH rest p' w2) as (w' & -> & Ho').
    + by apply Forall_app in Hs as [_ ?].
    + by rewrite Hr2, Hr.
    + done.
    + rewrite Hr2, Hr, length_drop. lia.
    + exists w'. split; [done|]. rewrite Ho', Ho2, Ho, <- app_assoc. f_equal. unfold hits, file_of. by rewrite filter_app, bind_app.
Qed.

End search.

#[export] Instance Stream_uworld fd : Stream fd w_in w_out.
Proof.
  split.
  - intros n w Hn. set (k := Nat.min (Nat.min (Z.to_nat n) (S (w_chunk w))) (length (w_in w))). exists k, (set_win (drop k (w_in w)) w). split_and!; [done|done|done|lia|lia|].
    intros Hk. destruct (w_in w); [by right|]. left. cbn [length] in k. lia.
  - intros bs w. by exists (set_wout (w_out w ++ bs) w).
Qed.

(** The pattern [^a.*c$] on three lines and a last one without a newline,
    delivered five bytes at a time. *)
Definition demo_text : list Z := file_of [chars "abc"; chars "xabc"; chars "a quick c"] ++ chars "ac".

