(* ===== verification/Sh.v ===== *)
(** * The shell (user/sh.c)

    A pointer into the command line is the rest of the line from there on;
    the end of the line reads as NUL.  The trees of [struct cmd] are
    inductive values over the type of their strings: pairs of pointers while
    parsing, the strings themselves when running.  *)

From Stdlib Require Import String.
From S2P Require Import Prelude Param Str Printf User UWorld ULib.
#[local] Open Scope user_scope.

Definition MAXARGS : Z := 10.

Inductive cmd (T : Type) : Type :=
| EXEC (argv : list T)
| REDIR (c : cmd T) (file : T) (mode fd : Z)
| PIPE (left right : cmd T)
| LIST (left right : cmd T)
| BACK (c : cmd T).
Arguments EXEC {T} argv.
Arguments REDIR {T} c file mode fd.
Arguments PIPE {T} left right.
Arguments LIST {T} left right.
Arguments BACK {T} c.

Fixpoint cmd_map {T T'} (f : T -> T') (c : cmd T) : cmd T' :=
  match c with
  | EXEC argv => EXEC (f <$> argv)
  | REDIR c file mode fd => REDIR (cmd_map f c) (f file) mode fd
  | PIPE l r => PIPE (cmd_map f l) (cmd_map f r)
  | LIST l r => LIST (cmd_map f l) (cmd_map f r)
  | BACK c => BACK (cmd_map f c)
  end.

(** ** Tokens *)

Definition whitespace : list Z := [32; 9; 13; 10; 11].
Definition symbols : list Z := chars "<|>&;()".

Definition in_set (set : list Z) (c : Z) : bool := match strchr set c with Some _ => true | None => false end.

Fixpoint skip_ws (s : list Z) : list Z :=
  match s with
  | [] => []
  | c :: s' => if in_set whitespace c then skip_ws s' else s
  end.
Fixpoint skip_word (s : list Z) : list Z :=
  match s with
  | [] => []
  | c :: s' => if negb (in_set whitespace c) && negb (in_set symbols c) then skip_word s' else s
  end.

(** The token, its two ends [q] and [eq], and the new [*ps]. *)
Definition gettoken (ps : list Z) : Z * list Z * list Z * list Z :=
  let s := skip_ws ps in
  let q := s in
  let c := rd s 0 in
  let '(ret, s) :=
    if c =? 0 then (0, s)
    else if in_set (chars "|();&<") c then (c, drop 1 s)
    else if c =? chr ">" then
      if rd s 1 =? chr ">" then (chr "+", drop 2 s) else (c, drop 1 s)
    else (chr "a", skip_word s) in
  (ret, q, s, skip_ws s).

Definition peek (ps : list Z) (toks : list Z) : bool * list Z :=
  let s := skip_ws ps in
  (negb (rd s 0 =? 0) && in_set toks (rd s 0), s).

(** ** The parser: a state monad on [*ps] with the shell's [panic] *)

Inductive presult (A : Type) : Type :=
| POk (a : A) (s : list Z)
| PPanic (msg : list Z)
| PNoFuel.
Arguments POk {A} a s.
Arguments PPanic {A} msg.
Arguments PNoFuel {A}.
Definition P (A : Type) : Type := list Z -> presult A.
Definition pret {A} (a : A) : P A := fun s => POk a s.
Definition pbind {A B} (m : P A) (k : A -> P B) : P B :=
  fun s => match m s with POk a s' => k a s' | PPanic msg => PPanic msg | PNoFuel => PNoFuel end.
Definition ppanic {A} (msg : string) : P A := fun _ => PPanic (chars msg).
Definition pnofuel {A} : P A := fun _ => PNoFuel.
Notation "'let*' x ':=' m 'in' k" := (pbind m (fun x => k)) (at level 10, x name, m at level 100, k at level 200).

Definition tok : Type := list Z * list Z.
Definition p_peek (toks : string) : P bool := fun s => let '(b, s') := peek s (chars toks) in POk b s'.
Definition p_token : P (Z * tok) := fun s => let '(t, q, eq, s') := gettoken s in POk (t, (q, eq)) s'.

(** [parseredirs]: the redirections that wrap the command. *)
Definition redir : Type := tok * Z * Z.
Definition redircmd (c : cmd tok) (r : redir) : cmd tok := let '(file, mode, fd) := r in REDIR c file mode fd.
Fixpoint parseredirs (fuel : nat) (c : cmd tok) : P (cmd tok) :=
  match fuel with
  | O => pnofuel
  | S fuel' =>
      let* more := p_peek "<>" in
      if negb more then pret c else
      let* t := p_token in
      let* f := p_token in
      if negb (fst f =? chr "a") then ppanic "missing file for redirection" else
      let c' :=
        if fst t =? chr "<" then redircmd c (snd f, O_RDONLY, 0)
        else if fst t =? chr ">" then redircmd c (snd f, Z.lor (Z.lor O_WRONLY O_CREATE) O_TRUNC, 1)
        else if fst t =? chr "+" then redircmd c (snd f, Z.lor O_WRONLY O_CREATE, 1)
        else c in
      parseredirs fuel' c'
  end.

(** The execcmd at the bottom of the redirections gets the arguments: the
    loop of [parseexec] fills it in place, through the pointer it kept. *)
Fixpoint add_arg (c : cmd tok) (a : tok) : cmd tok :=
  match c with
  | EXEC argv => EXEC (argv ++ [a])
  | REDIR c file mode fd => REDIR (add_arg c a) file mode fd
  | _ => c
  end.
Fixpoint parseargs (fuel : nat) (argc : Z) (ret : cmd tok) : P (cmd tok) :=
  match fuel with
  | O => pnofuel
  | S fuel' =>
      let* stop := p_peek "|)&;" in
      if stop : bool then pret ret else
      let* t := p_token in
      if fst t =? 0 then pret ret else
      if negb (fst t =? chr "a") then ppanic "syntax" else
      let ret := add_arg ret (snd t) in
      let argc := argc + 1 in
      if MAXARGS <=? argc then ppanic "too many args" else
      let* ret := parseredirs fuel' ret in
      parseargs fuel' argc ret
  end.

Fixpoint parsebacks (fuel : nat) (c : cmd tok) : P (cmd tok) :=
  match fuel with
  | O => pnofuel
  | S fuel' =>
      let* more := p_peek "&" in
      if negb more then pret c else
      let* _ := p_token in
      parsebacks fuel' (BACK c)
  end.

Fixpoint parseline (fuel : nat) : P (cmd tok) :=
  match fuel with
  | O => pnofuel
  | S fuel' =>
      let* c := parsepipe fuel' in
      let* c := parsebacks fuel' c in
      let* more := p_peek ";" in
      if negb more then pret c else
      let* _ := p_token in
      let* r := parseline fuel' in
      pret (LIST c r)
  end
with parsepipe (fuel : nat) : P (cmd tok) :=
  match fuel with
  | O => pnofuel
  | S fuel' =>
      let* c := parseexec fuel' in
      let* more := p_peek "|" in
      if negb more then pret c else
      let* _ := p_token in
      let* r := parsepipe fuel' in
      pret (PIPE c r)
  end
with parseexec (fuel : nat) : P (cmd tok) :=
  match fuel with
  | O => pnofuel
  | S fuel' =>
      let* block := p_peek "(" in
      if block : bool then parseblock fuel' else
      let* ret := parseredirs fuel' (EXEC []) in
      parseargs fuel' 0 ret
  end
with parseblock (fuel : nat) : P (cmd tok) :=
  match fuel with
  | O => pnofuel
  | S fuel' =>
      let* open := p_peek "(" in
      if negb open then ppanic "parseblock" else
      let* _ := p_token in
      let* c := parseline fuel' in
      let* close := p_peek ")" in
      if negb close then ppanic "syntax - missing )" else
      let* _ := p_token in
      parseredirs fuel' c
  end.

(** [nulterminate]: the characters at the ends of the strings become NUL.
    [buf] is the whole line; a pointer is so many bytes before its end. *)
Definition at_ptr (buf p : list Z) : nat := (length buf - length p)%nat.
Definition cut (line : list Z) (t : tok) (buf : list Z) : list Z := <[at_ptr line (snd t) := 0]> buf.
Fixpoint nulterminate (line : list Z) (c : cmd tok) (buf : list Z) : list Z :=
  match c with
  | EXEC argv => foldl (fun b t => cut line t b) buf argv
  | REDIR c file _ _ => cut line file (nulterminate line c buf)
  | PIPE l r | LIST l r => nulterminate line r (nulterminate line l buf)
  | BACK c => nulterminate line c buf
  end.

Definition parse_fuel (line : list Z) : nat := 4 * length line + 4.

(** [parsecmd]: the tree, and the line with its strings terminated. *)
Definition parsecmd (line : list Z) : presult (cmd tok * list Z) :=
  match parseline (parse_fuel line) line with
  | POk c s =>
      let '(_, s) := peek s [] in
      if bool_decide (s = []) then POk (c, nulterminate line c line) [] else PPanic (chars "leftovers: " ++ s ++ [10] ++ chars "syntax")
  | PPanic msg => PPanic msg
  | PNoFuel => PNoFuel
  end.

(** The string a pointer in the tree refers to afterwards. *)
Definition string_at (line buf : list Z) (t : tok) : list Z := cstr (drop (at_ptr line (fst t)) buf).
Definition command (line buf : list Z) (c : cmd tok) : cmd (list Z) := cmd_map (string_at line buf) c.
