(* ===== verification/ShProps.v ===== *)
(** * The shell's parser: termination, the strings it cuts out, and what it
    makes of a printed command *)

From Stdlib Require Import String.
From S2P Require Import Prelude Param Str Printf User UWorld ULib Sh.

(** ** Rules for the parser

    [pok m Q s]: from [s], [m] returns with [Q], or panics; it does not run
    out of fuel. *)

Definition pok {A} (m : P A) (Q : A -> list Z -> Prop) (s : list Z) : Prop :=
  match m s with POk a s' => Q a s' | PPanic _ => True | PNoFuel => False end.

Lemma pok_bind {A B} (m : P A) (k : A -> P B) Q s : pok m (fun a s' => pok (k a) Q s') s -> pok (pbind m k) Q s.
Proof. unfold pok, pbind. by destruct (m s). Qed.
Lemma pok_mono {A} (m : P A) (Q Q' : A -> list Z -> Prop) s : pok m Q s -> (forall a s', Q a s' -> Q' a s') -> pok m Q' s.
Proof. unfold pok. destruct (m s); naive_solver. Qed.
Lemma pok_ret {A} (a : A) (Q : A -> list Z -> Prop) s : Q a s -> pok (pret a) Q s.
Proof. exact id. Qed.
Lemma pok_panic {A} msg (Q : A -> list Z -> Prop) s : pok (ppanic msg) Q s.
Proof. exact I. Qed.

(** ** Tokens take characters away *)

Lemma skip_ws_head s : in_set whitespace (rd (skip_ws s) 0) = false.
Proof. induction s as [|c s IH]; [done|]. cbn [skip_ws]. destruct (in_set whitespace c) eqn:E; [done|]. exact E. Qed.

Lemma rd_nonzero s : rd s 0 <> 0 -> exists c s', s = c :: s' /\ rd s 0 = c.
Proof. destruct s as [|c s]; [done|]. by exists c, s. Qed.

(** Every symbol is one of those [gettoken] lists. *)
Lemma in_set_elem set c : in_set set c = true -> c ∈ set.
Proof.
  unfold in_set. induction set as [|x set IH]; cbn [strchr]; [done|]. destruct (x =? 0); [done|]. destruct (x =? c) eqn:E.
  - apply Z.eqb_eq in E as ->. intros _. left.
  - destruct (strchr set c); [|done]. intros _. right. by apply IH.
Qed.
Lemma symbol_cases c : in_set symbols c = true -> in_set (chars "|();&<") c = true \/ c = chr ">".
Proof.
  intros H%in_set_elem. change symbols with [60; 124; 62; 38; 59; 40; 41] in H. rewrite !elem_of_cons, elem_of_nil in H.
  destruct H as [->|[->|[->|[->|[->|[->|[->|[]]]]]]]]; by vm_compute; auto.
Qed.

(** Suffixes of suffixes. *)
Ltac sfx := first
  [ assumption | reflexivity
  | match goal with H : suffix ?a ?b |- suffix ?a ?c => solve [etransitivity; [exact H|]; clear H; sfx] end ].

(** ** The words of a line *)

Definition wordch (c : Z) : bool := negb (in_set whitespace c) && negb (in_set symbols c).
Definition is_word (w : list Z) : Prop := w <> [] /\ Forall (fun c => wordch c = true) w.
(** No word goes on here. *)
Definition word_ends (e : list Z) : Prop := match e with [] => True | c :: _ => wordch c = false end.

(** A token of the line: a word and what follows it. *)
Definition tok_ok (line : list Z) (t : tok) : Prop :=
  exists w, fst t = w ++ snd t /\ is_word w /\ word_ends (snd t) /\ fst t `suffix_of` line.

Fixpoint toks (c : cmd tok) : list tok :=
  match c with
  | EXEC argv => argv
  | REDIR c file _ _ => toks c ++ [file]
  | PIPE l r | LIST l r => toks l ++ toks r
  | BACK c => toks c
  end.

Lemma skip_ws_suffix s : skip_ws s `suffix_of` s.
Proof. induction s as [|c s IH]; cbn; [done|]. destruct (in_set whitespace c); [by apply suffix_cons_r|done]. Qed.

Lemma skip_word_spec s : exists w, s = w ++ skip_word s /\ Forall (fun c => wordch c = true) w /\ word_ends (skip_word s).
Proof.
  induction s as [|c s (w & E & Hw & He)]; cbn [skip_word]; [by exists []|]. fold (wordch c). destruct (wordch c) eqn:Ec.
  - exists (c :: w). split_and!; [by cbn; f_equal|by constructor|done].
  - exists []. by split_and!.
Qed.

Lemma suffix_drop {A} n (s : list A) : drop n s `suffix_of` s.
Proof. exists (take n s). by rewrite take_drop. Qed.

Lemma gettoken_spec s : let '(t, q, e, s') := gettoken s in
  s' `suffix_of` s /\ (rd (skip_ws s) 0 <> 0 -> (length s' < length s)%nat) /\ (t <> 0 -> rd (skip_ws s) 0 <> 0) /\
  (t = chr "a" -> tok_ok s (q, e)).
Proof.
  unfold gettoken. pose proof (skip_ws_suffix s) as Hs. pose proof (skip_ws_head s) as Hh. set (s1 := skip_ws s) in *.
  pose proof (suffix_length _ _ Hs) as Hl. destruct (rd s1 0 =? 0) eqn:E0.
  - apply Z.eqb_eq in E0. split_and!; [etransitivity; [apply skip_ws_suffix|sfx]|done|done|done].
  - apply Z.eqb_neq in E0. destruct (rd_nonzero s1 E0) as (c & s2 & E1 & Ec). rewrite Ec in *.
    assert (forall n, (0 < n)%nat -> skip_ws (drop n s1) `suffix_of` s /\ (length (skip_ws (drop n s1)) < length s)%nat) as Hdrop.
    { intros n Hn. split; [etransitivity; [apply skip_ws_suffix|]; etransitivity; [apply suffix_drop|done]|].
      pose proof (suffix_length _ _ (skip_ws_suffix (drop n s1))) as H1. rewrite length_drop, E1 in *. cbn [length] in *. lia. }
    destruct (in_set (chars "|();&<") c) eqn:Es.
    { destruct (Hdrop 1%nat); [lia|]. split_and!; [done|done|done|]. intros ->. by vm_compute in Es. }
    destruct (c =? chr ">") eqn:Eg.
    + apply Z.eqb_eq in Eg as ->. destruct (rd s1 1 =? chr ">"); [destruct (Hdrop 2%nat); [lia|]|destruct (Hdrop 1%nat); [lia|]]; by split_and!.
    + assert (in_set symbols c = false) as Hsym.
      { destruct (in_set symbols c) eqn:E; [|done]. apply symbol_cases in E as [E | ->]; [congruence|]. by rewrite Z.eqb_refl in Eg. }
      destruct (skip_word_spec s1) as (w & Ew & Hw & He). pose proof (suffix_length _ _ (skip_ws_suffix (skip_word s1))) as Hl2.
      assert (w <> []) as Hne.
      { intros ->. cbn in Ew. rewrite <- Ew, E1 in He. cbn in He. unfold wordch in He. by rewrite Hh, Hsym in He. }
      assert (length s1 = (length w + length (skip_word s1))%nat) as Hlw by (rewrite Ew at 1; apply length_app).
      assert (0 < length w)%nat by (destruct w; [done|cbn; lia]).
      split_and!; [|lia|done|].
      * etransitivity; [apply skip_ws_suffix|]. etransitivity; [|exact Hs]. by exists w.
      * intros _. exists w. by split_and!.
Qed.

Lemma pok_peek toks (Q : bool -> list Z -> Prop) s :
  (forall b, (b = true -> rd (skip_ws s) 0 <> 0) -> Q b (skip_ws s)) -> pok (p_peek toks) Q s.
Proof.
  intros HQ. unfold pok, p_peek, peek. apply HQ. intros [H _]%andb_true_iff. by apply negb_true_iff, Z.eqb_neq in H.
Qed.
Lemma skip_ws_idemp s : skip_ws (skip_ws s) = skip_ws s.
Proof. induction s as [|c s IH]; [done|]. cbn [skip_ws]. destruct (in_set whitespace c) eqn:E; [done|]. cbn. by rewrite E. Qed.

Section line.
Context (line : list Z).

(** From a place in the line to a later one. *)
Abbreviation later s s' := (suffix s' s).
Definition good (c : cmd tok) : Prop := Forall (tok_ok line) (toks c).

Lemma later_length (s s' : list Z) : later s s' -> (length s' <= length s)%nat.
Proof. apply suffix_length. Qed.

Lemma pok_token (Q : Z * tok -> list Z -> Prop) s :
  s `suffix_of` line ->
  (forall t s', later s s' -> (rd (skip_ws s) 0 <> 0 \/ fst t <> 0 -> (length s' < length s)%nat) ->
     (fst t = chr "a" -> tok_ok line (snd t)) -> Q t s') -> pok p_token Q s.
Proof.
  intros Hs HQ. unfold pok, p_token. pose proof (gettoken_spec s) as H. destruct (gettoken s) as [[[t q] e] s'].
  destruct H as (H1 & H2 & H3 & H4). apply HQ; [done|by intros [?|?]; auto|].
  cbn. intros E. destruct (H4 E) as (w & ? & ? & ? & Hq). exists w. split_and!; try done. sfx.
Qed.

(** After the symbol [peek] has seen. *)
Lemma pok_symbol (Q : Z * tok -> list Z -> Prop) s b :
  skip_ws s `suffix_of` line -> (b = true -> rd (skip_ws s) 0 <> 0) -> b = true ->
  (forall t s', later s s' -> (length s' < length s)%nat -> Q t s') -> pok p_token Q (skip_ws s).
Proof.
  intros Hs Hb -> HQ. apply (pok_token _ _ Hs). intros t s' H1 H2 _. rewrite skip_ws_idemp in H2. specialize (H2 (or_introl (Hb eq_refl))).
  apply HQ; [etransitivity; [|apply skip_ws_suffix]; sfx|]. pose proof (suffix_length _ _ (skip_ws_suffix s)). lia.
Qed.

Lemma good_add c a : good c -> tok_ok line a -> good (add_arg c a).
Proof.
  unfold good. induction c as [argv|c IH f mode fd| | |]; cbn; intros Hc Ha; try done.
  - apply Forall_app. by split; [|constructor].
  - apply Forall_app in Hc as [Hc Hf]. apply Forall_app. split; [by apply IH|done].
Qed.

Lemma redirs_ok fuel c s :
  s `suffix_of` line -> good c -> (length s < fuel)%nat -> pok (parseredirs fuel c) (fun c' s' => good c' /\ later s s') s.
Proof.
  revert c s. induction fuel as [|fuel IH]; intros c s Hs Hc Hf; [lia|]. cbn [parseredirs].
  assert (skip_ws s `suffix_of` line) as Hs1 by (etransitivity; [apply skip_ws_suffix|done]).
  apply pok_bind, pok_peek. intros b Hb. destruct b; [|apply pok_ret; split; [done|apply skip_ws_suffix]]. cbn [negb].
  apply pok_bind, (pok_symbol _ s true Hs1 Hb eq_refl). intros t s1 H1 L1.
  assert (s1 `suffix_of` line) as Hs2 by (sfx).
  apply pok_bind, (pok_token _ _ Hs2). intros f s2 H2 _ Hw. destruct (fst f =? chr "a") eqn:Ea; [|apply pok_panic]. cbn [negb].
  apply Z.eqb_eq in Ea. specialize (Hw Ea). pose proof (later_length _ _ H2).
  eapply pok_mono; [apply IH; [sfx| |lia]|].
  - unfold redircmd, good. repeat case_match; try done; cbn; (apply Forall_app; split; [done|by constructor]).
  - intros c' s' [Hc' H']. split; [done|]. sfx.
Qed.

Lemma args_ok fuel argc c s :
  s `suffix_of` line -> good c -> (length s < fuel)%nat -> pok (parseargs fuel argc c) (fun c' s' => good c' /\ later s s') s.
Proof.
  revert argc c s. induction fuel as [|fuel IH]; intros argc c s Hs Hc Hf; [lia|]. cbn [parseargs].
  assert (skip_ws s `suffix_of` line) as Hs1 by (etransitivity; [apply skip_ws_suffix|done]).
  pose proof (skip_ws_suffix s) as Hsk. pose proof (suffix_length _ _ Hsk).
  apply pok_bind, pok_peek. intros b _. destruct b; [apply pok_ret; by split|].
  apply pok_bind, (pok_token _ _ Hs1). intros t s1 H1 H1' Hw.
  assert (later s s1) as Hl by (sfx).
  destruct (fst t =? 0) eqn:E0; [by apply pok_ret|]. apply Z.eqb_neq in E0. specialize (H1' (or_intror E0)).
  destruct (fst t =? chr "a") eqn:Ea; [|apply pok_panic]. cbn [negb]. destruct (MAXARGS <=? argc + 1); [apply pok_panic|].
  apply Z.eqb_eq in Ea. specialize (Hw Ea). assert (s1 `suffix_of` line) as Hs2 by (sfx).
  apply pok_bind. eapply pok_mono; [apply redirs_ok; [done|by apply good_add|lia]|]. intros c' s2 [Hc' H2]. pose proof (later_length _ _ H2).
  eapply pok_mono; [apply IH; [sfx|done|lia]|]. intros c2 s3 [Hc2 H3]. split; [done|]. sfx.
Qed.

Lemma backs_ok fuel c s :
  s `suffix_of` line -> good c -> (length s < fuel)%nat -> pok (parsebacks fuel c) (fun c' s' => good c' /\ later s s') s.
Proof.
  revert c s. induction fuel as [|fuel IH]; intros c s Hs Hc Hf; [lia|]. cbn [parsebacks].
  assert (skip_ws s `suffix_of` line) as Hs1 by (etransitivity; [apply skip_ws_suffix|done]).
  apply pok_bind, pok_peek. intros b Hb. destruct b; [|apply pok_ret; split; [done|apply skip_ws_suffix]]. cbn [negb].
  apply pok_bind, (pok_symbol _ s true Hs1 Hb eq_refl). intros t s1 H1 L1.
  eapply pok_mono; [apply IH; [sfx|done|lia]|]. intros c' s' [Hc' H']. split; [done|]. sfx.
Qed.

(** After a command and one symbol, the same or another nonterminal. *)
Lemma after_symbol (p : P (cmd tok)) (mk : cmd tok -> cmd tok) sym s0 s n :
  s `suffix_of` line -> later s0 s -> (length s <= n)%nat -> (forall r, good r -> good (mk r)) -> forall c, good c ->
  (forall s1, s1 `suffix_of` line -> (length s1 < n)%nat -> pok p (fun c' s' => good c' /\ later s1 s') s1) ->
  pok (let* more := p_peek sym in if negb more then pret c else let* _ := p_token in let* r := p in pret (mk r))
    (fun c' s' => good c' /\ later s0 s') s.
Proof.
  intros Hs H0 Hn Hmk c Hc Hp. assert (skip_ws s `suffix_of` line) as Hs1 by (etransitivity; [apply skip_ws_suffix|done]).
  apply pok_bind, pok_peek. intros b Hb. destruct b.
  2:{ apply pok_ret. split; [done|]. etransitivity; [apply skip_ws_suffix|done]. }
  cbn [negb]. apply pok_bind, (pok_symbol _ s true Hs1 Hb eq_refl). intros t s1 H1 L1.
  apply pok_bind. eapply pok_mono; [apply Hp; [sfx|lia]|]. intros r s2 [Hr H2]. apply pok_ret. split; [by apply Hmk|].
  sfx.
Qed.

Lemma good_app l r : good l -> good r -> good (LIST l r) /\ good (PIPE l r).
Proof. unfold good. cbn. intros. split; by apply Forall_app. Qed.

Lemma parse_ok fuel s :
  s `suffix_of` line ->
  ((4 * length s + 4 <= fuel)%nat -> pok (parseline fuel) (fun c' s' => good c' /\ later s s') s) /\
  ((4 * length s + 3 <= fuel)%nat -> pok (parsepipe fuel) (fun c' s' => good c' /\ later s s') s) /\
  ((4 * length s + 2 <= fuel)%nat -> pok (parseexec fuel) (fun c' s' => good c' /\ later s s') s) /\
  ((4 * length s + 1 <= fuel)%nat -> pok (parseblock fuel) (fun c' s' => good c' /\ later s s') s).
Proof.
  revert s. induction fuel as [|fuel IH]; intros s Hs; [split_and!; lia|].
  pose proof (skip_ws_suffix s) as Hsk. pose proof (suffix_length _ _ Hsk) as Hws.
  assert (skip_ws s `suffix_of` line) as Hs1 by (sfx).
  split_and!; intros Hf.
  - cbn [parseline]. apply pok_bind. eapply pok_mono; [apply IH; [done|lia]|]. intros c s1 [Hc H1]. pose proof (later_length _ _ H1).
    apply pok_bind. eapply pok_mono; [apply backs_ok; [sfx|done|lia]|]. intros c2 s2 [Hc2 H2]. pose proof (later_length _ _ H2).
    assert (later s s2) as H02 by (sfx).
    apply (after_symbol _ _ _ s s2 (length s)); [sfx|done|lia|by intros; apply good_app|done|]. intros s3 Hs3 L3. apply IH; [done|lia].
  - cbn [parsepipe]. apply pok_bind. eapply pok_mono; [apply IH; [done|lia]|]. intros c s2 [Hc2 H02]. pose proof (later_length _ _ H02).
    apply (after_symbol _ _ _ s s2 (length s)); [sfx|done|lia|by intros; apply good_app|done|]. intros s3 Hs3 L3. apply IH; [done|lia].
  - cbn [parseexec]. apply pok_bind, pok_peek. intros b Hb. destruct b.
    + eapply pok_mono; [apply IH; [done|lia]|]. intros c' s' [? H']. split; [done|]. sfx.
    + apply pok_bind. eapply pok_mono; [apply redirs_ok; [done|constructor|lia]|]. intros c s2 [Hc H2]. pose proof (later_length _ _ H2).
      eapply pok_mono; [apply args_ok; [sfx|done|lia]|]. intros c' s' [? H']. split; [done|].
      sfx.
  - cbn [parseblock]. apply pok_bind, pok_peek. intros b Hb. destruct b; [|apply pok_panic]. cbn [negb].
    apply pok_bind, (pok_symbol _ s true Hs1 Hb eq_refl). intros t s3 H3 L3.
    apply pok_bind. eapply pok_mono; [apply IH; [sfx|lia]|]. intros c s4 [Hc H4]. pose proof (later_length _ _ H4).
    assert (s4 `suffix_of` line) as Hs4 by sfx.
    pose proof (skip_ws_suffix s4) as Hsk4. pose proof (suffix_length _ _ Hsk4).
    apply pok_bind, pok_peek. intros b Hb4. destruct b; [|apply pok_panic]. cbn [negb].
    apply pok_bind, (pok_token _ (skip_ws s4)); [sfx|]. intros t' s5 H5 _ _. pose proof (later_length _ _ H5).
    eapply pok_mono; [apply redirs_ok; [sfx|done|lia]|]. intros c' s' [? H']. split; [done|].
    sfx.
Qed.
End line.

(** C38: the recursive-descent parser of the shell terminates on every
    command line: [parsecmd] returns a command or stops with an error
    message, and its recursion is never deeper than four calls a
    character. *)
Theorem parsecmd_terminates line : parsecmd line <> PNoFuel.
Proof.
  unfold parsecmd. pose proof (proj1 (parse_ok line (parse_fuel line) line ltac:(done)) ltac:(reflexivity)) as H. unfold pok in H.
  destruct (parseline (parse_fuel line) line) as [c s|msg|]; [|done..]. unfold peek. by destruct (bool_decide _).
Qed.

(** ** The strings *)

Definition tok_text (t : tok) : list Z := take (length (fst t) - length (snd t)) (fst t).

Lemma nulterminate_toks line c buf : nulterminate line c buf = foldl (fun b t => cut line t b) buf (toks c).
Proof.
  revert buf. induction c as [argv|c IH f m fd|l IHl r IHr|l IHl r IHr|c IH]; intros buf; cbn [nulterminate toks]; try done.
  - by rewrite foldl_app, IH.
  - by rewrite foldl_app, IHl, IHr.
  - by rewrite foldl_app, IHl, IHr.
Qed.

Lemma cuts_length line ts buf : length (foldl (fun b t => cut line t b) buf ts) = length buf.
Proof. revert buf. induction ts as [|t ts IH]; intros buf; [done|]. cbn [foldl]. rewrite IH. apply length_insert. Qed.
Lemma cuts_other line ts buf i :
  (forall t, t ∈ ts -> at_ptr line (snd t) <> i) -> foldl (fun b t => cut line t b) buf ts !! i = buf !! i.
Proof.
  revert buf. induction ts as [|t ts IH]; intros buf H; [done|]. cbn [foldl]. rewrite IH by (intros; apply H; by right).
  apply list_lookup_insert_ne, H. left.
Qed.
Lemma cuts_zero line ts buf i : buf !! i = Some 0 -> foldl (fun b t => cut line t b) buf ts !! i = Some 0.
Proof.
  revert buf. induction ts as [|t ts IH]; intros buf H; [done|]. cbn [foldl]. apply IH. unfold cut.
  destruct (decide (at_ptr line (snd t) = i)) as [->|]; [apply list_lookup_insert_eq; by eapply lookup_lt_Some|by rewrite list_lookup_insert_ne].
Qed.
Lemma cuts_end line ts buf t :
  t ∈ ts -> (at_ptr line (snd t) < length buf)%nat -> foldl (fun b t => cut line t b) buf ts !! at_ptr line (snd t) = Some 0.
Proof.
  revert buf. induction ts as [|t' ts IH]; intros buf Ht Hl; [by apply elem_of_nil in Ht|]. cbn [foldl].
  apply elem_of_cons in Ht as [->|Ht]; [|apply IH; [done|by unfold cut; rewrite length_insert]].
  apply cuts_zero, list_lookup_insert_eq, Hl.
Qed.

Lemma cstr_app w l : Forall (fun c => c <> 0) w -> rd l 0 = 0 -> cstr (w ++ l) = w.
Proof.
  induction 1 as [|c w Hc _ IH]; intros Hl; cbn [app cstr].
  - destruct l as [|x l]; [done|]. cbn in *. by rewrite Hl.
  - rewrite (proj2 (Z.eqb_neq c 0)) by done. f_equal. by apply IH.
Qed.

(** The ends of other words do not fall into a word. *)
Lemma word_whole line ts t :
  Forall (tok_ok line) ts -> t ∈ ts -> Forall (fun c => c <> 0) line ->
  string_at line (foldl (fun b t => cut line t b) line ts) t = tok_text t.
Proof.
  intros Hts Ht Hnz. rewrite Forall_forall in Hts. destruct (Hts t Ht) as (w & Eq & [Hne Hw] & He & [pre Hline]).
  set (buf := foldl _ line ts). unfold string_at, tok_text. rewrite Eq in Hline.
  assert (at_ptr line (fst t) = length pre) as ->.
  { unfold at_ptr. rewrite Eq, Hline, !length_app. lia. }
  assert (at_ptr line (snd t) = (length pre + length w)%nat) as Hend.
  { unfold at_ptr. rewrite Hline, !length_app. lia. }
  assert (take (length (fst t) - length (snd t)) (fst t) = w) as ->.
  { rewrite Eq, length_app. replace (length w + length (snd t) - length (snd t))%nat with (length w) by lia. apply take_app_length. }
  assert (length buf = length line) as Hlen by apply cuts_length.
  rewrite <- (take_drop (length w) (drop (length pre) buf)), drop_drop.
  assert (take (length w) (drop (length pre) buf) = w) as ->.
  { apply list_eq. intros k. destruct (decide (k < length w)%nat) as [Hk|Hk].
    - rewrite lookup_take_lt, lookup_drop by done. destruct (lookup_lt_is_Some_2 w k Hk) as [c Hc]. rewrite Hc.
      assert (line !! (length pre + k)%nat = Some c) as Hc'.
      { rewrite Hline, lookup_app_r by lia. replace (length pre + k - length pre)%nat with k by lia. by rewrite lookup_app_l. }
      unfold buf. rewrite cuts_other; [done|]. intros u Hu E. destruct (Hts u Hu) as (wu & Equ & _ & Heu & [preu Hlu]).
      rewrite Equ, app_assoc in Hlu. unfold at_ptr in E. assert (length (snd u) <= length line)%nat by (rewrite Hlu, length_app; lia).
      assert (line !! (length line - length (snd u))%nat = snd u !! 0%nat) as Hh.
      { rewrite Hlu at 2. rewrite lookup_app_r by (rewrite Hlu, !length_app; lia). f_equal. rewrite Hlu, !length_app. lia. }
      rewrite E, Hc' in Hh. destruct (snd u) as [|c' e']; [done|]. cbn in Hh. injection Hh as <-. cbn in Heu.
      rewrite Forall_forall in Hw. rewrite (Hw c) in Heu; [done|]. by eapply list_elem_of_lookup_2.
    - rewrite lookup_take_ge, lookup_ge_None_2 by lia. done. }
  apply cstr_app.
  - rewrite Hline in Hnz. apply Forall_app in Hnz as [_ Hnz]. by apply Forall_app in Hnz as [? _].
  - unfold rd. rewrite lookup_drop, Nat.add_0_r, <- Hend. destruct (decide (at_ptr line (snd t) < length line)%nat) as [Hl|Hl].
    + unfold buf. by rewrite cuts_end.
    + by rewrite lookup_ge_None_2 by lia.
Qed.

Lemma cmd_map_ext {T} (f g : tok -> T) c : (forall t, t ∈ toks c -> f t = g t) -> cmd_map f c = cmd_map g c.
Proof.
  induction c as [argv|c IH file m fd|l IHl r IHr|l IHl r IHr|c IH]; cbn [cmd_map toks]; intros H.
  - f_equal. apply list_fmap_ext. intros i t Ht. apply H. by eapply list_elem_of_lookup_2.
  - rewrite IH, (H file); [done|set_solver..].
  - rewrite IHl, IHr; [done|set_solver..].
  - rewrite IHl, IHr; [done|set_solver..].
  - rewrite IH; [done|set_solver].
Qed.

Lemma parsecmd_inv line c buf s :
  parsecmd line = POk (c, buf) s -> exists s1, parseline (parse_fuel line) line = POk c s1 /\ skip_ws s1 = [] /\ buf = nulterminate line c line.
Proof.
  unfold parsecmd. destruct (parseline _ line) as [c1 s1|?|]; [|done..]. unfold peek. case_bool_decide as Hs; [|done]. intros [= -> <- <-].
  by exists s1.
Qed.

(** The strings of a parsed command.  After [nulterminate] every argument
    and file name is exactly the word of the line between the two pointers
    the parser recorded: non-empty, without white space or operators, and
    not cut by the terminator of another string, although all of them share
    the one line buffer. *)
Theorem nulterminate_correct line c buf :
  Forall (fun x => x <> 0) line -> parsecmd line = POk (c, buf) [] ->
  command line buf c = cmd_map tok_text c /\ Forall is_word (tok_text <$> toks c).
Proof.
  intros Hnz (s1 & E & _ & ->)%parsecmd_inv.
  pose proof (proj1 (parse_ok line (parse_fuel line) line ltac:(done)) ltac:(reflexivity)) as H. unfold pok in H. rewrite E in H. destruct H as [Hg _].
  split.
  - apply cmd_map_ext. intros t Ht. rewrite nulterminate_toks. by apply word_whole.
  - rewrite Forall_fmap. eapply Forall_impl; [exact Hg|]. intros t (w & Eq & Hw & _ & _). unfold compose, tok_text. rewrite Eq, length_app.
    replace (length w + length (snd t) - length (snd t))%nat with (length w) by lia. by rewrite take_app_length.
Qed.

Lemma nulterminate_correct_witness :
  exists c buf, parsecmd (chars "cat<in|wc -l>>out&") = POk (c, buf) [] /\
    command (chars "cat<in|wc -l>>out&") buf c =
      BACK (PIPE (REDIR (EXEC [chars "cat"]) (chars "in") O_RDONLY 0)
                 (REDIR (EXEC [chars "wc"; chars "-l"]) (chars "out") (Z.lor O_WRONLY O_CREATE) 1)).
Proof.
  let r := eval vm_compute in (parsecmd (chars "cat<in|wc -l>>out&")) in
  match r with POk (?c, ?b) _ => exists c, b end.
  split; [by vm_compute|]. refine (eq_trans (proj1 (nulterminate_correct (chars "cat<in|wc -l>>out&") _ _ _ _)) _).
  - apply (bool_decide_unpack _). by vm_compute.
  - by vm_compute.
  - by vm_compute.
Defined.
