(* ===== verification/ShShow.v ===== *)
(** * Printing commands: the parser reads back what is printed *)

From Stdlib Require Import String.
From S2P Require Import Prelude Param Str Printf User UWorld ULib Sh ShProps.

(** ** The printer

    Four levels of binding: a line, a command with its [&]s, a pipeline, a
    simple command.  A command printed where a tighter one is expected gets
    parentheses. *)

Abbreviation text := (list Z).

Definition redir_op (mode : Z) : text :=
  if mode =? O_RDONLY then chars "<"
  else if mode =? Z.lor (Z.lor O_WRONLY O_CREATE) O_TRUNC then chars ">" else chars ">>".

Definition paren (b : bool) (s : text) : text := if b then chars "(" ++ s ++ chars ")" else s.

Definition show_args (argv : list text) : text := argv ≫= (fun w => 32 :: w).

Fixpoint show (lv : nat) (c : cmd text) : text :=
  match c with
  | EXEC argv => show_args argv
  | REDIR c file mode fd => show 3 c ++ redir_op mode ++ file
  | PIPE l r => paren (2 <? lv)%nat (show 3 l ++ chars "|" ++ show 2 r)
  | LIST l r => paren (0 <? lv)%nat (show 1 l ++ chars ";" ++ show 0 r)
  | BACK c => paren (1 <? lv)%nat (show 1 c ++ chars "&")
  end.

(** A string the shell can name. *)
Definition plain_word (w : text) : Prop := is_word w /\ Forall (fun c => c <> 0) w.
Definition valid_redir (mode fd : Z) : Prop :=
  mode = O_RDONLY /\ fd = 0 \/ (mode = Z.lor (Z.lor O_WRONLY O_CREATE) O_TRUNC \/ mode = Z.lor O_WRONLY O_CREATE) /\ fd = 1.
Fixpoint valid (c : cmd text) : Prop :=
  match c with
  | EXEC argv => Forall plain_word argv /\ Z.of_nat (length argv) < MAXARGS
  | REDIR c file mode fd => valid c /\ plain_word file /\ valid_redir mode fd
  | PIPE l r | LIST l r => valid l /\ valid r
  | BACK c => valid c
  end.

(** ** Tokens of printed text *)

Lemma skip_ws_cons c s : in_set whitespace c = false -> skip_ws (c :: s) = c :: s.
Proof. intros H. cbn. by rewrite H. Qed.

(** Text that starts with one of the characters [S], or is at its end. *)
Definition stop (S : string) (s : text) : Prop := match s with [] => True | c :: _ => in_set (chars S) c = true end.

Lemma stop_symbol S s : (forall c, in_set (chars S) c = true -> in_set symbols c = true) -> stop S s ->
  skip_ws s = s /\ word_ends s.
Proof.
  intros HS Hs. destruct s as [|c s]; [done|]. specialize (HS c Hs). apply in_set_elem in HS. cbn [skip_ws word_ends].
  change symbols with [60; 124; 62; 38; 59; 40; 41] in HS. rewrite !elem_of_cons, elem_of_nil in HS. unfold wordch.
  destruct HS as [->|[->|[->|[->|[->|[->|[->|[]]]]]]]]; done.
Qed.

Lemma token_symbol c s : in_set (chars "|();&<") c = true -> p_token (c :: s) = POk (c, (c :: s, s)) (skip_ws s).
Proof.
  intros H. pose proof (in_set_elem _ _ H) as E. change (chars "|();&<") with [124; 40; 41; 59; 38; 60] in E.
  rewrite !elem_of_cons, elem_of_nil in E. destruct E as [->|[->|[->|[->|[->|[->|[]]]]]]]; done.
Qed.

Lemma skip_word_app w e : Forall (fun c => wordch c = true) w -> word_ends e -> skip_word (w ++ e) = e.
Proof.
  induction 1 as [|c w Hc _ IH]; intros He; cbn [app skip_word].
  - destruct e as [|c e]; [done|]. cbn [skip_word word_ends] in *. fold (wordch c). by rewrite He.
  - fold (wordch c). rewrite Hc. by apply IH.
Qed.

(** A word, after white space. *)
Lemma word_facts w : plain_word w -> exists c w', w = c :: w' /\ c <> 0 /\ in_set whitespace c = false /\ in_set symbols c = false.
Proof.
  intros [[Hne Hw] Hnz]. destruct w as [|c w]; [done|]. exists c, w. apply Forall_cons in Hw as [Hc _], Hnz as [Hz _].
  unfold wordch in Hc. apply andb_true_iff in Hc as [H1%negb_true_iff H2%negb_true_iff]. by split_and!.
Qed.
Lemma not_symbol c : in_set symbols c = false -> in_set (chars "|();&<") c = false /\ (c =? chr ">") = false.
Proof.
  intros H. split; [destruct (in_set (chars "|();&<") c) eqn:E; [|done]|destruct (c =? chr ">") eqn:E; [|done]].
  - apply in_set_elem in E. change (chars "|();&<") with [124; 40; 41; 59; 38; 60] in E. rewrite !elem_of_cons, elem_of_nil in E.
    destruct E as [->|[->|[->|[->|[->|[->|[]]]]]]]; done.
  - apply Z.eqb_eq in E as ->. done.
Qed.
Lemma token_word w e : plain_word w -> word_ends e -> p_token (w ++ e) = POk (chr "a", (w ++ e, e)) (skip_ws e).
Proof.
  intros Hw He. destruct (word_facts w Hw) as (c & w' & E & Hz & Hws & Hsym). destruct (not_symbol c Hsym) as [H1 H2].
  assert (skip_ws (w ++ e) = w ++ e) as Hsk by (rewrite E; by apply (skip_ws_cons c)).
  assert (rd (w ++ e) 0 = c) as Hrd by (by rewrite E).
  unfold p_token, gettoken. rewrite Hsk, Hrd, (proj2 (Z.eqb_neq c 0)), H1, H2 by done.
  destruct Hw as [[_ Hw] _]. by rewrite skip_word_app.
Qed.

Lemma text_of_word w e : tok_text (w ++ e, e) = w.
Proof. unfold tok_text. cbn [fst snd]. rewrite length_app. replace (length w + length e - length e)%nat with (length w) by lia. apply take_app_length. Qed.

Lemma peek_spec S s : skip_ws s = s -> p_peek S s = POk (negb (rd s 0 =? 0) && in_set (chars S) (rd s 0)) s.
Proof. intros H. unfold p_peek, peek. by rewrite H. Qed.

(** The parsers begin by skipping white space. *)
Lemma peek_skip S s : p_peek S (skip_ws s) = p_peek S s.
Proof. unfold p_peek, peek. by rewrite skip_ws_idemp. Qed.
Lemma pbind_skip {A B} (m : P A) (k : A -> P B) s : m (skip_ws s) = m s -> pbind m k (skip_ws s) = pbind m k s.
Proof. unfold pbind. by intros ->. Qed.
Lemma redirs_skip F c s : parseredirs F c (skip_ws s) = parseredirs F c s.
Proof. destruct F; [done|]. apply pbind_skip, peek_skip. Qed.
Lemma args_skip F n c s : parseargs F n c (skip_ws s) = parseargs F n c s.
Proof. destruct F; [done|]. apply pbind_skip, peek_skip. Qed.
Lemma exec_skip F s : parseexec F (skip_ws s) = parseexec F s.
Proof. destruct F; [done|]. apply pbind_skip, peek_skip. Qed.
Lemma pipe_skip F s : parsepipe F (skip_ws s) = parsepipe F s.
Proof. destruct F; [done|]. apply pbind_skip, exec_skip. Qed.
Lemma line_skip F s : parseline F (skip_ws s) = parseline F s.
Proof. destruct F; [done|]. apply pbind_skip, pipe_skip. Qed.

(** ** Redirections and arguments *)

Definition redirs : Type := list (text * Z * Z).
Definition show_redirs (R : redirs) : text := R ≫= (fun '(f, mode, _) => redir_op mode ++ f).
Definition wrap {T} (c : cmd T) (R : list (T * Z * Z)) : cmd T := foldl (fun c '(f, mode, fd) => REDIR c f mode fd) c R.
Definition valid_redirs (R : redirs) : Prop := Forall (fun '(f, mode, fd) => plain_word f /\ valid_redir mode fd) R.

(** [parses p s a s']: with enough fuel, [p] takes [s] to [s']. *)
Definition parses {A} (p : nat -> P A) (s : text) (a : A) (s' : text) : Prop := exists F0, forall F, (F0 <= F)%nat -> p F s = POk a s'.

Definition after_exec : string := "|)&;".
Lemma stop_exec s : stop after_exec s -> skip_ws s = s /\ word_ends s /\ in_set (chars "<>") (rd s 0) = false.
Proof.
  intros Hs. assert (forall c, in_set (chars after_exec) c = true -> in_set symbols c = true /\ in_set (chars "<>") c = false) as HS.
  { intros c Hc%in_set_elem. change (chars after_exec) with [124; 41; 38; 59] in Hc. rewrite !elem_of_cons, elem_of_nil in Hc.
    destruct Hc as [->|[->|[->|[->|[]]]]]; done. }
  destruct (stop_symbol after_exec s) as [H1 H2]; [intros; by apply HS|done|]. split_and!; [done|done|].
  destruct s as [|c s]; [done|]. by apply HS.
Qed.

Lemma token_gt s : (rd s 0 =? chr ">") = false -> p_token (62 :: s) = POk (chr ">", (62 :: s, s)) (skip_ws s).
Proof. intros H. unfold p_token, gettoken. change (rd (skip_ws (62 :: s)) 1) with (rd s 0). by rewrite H. Qed.
Lemma token_gtgt s : p_token (62 :: 62 :: s) = POk (chr "+", (62 :: 62 :: s, s)) (skip_ws s).
Proof. done. Qed.

Lemma redir_token mode fd f e :
  plain_word f -> valid_redir mode fd -> exists t, p_peek "<>" (redir_op mode ++ f ++ e) = POk true (redir_op mode ++ f ++ e) /\
    p_token (redir_op mode ++ f ++ e) = POk (t, (redir_op mode ++ f ++ e, f ++ e)) (f ++ e) /\
    (forall (c : cmd tok) x, (if t =? chr "<" then redircmd c (x, O_RDONLY, 0)
        else if t =? chr ">" then redircmd c (x, Z.lor (Z.lor O_WRONLY O_CREATE) O_TRUNC, 1)
        else if t =? chr "+" then redircmd c (x, Z.lor O_WRONLY O_CREATE, 1) else c) = REDIR c x mode fd).
Proof.
  intros Hf Hv. destruct (word_facts f Hf) as (c & f' & -> & Hz & Hws & Hsym). destruct (not_symbol c Hsym) as [_ Hgt].
  assert (skip_ws ((c :: f') ++ e) = (c :: f') ++ e) as Hsk by (by apply (skip_ws_cons c)).
  destruct Hv as [[-> ->]|[[-> | ->] ->]].
  - exists (chr "<"). split_and!; [done| |done]. change (redir_op O_RDONLY) with [60]. cbn [app].
    rewrite token_symbol by done. change (c :: f' ++ e) with ((c :: f') ++ e). by rewrite Hsk.
  - exists (chr ">"). split_and!; [done| |done]. change (redir_op _) with [62]. cbn [app] in *. rewrite token_gt by done. by rewrite Hsk.
  - exists (chr "+"). split_and!; [done| |done]. change (redir_op _) with [62; 62]. cbn [app] in *. rewrite token_gtgt. by rewrite Hsk.
Qed.

Lemma redirs_none F c s : in_set (chars "<>") (rd (skip_ws s) 0) = false -> parseredirs (S F) c s = POk c (skip_ws s).
Proof. intros H. cbn [parseredirs]. unfold pbind, p_peek, peek. rewrite H, andb_false_r. done. Qed.

Lemma redirs_ends R rest : valid_redirs R -> stop after_exec rest -> word_ends (show_redirs R ++ rest).
Proof.
  intros HR Hs. destruct R as [|[[f mode] fd] R]; [by apply stop_exec|]. apply Forall_cons in HR as [[Hf Hv] _].
  change (show_redirs ((f, mode, fd) :: R)) with ((redir_op mode ++ f) ++ show_redirs R). by destruct Hv as [[-> ->]|[[-> | ->] ->]].
Qed.

Lemma redirs_parse R c rest :
  valid_redirs R -> stop after_exec rest ->
  exists c', parses (fun F => parseredirs F c) (show_redirs R ++ rest) c' rest /\ cmd_map tok_text c' = wrap (cmd_map tok_text c) R.
Proof.
  revert c. induction R as [|[[f mode] fd] R IH]; intros c HR Hs.
  - exists c. split; [|done]. exists 1%nat. intros F HF. destruct F as [|F]; [lia|]. cbn [show_redirs mbind list_bind app].
    destruct (stop_exec rest Hs) as (E & _ & H). rewrite redirs_none by (by rewrite E). by rewrite E.
  - pose proof HR as HR'. apply Forall_cons in HR' as [[Hf Hv] HR'].
    change (show_redirs ((f, mode, fd) :: R)) with ((redir_op mode ++ f) ++ show_redirs R). rewrite <- !app_assoc.
    set (e := show_redirs R ++ rest). destruct (redir_token mode fd f e Hf Hv) as (t & Ep & Et & Ec).
    destruct (IH (REDIR c (f ++ e, e) mode fd) HR' Hs) as (c' & (F0 & Hc') & Htext). exists c'. split.
    + exists (S F0). intros F HF. destruct F as [|F]; [lia|]. cbn [parseredirs]. unfold pbind. rewrite Ep. cbn [negb]. rewrite Et.
      rewrite token_word by (done || by apply redirs_ends). cbn [fst snd negb]. change (chr "a" =? chr "a") with true. cbn [negb].
      rewrite Ec, redirs_skip. apply Hc'. lia.
    + rewrite Htext. cbn [cmd_map]. rewrite text_of_word. done.
Qed.

Lemma args_end F n c rest : stop after_exec rest -> parseargs (S F) n c rest = POk c rest.
Proof.
  intros Hs. destruct (stop_exec rest Hs) as (E & _ & _). cbn [parseargs]. unfold pbind. rewrite peek_spec by done. destruct rest as [|x rest].
  - done.
  - change (rd (x :: rest) 0) with x. assert (x <> 0) as Hx by (intros ->; done). change "|)&;"%string with after_exec. change (in_set (chars after_exec) x = true) in Hs.
    rewrite (proj2 (Z.eqb_neq x 0)) by done. cbn [negb andb]. by rewrite Hs.
Qed.

(** One argument, and what follows it. *)
Lemma args_step F n c w e :
  plain_word w -> word_ends e -> n + 1 < MAXARGS ->
  parseargs (S F) n c (32 :: w ++ e) = pbind (parseredirs F (add_arg c (w ++ e, e))) (parseargs F (n + 1)) e.
Proof.
  intros Hw He Hn. destruct (word_facts w Hw) as (x & w' & E & Hz & Hws & Hsym). cbn [parseargs]. unfold pbind at 1. unfold p_peek, peek.
  assert (skip_ws (32 :: w ++ e) = w ++ e) as -> by (rewrite E; by apply (skip_ws_cons x)).
  assert (in_set (chars "|)&;") (rd (w ++ e) 0) = false) as ->.
  { rewrite E. change (rd ((x :: w') ++ e) 0) with x. destruct (in_set (chars "|)&;") x) eqn:Ex; [|done]. apply in_set_elem in Ex.
    change (chars "|)&;") with [124; 41; 38; 59] in Ex. rewrite !elem_of_cons, elem_of_nil in Ex. by destruct Ex as [->|[->|[->|[->|[]]]]]. }
  rewrite andb_false_r. unfold pbind at 1. rewrite token_word by done. cbn [fst snd]. change (chr "a" =? 0) with false.
  change (chr "a" =? chr "a") with true. cbn [negb]. rewrite (proj2 (Z.leb_gt _ _)) by lia. apply pbind_skip, redirs_skip.
Qed.

Lemma args_parse ws w n argv R rest :
  Forall plain_word (w :: ws) -> n + Z.of_nat (length (w :: ws)) < MAXARGS -> valid_redirs R -> stop after_exec rest ->
  exists c', parses (fun F => parseargs F n (EXEC argv)) (show_args (w :: ws) ++ show_redirs R ++ rest) c' rest /\
    cmd_map tok_text c' = wrap (EXEC ((tok_text <$> argv) ++ w :: ws)) R.
Proof.
  revert w n argv. induction ws as [|w2 ws IH]; intros w n argv Hws Hn HR Hs; apply Forall_cons in Hws as [Hw Hws].
  - set (e := show_redirs R ++ rest). destruct (redirs_parse R (EXEC (argv ++ [(w ++ e, e)])) rest HR Hs) as (c' & (F0 & Hc') & Htext).
    exists c'. split.
    + exists (S (S F0)). intros F HF. destruct F as [|F]; [lia|]. cbn [show_args mbind list_bind app].
      change ((32 :: w) ++ []) with (32 :: w ++ []). rewrite app_nil_r. cbn [app]. fold e.
      rewrite args_step by (done || by apply redirs_ends || (cbn [length] in Hn; lia)). unfold pbind. cbn [add_arg].
      rewrite Hc' by lia. destruct F as [|F]; [lia|]. by apply args_end.
    + rewrite Htext. cbn [cmd_map]. rewrite fmap_app. cbn [fmap list_fmap]. rewrite text_of_word. done.
  - set (e := show_args (w2 :: ws) ++ show_redirs R ++ rest).
    destruct (IH w2 (n + 1) (argv ++ [(w ++ e, e)]) Hws ltac:(cbn [length] in *; lia) HR Hs) as (c' & (F0 & Hc') & Htext). exists c'. split.
    + exists (S (S F0)). intros F HF. destruct F as [|F]; [lia|].
      change (show_args (w :: w2 :: ws) ++ show_redirs R ++ rest) with (((32 :: w) ++ show_args (w2 :: ws)) ++ show_redirs R ++ rest).
      rewrite <- app_assoc. cbn [app]. fold e. rewrite args_step by (done || (cbn [length] in Hn; lia)). unfold pbind. cbn [add_arg].
      destruct F as [|F]; [lia|]. rewrite redirs_none, args_skip; [apply Hc'; lia|].
      apply Forall_cons in Hws as [Hw2 _]. destruct (word_facts w2 Hw2) as (x & w' & -> & Hz & Hx & Hsym).
      change e with (32 :: x :: (w' ++ show_args ws) ++ show_redirs R ++ rest). change (skip_ws (32 :: ?s)) with (skip_ws s). rewrite skip_ws_cons by done.
      change (rd (x :: ?s) 0) with x. destruct (in_set (chars "<>") x) eqn:Ex; [|done]. apply in_set_elem in Ex.
      change (chars "<>") with [60; 62] in Ex. rewrite !elem_of_cons, elem_of_nil in Ex. by destruct Ex as [->|[->|[]]].
    + rewrite Htext, fmap_app. cbn [fmap list_fmap]. rewrite text_of_word, <- app_assoc. done.
Qed.

(** ** The four levels *)

Definition after_pipe : string := ")&;".
Definition after_line : string := ")".

Lemma stop_mono S S' s : (forall c, in_set (chars S) c = true -> in_set (chars S') c = true) -> stop S s -> stop S' s.
Proof. intros H. destruct s as [|c s]; [done|]. apply H. Qed.
Lemma after_line_pipe s : stop after_line s -> stop after_pipe s.
Proof. apply stop_mono. intros c Hc%in_set_elem. apply list_elem_of_singleton in Hc as ->. done. Qed.
Lemma after_pipe_exec s : stop after_pipe s -> stop after_exec s.
Proof.
  apply stop_mono. intros c Hc%in_set_elem. change (chars after_pipe) with [41; 38; 59] in Hc. rewrite !elem_of_cons, elem_of_nil in Hc.
  by destruct Hc as [->|[->|[->|[]]]].
Qed.

Lemma pbind_ok {A B} (m : P A) (k : A -> P B) s a s' : m s = POk a s' -> pbind m k s = k a s'.
Proof. unfold pbind. by intros ->. Qed.
Lemma peek_yes S c s : in_set (chars S) c = true -> in_set symbols c = true -> p_peek S (c :: s) = POk true (c :: s).
Proof.
  intros H Hs. destruct (stop_symbol "<|>&;()" (c :: s)) as [E _]; [done|done|]. rewrite peek_spec by done. change (rd (c :: s) 0) with c.
  rewrite H. destruct (c =? 0) eqn:E0; [apply Z.eqb_eq in E0 as ->; done|done].
Qed.

(** A character that is not there is not seen. *)
Lemma peek_no S S' s :
  stop S s -> skip_ws s = s -> (forall c, in_set (chars S) c = true -> in_set (chars S') c = false) -> p_peek S' s = POk false s.
Proof. intros Hs E H. rewrite peek_spec by done. destruct s as [|c s]; [done|]. change (rd (c :: s) 0) with c. rewrite (H c Hs), andb_false_r. done. Qed.

Definition L3 (c : cmd text) : Prop := forall R rest, valid_redirs R -> stop after_exec rest ->
  exists c', parses parseexec (show 3 c ++ show_redirs R ++ rest) c' rest /\ cmd_map tok_text c' = wrap c R.
Definition L2 (c : cmd text) : Prop := forall rest, stop after_pipe rest ->
  exists c', parses parsepipe (show 2 c ++ rest) c' rest /\ cmd_map tok_text c' = c.
(** With the [&]s that follow still to be read. *)
Definition L1 (c : cmd text) : Prop := forall rest, stop after_pipe rest ->
  exists c' k F0, (forall F, (F0 <= F)%nat -> (k < F)%nat /\
    pbind (parsepipe F) (parsebacks F) (show 1 c ++ rest) = parsebacks (F - k) c' rest) /\ cmd_map tok_text c' = c.
Definition L0 (c : cmd text) : Prop := forall rest, stop after_line rest ->
  exists c', parses parseline (show 0 c ++ rest) c' rest /\ cmd_map tok_text c' = c.

Lemma L3_L2 c : L3 c -> show 2 c = show 3 c -> L2 c.
Proof.
  intros H E rest Hs. pose proof (after_pipe_exec rest Hs) as Hs'. destruct (H [] rest (Forall_nil_2 _) Hs') as (c' & (F0 & Hc) & Ht).
  exists c'. split; [|done]. exists (S F0). intros F HF. destruct F as [|F]; [lia|]. cbn [parsepipe]. unfold pbind at 1. rewrite E.
  change (show_redirs [] ++ rest) with rest in Hc. rewrite Hc by lia. unfold pbind. rewrite (peek_no after_pipe); [done|done|by apply stop_exec|].
  intros x Hx%in_set_elem. change (chars after_pipe) with [41; 38; 59] in Hx. rewrite !elem_of_cons, elem_of_nil in Hx.
  by destruct Hx as [->|[->|[->|[]]]].
Qed.
Lemma L2_L1 c : L2 c -> show 1 c = show 2 c -> L1 c.
Proof.
  intros H E rest Hs. destruct (H rest Hs) as (c' & (F0 & Hc) & Ht). exists c', 0%nat, (S F0). split; [|done]. intros F HF. split; [lia|].
  unfold pbind. rewrite E, Hc by lia. by rewrite Nat.sub_0_r.
Qed.
Lemma backs_end F c rest S :
  stop S rest -> skip_ws rest = rest -> (forall x, in_set (chars S) x = true -> in_set (chars "&") x = false) ->
  (0 < F)%nat -> parsebacks F c rest = POk c rest.
Proof. intros Hs E HS HF. destruct F as [|F]; [lia|]. cbn [parsebacks]. unfold pbind. by rewrite (peek_no S). Qed.
Lemma L1_L0 c : L1 c -> show 0 c = show 1 c -> L0 c.
Proof.
  intros H E rest Hs. pose proof (after_line_pipe rest Hs) as Hs'. destruct (stop_exec rest (after_pipe_exec rest Hs')) as (Esk & _ & _).
  destruct (H rest Hs') as (c' & k & F0 & Hc & Ht). exists c'. split; [|done]. exists (S F0). intros F HF. destruct F as [|F]; [lia|].
  destruct (Hc F ltac:(lia)) as [Hk HF']. cbn [parseline].
  assert (forall K : cmd tok -> P (cmd tok), pbind (parsepipe F) (fun c0 => pbind (parsebacks F c0) K) (show 0 c ++ rest) = K c' rest) as HK.
  { intros K. rewrite E. unfold pbind in *. destruct (parsepipe F (show 1 c ++ rest)) as [c1 s1|?|].
    - rewrite HF', (backs_end (F - k) c' rest after_line); [done|done|done| |lia]. intros x Hx%in_set_elem. apply list_elem_of_singleton in Hx as ->. done.
    - rewrite (backs_end (F - k) c' rest after_line) in HF'; [done|done|done| |lia]. intros x Hx%in_set_elem. apply list_elem_of_singleton in Hx as ->. done.
    - rewrite (backs_end (F - k) c' rest after_line) in HF'; [done|done|done| |lia]. intros x Hx%in_set_elem. apply list_elem_of_singleton in Hx as ->. done. }
  rewrite HK. unfold pbind. rewrite (peek_no after_line); [done|done|done|]. intros x Hx%in_set_elem. apply list_elem_of_singleton in Hx as ->. done.
Qed.
Lemma L0_L3 c : L0 c -> show 3 c = chars "(" ++ show 0 c ++ chars ")" -> L3 c.
Proof.
  intros H E R rest HR Hs. destruct (H (41 :: show_redirs R ++ rest)) as (c0 & (F0 & Hc0) & Ht0); [done|].
  destruct (redirs_parse R c0 rest HR Hs) as (c' & (F1 & Hc') & Ht). exists c'. split; [|by rewrite Ht, Ht0].
  exists (S (S (F0 + F1))). intros F HF. destruct F as [|[|F]]; [lia|lia|]. rewrite E. change (chars "(") with [40]. change (chars ")") with [41].
  rewrite <- !app_assoc. cbn [app parseexec]. rewrite (pbind_ok _ _ _ _ _ (peek_yes "(" 40 _ eq_refl eq_refl)). cbn [parseblock].
  rewrite (pbind_ok _ _ _ _ _ (peek_yes "(" 40 _ eq_refl eq_refl)). cbn [negb].
  rewrite (pbind_ok _ _ _ _ _ (token_symbol 40 _ eq_refl)).
  rewrite (pbind_ok (parseline F) _ _ c0 (41 :: show_redirs R ++ rest)) by (rewrite line_skip; apply Hc0; lia).
  rewrite (pbind_ok _ _ _ _ _ (peek_yes ")" 41 _ eq_refl eq_refl)). cbn [negb].
  rewrite (pbind_ok _ _ _ _ _ (token_symbol 41 _ eq_refl)), redirs_skip. apply Hc'. lia.
Qed.

(** ** Each kind of command at its own level *)

Lemma exec_L3 argv : valid (EXEC argv) -> L3 (EXEC argv).
Proof.
  intros [Hw Hn] R rest HR Hs. change (show 3 (EXEC argv)) with (show_args argv).
  assert (forall s, in_set (chars "(") (rd (skip_ws s) 0) = false -> forall F,
    parseexec (S F) s = pbind (parseredirs F (EXEC [])) (parseargs F 0) s) as Hstart.
  { intros s H F. cbn [parseexec]. unfold pbind at 1. unfold p_peek, peek. rewrite H, andb_false_r. apply pbind_skip, redirs_skip. }
  destruct argv as [|w ws].
  - cbn [show_args mbind list_bind app]. destruct (redirs_parse R (EXEC []) rest HR Hs) as (c' & (F0 & Hc') & Ht).
    exists c'. split; [|done]. exists (S (S F0)). intros F HF. destruct F as [|[|F]]; [lia|lia|]. rewrite Hstart.
    + rewrite (pbind_ok _ _ _ _ _ (Hc' (S F) ltac:(lia))). by apply args_end.
    + destruct R as [|[[f m] fd] R].
      * destruct (stop_exec rest Hs) as (E & _ & _). change (show_redirs [] ++ rest) with rest. rewrite E. destruct rest as [|x rest]; [done|].
        apply in_set_elem in Hs. change (chars after_exec) with [124; 41; 38; 59] in Hs. rewrite !elem_of_cons, elem_of_nil in Hs.
        by destruct Hs as [->|[->|[->|[->|[]]]]].
      * apply Forall_cons in HR as [[_ Hv] _]. by destruct Hv as [[-> ->]|[[-> | ->] ->]].
  - destruct (args_parse ws w 0 [] R rest Hw Hn HR Hs) as (c' & (F0 & Hc') & Ht). exists c'. split; [|done].
    exists (S (S F0)). intros F HF. destruct F as [|[|F]]; [lia|lia|]. apply Forall_cons in Hw as [Hw _].
    destruct (word_facts w Hw) as (x & w' & Ew & Hz & Hx & Hsym).
    assert (skip_ws (show_args (w :: ws) ++ show_redirs R ++ rest) = (w ++ show_args ws) ++ show_redirs R ++ rest) as Esk.
    { rewrite Ew. by apply (skip_ws_cons x). }
    assert (rd (skip_ws (show_args (w :: ws) ++ show_redirs R ++ rest)) 0 = x) as Erd by (by rewrite Esk, Ew).
    rewrite Hstart.
    + rewrite (pbind_ok _ _ _ (EXEC []) (skip_ws (show_args (w :: ws) ++ show_redirs R ++ rest))).
      * rewrite args_skip. apply Hc'. lia.
      * apply redirs_none. rewrite Erd. destruct (in_set (chars "<>") x) eqn:Ex; [|done]. apply in_set_elem in Ex.
        change (chars "<>") with [60; 62] in Ex. rewrite !elem_of_cons, elem_of_nil in Ex. by destruct Ex as [->|[->|[]]].
    + rewrite Erd. destruct (in_set (chars "(") x) eqn:Ex; [|done]. apply in_set_elem in Ex. apply list_elem_of_singleton in Ex as ->. done.
Qed.

Lemma pipe_L2 l r : L3 l -> L2 r -> L2 (PIPE l r).
Proof.
  intros Hl Hr rest Hs. destruct (Hr rest Hs) as (r' & (F1 & Hr') & Htr).
  destruct (Hl [] (124 :: show 2 r ++ rest)) as (l' & (F0 & Hl') & Htl); [constructor|done|].
  exists (PIPE l' r'). split; [|by cbn [cmd_map]; rewrite Htl, Htr]. exists (S (F0 + F1)). intros F HF. destruct F as [|F]; [lia|].
  change (show 2 (PIPE l r) ++ rest) with ((show 3 l ++ 124 :: show 2 r) ++ rest). rewrite <- app_assoc. cbn [app parsepipe].
  rewrite (pbind_ok _ _ _ _ _ (Hl' F ltac:(lia))). rewrite (pbind_ok _ _ _ _ _ (peek_yes "|" 124 _ eq_refl eq_refl)). cbn [negb].
  rewrite (pbind_ok _ _ _ _ _ (token_symbol 124 _ eq_refl)). unfold pbind. rewrite pipe_skip, Hr' by lia. done.
Qed.

Lemma back_L1 c : L1 c -> L1 (BACK c).
Proof.
  intros H rest Hs. destruct (H (38 :: rest)) as (c' & k & F0 & Hc & Ht); [done|]. destruct (stop_exec rest (after_pipe_exec rest Hs)) as (E & _ & _).
  exists (BACK c'), (S k), (S (S F0)). split; [|by cbn [cmd_map]; rewrite Ht]. intros F HF.
  assert (exists F', (F = S F' /\ F0 <= F')%nat) as (F' & -> & HF'); [exists (pred F); lia|].
  destruct (Hc (S F') ltac:(lia)) as [Hk Hc']. destruct (Hc F' HF') as [Hk' _]. split; [lia|].
  change (show 1 (BACK c) ++ rest) with ((show 1 c ++ [38]) ++ rest). rewrite <- app_assoc. cbn [app]. rewrite Hc'.
  assert (exists m, (S F' - k = S m /\ S F' - S k = m)%nat) as (m & -> & ->); [exists (F' - k)%nat; lia|]. cbn [parsebacks].
  rewrite (pbind_ok _ _ _ _ _ (peek_yes "&" 38 _ eq_refl eq_refl)). cbn [negb].
  rewrite (pbind_ok _ _ _ _ _ (token_symbol 38 _ eq_refl)). by rewrite E.
Qed.

Lemma list_L0 l r : L1 l -> L0 r -> L0 (LIST l r).
Proof.
  intros Hl Hr rest Hs. destruct (Hr rest Hs) as (r' & (F1 & Hr') & Htr). destruct (Hl (59 :: show 0 r ++ rest)) as (l' & k & F0 & Hl' & Htl); [done|].
  exists (LIST l' r'). split; [|by cbn [cmd_map]; rewrite Htl, Htr]. exists (S (F0 + F1)). intros F HF. destruct F as [|F]; [lia|].
  destruct (Hl' F ltac:(lia)) as [Hk HF']. change (show 0 (LIST l r) ++ rest) with ((show 1 l ++ 59 :: show 0 r) ++ rest). rewrite <- app_assoc. cbn [app parseline].
  assert (parsebacks (F - k) l' (59 :: show 0 r ++ rest) = POk l' (59 :: show 0 r ++ rest)) as Eb.
  { apply (backs_end _ _ _ ";"); [done|done| |lia]. intros x Hx%in_set_elem. apply list_elem_of_singleton in Hx as ->. done. }
  rewrite Eb in HF'. unfold pbind in HF' |- * at 1. destruct (parsepipe F (show 1 l ++ 59 :: show 0 r ++ rest)) as [c1 s1|?|]; [|done..].
  rewrite (pbind_ok _ _ _ _ _ HF'). rewrite (pbind_ok _ _ _ _ _ (peek_yes ";" 59 _ eq_refl eq_refl)). cbn [negb].
  rewrite (pbind_ok _ _ _ _ _ (token_symbol 59 _ eq_refl)). unfold pbind. rewrite line_skip, Hr' by lia. done.
Qed.

Lemma levels c : valid c -> L0 c /\ L1 c /\ L2 c /\ L3 c.
Proof.
  induction c as [argv|c IH f m fd|l IHl r IHr|l IHl r IHr|c IH]; intros Hv.
  - pose proof (exec_L3 argv Hv) as H3. pose proof (L3_L2 _ H3 eq_refl) as H2. pose proof (L2_L1 _ H2 eq_refl) as H1.
    split_and!; [by apply L1_L0|done..].
  - assert (L3 (REDIR c f m fd)) as H3.
    { destruct Hv as (Hc & Hf & Hr). destruct (IH Hc) as (_ & _ & _ & H3). intros R rest HR Hs.
      destruct (H3 ((f, m, fd) :: R) rest) as (c' & Hc' & Ht); [by constructor|done|]. exists c'. split; [|done].
      change (show 3 (REDIR c f m fd)) with (show 3 c ++ redir_op m ++ f). rewrite <- app_assoc.
      change (show_redirs ((f, m, fd) :: R)) with ((redir_op m ++ f) ++ show_redirs R) in Hc'. by rewrite <- (app_assoc (redir_op m ++ f)) in Hc'. }
    pose proof (L3_L2 _ H3 eq_refl) as H2. pose proof (L2_L1 _ H2 eq_refl) as H1. split_and!; [by apply L1_L0|done..].
  - destruct Hv as [Hl Hr]. destruct (IHl Hl) as (_ & _ & _ & Hl3), (IHr Hr) as (_ & _ & Hr2 & _).
    pose proof (pipe_L2 l r Hl3 Hr2) as H2. pose proof (L2_L1 _ H2 eq_refl) as H1. pose proof (L1_L0 _ H1 eq_refl) as H0.
    split_and!; [done|done|done|by apply L0_L3].
  - destruct Hv as [Hl Hr]. destruct (IHl Hl) as (_ & Hl1 & _ & _), (IHr Hr) as (Hr0 & _ & _ & _).
    pose proof (list_L0 l r Hl1 Hr0) as H0. pose proof (L0_L3 _ H0 eq_refl) as H3. pose proof (L3_L2 _ H3 eq_refl) as H2.
    split_and!; [done|by apply L2_L1|done|done].
  - destruct (IH Hv) as (_ & Hc1 & _ & _). pose proof (back_L1 c Hc1) as H1. pose proof (L1_L0 _ H1 eq_refl) as H0.
    pose proof (L0_L3 _ H0 eq_refl) as H3. pose proof (L3_L2 _ H3 eq_refl) as H2. by split_and!.
Qed.

(** ** The fuel [parsecmd] gives is enough *)

(** [m'] agrees with [m] wherever [m] has enough fuel. *)
Definition ple {A} (m m' : P A) : Prop := forall s, m s <> PNoFuel -> m' s = m s.
#[export] Instance ple_refl {A} : Reflexive (@ple A).
Proof. by intros m s. Qed.
Lemma ple_bind {A B} (m m' : P A) (k k' : A -> P B) : ple m m' -> (forall a, ple (k a) (k' a)) -> ple (pbind m k) (pbind m' k').
Proof.
  intros Hm Hk s H. unfold pbind in *. specialize (Hm s). destruct (m s) as [a s1|msg|]; [|by rewrite Hm|done].
  rewrite Hm by done. by apply Hk.
Qed.
Lemma ple_nofuel {A} (m : P A) : ple pnofuel m.
Proof. by intros s []. Qed.

Lemma redirs_more F c : ple (parseredirs F c) (parseredirs (S F) c).
Proof.
  revert c. induction F as [|F IH]; intros c; [apply ple_nofuel|]. cbn [parseredirs]. apply ple_bind; [done|intros b]. destruct (negb b); [done|].
  apply ple_bind; [done|intros t]. apply ple_bind; [done|intros f]. destruct (negb _); [done|]. apply IH.
Qed.
Lemma args_more F n c : ple (parseargs F n c) (parseargs (S F) n c).
Proof.
  revert n c. induction F as [|F IH]; intros n c; [apply ple_nofuel|]. cbn [parseargs]. apply ple_bind; [done|intros b]. destruct b; [done|].
  apply ple_bind; [done|intros t]. destruct (_ =? 0); [done|]. destruct (negb _); [done|]. destruct (_ <=? _); [done|].
  apply ple_bind; [apply redirs_more|intros c'; apply IH].
Qed.
Lemma backs_more F c : ple (parsebacks F c) (parsebacks (S F) c).
Proof.
  revert c. induction F as [|F IH]; intros c; [apply ple_nofuel|]. cbn [parsebacks]. apply ple_bind; [done|intros b]. destruct (negb b); [done|].
  apply ple_bind; [done|intros t]. apply IH.
Qed.
Lemma parse_more F :
  ple (parseline F) (parseline (S F)) /\ ple (parsepipe F) (parsepipe (S F)) /\
  ple (parseexec F) (parseexec (S F)) /\ ple (parseblock F) (parseblock (S F)).
Proof.
  induction F as [|F (IHl & IHp & IHe & IHb)]; [split_and!; apply ple_nofuel|]. split_and!.
  - cbn [parseline]. apply ple_bind; [done|intros c]. apply ple_bind; [apply backs_more|intros c2]. apply ple_bind; [done|intros b].
    destruct (negb b); [done|]. apply ple_bind; [done|intros t]. by apply ple_bind.
  - cbn [parsepipe]. apply ple_bind; [done|intros c]. apply ple_bind; [done|intros b]. destruct (negb b); [done|].
    apply ple_bind; [done|intros t]. by apply ple_bind.
  - cbn [parseexec]. apply ple_bind; [done|intros b]. destruct b; [done|]. apply ple_bind; [apply redirs_more|intros c; apply args_more].
  - cbn [parseblock]. apply ple_bind; [done|intros b]. destruct (negb b); [done|]. apply ple_bind; [done|intros t]. apply ple_bind; [done|intros c].
    apply ple_bind; [done|intros b']. destruct (negb b'); [done|]. apply ple_bind; [done|intros t']. apply redirs_more.
Qed.
Lemma line_more F F' s : (F <= F')%nat -> parseline F s <> PNoFuel -> parseline F' s = parseline F s.
Proof.
  intros HF Hs. induction HF as [|F' HF IH]; [done|]. rewrite <- IH. apply (proj1 (parse_more F')). by rewrite IH.
Qed.

Lemma parseline_fixed line c s : parses parseline line c s -> parseline (parse_fuel line) line = POk c s.
Proof.
  intros (F0 & H). rewrite <- (line_more (parse_fuel line) (F0 + parse_fuel line)); [apply H; lia|lia|].
  pose proof (proj1 (parse_ok line (parse_fuel line) line ltac:(done)) ltac:(reflexivity)) as Hok. unfold pok in Hok.
  by destruct (parseline _ line).
Qed.

(** ** Reading back *)

Lemma show_nonul lv c : valid c -> Forall (fun x => x <> 0) (show lv c).
Proof.
  assert (forall b s, Forall (fun x => x <> 0) s -> Forall (fun x => x <> 0) (paren b s)) as Hparen.
  { intros [] s Hs; [|done]. cbn [paren]. rewrite !Forall_app. by split_and!; [repeat constructor|..|repeat constructor]. }
  revert lv. induction c as [argv|c IH f m fd|l IHl r IHr|l IHl r IHr|c IH]; intros lv Hv; cbn [show].
  - destruct Hv as [Hw _]. induction Hw as [|w ws [_ Hw] _ IHw]; [constructor|].
    change (show_args (w :: ws)) with ((32 :: w) ++ show_args ws). apply Forall_app. split; [by constructor|done].
  - destruct Hv as (Hc & [_ Hf] & Hr). rewrite !Forall_app. split_and!; [by apply IH| |done]. by destruct Hr as [[-> ->]|[[-> | ->] ->]]; repeat constructor.
  - destruct Hv. apply Hparen. rewrite !Forall_app. split_and!; [by apply IHl|by repeat constructor|by apply IHr].
  - destruct Hv. apply Hparen. rewrite !Forall_app. split_and!; [by apply IHl|by repeat constructor|by apply IHr].
  - apply Hparen. rewrite !Forall_app. split; [by apply IH|by repeat constructor].
Qed.

(** C20: the parser reads every command back from its printed form, with
    parentheses where they are needed: the structure of pipes, lists,
    background commands and redirections, the order of the arguments and the
    names are all recovered, for any nesting. *)
Theorem parse_show c :
  valid c -> exists c' buf, parsecmd (show 0 c) = POk (c', buf) [] /\ command (show 0 c) buf c' = c.
Proof.
  intros Hv. destruct (levels c Hv) as (H0 & _). destruct (H0 [] I) as (c' & Hp & Ht). rewrite app_nil_r in Hp.
  exists c', (nulterminate (show 0 c) c' (show 0 c)).
  assert (parsecmd (show 0 c) = POk (c', nulterminate (show 0 c) c' (show 0 c)) []) as E.
  { unfold parsecmd. rewrite (parseline_fixed _ _ _ Hp). done. }
  split; [done|]. unfold command. etransitivity; [|exact Ht]. apply cmd_map_ext. intros t Htk. rewrite nulterminate_toks.
  pose proof (proj1 (parse_ok (show 0 c) (parse_fuel (show 0 c)) (show 0 c) ltac:(done)) ltac:(reflexivity)) as Hok.
  unfold pok in Hok. rewrite (parseline_fixed _ _ _ Hp) in Hok. apply word_whole; [apply Hok|done|by apply show_nonul].
Qed.

(** The first pipeline of a list in the background, with a block and a
    redirection: [((a | (b ; c) > f) &) ; d]. *)
Lemma parse_show_witness :
  let c := LIST (BACK (PIPE (EXEC [chars "a"]) (REDIR (LIST (EXEC [chars "b"]) (EXEC [chars "c"])) (chars "f")
             (Z.lor (Z.lor O_WRONLY O_CREATE) O_TRUNC) 1))) (EXEC [chars "d"]) in
  show 0 c = chars " a|( b; c)>f&; d" /\
  exists c' buf, parsecmd (show 0 c) = POk (c', buf) [] /\ command (show 0 c) buf c' = c.
Proof.
  split; [by vm_compute|]. apply parse_show. cbn [valid].
  assert (forall w : string, bool_decide (plain_word (chars w)) = true -> plain_word (chars w)) as Hw by (intros w H; by apply bool_decide_eq_true in H).
  split_and!; try (apply Forall_singleton, Hw; by vm_compute); try (by vm_compute); try (apply Hw; by vm_compute).
  right. split; [by left|done].
Defined.
