(* ===== verification/ShRun.v ===== *)
(** * Running commands (user/sh.c)

    [runcmd] and the shell's main loop, over the system call interface.  A
    theorem follows one process through every fork. *)

From Stdlib Require Import String.
From S2P Require Import Prelude Param Str Printf User UWorld ULib Sh.
#[local] Open Scope user_scope.

Definition line_end : string := String (Ascii.ascii_of_nat 10) "".

Section run.
Context {W : Type} `{!Sys W}.

Definition panic (s : list Z) : U W unit := fprintf 2 ("%s" ++ line_end) [AStr (Some s)] ;; u_exit 1.
Definition fork1 : U W Z :=
  pid <- u_fork ;;
  if pid =? -1 then panic (chars "fork") ;; uret pid else uret pid.

Fixpoint runcmd (c : cmd (list Z)) : U W unit :=
  match c with
  | EXEC [] => u_exit 1
  | EXEC ((p :: _) as argv) =>
      u_exec p argv ;;
      fprintf 2 ("exec %s failed" ++ line_end) [AStr (Some p)] ;;
      u_exit 0
  | REDIR c file mode fd =>
      u_close fd ;;
      r <- u_open file mode ;;
      if r <? 0 then fprintf 2 ("open %s failed" ++ line_end) [AStr (Some file)] ;; u_exit 1 else
      runcmd c ;;
      u_exit 0
  | LIST l r =>
      pid <- fork1 ;;
      (when (pid =? 0) do runcmd l) ;;
      u_wait ;;
      runcmd r ;;
      u_exit 0
  | PIPE l r =>
      res <- u_pipe ;;
      let '(ok, p0, p1) := res in
      (when (ok <? 0) do panic (chars "pipe")) ;;
      pid <- fork1 ;;
      (when (pid =? 0) do (u_close 1 ;; u_dup p1 ;; u_close p0 ;; u_close p1 ;; runcmd l)) ;;
      pid <- fork1 ;;
      (when (pid =? 0) do (u_close 0 ;; u_dup p0 ;; u_close p0 ;; u_close p1 ;; runcmd r)) ;;
      u_close p0 ;;
      u_close p1 ;;
      u_wait ;;
      u_wait ;;
      u_exit 0
  | BACK c =>
      pid <- fork1 ;;
      (when (pid =? 0) do runcmd c) ;;
      u_exit 0
  end.

(** [getcmd]: the line read, [None] at the end of the input. *)
Definition getcmd (nbuf : Z) : U W (option (list Z)) :=
  u_write 2 (chars "$ ") ;;
  buf <- gets nbuf ;;
  uret (if rd buf 0 =? 0 then None else Some buf).

(** A line of input in the child process. *)
Definition run_line (line : list Z) : U W unit :=
  match parsecmd (cstr line) with
  | POk (c, buf) _ => runcmd (command (cstr line) buf c)
  | PPanic msg => panic msg
  | PNoFuel => u_nofuel
  end.

Fixpoint skip_blanks (s : list Z) : list Z :=
  match s with
  | [] => []
  | c :: s' => if (c =? 32) || (c =? 9) then skip_blanks s' else s
  end.

(** The body of the main loop for one line. *)
Definition shell_line (buf : list Z) : U W unit :=
  let cmd := skip_blanks buf in
  if rd cmd 0 =? 10 then uret tt else
  if (rd cmd 0 =? chr "c") && (rd cmd 1 =? chr "d") && (rd cmd 2 =? 32) then
    let dir := drop 3 (take (Z.to_nat (strlen cmd - 1)) cmd) in
    r <- u_chdir dir ;;
    (when (r <? 0) do fprintf 2 ("cannot cd %s" ++ line_end) [AStr (Some dir)])
  else
    pid <- fork1 ;;
    (when (pid =? 0) do run_line cmd) ;;
    u_wait ;;
    uret tt.

Fixpoint shell_loop (fuel : nat) : U W unit :=
  match fuel with
  | O => u_nofuel
  | S fuel' =>
      l <- getcmd 100 ;;
      match l with
      | None => uret tt
      | Some buf => shell_line buf ;; shell_loop fuel'
      end
  end.

(** Three descriptors are opened before the first command. *)
Fixpoint open_console (n : nat) : U W unit :=
  match n with
  | O => u_nofuel
  | S n' =>
      fd <- u_open (chars "console") O_RDWR ;;
      if fd <? 0 then uret tt else
      if 3 <=? fd then u_close fd ;; uret tt else open_console n'
  end.
Definition sh_main (fuel : nat) : U W unit :=
  open_console 4 ;;
  shell_loop fuel ;;
  u_exit 0.
End run.

(** ** What the system calls do to a process's descriptors *)

Section table.
Context {O : Type}.
Implicit Types (m : gmap Z O).

Definition least m (r : Z) : Prop := 0 <= r /\ m !! r = None /\ forall i, 0 <= i < r -> is_Some (m !! i).
Definition full m : Prop := forall i, 0 <= i < 16 -> is_Some (m !! i).
End table.

(** [m] returns, leaves the descriptors alone and adds [evs] to the history. *)
Definition quiet_call {W O A} (fdt : W -> gmap Z O) (hist : W -> list (event O)) (m : U W A) (evs : A -> list (event O)) (w : W) : Prop :=
  exists a w', m w = URet a w' /\ fdt w' = fdt w /\ hist w' = hist w ++ evs a.

(** [file_obj o f mode]: [o] is the file [f] opened with [mode];
    [pipe_pair r w]: the two ends of one pipe.  [hist] is the history of the
    process followed. *)
Class FdTable {W} `{!Sys W} {O : Type} (fdt : W -> gmap Z O) (hist : W -> list (event O))
    (file_obj : O -> list Z -> Z -> Prop) (pipe_pair : O -> O -> Prop) := {
  fd_fork w : quiet_call fdt hist u_fork (fun pid => [EFork pid]) w;
  fd_wait w : quiet_call fdt hist u_wait (fun _ => [EWait (fdt w)]) w;
  fd_write fd bs w : quiet_call fdt hist (u_write fd bs) (fun _ => []) w;
  fd_exit n w : u_exit (A := unit) n w = UExit n w;
  fd_exec p a w : u_exec p a w = UExec p a w \/ quiet_call fdt hist (u_exec p a) (fun _ => [EFail]) w;
  fd_close fd w : exists r w', u_close fd w = URet r w' /\ fdt w' = delete fd (fdt w) /\ hist w' = hist w;
  fd_open f mode w : exists r w', u_open f mode w = URet r w' /\
    (r < 0 /\ fdt w' = fdt w /\ hist w' = hist w ++ [EFail] \/
     exists o, file_obj o f mode /\ least (fdt w) r /\ fdt w' = <[r := o]> (fdt w) /\ hist w' = hist w);
  fd_dup fd o w : fdt w !! fd = Some o -> exists r w', u_dup fd w = URet r w' /\
    (r < 0 /\ full (fdt w) \/ least (fdt w) r /\ fdt w' = <[r := o]> (fdt w) /\ hist w' = hist w);
  fd_pipe w : exists r p0 p1 w', u_pipe w = URet (r, p0, p1) w' /\
    (r < 0 /\ fdt w' = fdt w /\ hist w' = hist w ++ [EFail] \/
     0 <= r /\ exists o0 o1, pipe_pair o0 o1 /\ least (fdt w) p0 /\ least (<[p0 := o0]> (fdt w)) p1 /\
       fdt w' = <[p1 := o1]> (<[p0 := o0]> (fdt w)) /\ hist w' = hist w)
}.

(** ** The meaning of a command

    [runs c m evs out]: a process that runs [c] with the open files [m] and sees
    the events [evs] comes to [out]: it becomes a program, with its arguments
    and open files, or it ends.  A fork that returns 0 sends it into the part
    the child runs, any other result into what the parent does; the results of
    all forks together give every process of the command. *)

Inductive ending (O : Type) := Becomes (argv : list (list Z)) (m : gmap Z O) | Ends (status : Z).
Arguments Becomes {O} argv m.
Arguments Ends {O} status.

Section meaning.
Context {O : Type} (file_obj : O -> list Z -> Z -> Prop) (pipe_pair : O -> O -> Prop).

Inductive runs : cmd (list Z) -> gmap Z O -> list (event O) -> ending O -> Prop :=
| r_exec p argv m : runs (EXEC (p :: argv)) m [] (Becomes (p :: argv) m)
| r_empty m : runs (EXEC []) m [] (Ends 1)
| r_redir c f mode fd x m evs out : file_obj x f mode -> runs c (<[fd := x]> m) evs out -> runs (REDIR c f mode fd) m evs out
| r_list_left l r m evs out : runs l m evs out -> runs (LIST l r) m (EFork 0 :: evs) out
| r_list_right l r pid m evs out : pid <> 0 -> runs r m evs out -> runs (LIST l r) m (EFork pid :: EWait m :: evs) out
| r_pipe_left l r po pi m evs out : pipe_pair po pi -> runs l (<[1 := pi]> m) evs out -> runs (PIPE l r) m (EFork 0 :: evs) out
| r_pipe_right l r po pi pid m evs out : pipe_pair po pi -> pid <> 0 -> runs r (<[0 := po]> m) evs out ->
    runs (PIPE l r) m (EFork pid :: EFork 0 :: evs) out
| r_pipe_parent l r pid pid' m : pid <> 0 -> pid' <> 0 -> runs (PIPE l r) m [EFork pid; EFork pid'; EWait m; EWait m] (Ends 0)
| r_back_child c m evs out : runs c m evs out -> runs (BACK c) m (EFork 0 :: evs) out
| r_back_parent c pid m : pid <> 0 -> runs (BACK c) m [EFork pid] (Ends 0).
End meaning.

(** A system call failed. *)
Definition failed {O} (evs : list (event O)) : Prop := EFail ∈ evs \/ EFork (-1) ∈ evs.

Lemma failed_app {O} (evs evs' : list (event O)) : failed evs' -> failed (evs ++ evs').
Proof. unfold failed. rewrite !elem_of_app. tauto. Qed.

(** Redirections are of standard input or output, as the parser makes them. *)
Fixpoint std_redirs (c : cmd (list Z)) : Prop :=
  match c with
  | EXEC _ => True
  | REDIR c _ _ fd => std_redirs c /\ (fd = 0 \/ fd = 1)
  | PIPE l r | LIST l r => std_redirs l /\ std_redirs r
  | BACK c => std_redirs c
  end.

Section run_correct.
Context {W : Type} `{!Sys W} {O : Type} (fdt : W -> gmap Z O) (hist : W -> list (event O)).
Context (file_obj : O -> list Z -> Z -> Prop) (pipe_pair : O -> O -> Prop) `{!FdTable fdt hist file_obj pipe_pair}.
Context (X : Z -> W -> Prop) (E : list Z -> list (list Z) -> W -> Prop).

(** [okrun m Q w]: [m] returns with [Q], exits as [X] allows, or becomes a
    program as [E] allows. *)
Definition okrun {A} (m : U W A) (Q : A -> W -> Prop) (w : W) : Prop := uwp m Q X E w.

Lemma run_bind {A B} (m : U W A) (k : A -> U W B) Q w : okrun m (fun a w' => okrun (k a) Q w') w -> okrun (ubind m k) Q w.
Proof. apply uwp_bind. Qed.
Lemma run_quiet {A} (m : U W A) evs (Q : A -> W -> Prop) w :
  quiet_call fdt hist m evs w -> (forall a w', fdt w' = fdt w -> hist w' = hist w ++ evs a -> Q a w') -> okrun m Q w.
Proof. intros (a & w' & Em & Ew & Eh) HQ. unfold okrun, uwp. rewrite Em. by apply HQ. Qed.
Lemma run_exit n (Q : unit -> W -> Prop) w : X n w -> okrun (u_exit n) Q w.
Proof. unfold okrun, uwp. by rewrite fd_exit. Qed.

(** Printing leaves the table and the history alone. *)
Definition calm (w w' : W) : Prop := fdt w' = fdt w /\ hist w' = hist w.
Lemma calm_trans w1 w2 w3 : calm w1 w2 -> calm w2 w3 -> calm w1 w3.
Proof. unfold calm. intuition congruence. Qed.

Lemma run_putc fd c (Q : unit -> W -> Prop) w : (forall w', calm w w' -> Q tt w') -> okrun (putc fd c) Q w.
Proof.
  intros HQ. apply run_bind, (run_quiet _ _ _ _ (fd_write fd [u8 c] w)). intros _ w1 E1 E2. apply HQ. split; [done|]. by rewrite E2, app_nil_r.
Qed.
Lemma run_putcs fd cs (Q : unit -> W -> Prop) w : (forall w', calm w w' -> Q tt w') -> okrun (putcs fd cs) Q w.
Proof.
  revert w. induction cs as [|c cs IH]; intros w HQ; cbn [putcs]; [by apply HQ|].
  apply run_bind, run_putc. intros w1 C1. apply IH. intros w2 C2. apply HQ. by eapply calm_trans.
Qed.
Lemma run_convert fd c0 c1 c2 a (Q : unit -> W -> Prop) w :
  (forall w', calm w w' -> Q tt w') -> okrun (fst (fst (convert fd c0 c1 c2 a))) Q w.
Proof.
  intros HQ. unfold convert. repeat case_match; cbn [fst]; try (by apply run_putcs); try (by apply run_putc).
  apply run_bind, run_putc. intros w1 C1. apply run_putc. intros w2 C2. apply HQ. by eapply calm_trans.
Qed.
Lemma run_vprintf_loop fuel fd pct fmt a (Q : unit -> W -> Prop) w :
  (length fmt < fuel)%nat -> (forall w', calm w w' -> Q tt w') -> okrun (vprintf_loop fuel fd pct fmt a) Q w.
Proof.
  revert pct fmt a w. induction fuel as [|fuel IH]; intros pct fmt a w Hf HQ; [lia|]. cbn [vprintf_loop].
  destruct (rd fmt 0 =? 0) eqn:E0; [by apply HQ|]. destruct fmt as [|c fmt]; [done|]. cbn [length] in Hf.
  destruct pct; cbn [negb].
  - match goal with |- context [convert fd ?c0 ?c1 ?c2 a] =>
      pose proof (run_convert fd c0 c1 c2 a (fun _ w' => calm w w') w (fun w' H => H)) as Hc end.
    destruct (convert _ _ _ _ _) as [[act k] a']. cbn [fst] in Hc. apply run_bind. eapply uwp_mono; [exact Hc|]. intros [] w1 C1.
    apply IH; [rewrite length_drop; cbn [length]; lia|]. intros w2 C2. apply HQ. by eapply calm_trans.
  - destruct (rd (c :: fmt) 0 =? chr "%").
    + apply IH; [cbn [drop]; rewrite drop_0; lia|done].
    + apply run_bind, run_putc. intros w1 C1. apply IH; [cbn [drop]; rewrite drop_0; lia|]. intros w2 C2. apply HQ. by eapply calm_trans.
Qed.
Lemma run_fprintf fd fmt a (Q : unit -> W -> Prop) w : (forall w', calm w w' -> Q tt w') -> okrun (fprintf fd fmt a) Q w.
Proof. intros HQ. apply run_vprintf_loop; [lia|done]. Qed.

(** [fprintf(2, ...); exit(n)] *)
Lemma run_complain fmt a n (Q : unit -> W -> Prop) w : (forall w', hist w' = hist w -> X n w') -> okrun (fprintf 2 fmt a ;; u_exit n) Q w.
Proof. intros HX. apply run_bind, run_fprintf. intros w' [_ Eh]. by apply run_exit, HX. Qed.

Lemma run_fork1 (Q : Z -> W -> Prop) w :
  (forall w', hist w' = hist w ++ [EFork (-1)] -> X 1 w') ->
  (forall pid w', fdt w' = fdt w -> hist w' = hist w ++ [EFork pid] -> Q pid w') -> okrun fork1 Q w.
Proof.
  intros HX HQ. apply run_bind, (run_quiet _ _ _ _ (fd_fork w)). intros pid w1 E1 H1. destruct (Z.eqb_spec pid (-1)) as [->|]; [|by apply HQ].
  apply run_bind, run_complain. intros w2 H2. apply HX. congruence.
Qed.

Lemma run_close fd (Q : Z -> W -> Prop) w : (forall r w', fdt w' = delete fd (fdt w) -> hist w' = hist w -> Q r w') -> okrun (u_close fd) Q w.
Proof. intros HQ. destruct (fd_close fd w) as (r & w' & Ec & Ew & Eh). unfold okrun, uwp. rewrite Ec. by apply HQ. Qed.
Lemma run_wait (Q : Z * Z -> W -> Prop) w :
  (forall r w', fdt w' = fdt w -> hist w' = hist w ++ [EWait (fdt w)] -> Q r w') -> okrun u_wait Q w.
Proof. intros HQ. apply (run_quiet _ _ _ _ (fd_wait w)). exact HQ. Qed.

(** After closing standard input or output, the next descriptor is that. *)
Lemma least_0 (m : gmap Z O) r : least (delete 0 m) r -> r = 0.
Proof.
  intros (Hr & _ & Hi). destruct (decide (r = 0)) as [|Hne]; [done|]. destruct (Hi 0) as [x Hx]; [lia|]. by rewrite lookup_delete_eq in Hx.
Qed.
Lemma least_1 (m : gmap Z O) i r : m !! 0 = Some i -> least (delete 1 m) r -> r = 1.
Proof.
  intros H0 (Hr & Hn & Hi). destruct (decide (r = 0)) as [->|Hne]; [by rewrite lookup_delete_ne, H0 in Hn|].
  destruct (decide (r = 1)) as [|Hne1]; [done|]. destruct (Hi 1) as [x Hx]; [lia|]. by rewrite lookup_delete_eq in Hx.
Qed.
Lemma least_std (m : gmap Z O) fd i r : m !! 0 = Some i -> fd = 0 \/ fd = 1 -> least (delete fd m) r -> r = fd.
Proof. intros H0 [-> | ->]; [apply least_0|by eapply least_1]. Qed.

(** Duplicating [p] onto the standard descriptor [fd] just closed. *)
Lemma run_dup_std fd p x (Q : Z -> W -> Prop) w (m : gmap Z O) :
  0 <= fd < 16 -> fdt w = delete fd m -> (forall r, least (delete fd m) r -> r = fd) -> p <> fd -> m !! p = Some x ->
  (forall r w', fdt w' = <[fd := x]> m -> hist w' = hist w -> Q r w') -> okrun (u_dup p) Q w.
Proof.
  intros Hfd Ew Hl Hp Hx HQ. destruct (fd_dup p x w) as (r & w' & Ed & Hcase); [by rewrite Ew, lookup_delete_ne|].
  unfold okrun, uwp. rewrite Ed, Ew in *. destruct Hcase as [[_ Hfull]|(Hr & Ew' & Eh)].
  - destruct (Hfull fd) as [y Hy]; [lia|]. by rewrite lookup_delete_eq in Hy.
  - apply HQ; [|done]. rewrite Ew', (Hl r Hr). apply insert_delete_eq.
Qed.

Lemma close_pipe_ends (m : gmap Z O) p0 p1 o0 o1 fd x :
  m !! p0 = None -> m !! p1 = None -> p0 <> fd -> p1 <> fd ->
  delete p1 (delete p0 (<[fd := x]> (<[p1 := o1]> (<[p0 := o0]> m)))) = <[fd := x]> m.
Proof.
  intros H0 H1 Hn0 Hn1. apply map_eq. intros k. destruct (decide (k = p1)) as [->|]; [by simplify_map_eq|].
  destruct (decide (k = p0)) as [->|]; [by simplify_map_eq|]. destruct (decide (k = fd)) as [->|]; by simplify_map_eq.
Qed.
Lemma close_both (m : gmap Z O) p0 p1 o0 o1 :
  m !! p0 = None -> m !! p1 = None -> delete p1 (delete p0 (<[p1 := o1]> (<[p0 := o0]> m))) = m.
Proof.
  intros H0 H1. apply map_eq. intros k. destruct (decide (k = p1)) as [->|]; [by simplify_map_eq|].
  destruct (decide (k = p0)) as [->|]; by simplify_map_eq.
Qed.

Lemma run_any {A} (m : U W A) (Q : A -> W -> Prop) w : okrun m (fun _ _ => False) w -> okrun m Q w.
Proof. intros H. eapply uwp_mono; [exact H|]. by intros ? ? []. Qed.

(** [X] and [E] allow what [c] may come to from the table [m] and history [h]. *)
Definition allowed (c : cmd (list Z)) (m : gmap Z O) (h : list (event O)) : Prop :=
  (forall p argv evs w', runs file_obj pipe_pair c m evs (Becomes argv (fdt w')) -> argv !! 0%nat = Some p -> hist w' = h ++ evs -> E p argv w') /\
  (forall n evs w', failed evs \/ runs file_obj pipe_pair c m evs (Ends n) -> hist w' = h ++ evs -> X n w').

Lemma allowed_step c c' m m' h pre :
  allowed c m h -> (forall evs out, runs file_obj pipe_pair c' m' evs out -> runs file_obj pipe_pair c m (pre ++ evs) out) -> allowed c' m' (h ++ pre).
Proof.
  intros [HE HX] Hr. split.
  - intros p argv evs w' R Ha Hh. apply (HE p argv (pre ++ evs)); [by apply Hr|done|]. by rewrite app_assoc.
  - intros n evs w' R Hh. apply (HX n (pre ++ evs)); [|by rewrite app_assoc]. destruct R as [F|R]; [left; by apply failed_app|right; by apply Hr].
Qed.
Lemma allowed_fail c m h n w' evs : allowed c m h -> failed evs -> hist w' = h ++ evs -> X n w'.
Proof. intros [_ HX] F Hh. apply (HX n evs); [by left|done]. Qed.
Lemma allowed_end c m h n w' evs : allowed c m h -> runs file_obj pipe_pair c m evs (Ends n) -> hist w' = h ++ evs -> X n w'.
Proof. intros [_ HX] R Hh. apply (HX n evs); [by right|done]. Qed.

Definition runs_ok (c : cmd (list Z)) : Prop := forall w,
  is_Some (fdt w !! 0) -> is_Some (fdt w !! 1) -> allowed c (fdt w) (hist w) -> okrun (runcmd c) (fun _ _ => False) w.

(** The rest of a command, run in the state reached after the events [pre]. *)
Lemma run_sub c c' m h pre w' (Q : unit -> W -> Prop) :
  runs_ok c' -> allowed c m h -> hist w' = h ++ pre -> is_Some (fdt w' !! 0) -> is_Some (fdt w' !! 1) ->
  (forall evs out, runs file_obj pipe_pair c' (fdt w') evs out -> runs file_obj pipe_pair c m (pre ++ evs) out) -> okrun (runcmd c') Q w'.
Proof. intros IH Ha Hh H0 H1 Hr. apply run_any, IH; [done..|]. rewrite Hh. by eapply allowed_step. Qed.

Lemma failed_fork evs : failed (O := O) (evs ++ [EFork (-1)]).
Proof. right. set_solver. Qed.

Lemma run_exec argv : runs_ok (EXEC argv).
Proof.
  intros w H0 H1 Ha. destruct argv as [|p argv]; cbn [runcmd].
  - apply run_exit. eapply allowed_end; [done|constructor|by rewrite app_nil_r].
  - apply run_bind. destruct (fd_exec p (p :: argv) w) as [Ex|Hq].
    + unfold okrun, uwp. rewrite Ex. eapply (proj1 Ha); [constructor|done|by rewrite app_nil_r].
    + apply (run_quiet _ _ _ _ Hq). intros r w1 _ Eh. apply run_complain. intros w2 Eh2.
      eapply allowed_fail; [done| |by rewrite Eh2, Eh]. left. set_solver.
Qed.

Lemma run_redir c f mode fd : runs_ok c -> fd = 0 \/ fd = 1 -> runs_ok (REDIR c f mode fd).
Proof.
  intros IH Hfd w H0 H1 Ha. cbn [runcmd]. apply run_bind, run_close. intros _ w1 E1 Eh1. apply run_bind.
  destruct (fd_open f mode w1) as (r & w2 & Eo & Hcase). unfold okrun at 1, uwp at 1. rewrite Eo. destruct (Z.ltb_spec r 0) as [Er|Er].
  { destruct Hcase as [(_ & _ & Eh)|(x & _ & (? & _) & _)]; [|lia]. apply run_complain. intros w3 Eh3.
    eapply allowed_fail; [done| |by rewrite Eh3, Eh, Eh1]. left. set_solver. }
  destruct Hcase as [[? _]|(x & Hx & Hr & E2 & Eh2)]; [lia|]. rewrite E1 in Hr, E2. destruct H0 as [i H0], H1 as [o H1].
  apply (least_std _ fd i) in Hr as ->; [|done|done]. rewrite insert_delete_eq in E2.
  apply run_bind, (run_sub (REDIR c f mode fd) c (fdt w) (hist w) []); [done|done|by rewrite app_nil_r, Eh2| | |].
  - rewrite E2. destruct (decide (fd = 0)) as [->|]; [by rewrite lookup_insert_eq|by rewrite lookup_insert_ne, H0].
  - rewrite E2. destruct (decide (fd = 1)) as [->|]; [by rewrite lookup_insert_eq|by rewrite lookup_insert_ne, H1].
  - intros evs out R. rewrite E2 in R. by eapply r_redir.
Qed.

Lemma run_list l r : runs_ok l -> runs_ok r -> runs_ok (LIST l r).
Proof.
  intros IHl IHr w H0 H1 Ha. cbn [runcmd]. apply run_bind, run_fork1.
  { intros w1 Eh. eapply allowed_fail; [done|apply (failed_fork [])|done]. }
  intros pid w1 E1 Eh1. apply run_bind. destruct (Z.eqb_spec pid 0) as [->|Hp].
  - apply (run_sub (LIST l r) l (fdt w) (hist w) [EFork 0]); rewrite ?E1; try done. intros evs out R. by apply r_list_left.
  - apply run_bind, run_wait. intros _ w2 E2 Eh2. apply run_bind. rewrite E1 in E2, Eh2.
    apply (run_sub (LIST l r) r (fdt w) (hist w) [EFork pid; EWait (fdt w)]); rewrite ?E2; try done.
    + by rewrite Eh2, Eh1, <- app_assoc.
    + intros evs out R. by apply r_list_right.
Qed.

Lemma run_back c : runs_ok c -> runs_ok (BACK c).
Proof.
  intros IH w H0 H1 Ha. cbn [runcmd]. apply run_bind, run_fork1.
  { intros w1 Eh. eapply allowed_fail; [done|apply (failed_fork [])|done]. }
  intros pid w1 E1 Eh1. apply run_bind. destruct (Z.eqb_spec pid 0) as [->|Hp].
  - apply (run_sub (BACK c) c (fdt w) (hist w) [EFork 0]); rewrite ?E1; try done. intros evs out R. by apply r_back_child.
  - apply run_exit. eapply allowed_end; [done|by apply r_back_parent|done].
Qed.

(** The child on the side [fd] of a pipe whose ends are [p0] and [p1]. *)
Lemma run_side c c' fd p x m (w w1 : W) p0 p1 o0 o1 pre :
  runs_ok c' -> allowed c m (hist w) -> fd = 0 \/ fd = 1 -> is_Some (m !! 0) -> is_Some (m !! 1) ->
  m !! p0 = None -> m !! p1 = None -> p0 <> fd -> p1 <> fd -> (p = p0 \/ p = p1) ->
  fdt w1 = <[p1 := o1]> (<[p0 := o0]> m) -> fdt w1 !! p = Some x -> hist w1 = hist w ++ pre ->
  (forall evs out, runs file_obj pipe_pair c' (<[fd := x]> m) evs out -> runs file_obj pipe_pair c m (pre ++ evs) out) ->
  okrun (u_close fd ;; u_dup p ;; u_close p0 ;; u_close p1 ;; runcmd c') (fun _ _ => False) w1.
Proof.
  intros IH Ha Hfd H0 H1 N0 N1 Hn0 Hn1 Hp E1 Hx Eh Hr. apply run_bind, run_close. intros _ w3 E3 Eh3. destruct H0 as [i H0].
  assert (forall k, is_Some (m !! k) -> fdt w1 !! k = m !! k) as Hk.
  { intros k [y Hy]. rewrite E1. rewrite !lookup_insert_ne by (intros ->; congruence). done. }
  apply run_bind, (run_dup_std fd p x _ w3 (fdt w1)); [lia|done| |naive_solver|done|].
  { intros r. apply (least_std _ fd i); [|done]. rewrite Hk; [done|by eexists]. }
  intros _ w4 E4 Eh4. apply run_bind, run_close. intros _ w5 E5 Eh5. apply run_bind, run_close. intros _ w6 E6 Eh6.
  rewrite E5, E4, E1, close_pipe_ends in E6 by done.
  apply (run_sub c c' m (hist w) pre); [done|done|congruence| | |by rewrite E6].
  - rewrite E6. destruct (decide (fd = 0)) as [->|]; [by rewrite lookup_insert_eq|by rewrite lookup_insert_ne, H0].
  - rewrite E6. destruct (decide (fd = 1)) as [->|]; [by rewrite lookup_insert_eq|by rewrite lookup_insert_ne].
Qed.

Lemma run_pipe l r : runs_ok l -> runs_ok r -> runs_ok (PIPE l r).
Proof.
  intros IHl IHr w H0 H1 Ha. cbn [runcmd]. apply run_bind.
  destruct (fd_pipe w) as (ok & p0 & p1 & w1 & Ep & Hcase). unfold okrun at 1, uwp at 1. rewrite Ep. apply run_bind. destruct (Z.ltb_spec ok 0) as [Ek|Ek].
  { destruct Hcase as [(_ & _ & Eh)|[? _]]; [|lia]. apply run_any, run_complain. intros w2 Eh2.
    eapply allowed_fail; [done| |by rewrite Eh2, Eh]. left. set_solver. }
  destruct Hcase as [[? _]|(_ & o0 & o1 & Hpp & (_ & N0 & _) & (_ & N1 & _) & E1 & Eh1)]; [lia|].
  assert (p1 <> p0) as Hp10 by (intros ->; by rewrite lookup_insert_eq in N1). rewrite lookup_insert_ne in N1 by done.
  assert (p0 <> 0 /\ p0 <> 1 /\ p1 <> 0 /\ p1 <> 1) as (? & ? & ? & ?).
  { destruct H0 as [? H0], H1 as [? H1]. split_and!; intros ->; congruence. }
  apply run_bind, run_fork1.
  { intros w2 Eh. eapply allowed_fail; [done|apply (failed_fork [])|by rewrite Eh, Eh1]. }
  intros pid w2 E2 Eh2. rewrite E1 in E2. rewrite Eh1 in Eh2. apply run_bind. destruct (Z.eqb_spec pid 0) as [->|Hp].
  { apply run_any. eapply (run_side (PIPE l r) l 1 p1 o1 (fdt w) w w2 p0 p1 o0 o1 [EFork 0]); try done; [by right|by right|by rewrite E2, lookup_insert_eq|].
    intros evs out R. by eapply r_pipe_left. }
  apply run_bind, run_fork1.
  { intros w3 Eh. eapply allowed_fail; [done|apply (failed_fork [EFork pid])|by rewrite Eh, Eh2, <- app_assoc]. }
  intros pid2 w3 E3 Eh3. rewrite E2 in E3. rewrite Eh2, <- app_assoc in Eh3. apply run_bind. destruct (Z.eqb_spec pid2 0) as [->|Hp2].
  { apply run_any. eapply (run_side (PIPE l r) r 0 p0 o0 (fdt w) w w3 p0 p1 o0 o1 [EFork pid; EFork 0]); try done;
      [by left|by left|by rewrite E3, lookup_insert_ne, lookup_insert_eq|]. intros evs out R. by eapply r_pipe_right. }
  apply run_bind, run_close. intros _ w4 E4 Eh4. apply run_bind, run_close. intros _ w5 E5 Eh5. rewrite E4, E3, close_both in E5 by done.
  apply run_bind, run_wait. intros _ w6 E6 Eh6. apply run_bind, run_wait. intros _ w7 E7 Eh7. apply run_exit.
  eapply allowed_end; [done|by apply (r_pipe_parent _ _ l r pid pid2)|]. rewrite Eh7, Eh6, E6, Eh5, Eh4, Eh3, E5. by rewrite <- !app_assoc.
Qed.

Lemma run_all c : std_redirs c -> runs_ok c.
Proof.
  induction c as [argv|c IH f mode fd|l IHl r IHr|l IHl r IHr|c IH]; intros Hc; [apply run_exec|destruct Hc as [Hc Hfd]..|].
  - by apply run_redir; [apply IH|].
  - by apply run_pipe; [apply IHl|apply IHr].
  - by apply run_list; [apply IHl|apply IHr].
  - by apply run_back, IH.
Qed.
End run_correct.


(** ** The same on a concrete world *)

Lemma lowest_spec n i (m : gmap Z obj) :
  0 <= i -> (forall j, 0 <= j < i -> is_Some (m !! j)) ->
  match lowest n i m with Some r => least m r | None => forall j, 0 <= j < i + Z.of_nat n -> is_Some (m !! j) end.
Proof.
  revert i. induction n as [|n IH]; intros i Hi Hm; cbn [lowest]; [by rewrite Z.add_0_r|]. destruct (m !! i) as [x|] eqn:Ei.
  - specialize (IH (i + 1) ltac:(lia)). destruct (lowest n (i + 1) m).
    + apply IH. intros j Hj. destruct (decide (j = i)) as [->|]; [by exists x|apply Hm; lia].
    + intros j Hj. apply IH; [|lia]. intros j' Hj'. destruct (decide (j' = i)) as [->|]; [by exists x|apply Hm; lia].
  - by split_and!.
Qed.

Definition world_file (o : obj) (f : list Z) (mode : Z) : Prop := o = OFile f mode.
Definition world_pipe (r w : obj) : Prop := exists id, r = OPipeR id /\ w = OPipeW id.

#[export] Instance FdTable_uworld : FdTable w_fds w_hist world_file world_pipe.
Proof.
  assert (forall m : gmap Z obj, match lowest 16 0 m with Some r => least m r | None => full m end) as Hlow.
  { intros m. pose proof (lowest_spec 16 0 m ltac:(lia) ltac:(lia)) as H. by destruct (lowest 16 0 m). }
  split.
  - intros w. unfold quiet_call. cbn. unfold w_fork. destruct (w_forks w) as [|p l]; by eexists _, _.
  - intros w. unfold quiet_call. cbn. unfold w_wait. destruct (w_waits w) as [|p l]; by eexists _, _.
  - intros fd bs w. unfold quiet_call. cbn. unfold w_write. eexists _, _. split; [done|]. rewrite app_nil_r. by destruct (fd =? 1), (fd =? 2).
  - done.
  - intros p a w. unfold quiet_call. cbn. case_bool_decide; [by left|right]. by eexists _, _.
  - intros fd w. cbn. unfold w_close. destruct (w_fds w !! fd) eqn:E; eexists _, _; (split; [done|]); [done|]. by rewrite delete_id.
  - intros f mode w. cbn. unfold w_open. case_bool_decide; [|eexists _, _; split; [done|]; left; split; [lia|done]].
    unfold fd_alloc. specialize (Hlow (w_fds w)). destruct (lowest 16 0 (w_fds w)) as [r|]; eexists _, _; (split; [done|]).
    + right. by exists (OFile f mode).
    + left. split; [lia|done].
  - intros fd o w Ho. cbn. unfold w_dup. rewrite Ho. unfold fd_alloc. specialize (Hlow (w_fds w)).
    destruct (lowest 16 0 (w_fds w)) as [r|]; eexists _, _; (split; [done|]); [by right|]. left. split; [lia|done].
  - intros w. cbn. unfold w_pipe. pose proof (Hlow (w_fds w)) as H1. destruct (lowest 16 0 (w_fds w)) as [p0|].
    2:{ eexists _, _, _, _. split; [done|]. left. split; [lia|done]. }
    pose proof (Hlow (<[p0 := OPipeR (w_pipes w)]> (w_fds w))) as H2. destruct (lowest 16 0 _) as [p1|]; eexists _, _, _, _; (split; [done|]).
    + right. split; [lia|]. exists (OPipeR (w_pipes w)), (OPipeW (w_pipes w)). split_and!; [by eexists|done..].
    + left. split; [lia|done].
Qed.

(** The processes of [a | b > f]: the left side, the right side, the parent. *)
Definition demo_cmd : cmd (list Z) := PIPE (EXEC [chars "a"]) (REDIR (EXEC [chars "b"]) (chars "f") O_WRONLY 1).
Definition demo_world (forks : list Z) : uworld := world0 [chars "a"; chars "b"; chars "f"] [] 0 forks.

