(* ===== verification/Umalloc.v ===== *)
(** * The user memory allocator (user/umalloc.c)

    The headers of the blocks, by address, and the pointer [freep].  A header
    takes 16 bytes; block sizes are in units of a header and include it.  *)

From Stdlib Require Import String.
From S2P Require Import Prelude Param Str Printf User UWorld ULib.
#[local] Open Scope user_scope.

Definition HDR : Z := 16.

Record header := mkHdr { s_ptr : Z; s_size : Z }.
Record heap := mkHeap { h_mem : gmap Z header; h_freep : Z }.

Definition hdr (h : heap) (p : Z) : header := default (mkHdr 0 0) (h_mem h !! p).
Definition ptr (h : heap) (p : Z) : Z := s_ptr (hdr h p).
Definition size (h : heap) (p : Z) : Z := s_size (hdr h p).
Definition set_ptr (p x : Z) (h : heap) : heap := mkHeap (<[p := mkHdr x (size h p)]> (h_mem h)) (h_freep h).
Definition set_size (p n : Z) (h : heap) : heap := mkHeap (<[p := mkHdr (ptr h p) (u32 n)]> (h_mem h)) (h_freep h).
Definition set_freep (p : Z) (h : heap) : heap := mkHeap (h_mem h) p.

(** The loop of [free]: the free block before [bp] in the ring. *)
Fixpoint free_loop (fuel : nat) (bp p : Z) (h : heap) : option Z :=
  match fuel with
  | O => None
  | S fuel' =>
      if (p <? bp) && (bp <? ptr h p) then Some p
      else if (ptr h p <=? p) && ((p <? bp) || (bp <? ptr h p)) then Some p
      else free_loop fuel' bp (ptr h p) h
  end.

(** Joining the block to its neighbours. *)
Definition free_insert (bp p : Z) (h : heap) : heap :=
  let nxt := ptr h p in
  let h :=
    if bp + HDR * size h bp =? nxt
    then set_ptr bp (ptr (set_size bp (size h bp + size h nxt) h) nxt) (set_size bp (size h bp + size h nxt) h)
    else set_ptr bp nxt h in
  let h :=
    if p + HDR * size h p =? bp
    then set_ptr p (ptr (set_size p (size h p + size h bp) h) bp) (set_size p (size h p + size h bp) h)
    else set_ptr p bp h in
  set_freep p h.

Definition free (fuel : nat) (ap : Z) (h : heap) : option heap :=
  let bp := ap - HDR in
  match free_loop fuel bp (h_freep h) h with
  | Some p => Some (free_insert bp p h)
  | None => None
  end.

(** [base] is the address of the variable of that name. *)
Section malloc.
Context {W : Type} `{!Sys W} (base : Z).

Definition morecore (fuel : nat) (nu : Z) (h : heap) : U W (Z * heap) :=
  let nu := if nu <? 4096 then 4096 else nu in
  p <- sbrk (s32 (nu * HDR)) ;;
  if p =? -1 then uret (0, h) else
  let h := set_size p nu h in
  match free fuel (p + HDR) h with
  | Some h' => uret (h_freep h', h')
  | None => u_nofuel
  end.

(** Taking [nunits] units from the free block [p] after [prevp]. *)
Definition carve (nunits prevp p : Z) (h : heap) : Z * heap :=
  if size h p =? nunits then (p + HDR, set_freep prevp (set_ptr prevp (ptr h p) h))
  else
    let h := set_size p (size h p - nunits) h in
    let q := p + HDR * size h p in
    (q + HDR, set_freep prevp (set_size q nunits h)).

Fixpoint malloc_loop (fuel : nat) (nunits prevp p : Z) (h : heap) : U W (Z * heap) :=
  match fuel with
  | O => u_nofuel
  | S fuel' =>
      if nunits <=? size h p then uret (carve nunits prevp p h)
      else if p =? h_freep h then
        r <- morecore fuel' nunits h ;;
        let '(p', h') := r in
        if p' =? 0 then uret (0, h') else malloc_loop fuel' nunits p' (ptr h' p') h'
      else malloc_loop fuel' nunits p (ptr h p) h
  end.

Definition malloc_units (nbytes : Z) : Z := u32 ((nbytes + HDR - 1) / HDR + 1).
Definition malloc (fuel : nat) (nbytes : Z) (h : heap) : U W (Z * heap) :=
  let nunits := malloc_units nbytes in
  let h := if h_freep h =? 0 then set_size base 0 (set_ptr base base (set_freep base h)) else h in
  let prevp := h_freep h in
  malloc_loop fuel nunits prevp (ptr h prevp) h.
End malloc.
