(* ===== verification/UmallocProps.v ===== *)
(** * The user memory allocator: blocks handed out never overlap *)

From Stdlib Require Import String.
From S2P Require Import Prelude Param Str Printf User UWorld ULib Umalloc.
#[local] Open Scope user_scope.

(** ** Headers *)

Lemma ptr_set_ptr p x h q : ptr (set_ptr p x h) q = if decide (q = p) then x else ptr h q.
Proof. unfold ptr, hdr, set_ptr. cbn. destruct (decide (q = p)) as [->|]; [by rewrite lookup_insert_eq|by rewrite lookup_insert_ne]. Qed.
Lemma size_set_ptr p x h q : size (set_ptr p x h) q = size h q.
Proof. unfold size, hdr, set_ptr. cbn. destruct (decide (q = p)) as [->|]; [by rewrite lookup_insert_eq|by rewrite lookup_insert_ne]. Qed.
Lemma ptr_set_size p n h q : ptr (set_size p n h) q = ptr h q.
Proof. unfold ptr, hdr, set_size. cbn. destruct (decide (q = p)) as [->|]; [by rewrite lookup_insert_eq|by rewrite lookup_insert_ne]. Qed.
Lemma size_set_size p n h q : size (set_size p n h) q = if decide (q = p) then u32 n else size h q.
Proof. unfold size, hdr, set_size. cbn. destruct (decide (q = p)) as [->|]; [by rewrite lookup_insert_eq|by rewrite lookup_insert_ne]. Qed.
Lemma ptr_set_freep p h q : ptr (set_freep p h) q = ptr h q.
Proof. done. Qed.
Lemma size_set_freep p h q : size (set_freep p h) q = size h q.
Proof. done. Qed.
Create Rewrite HintDb heap.
#[local] Hint Rewrite ptr_set_ptr size_set_ptr ptr_set_size size_set_size ptr_set_freep size_set_freep : heap.

(** ** The heap as a sequence of tiles *)

Record tile := mkTile { t_at : Z; t_n : Z; t_free : bool }.
Definition t_end (t : tile) : Z := t_at t + HDR * t_n t.

(** Tiles in ascending order between [lo] and [hi]. *)
Fixpoint tiles (lo : Z) (T : list tile) (hi : Z) : Prop :=
  match T with
  | [] => lo <= hi
  | t :: T' => lo <= t_at t /\ 0 < t_n t /\ tiles (t_end t) T' hi
  end.

(** The last free block of [T], with [p] before it. *)
Fixpoint pf (p : Z) (T : list tile) : Z :=
  match T with
  | [] => p
  | t :: T' => if t_free t then pf (t_at t) T' else pf p T'
  end.

(** The headers of [T] hold the sizes, and link the free blocks from [p] on. *)
Fixpoint fseg (h : heap) (p : Z) (T : list tile) : Prop :=
  match T with
  | [] => True
  | t :: T' =>
      size h (t_at t) = t_n t /\
      if t_free t then ptr h p = t_at t /\ fseg h (t_at t) T' else fseg h p T'
  end.

Lemma tiles_app lo T1 T2 hi : tiles lo (T1 ++ T2) hi <-> exists mid, tiles lo T1 mid /\ tiles mid T2 hi.
Proof.
  revert lo. induction T1 as [|t T1 IH]; intros lo; cbn [app tiles].
  - split; [intros H; exists lo; split; [lia|done]|]. intros (mid & Hm & H). destruct T2 as [|t T2]; cbn [tiles] in *; [lia|]. destruct H as (? & ? & ?). split_and!; [lia|done|done].
  - rewrite IH. split; [intros (? & ? & mid & ? & ?); by exists mid|intros (mid & (? & ? & ?) & ?)]. split_and!; [done|done|by exists mid].
Qed.
Lemma tiles_le lo T hi : tiles lo T hi -> lo <= hi.
Proof. revert lo. induction T as [|t T IH]; intros lo; cbn [tiles]; [done|]. intros (? & ? & H%IH). unfold t_end, HDR in H. lia. Qed.
Lemma tiles_in lo T hi t : tiles lo T hi -> t ∈ T -> lo <= t_at t /\ 0 < t_n t /\ t_end t <= hi.
Proof.
  revert lo. induction T as [|t' T IH]; intros lo Ht Hin; [by apply elem_of_nil in Hin|]. destruct Ht as (H1 & H2 & H3).
  apply elem_of_cons in Hin as [->|Hin]; [split_and!; [lia|lia|by apply tiles_le in H3]|]. destruct (IH _ H3 Hin) as (? & ? & ?). unfold t_end, HDR in *. split_and!; lia.
Qed.
Lemma tiles_weaken lo lo' T hi hi' : tiles lo T hi -> lo' <= lo -> hi <= hi' -> tiles lo' T hi'.
Proof. revert lo lo'. induction T as [|t T IH]; intros lo lo'; cbn [tiles]; [lia|]. intros (? & ? & H) ? ?. split_and!; [lia|done|]. by eapply IH. Qed.

Lemma pf_app p T1 T2 : pf p (T1 ++ T2) = pf (pf p T1) T2.
Proof. revert p. induction T1 as [|t T1 IH]; intros p; cbn [app pf]; [done|]. destruct (t_free t); apply IH. Qed.
Lemma fseg_app h p T1 T2 : fseg h p (T1 ++ T2) <-> fseg h p T1 /\ fseg h (pf p T1) T2.
Proof. revert p. induction T1 as [|t T1 IH]; intros p; cbn [app fseg pf]; [tauto|]. destruct (t_free t); rewrite IH; tauto. Qed.

Lemma fseg_cons_free h p t T : t_free t = true -> fseg h p (t :: T) -> size h (t_at t) = t_n t /\ ptr h p = t_at t /\ fseg h (t_at t) T.
Proof. cbn [fseg]. by intros ->. Qed.

(** The last free block is [p] itself or a tile. *)
Lemma pf_cases p T : pf p T = p \/ exists t, t ∈ T /\ t_free t = true /\ pf p T = t_at t.
Proof.
  revert p. induction T as [|t T IH]; intros p; cbn [pf]; [by left|]. destruct (t_free t) eqn:Et.
  - right. destruct (IH (t_at t)) as [->|(t' & ? & ? & ?)]; [exists t|exists t']; by rewrite elem_of_cons; auto.
  - destruct (IH p) as [->|(t' & ? & ? & ?)]; [by left|]. right. exists t'. by rewrite elem_of_cons; auto.
Qed.

Lemma pf_split p T :
  (pf p T = p /\ Forall (fun t => t_free t = false) T) \/
  exists Ta u Tb, T = Ta ++ u :: Tb /\ t_free u = true /\ pf p T = t_at u /\ Forall (fun t => t_free t = false) Tb.
Proof.
  revert p. induction T as [|t T IH]; intros p; cbn [pf]; [by left|]. destruct (t_free t) eqn:Et.
  - right. destruct (IH (t_at t)) as [[-> HT]|(Ta & u & Tb & -> & Hu & -> & HT)]; [by exists [], t, T|by exists (t :: Ta), u, Tb].
  - destruct (IH p) as [[-> HT]|(Ta & u & Tb & -> & Hu & -> & HT)]; [left; by split; [|constructor]|right; by exists (t :: Ta), u, Tb].
Qed.

(** ** Updates outside, and of the last link *)

Lemma fseg_ext h h' p T :
  (forall t, t ∈ T -> size h' (t_at t) = size h (t_at t)) ->
  (forall q, q = p \/ q ∈ t_at <$> T -> q <> pf p T -> ptr h' q = ptr h q) ->
  (forall t, t ∈ T -> t_free t = true -> t_at t <> p) -> NoDup (t_at <$> T) ->
  fseg h p T -> fseg h' p T.
Proof.
  revert p. induction T as [|t T IH]; intros p Hs Hp Hne Hnd; cbn [fseg pf] in *; [done|]. apply NoDup_cons in Hnd as [Hnt Hnd]. intros [Hsz H].
  rewrite Hs by left. split; [done|]. destruct (t_free t) eqn:Et.
  - destruct H as [Hptr H]. assert (forall t', t' ∈ T -> t_at t' <> t_at t) as Hne'.
    { intros t' Ht' E. apply Hnt. rewrite <- E. apply list_elem_of_fmap. by exists t'. }
    split.
    + rewrite Hp; [done|by left|]. destruct (pf_cases (t_at t) T) as [->|(t' & Ht' & Hf & ->)]; [intros E; by apply (Hne t); [left|..]|].
      intros E. apply (Hne t'); [by right|done|done].
    + apply IH; [intros; apply Hs; by right| |intros; by apply Hne'|done|done]. intros q Hq. apply Hp. right. destruct Hq as [->|?]; [left|by right].
  - apply IH; [intros; apply Hs; by right| |intros; apply Hne; [by right|done]|done|done].
    intros q Hq. apply Hp. destruct Hq as [->|?]; [by left|right; by right].
Qed.

Lemma tiles_nodup lo T hi : tiles lo T hi -> NoDup (t_at <$> T).
Proof.
  revert lo. induction T as [|t T IH]; intros lo; cbn [tiles fmap list_fmap]; [constructor|]. intros (? & ? & H). constructor; [|by eapply IH].
  intros (t' & E & Ht')%list_elem_of_fmap. destruct (tiles_in _ _ _ _ H Ht') as (? & _). unfold t_end, HDR in *. lia.
Qed.

(** ** The ring of free blocks *)

Lemma exists_last_or_nil {A} (l : list A) : l = [] \/ exists l' x, l = l' ++ [x].
Proof. destruct l as [|x l] using rev_ind; [by left|right]. by exists l, x. Qed.

(** What the allocator asks of [sbrk]: it fails, or grows the heap at its end,
    below the limit where a block size still fits its 32-bit field. *)
Class Brk (W : Type) `{!Sys W} (brk : W -> Z) := brk_sbrk : forall n w, 0 < n ->
  exists r w', u_sbrk n SBRK_EAGER w = URet r w' /\
    ((r = -1 /\ brk w' = brk w) \/ (r = brk w /\ brk w' = brk w + n /\ brk w' < 2 ^ 36)).

Section ring.
Context (base lo : Z) (Hbase : 0 < base) (Hlo : base + HDR <= lo).

(** The first free block of [T], or [base]. *)
Fixpoint nf (T : list tile) : Z :=
  match T with
  | [] => base
  | t :: T' => if t_free t then t_at t else nf T'
  end.

Record hinv (h : heap) (T : list tile) (hi : Z) : Prop := {
  hv_tiles : tiles lo T hi;
  hv_seg : fseg h base T;
  hv_last : ptr h (pf base T) = base;
  hv_base : size h base = 0;
  hv_freep : exists T1 T2, T = T1 ++ T2 /\ h_freep h = pf base T1;
  hv_bound : hi < 2 ^ 36
}.

Lemma next_free h p T : fseg h p T -> ptr h (pf p T) = base -> ptr h p = nf T.
Proof.
  revert p. induction T as [|t T IH]; intros p; cbn [fseg pf nf]; [done|]. destruct (t_free t); [by intros (_ & ? & _)|]. intros [_ H]. by apply IH.
Qed.

Lemma nf_cases T : nf T = base \/ exists t, t ∈ T /\ t_free t = true /\ nf T = t_at t.
Proof.
  induction T as [|t T IH]; cbn [nf]; [by left|]. destruct (t_free t) eqn:Et.
  - right. exists t. by rewrite elem_of_cons; auto.
  - destruct IH as [->|(t' & ? & ? & ?)]; [by left|]. right. exists t'. by rewrite elem_of_cons; auto.
Qed.

(** Where the blocks before and after a tile lie. *)
Lemma around T1 t T2 hi : tiles lo (T1 ++ t :: T2) hi ->
  0 < t_n t /\ lo <= t_at t /\ t_end t <= hi /\ (forall u, u ∈ T1 -> lo <= t_at u /\ 0 < t_n u /\ t_end u <= t_at t) /\
  (forall u, u ∈ T2 -> t_end t <= t_at u /\ 0 < t_n u /\ t_end u <= hi).
Proof.
  intros (mid & H1 & H2 & Hn & H3)%tiles_app. pose proof (tiles_le _ _ _ H1). pose proof (tiles_le _ _ _ H3). split_and!; [done|lia|lia| |].
  - intros u Hu. destruct (tiles_in _ _ _ _ H1 Hu) as (? & ? & ?). split_and!; lia.
  - intros u Hu. by apply (tiles_in _ _ _ _ H3).
Qed.
Lemma pf_before T1 t T2 hi Ta Tb : tiles lo (T1 ++ t :: T2) hi -> T1 = Ta ++ Tb -> base <= pf base Ta < t_at t.
Proof.
  intros H ->. destruct (around _ _ _ _ H) as (? & ? & ? & HT & _). destruct (pf_cases base Ta) as [->|(u & Hu & _ & ->)]; [unfold HDR in *; lia|].
  destruct (HT u) as (? & ? & ?); [apply elem_of_app; by left|]. unfold t_end, HDR in *. lia.
Qed.

Section loop.
Context (h : heap) (T1 T2 : list tile) (t : tile) (hi : Z) (I : hinv h (T1 ++ t :: T2) hi) (Ht : t_free t = false).

Lemma seg_parts : fseg h base T1 /\ size h (t_at t) = t_n t /\ fseg h (pf base T1) T2.
Proof. pose proof (hv_seg _ _ _ I) as H. apply fseg_app in H as [H1 [H2 H3]]. by rewrite Ht in H3. Qed.
Lemma last_part : ptr h (pf (pf base T1) T2) = base.
Proof. pose proof (hv_last _ _ _ I) as H. rewrite pf_app in H. cbn [pf] in H. by rewrite Ht in H. Qed.
Lemma ptr_before : ptr h (pf base T1) = nf T2.
Proof. apply next_free; [apply seg_parts|apply last_part]. Qed.

(** From a free block before the tile. *)
Lemma loop_before Tb Ta fuel :
  T1 = Ta ++ Tb -> (length Tb < fuel)%nat -> free_loop fuel (t_at t) (pf base Ta) h = Some (pf base T1).
Proof.
  pose proof (hv_tiles _ _ _ I) as HT. revert Ta fuel. induction Tb as [|u Tb IH]; intros Ta fuel E Hf; (destruct fuel as [|fuel]; [lia|]).
  - rewrite app_nil_r in E. subst Ta. pose proof (pf_before _ _ _ _ T1 [] HT ltac:(by rewrite app_nil_r)) as Hp. cbn [free_loop]. rewrite ptr_before.
    destruct (around _ _ _ _ HT) as (? & ? & ? & _ & H2). destruct (nf_cases T2) as [->|(v & Hv & _ & ->)].
    + rewrite (proj2 (Z.ltb_lt _ _)) by lia. rewrite (proj2 (Z.ltb_ge (t_at t) base)) by (unfold HDR in *; lia). rewrite (proj2 (Z.leb_le _ _)) by lia. done.
    + destruct (H2 v Hv) as (? & ? & ?). rewrite (proj2 (Z.ltb_lt (pf base T1) _)), (proj2 (Z.ltb_lt (t_at t) _)); [done|unfold t_end, HDR in *; lia|lia].
  - cbn [length] in Hf. assert (T1 = (Ta ++ [u]) ++ Tb) as E' by (by rewrite <- app_assoc). destruct (t_free u) eqn:Eu.
    + pose proof (pf_before _ _ _ _ Ta (u :: Tb) HT E) as Hp. assert (ptr h (pf base Ta) = t_at u) as Hptr.
      { destruct seg_parts as (H1 & _). rewrite E, fseg_app in H1. destruct H1 as [_ (_ & H1)]. rewrite Eu in H1. apply H1. }
      assert (pf base Ta < t_at u) as Hpu.
      { rewrite E, <- app_assoc in HT. cbn [app] in HT. by apply (pf_before Ta u (Tb ++ t :: T2) hi Ta [] HT ltac:(by rewrite app_nil_r)). }
      assert (t_at u < t_at t) as Hut.
      { destruct (around _ _ _ _ HT) as (_ & _ & _ & H1 & _). destruct (H1 u) as (? & ? & ?); [rewrite E; set_solver|]. unfold t_end, HDR in *. lia. }
      cbn [free_loop]. rewrite Hptr. rewrite (proj2 (Z.ltb_ge (t_at t) (t_at u))), andb_false_r by lia. rewrite (proj2 (Z.leb_gt (t_at u) _)) by lia. cbn [andb].
      replace (t_at u) with (pf base (Ta ++ [u])) by (rewrite pf_app; cbn; by rewrite Eu). apply IH; [done|lia].
    + replace (pf base Ta) with (pf base (Ta ++ [u])) by (rewrite pf_app; cbn; by rewrite Eu). apply IH; [done|lia].
Qed.

(** From a free block after it: once round the ring. *)
Lemma loop_after Td Tc fuel :
  T2 = Tc ++ Td -> t_at t < pf (pf base T1) Tc -> (length Td + length T1 + 1 < fuel)%nat ->
  free_loop fuel (t_at t) (pf (pf base T1) Tc) h = Some (pf base T1).
Proof.
  pose proof (hv_tiles _ _ _ I) as HT. destruct (around _ _ _ _ HT) as (? & ? & ? & _ & H2). unfold HDR in Hlo.
  revert Tc fuel. induction Td as [|u Td IH]; intros Tc fuel E Hq Hf; (destruct fuel as [|fuel]; [lia|]).
  - rewrite app_nil_r in E. subst Tc. cbn [free_loop]. rewrite last_part. rewrite (proj2 (Z.ltb_ge _ (t_at t))) by lia. cbn [andb orb].
    rewrite (proj2 (Z.ltb_ge (t_at t) base)), andb_false_r by lia. apply (loop_before T1 []); [done|cbn [length] in Hf; lia].
  - cbn [length] in Hf. assert (T2 = (Tc ++ [u]) ++ Td) as E' by (by rewrite <- app_assoc). destruct (t_free u) eqn:Eu.
    + assert (ptr h (pf (pf base T1) Tc) = t_at u) as Hptr.
      { destruct seg_parts as (_ & _ & H3). rewrite E, fseg_app in H3. destruct H3 as [_ (_ & H3)]. rewrite Eu in H3. apply H3. }
      assert (pf (pf base T1) Tc < t_at u) as Hqu.
      { destruct (pf_cases (pf base T1) Tc) as [Ep|(v & Hv & _ & Ep)].
        - pose proof (pf_before _ _ _ _ T1 [] HT ltac:(by rewrite app_nil_r)). lia.
        - rewrite E in HT. rewrite Ep. replace (T1 ++ t :: Tc ++ u :: Td) with ((T1 ++ t :: Tc) ++ u :: Td) in HT by (by rewrite <- app_assoc).
          destruct (around _ _ _ _ HT) as (_ & _ & _ & H4 & _). destruct (H4 v) as (? & ? & ?); [set_solver|]. unfold t_end, HDR in *. lia. }
      cbn [free_loop]. rewrite Hptr. rewrite (proj2 (Z.ltb_ge (pf (pf base T1) Tc) (t_at t))) by lia. cbn [andb]. rewrite (proj2 (Z.leb_gt (t_at u) _)) by lia. cbn [andb].
      replace (t_at u) with (pf (pf base T1) (Tc ++ [u])) by (rewrite pf_app; cbn; by rewrite Eu). apply IH; [done| |lia].
      rewrite pf_app. cbn. rewrite Eu. lia.
    + replace (pf (pf base T1) Tc) with (pf (pf base T1) (Tc ++ [u])) in * by (rewrite pf_app; cbn; by rewrite Eu). apply IH; [done|done|lia].
Qed.

Lemma free_loop_spec fuel :
  (2 * length (T1 ++ t :: T2) < fuel)%nat -> free_loop fuel (t_at t) (h_freep h) h = Some (pf base T1).
Proof.
  rewrite length_app. cbn [length]. intros Hf. pose proof (hv_tiles _ _ _ I) as HT. destruct (hv_freep _ _ _ I) as (Ta & Tb & E & ->).
  destruct (decide (length Ta <= length T1)%nat) as [Hle|Hgt].
  - assert (exists Tm, T1 = Ta ++ Tm) as [Tm Em].
    { exists (drop (length Ta) T1). assert (take (length Ta) (T1 ++ t :: T2) = Ta) as E1 by (by rewrite E, take_app_length).
      rewrite take_app_le in E1 by lia. rewrite <- E1 at 1. by rewrite take_drop. }
    apply (loop_before Tm); [done|]. rewrite Em, length_app in Hf. lia.
  - assert (exists Tc, Ta = T1 ++ t :: Tc /\ T2 = Tc ++ Tb) as (Tc & -> & E2).
    { exists (drop (S (length T1)) Ta). assert (take (length T1 + 1) (T1 ++ t :: T2) = take (length T1 + 1) (Ta ++ Tb)) as E1 by (by rewrite E).
      rewrite (cons_middle t T1 T2), app_assoc, take_app_length' in E1 by (rewrite length_app; cbn; lia). rewrite take_app_le in E1 by lia.
      assert (Ta = (T1 ++ [t]) ++ drop (S (length T1)) Ta) as Ea by (rewrite E1; replace (S (length T1)) with (length T1 + 1)%nat by lia; by rewrite take_drop).
      split; [by rewrite Ea at 1; rewrite <- app_assoc|]. rewrite Ea in E. rewrite <- !app_assoc in E. cbn [app] in E. apply app_inv_head in E. by injection E. }
    rewrite pf_app. cbn [pf]. rewrite Ht. destruct (decide (t_at t < pf (pf base T1) Tc)) as [Hlt|Hge].
    + apply (loop_after Tb); [done|done|]. rewrite E2, length_app in Hf. lia.
    + destruct (pf_cases (pf base T1) Tc) as [->|(v & Hv & _ & Ev)]; [apply (loop_before []); [by rewrite app_nil_r|cbn; lia]|].
      destruct (around _ _ _ _ HT) as (? & _ & _ & _ & H2). destruct (H2 v) as (? & ? & ?); [rewrite E2; set_solver|]. unfold t_end, HDR in *. lia.
Qed.
End loop.

(** The same links, hung onto another block. *)
Lemma fseg_relink h h' p p' T :
  fseg h p T -> ptr h (pf p T) = base -> (forall t, t ∈ T -> size h' (t_at t) = size h (t_at t) /\ ptr h' (t_at t) = ptr h (t_at t)) ->
  ptr h' p' = nf T -> fseg h' p' T /\ ptr h' (pf p' T) = base.
Proof.
  revert p p'. induction T as [|t T IH]; intros p p' Hs Hl Hsame Hp; cbn [fseg pf nf] in *; [done|]. destruct Hs as [Hsz Hs].
  destruct (Hsame t) as [E1 E2]; [left|]. rewrite E1. destruct (t_free t).
  - destruct Hs as [_ Hs]. destruct (IH (t_at t) (t_at t) Hs Hl) as [H1 H2]; [intros; apply Hsame; by right| |done]. rewrite E2. by apply next_free.
  - destruct (IH p p' Hs Hl) as [H1 H2]; [intros; apply Hsame; by right|done|done].
Qed.

Definition alloc (T : list tile) : list tile := filter (fun t => t_free t = false) T.
Lemma alloc_app T1 T2 : alloc (T1 ++ T2) = alloc T1 ++ alloc T2.
Proof. apply filter_app. Qed.

(** What the first half of the joining leaves: the block [t'] with its size
    and link, and the rest of the list behind it. *)
Record joined (h h1 : heap) (T1 T2 : list tile) (t : tile) (t' : tile) (T2' : list tile) : Prop := {
  j_at : t_at t' = t_at t;
  j_free : t_free t' = true;
  j_n : t_n t <= t_n t';
  j_alloc : alloc T2' = alloc T2;
  j_tiles : forall hi, tiles (t_end t) T2 hi -> tiles (t_end t') T2' hi;
  j_size : size h1 (t_at t) = t_n t';
  j_ptr : ptr h1 (t_at t) = nf T2';
  j_seg : fseg h1 (t_at t) T2' /\ ptr h1 (pf (t_at t) T2') = base;
  j_other : forall q, q <> t_at t -> ptr h1 q = ptr h q /\ size h1 q = size h q
}.

Lemma small_size n : 0 < n -> HDR * n < 2 ^ 36 -> u32 n = n.
Proof. unfold HDR. intros. apply u32_small. lia. Qed.

Section insert.
Context (h : heap) (T1 T2 : list tile) (t : tile) (hi : Z) (I : hinv h (T1 ++ t :: T2) hi) (Ht : t_free t = false).

Let bp := t_at t.
Let p := pf base T1.
Definition join_right : heap :=
  if bp + HDR * size h bp =? ptr h p
  then set_ptr bp (ptr (set_size bp (size h bp + size h (ptr h p)) h) (ptr h p)) (set_size bp (size h bp + size h (ptr h p)) h)
  else set_ptr bp (ptr h p) h.

Lemma join_right_spec : exists t' T2', joined h join_right T1 T2 t t' T2'.
Proof.
  pose proof (hv_tiles _ _ _ I) as HT. pose proof (hv_bound _ _ _ I) as Hb. destruct (around _ _ _ _ HT) as (Hn & Hat & Hend & _ & H2).
  destruct (seg_parts h T1 T2 t hi I Ht) as (_ & Hsz & Hseg). pose proof (last_part h T1 T2 t hi I Ht) as Hlast.
  pose proof (ptr_before h T1 T2 t hi I Ht) as Hnf. unfold join_right, bp, p. rewrite Hsz, Hnf.
  assert (forall u, u ∈ T2 -> t_at u <> t_at t) as Hne by (intros u Hu; destruct (H2 u Hu) as (? & ? & ?); unfold t_end, HDR in *; lia).
  destruct (t_at t + HDR * t_n t =? nf T2) eqn:E; [apply Z.eqb_eq in E|].
  - destruct (nf_cases T2) as [E'|(v & Hv & Hvf & E')]; [unfold HDR in *; lia|]. destruct T2 as [|u T2']; [by apply elem_of_nil in Hv|].
    assert (t_free u = true /\ t_at u = t_end t) as [Hu Hue].
    { apply tiles_app in HT as (mid & _ & _ & _ & Hu1 & Hu2 & Hu3). cbn [nf] in *. destruct (t_free u) eqn:Eu; [done|].
      destruct (nf_cases T2') as [E2|(x & Hx & _ & E2)]; [unfold HDR in *; lia|]. destruct (tiles_in _ _ _ _ Hu3 Hx) as (? & _). unfold t_end, HDR in *. lia. }
    cbn [nf] in *. rewrite Hu in *. cbn [fseg pf] in Hseg, Hlast. rewrite Hu in Hseg, Hlast. destruct Hseg as (Hus & Hup & Hseg).
    destruct (H2 u) as (? & ? & Hue2); [left|].
    assert (u32 (t_n t + size h (t_at u)) = t_n t + t_n u) as Hu32 by (rewrite Hus; apply small_size; unfold t_end, HDR in *; lia).
    exists (mkTile (t_at t) (t_n t + t_n u) true), T2'.
    assert (ptr h (t_at u) = nf T2') as Hun by (by apply next_free).
    split; cbn [t_at t_n t_free]; try done; [lia|..].
    + unfold alloc. by rewrite filter_cons_False by congruence.
    + intros hi' (_ & _ & H'). unfold t_end in *. cbn. by replace (t_at t + HDR * (t_n t + t_n u)) with (t_at u + HDR * t_n u) by (unfold HDR in *; lia).
    + autorewrite with heap. by rewrite decide_True.
    + autorewrite with heap. by rewrite decide_True.
    + apply (fseg_relink h _ (t_at u)); [done|done| |autorewrite with heap; by rewrite decide_True].
      intros x Hx. autorewrite with heap. rewrite !decide_False by (apply Hne; by right). done.
    + intros q Hq. autorewrite with heap. by rewrite !decide_False.
  - exists (mkTile (t_at t) (t_n t) true), T2. split; cbn [t_at t_n t_free]; try done.
    + by autorewrite with heap.
    + autorewrite with heap. by rewrite decide_True.
    + apply (fseg_relink h _ (pf base T1)); [done|done| |autorewrite with heap; by rewrite decide_True].
      intros x Hx. autorewrite with heap. rewrite !decide_False by (by apply Hne). done.
    + intros q Hq. autorewrite with heap. by rewrite !decide_False.
Qed.

(** The rest of the joining, without and with the block before. *)
Lemma link_only h1 t' T2' :
  joined h h1 T1 T2 t t' T2' -> hinv (set_freep p (set_ptr p bp h1)) (T1 ++ t' :: T2') hi.
Proof.
  intros J. pose proof (hv_tiles _ _ _ I) as HT. destruct (around _ _ _ _ HT) as (Hn & Hat & Hend & H1 & H2).
  destruct (seg_parts h T1 T2 t hi I Ht) as (Hseg1 & _ & _). pose proof (pf_before _ _ _ _ T1 [] HT ltac:(by rewrite app_nil_r)) as Hp. fold p in Hp.
  apply tiles_app in HT as (mid & HT1 & Hmid & _ & HT2). pose proof (j_tiles _ _ _ _ _ _ _ J hi HT2) as HT2'.
  assert (forall x, x ∈ T2' -> bp < t_at x) as H2'.
  { intros x Hx. destruct (tiles_in _ _ _ _ HT2' Hx) as (? & _). pose proof (j_n _ _ _ _ _ _ _ J). unfold t_end, bp, HDR in *. rewrite (j_at _ _ _ _ _ _ _ J) in *. lia. }
  destruct (fseg_relink h1 (set_freep p (set_ptr p bp h1)) bp bp T2' (proj1 (j_seg _ _ _ _ _ _ _ J)) (proj2 (j_seg _ _ _ _ _ _ _ J))) as [S1 S2].
  { intros x Hx. specialize (H2' x Hx). autorewrite with heap. rewrite decide_False by (unfold bp in *; lia). done. }
  { autorewrite with heap. rewrite decide_False by (unfold bp; lia). apply (j_ptr _ _ _ _ _ _ _ J). }
  split.
  - apply tiles_app. exists mid. split; [done|]. cbn. rewrite (j_at _ _ _ _ _ _ _ J). pose proof (j_n _ _ _ _ _ _ _ J). split_and!; [done|lia|done].
  - apply fseg_app. split.
    + apply (fseg_ext h); [..|by eapply tiles_nodup|done].
      * intros x Hx. autorewrite with heap. destruct (H1 x Hx) as (? & ? & ?). apply (j_other _ _ _ _ _ _ _ J). unfold t_end, HDR in *. lia.
      * intros q Hq Hqp. autorewrite with heap. rewrite decide_False by done. apply (j_other _ _ _ _ _ _ _ J). fold bp.
        destruct Hq as [->|(x & -> & Hx)%list_elem_of_fmap]; [unfold HDR, bp in *; lia|]. destruct (H1 x Hx) as (? & ? & ?). unfold t_end, HDR, bp in *. lia.
      * intros x Hx _. destruct (H1 x Hx) as (? & _). unfold HDR in *. lia.
    + cbn [fseg]. rewrite (j_free _ _ _ _ _ _ _ J), (j_at _ _ _ _ _ _ _ J). autorewrite with heap. fold p. rewrite decide_True by done.
      split_and!; [apply (j_size _ _ _ _ _ _ _ J)|done|exact S1].
  - rewrite pf_app. cbn [pf]. rewrite (j_free _ _ _ _ _ _ _ J), (j_at _ _ _ _ _ _ _ J). exact S2.
  - autorewrite with heap. rewrite <- (hv_base _ _ _ I). apply (j_other _ _ _ _ _ _ _ J). unfold HDR in *. lia.
  - exists T1, (t' :: T2'). done.
  - apply I.
Qed.

Lemma merge_left h1 t' T2' u Ta :
  joined h h1 T1 T2 t t' T2' -> T1 = Ta ++ [u] -> t_free u = true -> t_end u = bp ->
  hinv (set_freep (t_at u) (set_ptr (t_at u) (ptr h1 bp) (set_size (t_at u) (t_n u + t_n t') h1)))
    (Ta ++ mkTile (t_at u) (t_n u + t_n t') true :: T2') hi.
Proof.
  intros J E Hu Hue. set (h2 := set_freep _ _). pose proof (hv_tiles _ _ _ I) as HT. pose proof (hv_bound _ _ _ I) as Hb.
  destruct (seg_parts h T1 T2 t hi I Ht) as (Hseg1 & _ & _). rewrite E in Hseg1. apply fseg_app in Hseg1 as [HsegA (Hus & Hup & _)%fseg_cons_free]; [|done].
  rewrite E, <- app_assoc in HT. cbn [app] in HT. destruct (around _ _ _ _ HT) as (Hun & Huat & _ & HA & _).
  pose proof (pf_before _ _ _ _ Ta [] HT ltac:(by rewrite app_nil_r)) as Hp.
  apply tiles_app in HT as (mid & HTA & Hmid & _ & _ & Htn & HT2). pose proof (j_tiles _ _ _ _ _ _ _ J hi HT2) as HT2'. pose proof (tiles_le _ _ _ HT2') as Hle.
  pose proof (j_n _ _ _ _ _ _ _ J) as Hjn. pose proof (j_at _ _ _ _ _ _ _ J) as Hja.
  assert (t_at u < bp) as Hub by (unfold t_end, HDR in *; lia).
  assert (forall x, x ∈ T2' -> bp < t_at x) as H2'.
  { intros x Hx. destruct (tiles_in _ _ _ _ HT2' Hx) as (? & _). unfold t_end, bp, HDR in *. rewrite Hja in *. lia. }
  assert (u32 (t_n u + t_n t') = t_n u + t_n t') as Hu32 by (apply small_size; unfold t_end, HDR, bp in *; rewrite Hja in *; lia).
  destruct (fseg_relink h1 h2 bp (t_at u) T2' (proj1 (j_seg _ _ _ _ _ _ _ J)) (proj2 (j_seg _ _ _ _ _ _ _ J))) as [S1 S2].
  { intros x Hx. specialize (H2' x Hx). unfold h2. autorewrite with heap. rewrite !decide_False by lia. done. }
  { unfold h2. autorewrite with heap. rewrite decide_True by done. apply (j_ptr _ _ _ _ _ _ _ J). }
  assert (forall q, q <> t_at u -> q <> bp -> ptr h2 q = ptr h q /\ size h2 q = size h q) as Hoth.
  { intros q Hq1 Hq2. unfold h2. autorewrite with heap. rewrite !decide_False by done. by apply (j_other _ _ _ _ _ _ _ J). }
  split.
  - apply tiles_app. exists mid. split; [done|]. cbn. split_and!; [done|lia|]. unfold t_end in *. cbn. rewrite Hja in *.
    by replace (t_at u + HDR * (t_n u + t_n t')) with (t_at t + HDR * t_n t') by (unfold bp, HDR in *; lia).
  - apply fseg_app. split.
    + apply (fseg_ext h); [..|by eapply tiles_nodup|done].
      * intros x Hx. destruct (HA x Hx) as (? & ? & ?). apply Hoth; unfold t_end, HDR in *; lia.
      * intros q Hq _. apply Hoth; destruct Hq as [->|(x & -> & Hx)%list_elem_of_fmap]; try (unfold HDR in *; lia); destruct (HA x Hx) as (? & ? & ?); unfold t_end, HDR in *; lia.
      * intros x Hx _. destruct (HA x Hx) as (? & _). unfold HDR in *. lia.
    + cbn [fseg t_at t_n t_free]. split_and!; [unfold h2; autorewrite with heap; by rewrite decide_True| |exact S1]. rewrite (proj1 (Hoth (pf base Ta) ltac:(lia) ltac:(lia))). done.
  - rewrite pf_app. cbn [pf t_free t_at]. exact S2.
  - rewrite <- (hv_base _ _ _ I). apply Hoth; unfold HDR in *; lia.
  - exists (Ta ++ [mkTile (t_at u) (t_n u + t_n t') true]), T2'. rewrite <- app_assoc. split; [done|]. rewrite pf_app. done.
  - done.
Qed.

(** The block before is joined only if it is the tile just before. *)
Lemma left_tile : p + HDR * size h p = bp -> exists Ta u, T1 = Ta ++ [u] /\ t_free u = true /\ t_end u = bp /\ p = t_at u /\ size h p = t_n u.
Proof.
  intros E. pose proof (hv_tiles _ _ _ I) as HT. destruct (around _ _ _ _ HT) as (Hn & Hat & _ & H1 & _).
  destruct (seg_parts h T1 T2 t hi I Ht) as (Hseg & _ & _). unfold p in *. destruct (pf_split base T1) as [[Ep _]|(Ta & u & Tb & ET & Hu & Ep & Hb)]; rewrite Ep in *.
  - rewrite (hv_base _ _ _ I) in E. unfold HDR, bp in *. lia.
  - rewrite ET in Hseg. apply fseg_app in Hseg as [_ (Hus & _)%fseg_cons_free]; [|done]. rewrite Hus in E.
    assert (Tb = []) as ->; [|exists Ta, u; by rewrite ET; split_and!].
    destruct Tb as [|x Tb]; [done|]. exfalso. rewrite ET, <- app_assoc in HT. cbn [app] in HT. destruct (around _ _ _ _ HT) as (_ & _ & _ & _ & HA).
    destruct (HA x) as (? & ? & _); [left|]. destruct (H1 x) as (_ & _ & ?); [rewrite ET; set_solver|]. unfold t_end, HDR, bp in *. lia.
Qed.

Lemma free_insert_spec :
  exists T', hinv (free_insert bp p h) T' hi /\ alloc T' = alloc T1 ++ alloc T2 /\ exists v, v ∈ T' /\ t_free v = true /\ t_n t <= t_n v.
Proof.
  destruct join_right_spec as (t' & T2' & J). pose proof (j_n _ _ _ _ _ _ _ J) as Hn. pose proof (j_free _ _ _ _ _ _ _ J) as Hf.
  pose proof (hv_tiles _ _ _ I) as HT. destruct (around _ _ _ _ HT) as (Htn & Hat & _ & H1 & _).
  pose proof (pf_before _ _ _ _ T1 [] HT ltac:(by rewrite app_nil_r)) as Hp. fold p in Hp.
  destruct (j_other _ _ _ _ _ _ _ J p) as [_ Hsp]; [lia|].
  change (free_insert bp p h) with (set_freep p (if p + HDR * size join_right p =? bp
    then set_ptr p (ptr (set_size p (size join_right p + size join_right bp) join_right) bp) (set_size p (size join_right p + size join_right bp) join_right)
    else set_ptr p bp join_right)).
  rewrite ptr_set_size, Hsp. destruct (p + HDR * size h p =? bp) eqn:E.
  - apply Z.eqb_eq, left_tile in E as (Ta & u & ET & Hu & Hue & Epu & Hus). pose proof (j_size _ _ _ _ _ _ _ J) as Hjs. fold bp in Hjs. rewrite Hus, Hjs, Epu.
    exists (Ta ++ mkTile (t_at u) (t_n u + t_n t') true :: T2'). split_and!; [by apply merge_left| |].
    + rewrite ET, !alloc_app. unfold alloc at 2 4. rewrite filter_cons_False, filter_cons_False by (cbn; congruence). cbn [filter list_filter].
      rewrite app_nil_r. f_equal. apply (j_alloc _ _ _ _ _ _ _ J).
    + exists (mkTile (t_at u) (t_n u + t_n t') true). split_and!; [set_solver|done|]. cbn. destruct (H1 u) as (_ & ? & _); [rewrite ET; set_solver|]. lia.
  - exists (T1 ++ t' :: T2'). split_and!; [by apply link_only| |].
    + rewrite alloc_app. f_equal. unfold alloc at 1. rewrite filter_cons_False by congruence. apply (j_alloc _ _ _ _ _ _ _ J).
    + exists t'. split_and!; [set_solver|done|done].
Qed.

Lemma free_spec :
  exists h' T', (forall fuel, (2 * length (T1 ++ t :: T2) < fuel)%nat -> free fuel (bp + HDR) h = Some h') /\ hinv h' T' hi /\
    alloc T' = alloc T1 ++ alloc T2 /\ exists v, v ∈ T' /\ t_free v = true /\ t_n t <= t_n v.
Proof.
  destruct free_insert_spec as (T' & H). exists (free_insert bp p h), T'. split; [|done]. intros fuel Hf. unfold free.
  replace (bp + HDR - HDR) with bp by lia. unfold bp. by rewrite (free_loop_spec h T1 T2 t hi I Ht fuel Hf).
Qed.
End insert.

(** ** Taking a block *)

Section carve.
Context (h : heap) (T1 T2 : list tile) (t : tile) (hi n : Z) (I : hinv h (T1 ++ t :: T2) hi) (Ht : t_free t = true) (Hn : 0 < n <= t_n t).

Lemma carve_spec :
  exists q T', fst (carve n (pf base T1) (t_at t) h) = q + HDR /\ hinv (snd (carve n (pf base T1) (t_at t) h)) T' hi /\
    alloc T' = alloc T1 ++ mkTile q n false :: alloc T2.
Proof.
  pose proof (hv_tiles _ _ _ I) as HT. pose proof (hv_bound _ _ _ I) as Hb. destruct (around _ _ _ _ HT) as (Htn & Hat & Hend & H1 & H2).
  pose proof (hv_seg _ _ _ I) as Hs. apply fseg_app in Hs as [Hs1 (Hts & Htp & Hs2)%fseg_cons_free]; [|done].
  pose proof (hv_last _ _ _ I) as Hl. rewrite pf_app in Hl. cbn [pf] in Hl. rewrite Ht in Hl.
  pose proof (pf_before _ _ _ _ T1 [] HT ltac:(by rewrite app_nil_r)) as Hp. apply tiles_app in HT as (mid & HT1 & Hmid & _ & HT2).
  unfold carve. rewrite Hts. destruct (t_n t =? n) eqn:E; cbn [fst snd].
  - apply Z.eqb_eq in E. exists (t_at t), (T1 ++ mkTile (t_at t) n false :: T2). split_and!; [done| |].
    + set (h' := set_freep _ _).
      assert (forall q, q <> pf base T1 -> ptr h' q = ptr h q) as Hq by (intros q Hq; unfold h'; autorewrite with heap; by rewrite decide_False).
      assert (forall q, size h' q = size h q) as Hz by (intros q; unfold h'; by autorewrite with heap).
      destruct (fseg_relink h h' (t_at t) (pf base T1) T2 Hs2 Hl) as [S1 S2].
      { intros x Hx. destruct (H2 x Hx) as (? & ? & ?). split; [done|]. apply Hq. unfold t_end, HDR in *. lia. }
      { unfold h'. autorewrite with heap. rewrite decide_True by done. by apply next_free. }
      split.
      * apply tiles_app. exists mid. split; [done|]. cbn. unfold t_end in *. cbn. rewrite <- E. by split_and!.
      * apply fseg_app. split; [apply (fseg_ext h); [done|intros; by apply Hq| |by eapply tiles_nodup|done]|].
        { intros x Hx _. destruct (H1 x Hx) as (? & _). unfold HDR in *. lia. }
        cbn [fseg t_free t_at t_n]. rewrite Hz. by split; [congruence|].
      * rewrite pf_app. exact S2.
      * rewrite Hz. apply I.
      * exists T1, (mkTile (t_at t) n false :: T2). done.
      * done.
    + by rewrite alloc_app.
  - apply Z.eqb_neq in E. autorewrite with heap. rewrite decide_True by done. rewrite small_size by (unfold t_end, HDR in *; lia).
    set (q := t_at t + HDR * (t_n t - n)). exists q, (T1 ++ mkTile (t_at t) (t_n t - n) true :: mkTile q n false :: T2). split_and!; [done| |].
    + set (h' := set_freep _ _). assert (t_at t < q /\ q + HDR * n = t_end t) as [Hq1 Hq2] by (unfold q, t_end, HDR; lia).
      assert (forall x, ptr h' x = ptr h x) as Hpt by (intros x; unfold h'; by autorewrite with heap).
      assert (forall x, x <> t_at t -> x <> q -> size h' x = size h x) as Hz by (intros x ? ?; unfold h'; autorewrite with heap; by rewrite !decide_False).
      assert (size h' (t_at t) = t_n t - n /\ size h' q = n) as [Z1 Z2].
      { unfold h'. autorewrite with heap. rewrite (decide_False (P := t_at t = q)), !decide_True by (done || lia). split; apply small_size; unfold t_end, HDR in *; lia. }
      destruct (fseg_relink h h' (t_at t) (t_at t) T2 Hs2 Hl) as [S1 S2].
      { intros x Hx. destruct (H2 x Hx) as (? & ? & ?). split; [|done]. apply Hz; unfold t_end, HDR in *; lia. }
      { rewrite Hpt. by apply next_free. }
      split.
      * apply tiles_app. exists mid. split; [done|]. cbn. unfold t_end in *. cbn. fold q. rewrite Hq2. split_and!; [done|lia|lia|lia|done].
      * apply fseg_app. split; [apply (fseg_ext h); [|done| |by eapply tiles_nodup|done]|].
        { intros x Hx. destruct (H1 x Hx) as (? & ? & ?). apply Hz; unfold t_end, HDR in *; lia. }
        { intros x Hx _. destruct (H1 x Hx) as (? & _). unfold HDR in *. lia. }
        cbn [fseg t_free t_at t_n]. rewrite Hpt. by split_and!.
      * rewrite pf_app. cbn [pf t_free t_at]. exact S2.
      * rewrite Hz; [apply I|unfold HDR in *; lia..].
      * exists T1, (mkTile (t_at t) (t_n t - n) true :: mkTile q n false :: T2). done.
      * done.
    + by rewrite alloc_app.
Qed.
End carve.

(** ** The search of [malloc] *)

Definition frees (T : list tile) : list Z := t_at <$> filter (fun t => t_free t = true) T.

Fixpoint path (h : heap) (p : Z) (V : list Z) : Prop :=
  match V with [] => True | q :: V' => ptr h p = q /\ path h q V' end.
Fixpoint first_fit (h : heap) (n p : Z) (V : list Z) : option (Z * Z) :=
  match V with [] => None | q :: V' => if n <=? size h q then Some (p, q) else first_fit h n q V' end.

Lemma path_app h p V V' : path h p (V ++ V') <-> path h p V /\ path h (List.last V p) V'.
Proof.
  revert p. induction V as [|q V IH]; intros p; cbn [app path List.last]; [tauto|]. rewrite IH. destruct V as [|q' V]; [cbn; tauto|].
  assert (List.last (q' :: V) p = List.last (q' :: V) q) as -> by (clear; revert q'; induction V as [|x V IH]; intros q'; [done|]; cbn in *; apply IH). tauto.
Qed.
Lemma first_fit_app h n p V V' :
  first_fit h n p (V ++ V') = match first_fit h n p V with Some r => Some r | None => first_fit h n (List.last V p) V' end.
Proof.
  revert p. induction V as [|q V IH]; intros p; cbn [app first_fit]; [done|]. destruct (n <=? size h q); [done|]. rewrite IH.
  destruct (first_fit h n q V); [done|]. f_equal. destruct V as [|q' V]; [done|].
  clear. cbn [List.last]. revert q'. induction V as [|x V IH]; intros q'; [done|]. cbn in *. apply IH.
Qed.

Lemma frees_path h p T : fseg h p T -> path h p (frees T) /\ List.last (frees T) p = pf p T.
Proof.
  revert p. induction T as [|t T IH]; intros p; cbn [fseg pf]; [done|]. unfold frees. destruct (t_free t) eqn:Et; intros [Hs H].
  - destruct H as [Hp H]. rewrite filter_cons_True by done. cbn [fmap list_fmap path]. destruct (IH _ H) as [H1 H2]. split; [done|].
    rewrite <- H2. fold (frees T). destruct (frees T) as [|x V]; [done|]. clear. cbn [List.last]. revert x. induction V as [|y V IH]; intros x; [done|]. cbn in *. apply IH.
  - rewrite filter_cons_False by congruence. by apply IH.
Qed.

Lemma frees_fit h p T n a b : fseg h p T -> first_fit h n p (frees T) = Some (a, b) ->
  exists T1 t T2, T = T1 ++ t :: T2 /\ t_free t = true /\ a = pf p T1 /\ b = t_at t /\ n <= t_n t.
Proof.
  revert p. induction T as [|t T IH]; intros p; cbn [fseg]; [done|]. unfold frees. destruct (t_free t) eqn:Et; intros [Hs H].
  - destruct H as [Hp H]. rewrite filter_cons_True by done. cbn [fmap list_fmap first_fit]. rewrite Hs. destruct (n <=? t_n t) eqn:E.
    + apply Z.leb_le in E. intros [= <- <-]. by exists [], t, T.
    + intros Hf. destruct (IH _ H Hf) as (T1 & u & T2 & -> & Hu & -> & -> & Hn). exists (t :: T1), u, T2. cbn [pf]. rewrite Et. by split_and!.
  - rewrite filter_cons_False by congruence. intros Hf. destruct (IH _ H Hf) as (T1 & u & T2 & -> & Hu & -> & -> & Hn). exists (t :: T1), u, T2. cbn [pf]. rewrite Et. by split_and!.
Qed.
Lemma fit_exists h p n V q : q ∈ V -> n <= size h q -> first_fit h n p V <> None.
Proof.
  revert p. induction V as [|x V IH]; intros p Hq Hn; [by apply elem_of_nil in Hq|]. cbn [first_fit]. destruct (n <=? size h x) eqn:E; [done|].
  apply elem_of_cons in Hq as [->|Hq]; [apply Z.leb_gt in E; lia|by apply IH].
Qed.
Lemma frees_size h p T t : fseg h p T -> t ∈ T -> size h (t_at t) = t_n t.
Proof.
  revert p. induction T as [|u T IH]; intros p Hs Ht; [by apply elem_of_nil in Ht|]. destruct Hs as [Hsz Hs].
  apply elem_of_cons in Ht as [->|Ht]; [done|]. destruct (t_free u); [destruct Hs as [_ Hs]|]; by eapply IH.
Qed.

Lemma frees_nodup l T hi : tiles l T hi -> NoDup (frees T).
Proof.
  unfold frees. intros HT%tiles_nodup. induction T as [|t T IH]; [constructor|]. cbn [fmap list_fmap] in HT. apply NoDup_cons in HT as [Hn HT].
  destruct (t_free t) eqn:Et; [rewrite filter_cons_True by done|rewrite filter_cons_False by congruence; by apply IH].
  cbn [fmap list_fmap]. constructor; [|by apply IH]. intros (u & E & Hu)%list_elem_of_fmap. apply list_elem_of_filter in Hu as [_ Hu]. apply Hn, list_elem_of_fmap. by exists u.
Qed.

(** The blocks in the order the search visits them: once round the ring,
    [freep] last. *)
Definition visits (T1 T2 : list tile) : list Z := frees T2 ++ base :: frees T1.

Section search.
Context (h : heap) (T1 T2 : list tile) (hi : Z) (I : hinv h (T1 ++ T2) hi) (Hfp : h_freep h = pf base T1).

Lemma visits_path : path h (pf base T1) (visits T1 T2).
Proof.
  pose proof (hv_seg _ _ _ I) as Hs. apply fseg_app in Hs as [Hs1 Hs2]. destruct (frees_path _ _ _ Hs1) as [P1 _], (frees_path _ _ _ Hs2) as [P2 E2].
  apply path_app. split; [done|]. rewrite E2. cbn [path]. split; [|done]. rewrite <- pf_app. apply I.
Qed.

Lemma visits_fit n a b : 0 < n -> first_fit h n (pf base T1) (visits T1 T2) = Some (a, b) ->
  exists Ta t Tb, T1 ++ T2 = Ta ++ t :: Tb /\ t_free t = true /\ a = pf base Ta /\ b = t_at t /\ n <= t_n t.
Proof.
  intros Hn. pose proof (hv_seg _ _ _ I) as Hs. apply fseg_app in Hs as [Hs1 Hs2]. unfold visits. rewrite first_fit_app.
  destruct (first_fit h n (pf base T1) (frees T2)) as [[a' b']|] eqn:E.
  - intros [= -> ->]. destruct (frees_fit _ _ _ _ _ _ Hs2 E) as (Ta & t & Tb & -> & Ht & -> & -> & Hnt). exists (T1 ++ Ta), t, Tb.
    rewrite <- app_assoc, pf_app. by split_and!.
  - cbn [first_fit]. rewrite (hv_base _ _ _ I), (proj2 (Z.leb_gt _ _)) by lia. intros E1.
    destruct (frees_fit _ _ _ _ _ _ Hs1 E1) as (Ta & t & Tb & -> & Ht & -> & -> & Hnt). exists Ta, t, (Tb ++ T2). rewrite <- app_assoc. by split_and!.
Qed.

Lemma visits_complete n t : t ∈ T1 ++ T2 -> t_free t = true -> n <= t_n t -> first_fit h n (pf base T1) (visits T1 T2) <> None.
Proof.
  intros Ht Hf Hn. apply (fit_exists _ _ _ _ (t_at t)); [|by rewrite (frees_size _ _ _ _ (hv_seg _ _ _ I) Ht)].
  unfold visits, frees. rewrite elem_of_app, elem_of_cons, !list_elem_of_fmap. rewrite elem_of_app in Ht.
  destruct Ht as [Ht|Ht]; [right; right|left]; exists t; (split; [done|by apply list_elem_of_filter]).
Qed.

Lemma visits_last : exists V, visits T1 T2 = V ++ [h_freep h] /\ (h_freep h ∉ V).
Proof.
  pose proof (hv_tiles _ _ _ I) as HT. pose proof (hv_seg _ _ _ I) as Hs. apply fseg_app in Hs as [Hs1 Hs2].
  destruct (frees_path _ _ _ Hs1) as [_ E1]. rewrite Hfp. destruct (tiles_app lo T1 T2 hi) as [H _]. destruct (H HT) as (mid & HT1 & HT2).
  assert (forall x, x ∈ frees T2 -> mid <= x) as B2.
  { intros x (t & -> & Ht)%list_elem_of_fmap. apply list_elem_of_filter in Ht as [_ Ht]. by apply (tiles_in _ _ _ _ HT2). }
  assert (forall x, x ∈ frees T1 -> lo <= x < mid) as B1.
  { intros x (t & -> & Ht)%list_elem_of_fmap. apply list_elem_of_filter in Ht as [_ Ht]. destruct (tiles_in _ _ _ _ HT1 Ht) as (? & ? & ?). unfold t_end, HDR in *. lia. }
  pose proof (tiles_le _ _ _ HT1). unfold HDR in Hlo. destruct (exists_last_or_nil (frees T1)) as [E|(V & x & E)]; rewrite E in *.
  - exists (frees T2). cbn in E1. rewrite <- E1. unfold visits. rewrite E. split; [done|]. intros Hx%B2. lia.
  - rewrite List.last_last in E1. subst x. exists (frees T2 ++ base :: V). unfold visits. rewrite E. split; [by rewrite <- app_assoc|].
    rewrite elem_of_app, elem_of_cons. destruct (B1 (pf base T1)) as [? ?]; [set_solver|]. intros [Hx%B2|[?|Hx]]; [lia|lia|].
    assert (NoDup (frees T1)) as Hnd.
    { by eapply frees_nodup. }
    rewrite E in Hnd. apply NoDup_app in Hnd as (_ & Hnd & _). apply (Hnd _ Hx). left.
Qed.
End search.

(** ** [morecore] and [malloc] *)

Lemma hinv_grow h T hi hi' : hinv h T hi -> hi <= hi' < 2 ^ 36 -> hinv h T hi'.
Proof. intros [] ?. split; [by eapply tiles_weaken; [done|lia..]|done..|lia]. Qed.

(** A fresh block at the end of the heap. *)
Lemma hinv_extend h T hi n : hinv h T hi -> 0 < n -> hi + HDR * n < 2 ^ 36 ->
  hinv (set_size hi n h) (T ++ [mkTile hi n false]) (hi + HDR * n).
Proof.
  intros I Hn Hb. pose proof (hv_tiles _ _ _ I) as HT. pose proof (tiles_le _ _ _ HT). unfold HDR in *.
  assert (0 <= base < 2 ^ 36 /\ 0 <= lo < 2 ^ 36) as ? by lia.
  assert (forall q, ptr (set_size hi n h) q = ptr h q) as Hp by (intros; apply ptr_set_size).
  assert (forall q, q <> hi -> size (set_size hi n h) q = size h q) as Hs by (intros q ?; rewrite size_set_size; by rewrite decide_False).
  assert (pf base (T ++ [mkTile hi n false]) = pf base T) as Epf by by rewrite pf_app.
  split.
  - apply tiles_app. exists hi. split; [done|]. cbn. unfold t_end, HDR. cbn. split_and!; lia.
  - apply fseg_app. split.
    + apply (fseg_ext h); [|done|..|by eapply tiles_nodup|apply I].
      * intros t Ht. destruct (tiles_in _ _ _ _ HT Ht) as (? & ? & ?). unfold t_end, HDR in *. apply Hs. lia.
      * intros t Ht _. destruct (tiles_in _ _ _ _ HT Ht) as (? & ? & ?). lia.
    + cbn. split; [|done]. rewrite size_set_size, decide_True by done. unfold u32. apply Z.mod_small. lia.
  - rewrite Epf, Hp. apply I.
  - rewrite Hs by lia. apply I.
  - destruct (hv_freep _ _ _ I) as (T1 & T2 & -> & E). exists T1, (T2 ++ [mkTile hi n false]). by rewrite app_assoc.
  - lia.
Qed.

Section malloc.
Context {W : Type} `{!Sys W} (brk : W -> Z) `{!Brk W brk} (Hlo36 : lo < 2 ^ 36).

Lemma morecore_spec h T hi n w : hinv h T hi -> hi <= brk w -> 0 < n -> HDR * n < 2 ^ 31 ->
  (exists w', (forall fuel, morecore fuel n h w = URet (0, h) w') /\ brk w' = brk w) \/
  (exists h' T' w' F, (forall fuel, (F < fuel)%nat -> morecore fuel n h w = URet (h_freep h', h') w') /\ hinv h' T' (brk w') /\ brk w <= brk w' /\
    alloc T' = alloc T /\ exists v, v ∈ T' /\ t_free v = true /\ n <= t_n v).
Proof.
  intros I Hhi Hn Hb. unfold morecore. pose (nu := if n <? 4096 then 4096 else n). assert (n <= nu /\ 0 < nu /\ HDR * nu < 2 ^ 31) as (Hnu & Hnu0 & Hnu1).
  { unfold nu. destruct (n <? 4096) eqn:E; [apply Z.ltb_lt in E|]; unfold HDR in *; lia. }
  fold nu. assert (s32 (nu * HDR) = HDR * nu) as -> by (rewrite s32_small; unfold HDR in *; lia).
  unfold sbrk, ubind. destruct (brk_sbrk (HDR * nu) w) as (r & w' & -> & [[-> Hw]|(-> & Hw & Hlt)]); [unfold HDR; lia|left; by exists w'|right].
  assert (0 < brk w) as Hpos by (pose proof (tiles_le _ _ _ (hv_tiles _ _ _ I)); unfold HDR in *; lia).
  rewrite (proj2 (Z.eqb_neq _ _)) by lia. pose proof (hinv_grow _ _ _ (brk w) I ltac:(unfold HDR in *; lia)) as I'.
  pose proof (hinv_extend _ _ _ nu I' Hnu0 ltac:(lia)) as I2. destruct (free_spec _ _ [] _ _ I2 eq_refl) as (h' & T' & Hf & I3 & Ha & v & Hv & Hvf & Hvn).
  cbn [t_at t_n] in *. exists h', T', w'. eexists. split_and!; [|by rewrite Hw|unfold HDR in *; lia|rewrite Ha; by rewrite app_nil_r|exists v; split_and!; [done|done|lia]].
  intros fuel Hfu. rewrite (Hf _ Hfu). done.
Qed.

(** The search, once round the ring. *)
Definition more (fuel : nat) (n : Z) (h : heap) : U W (Z * heap) :=
  r <- morecore fuel n h ;;
  let '(p', h') := r in
  if p' =? 0 then uret (0, h') else malloc_loop fuel n p' (ptr h' p') h'.

Lemma walk_spec h n V prev fuel w : path h prev (V ++ [h_freep h]) -> h_freep h ∉ V ->
  malloc_loop (S (length V + fuel)) n prev (ptr h prev) h w =
    match first_fit h n prev (V ++ [h_freep h]) with Some (a, b) => URet (carve n a b h) w | None => more fuel n h w end.
Proof.
  revert prev. induction V as [|q V IH]; intros prev; cbn [app path first_fit length].
  - intros [-> _] _. cbn [malloc_loop Nat.add]. destruct (n <=? _); [done|]. by rewrite Z.eqb_refl.
  - intros [-> HV] [Hq Hni]%not_elem_of_cons. cbn [Nat.add]. remember (S (length V + fuel)) as k eqn:Ek. cbn [malloc_loop].
    destruct (n <=? size h q); [done|]. rewrite (proj2 (Z.eqb_neq _ _)) by congruence. subst k. by apply IH.
Qed.

Lemma search_spec h T hi n : hinv h T hi -> 0 < n -> exists F,
  (exists p h' q T' Ta Tb, (forall fuel w, (F <= fuel)%nat -> malloc_loop fuel n (h_freep h) (ptr h (h_freep h)) h w = URet (p, h') w) /\
     p = q + HDR /\ hinv h' T' hi /\ alloc T = Ta ++ Tb /\ alloc T' = Ta ++ mkTile q n false :: Tb) \/
  ((forall v, v ∈ T -> t_free v = true -> ~ n <= t_n v) /\
   forall fuel w, malloc_loop (F + fuel) n (h_freep h) (ptr h (h_freep h)) h w = more fuel n h w).
Proof.
  intros I Hn. destruct (hv_freep _ _ _ I) as (T1 & T2 & -> & Hfp). destruct (visits_last _ _ _ _ I Hfp) as (V & HV & Hni).
  pose proof (visits_path _ _ _ _ I) as Hp. rewrite HV in Hp. exists (S (length V)).
  assert (forall fuel w, malloc_loop (S (length V) + fuel) n (h_freep h) (ptr h (h_freep h)) h w =
    match first_fit h n (pf base T1) (visits T1 T2) with Some (a, b) => URet (carve n a b h) w | None => more fuel n h w end) as Hw.
  { intros fuel w. rewrite Hfp. rewrite HV. by apply walk_spec. }
  destruct (first_fit h n (pf base T1) (visits T1 T2)) as [[a b]|] eqn:E.
  - left. destruct (visits_fit _ _ _ _ I Hfp n a b Hn E) as (Ta & t & Tb & ET & Ht & -> & -> & Hnt). rewrite ET in I.
    destruct (carve_spec _ _ _ _ _ n I Ht ltac:(lia)) as (q & T' & Hq & I' & Ha). destruct (carve n (pf base Ta) (t_at t) h) as [p h'] eqn:Ec. cbn [fst snd] in *.
    exists p, h', q, T', (alloc Ta), (alloc Tb). split_and!; [|done|done| |done].
    + intros fuel w Hf. replace fuel with (S (length V) + (fuel - S (length V)))%nat by lia. by rewrite Hw.
    + rewrite ET, alloc_app. unfold alloc at 2. rewrite filter_cons_False by congruence. done.
  - right. split; [|done]. intros v Hv Hvf Hvn. by apply (visits_complete _ _ _ _ I n v Hv Hvf Hvn).
Qed.

Lemma freep_pos h T hi : hinv h T hi -> 0 < h_freep h.
Proof.
  intros I. destruct (hv_freep _ _ _ I) as (T1 & T2 & -> & ->). destruct (pf_cases base T1) as [->|(t & Ht & _ & ->)]; [done|].
  destruct (tiles_in _ _ _ t (hv_tiles _ _ _ I)) as (? & _); [apply elem_of_app; by left|]. unfold HDR in *. lia.
Qed.

Lemma malloc_loop_spec h T hi n w : hinv h T hi -> hi <= brk w -> 0 < n -> HDR * n < 2 ^ 31 -> exists F p h' w' T' hi',
  (forall fuel, (F <= fuel)%nat -> malloc_loop fuel n (h_freep h) (ptr h (h_freep h)) h w = URet (p, h') w') /\
  hinv h' T' hi' /\ hi' <= brk w' /\
  ((p = 0 /\ alloc T' = alloc T) \/ exists q Ta Tb, p = q + HDR /\ alloc T = Ta ++ Tb /\ alloc T' = Ta ++ mkTile q n false :: Tb).
Proof.
  intros I Hhi Hn Hb. destruct (search_spec h T hi n I Hn) as (F & [(p & h' & q & T' & Ta & Tb & Hm & Hp & I' & Ha)|[_ Hm]]).
  { exists F, p, h', w, T', hi. split_and!; [intros; by apply Hm|done|done|right; by exists q, Ta, Tb]. }
  destruct (morecore_spec h T hi n w I Hhi Hn Hb) as [(w' & Hmore & Hw)|(h1 & T1 & w' & F1 & Hmore & I1 & Hw & Ha & v & Hv & Hvf & Hvn)].
  { exists F, 0, h, w', T, hi. split_and!; [|done|lia|by left]. intros fuel Hf. replace fuel with (F + (fuel - F))%nat by lia. rewrite Hm.
    unfold more, ubind. by rewrite Hmore. }
  destruct (search_spec h1 T1 _ n I1 Hn) as (F2 & [(p & h' & q & T' & Ta & Tb & Hm2 & Hp & I' & Ha')|[Hno _]]); [|by destruct (Hno v)].
  exists (F + S F1 + F2)%nat, p, h', w', T', (brk w'). split_and!; [|done|lia|right; exists q, Ta, Tb; by rewrite <- Ha].
  intros fuel Hf. replace fuel with (F + (fuel - F))%nat by lia. rewrite Hm. unfold more, ubind. rewrite Hmore by lia.
  rewrite (proj2 (Z.eqb_neq _ _)) by (pose proof (freep_pos _ _ _ I1); lia). apply Hm2. lia.
Qed.

(** ** The states of a program that calls [malloc] and [free] *)

Definition block_tile (b : Z * Z) : tile := mkTile (b.1 - HDR) (malloc_units b.2) false.
(** The live blocks, each with the size it was asked for. *)
Definition um_inv (h : heap) (w : W) (live : list (Z * Z)) : Prop :=
  Forall (fun b => 0 <= b.2 < 2 ^ 31 - 32) live /\
  ((h_freep h = 0 /\ live = [] /\ lo <= brk w) \/
   exists T hi, hinv h T hi /\ hi <= brk w /\ alloc T ≡ₚ block_tile <$> live).

Lemma malloc_units_bounds nbytes : 0 <= nbytes < 2 ^ 31 - 32 ->
  0 < malloc_units nbytes /\ HDR * malloc_units nbytes < 2 ^ 31 /\ nbytes + HDR <= HDR * malloc_units nbytes.
Proof.
  intros H. unfold malloc_units. pose proof (Z.div_mod (nbytes + HDR - 1) HDR). pose proof (Z.mod_pos_bound (nbytes + HDR - 1) HDR). unfold HDR in *.
  rewrite u32_small by lia. lia.
Qed.

(** What the functions return, whatever the fuel once there is enough. *)
Definition malloc_returns (nbytes : Z) (h : heap) (w : W) (p : Z) (h' : heap) (w' : W) : Prop :=
  exists F, forall fuel, (F <= fuel)%nat -> malloc base fuel nbytes h w = URet (p, h') w'.
Definition free_returns (p : Z) (h h' : heap) : Prop := exists F, forall fuel, (F <= fuel)%nat -> free fuel p h = Some h'.

Lemma um_malloc h w live nbytes : um_inv h w live -> 0 <= nbytes < 2 ^ 31 - 32 -> exists p h' w',
  malloc_returns nbytes h w p h' w' /\ um_inv h' w' (if p =? 0 then live else (p, nbytes) :: live).
Proof.
  intros [HF H] Hb. destruct (malloc_units_bounds nbytes Hb) as (Hu & Hu1 & _). unfold malloc_returns, malloc.
  pose (h0 := if h_freep h =? 0 then set_size base 0 (set_ptr base base (set_freep base h)) else h).
  assert (exists T hi, hinv h0 T hi /\ hi <= brk w /\ alloc T ≡ₚ block_tile <$> live) as (T & hi & I & Hhi & HP).
  { destruct H as [(E & -> & Hlw)|(T & hi & I & Hr)]; unfold h0.
    - rewrite E. cbn [Z.eqb]. exists [], lo. split_and!; [|done|done]. split; cbn [tiles fseg pf]; autorewrite with heap; rewrite ?decide_True by done; [lia|done|done|done|by exists [], []|done].
    - exists T, hi. rewrite (proj2 (Z.eqb_neq _ _)) by (pose proof (freep_pos _ _ _ I); lia). done. }
  destruct (malloc_loop_spec h0 T hi (malloc_units nbytes) w I Hhi Hu Hu1) as (F & p & h' & w' & T' & hi' & Hm & I' & Hhi' & Hp).
  exists p, h', w'. split; [by exists F|]. destruct Hp as [[-> Ha]|(q & Ta & Tb & -> & Ha & Ha')].
  - cbn [Z.eqb]. split; [done|right]. exists T', hi'. by rewrite Ha.
  - assert (mkTile q (malloc_units nbytes) false ∈ T') as Hin.
    { assert (mkTile q (malloc_units nbytes) false ∈ alloc T') as Hin by (rewrite Ha'; set_solver). by apply list_elem_of_filter in Hin as [_ ?]. }
    destruct (tiles_in _ _ _ _ (hv_tiles _ _ _ I') Hin) as (Hq & _). cbn [t_at] in Hq.
    rewrite (proj2 (Z.eqb_neq _ _)) by (unfold HDR in *; lia). split; [by constructor|right]. exists T', hi'. split_and!; [done|done|].
    rewrite Ha'. cbn [fmap list_fmap]. unfold block_tile at 1. cbn [fst snd]. replace (q + HDR - HDR) with q by lia. rewrite <- Permutation_middle, <- Ha. by constructor.
Qed.

Lemma um_free h w live1 b live2 : um_inv h w (live1 ++ b :: live2) -> exists h',
  free_returns b.1 h h' /\ um_inv h' w (live1 ++ live2).
Proof.
  intros [HF H]. destruct H as [(_ & E & _)|(T & hi & I & Hhi & HP)]; [by destruct live1|].
  assert (block_tile b ∈ T) as Hin.
  { assert (block_tile b ∈ alloc T) as Hin by (rewrite HP, fmap_app; set_solver). by apply list_elem_of_filter in Hin as [_ ?]. }
  apply list_elem_of_split in Hin as (T1 & T2 & ->). destruct (free_spec _ _ _ _ _ I eq_refl) as (h' & T' & Hf & I' & Ha & _).
  exists h'. split.
  - eexists. intros fuel Hfu. cbn [block_tile t_at] in Hf. replace b.1 with (b.1 - HDR + HDR) by lia. apply Hf, Nat.le_succ_l, Hfu.
  - apply Forall_app in HF as [HF1 [_ HF2]%Forall_cons]. split; [by apply Forall_app|right]. exists T', hi. split_and!; [done|done|].
    rewrite Ha. rewrite alloc_app in HP. unfold alloc at 2 in HP. rewrite filter_cons_True in HP by done. fold (alloc T2) in HP.
    rewrite fmap_app in HP. cbn [fmap list_fmap] in HP. rewrite <- !Permutation_middle in HP. apply Permutation_cons_inv in HP. by rewrite fmap_app.
Qed.

(** One step of the program: a call of [malloc] or [free], or anything that
    leaves the allocator's memory alone and does not shrink the heap. *)
Inductive mstep : heap * W * list (Z * Z) -> heap * W * list (Z * Z) -> Prop :=
  | ms_malloc nbytes h w live p h' w' :
      0 <= nbytes < 2 ^ 31 - 32 -> malloc_returns nbytes h w p h' w' ->
      mstep (h, w, live) (h', w', if p =? 0 then live else (p, nbytes) :: live)
  | ms_free p nbytes h w live1 live2 h' :
      free_returns p h h' -> mstep (h, w, live1 ++ (p, nbytes) :: live2) (h', w, live1 ++ live2)
  | ms_other h w w' live : brk w <= brk w' -> mstep (h, w, live) (h, w', live).

Lemma mstep_preserves s s' : mstep s s' -> um_inv s.1.1 s.1.2 s.2 -> um_inv s'.1.1 s'.1.2 s'.2.
Proof.
  intros [nbytes h w live p h' w' Hb [F Hm]|p nbytes h w live1 live2 h' [F Hf]|h w w' live Hw] I; cbn [fst snd] in *.
  - destruct (um_malloc h w live nbytes I Hb) as (p1 & h1 & w1 & [F1 Hm1] & I'). specialize (Hm (F + F1)%nat ltac:(lia)).
    rewrite (Hm1 (F + F1)%nat) in Hm by lia. by injection Hm as <- <- <-.
  - destruct (um_free h w live1 (p, nbytes) live2 I) as (h1 & [F1 Hf1] & I'). cbn [fst] in *. specialize (Hf (F + F1)%nat ltac:(lia)).
    rewrite (Hf1 (F + F1)%nat) in Hf by lia. by injection Hf as <-.
  - destruct I as [HF [(? & ? & ?)|(T & hi & ? & ? & ?)]]; (split; [done|]); [left; split_and!; [done|done|lia]|right; exists T, hi; split_and!; [done|lia|done]].
Qed.

Definition heap0 : heap := mkHeap ∅ 0.
Definition apart (b c : Z * Z) : Prop := b.1 + b.2 <= c.1 \/ c.1 + c.2 <= b.1.

Lemma tiles_apart l T hi i j t u : tiles l T hi -> T !! i = Some t -> T !! j = Some u -> (i < j)%nat -> t_end t <= t_at u.
Proof.
  intros HT Hi Hj Hij. apply list_elem_of_split_length in Hi as (T1 & T2 & -> & ->). apply tiles_app in HT as (mid & _ & _ & _ & HT).
  rewrite lookup_app_r in Hj by lia. destruct (j - length T1)%nat as [|k] eqn:E; [lia|]. cbn in Hj. apply list_elem_of_lookup_2 in Hj. by apply (tiles_in _ _ _ _ HT).
Qed.

Lemma um_inv_live h w live : um_inv h w live ->
  (forall i j b c, live !! i = Some b -> live !! j = Some c -> i <> j -> apart b c) /\
  (forall b, b ∈ live -> lo + HDR <= b.1 /\ b.1 + b.2 <= brk w).
Proof.
  intros [HF [(_ & -> & _)|(T & hi & I & Hhi & HP)]]; [split; [done|by intros b ?%elem_of_nil]|]. pose proof (hv_tiles _ _ _ I) as HT.
  assert (exists T' , tiles lo T' hi /\ T' ≡ₚ block_tile <$> live) as (T' & HT' & HP').
  { exists (alloc T). split; [|done]. clear -HT. revert HT. generalize lo. induction T as [|t T IH]; intros l; cbn [tiles]; [done|]. intros (? & ? & H).
    unfold alloc. destruct (t_free t) eqn:E; [rewrite filter_cons_False by congruence|rewrite filter_cons_True by done].
    - apply IH. eapply tiles_weaken; [done|unfold t_end, HDR; lia|done].
    - cbn [tiles]. split_and!; [done|done|by apply IH]. }
  rewrite Forall_forall in HF. split.
  - intros i j b c Hi Hj Hij. symmetry in HP'. apply Permutation_inj in HP' as [_ (g & Hg & Hl)].
    pose proof (Hl i) as Ei. pose proof (Hl j) as Ej. rewrite list_lookup_fmap in Ei, Ej. rewrite Hi in Ei. rewrite Hj in Ej. cbn in Ei, Ej.
    destruct (malloc_units_bounds b.2) as (_ & _ & ?); [apply HF; by eapply list_elem_of_lookup_2|].
    destruct (malloc_units_bounds c.2) as (_ & _ & ?); [apply HF; by eapply list_elem_of_lookup_2|].
    assert (g i <> g j) by (intros ?; by apply Hij, Hg). unfold apart. destruct (decide (g i < g j)%nat).
    + pose proof (tiles_apart _ _ _ _ _ _ _ HT' (eq_sym Ei) (eq_sym Ej) ltac:(lia)) as Ht. unfold t_end, block_tile, HDR in *. cbn [t_at t_n] in Ht. lia.
    + pose proof (tiles_apart _ _ _ _ _ _ _ HT' (eq_sym Ej) (eq_sym Ei) ltac:(lia)) as Ht. unfold t_end, block_tile, HDR in *. cbn [t_at t_n] in Ht. lia.
  - intros b Hb. destruct (malloc_units_bounds b.2) as (_ & _ & ?); [by apply HF|]. assert (block_tile b ∈ T') as Hin by (rewrite HP'; by apply list_elem_of_fmap; exists b).
    destruct (tiles_in _ _ _ _ HT' Hin) as (? & ? & Ht). unfold t_end, block_tile, HDR in *. cbn [t_at t_n] in *. lia.
Qed.
End malloc.
End ring.


#[export] Instance Brk_uworld : Brk uworld w_brk.
Proof.
  intros n w Hn. unfold u_sbrk, Sys_uworld. destruct (w_brk w + n <? 2 ^ 27) eqn:E; [|exists (-1), w; split; [done|by left]].
  apply Z.ltb_lt in E. eexists _, _. split; [reflexivity|right]. split_and!; [done|done|cbn; lia].
Qed.

Ltac enough_fuel := exists 8%nat; intros fuel Hf; do 8 (destruct fuel as [|fuel]; [lia|]); vm_compute; reflexivity.

(** Three calls of [malloc], the first block freed before the third. *)
Module MallocDemo.
Definition base := 4096.
Definition w0 := world0 [] [] 1 [].
Definition result (o : ures uworld (Z * heap)) : Z * heap * uworld := match o with URet (p, h) w => (p, h, w) | _ => (0, heap0, w0) end.
Definition r1 := result (malloc base 10 100 heap0 w0).
Definition r2 := result (malloc base 10 50 r1.1.2 r1.2).
Definition h3 := default heap0 (free 10 r1.1.1 r2.1.2).
Definition r4 := result (malloc base 10 70 h3 r2.2).
Definition live : list (Z * Z) := [(r4.1.1, 70); (r2.1.1, 50)].

Lemma run : rtc (mstep base w_brk) (heap0, w0, []) (r4.1.2, r4.2, live).
Proof.
  apply (rtc_l _ _ (r1.1.2, r1.2, [(r1.1.1, 100)])).
  { refine (ms_malloc _ _ 100 heap0 w0 [] r1.1.1 r1.1.2 r1.2 _ _); [lia|]. enough_fuel. }
  apply (rtc_l _ _ (r2.1.2, r2.2, [(r2.1.1, 50); (r1.1.1, 100)])).
  { refine (ms_malloc _ _ 50 r1.1.2 r1.2 _ r2.1.1 r2.1.2 r2.2 _ _); [lia|]. enough_fuel. }
  apply (rtc_l _ _ (h3, r2.2, [(r2.1.1, 50)])).
  { refine (ms_free _ _ r1.1.1 100 r2.1.2 r2.2 [_] [] h3 _). enough_fuel. }
  apply rtc_once. refine (ms_malloc _ _ 70 h3 r2.2 _ r4.1.1 r4.1.2 r4.2 _ _); [lia|]. enough_fuel.
Qed.
End MallocDemo.

