(* ===== verification/Progs.v ===== *)
(** * Small user programs (user/cat.c, wc.c, echo.c, ls.c, rm.c, mkdir.c, ln.c, kill.c, init.c, zombie.c, forktest.c, stressfs.c, forphan.c, dorphan.c)

    Each program is a function of its arguments over the system call
    interface.  An argument vector is the list of its strings; a buffer a
    system call fills is the list of bytes stored.  [fuel] bounds a loop that
    runs until a system call says so.  *)

From Stdlib Require Import String.
From S2P Require Import Prelude Param Str Printf Fs Kernel User ULib.
#[local] Open Scope user_scope.

Definition line (s : string) : string := s ++ String (Ascii.ascii_of_nat 10) "".

Section progs.
Context {W : Type} `{!Sys W}.

(** A loop over the arguments of a program. *)
Fixpoint each_arg (args : list (list Z)) (body : list Z -> U W unit) : U W unit :=
  match args with
  | [] => uret tt
  | a :: args' => body a ;; each_arg args' body
  end.

(** ** cat *)

Fixpoint cat_loop (fuel : nat) (fd : Z) : U W Z :=
  match fuel with
  | O => u_nofuel
  | S fuel' =>
      r <- u_read fd 512 ;;
      let '(n, buf) := r in
      if 0 <? n then
        m <- u_write 1 (take (Z.to_nat n) buf) ;;
        if negb (m =? n) then fprintf 2 (line "cat: write error") [] ;; u_exit 1 else
        cat_loop fuel' fd
      else uret n
  end.
Definition cat (fuel : nat) (fd : Z) : U W unit :=
  n <- cat_loop fuel fd ;;
  if n <? 0 then fprintf 2 (line "cat: read error") [] ;; u_exit 1 else uret tt.
Definition cat_main (fuel : nat) (argv : list (list Z)) : U W unit :=
  match argv with
  | [] | [_] => cat fuel 0 ;; u_exit 0
  | _ :: files =>
      each_arg files (fun f =>
        fd <- u_open f O_RDONLY ;;
        if fd <? 0 then fprintf 2 (line "cat: cannot open %s") [AStr (Some f)] ;; u_exit 1 else
        cat fuel fd ;;
        u_close fd ;; uret tt) ;;
      u_exit 0
  end.

(** ** wc *)

Record wcst := mkWc { wc_l : Z; wc_w : Z; wc_c : Z; wc_inword : bool }.

(** The string of white space characters. *)
Definition blanks : list Z := [32; 13; 9; 10; 11].

(** The body of the inner loop, for one character. *)
Definition wc_char (s : wcst) (ch : Z) : wcst :=
  let c := s32 (wc_c s + 1) in
  let l := if ch =? 10 then s32 (wc_l s + 1) else wc_l s in
  match strchr blanks ch with
  | Some _ => mkWc l (wc_w s) c false
  | None => if negb (wc_inword s) then mkWc l (s32 (wc_w s + 1)) c true else mkWc l (wc_w s) c true
  end.
Fixpoint wc_loop (fuel : nat) (fd : Z) (s : wcst) : U W (Z * wcst) :=
  match fuel with
  | O => u_nofuel
  | S fuel' =>
      r <- u_read fd 512 ;;
      let '(n, buf) := r in
      if 0 <? n then wc_loop fuel' fd (foldl wc_char s (take (Z.to_nat n) buf)) else uret (n, s)
  end.
Definition wc (fuel : nat) (fd : Z) (name : list Z) : U W unit :=
  r <- wc_loop fuel fd (mkWc 0 0 0 false) ;;
  let '(n, s) := r in
  if n <? 0 then printf (line "wc: read error") [] ;; u_exit 1 else
  printf (line "%d %d %d %s") [AInt (wc_l s); AInt (wc_w s); AInt (wc_c s); AStr (Some name)].
Definition wc_main (fuel : nat) (argv : list (list Z)) : U W unit :=
  match argv with
  | [] | [_] => wc fuel 0 [] ;; u_exit 0
  | _ :: files =>
      each_arg files (fun f =>
        fd <- u_open f O_RDONLY ;;
        if fd <? 0 then printf (line "wc: cannot open %s") [AStr (Some f)] ;; u_exit 1 else
        wc fuel fd f ;;
        u_close fd ;; uret tt) ;;
      u_exit 0
  end.

(** ** echo, kill, ln, mkdir, rm *)

Fixpoint echo_loop (args : list (list Z)) : U W unit :=
  match args with
  | [] => uret tt
  | a :: args' =>
      u_write 1 (take (Z.to_nat (strlen a)) a) ;;
      (match args' with [] => u_write 1 [10] | _ => u_write 1 [32] end) ;;
      echo_loop args'
  end.
Definition echo_main (argv : list (list Z)) : U W unit := echo_loop (drop 1 argv) ;; u_exit 0.

Definition kill_main (argv : list (list Z)) : U W unit :=
  (when (Nat.ltb (length argv) 2) do (fprintf 2 (line "usage: kill pid...") [] ;; u_exit 1)) ;;
  each_arg (drop 1 argv) (fun a => u_kill (atoi a) ;; uret tt) ;;
  u_exit 0.

Definition ln_main (argv : list (list Z)) : U W unit :=
  match argv with
  | [_; old; new] =>
      r <- u_link old new ;;
      (when (r <? 0) do fprintf 2 (line "link %s %s: failed") [AStr (Some old); AStr (Some new)]) ;;
      u_exit 0
  | _ => fprintf 2 (line "Usage: ln old new") [] ;; u_exit 1
  end.

(** The loop of [mkdir] and [rm]: it stops at the first failure. *)
Fixpoint until_failure (call : list Z -> U W Z) (complaint : string) (args : list (list Z)) : U W unit :=
  match args with
  | [] => uret tt
  | a :: args' =>
      r <- call a ;;
      if r <? 0 then fprintf 2 complaint [AStr (Some a)] else until_failure call complaint args'
  end.
Definition mkdir_main (argv : list (list Z)) : U W unit :=
  (when (Nat.ltb (length argv) 2) do (fprintf 2 (line "Usage: mkdir files...") [] ;; u_exit 1)) ;;
  until_failure u_mkdir (line "mkdir: %s failed to create") (drop 1 argv) ;;
  u_exit 0.
Definition rm_main (argv : list (list Z)) : U W unit :=
  (when (Nat.ltb (length argv) 2) do (fprintf 2 (line "Usage: rm files...") [] ;; u_exit 1)) ;;
  until_failure u_unlink (line "rm: %s failed to delete") (drop 1 argv) ;;
  u_exit 0.

(** ** ls *)

(** The scan of [fmtname] for the character after the last slash, from index
    [i] down. *)
Fixpoint after_slash (i : nat) (path : list Z) : nat :=
  if rd path i =? chr "/" then S i else
  match i with O => O | S i' => after_slash i' path end.

(** [buf] is the static buffer of [DIRSIZ + 1] bytes. *)
Definition fmtname (buf path : list Z) : list Z :=
  let p := drop (after_slash (Z.to_nat (strlen path)) path) path in
  let n := strlen p in
  if DIRSIZ <=? n then cstr p else
  let buf := splice 0 (take (Z.to_nat n) p) buf in
  let buf := ULib.memset (Z.to_nat n) 32 (DIRSIZ - n) buf in
  let buf := <[Z.to_nat DIRSIZ := 0]> buf in
  cstr buf.
Definition fmtbuf : list Z := replicate (Z.to_nat DIRSIZ + 1) 0.

Definition ls_line (path : list Z) (st : ustat) : U W unit :=
  printf (line "%s %d %d %d")
    [AStr (Some (fmtname fmtbuf path)); AInt (us_type st); AInt (us_ino st); AInt (s32 (us_size st))].

(** The loop over the entries of a directory; [buf] holds the path and a
    slash, [p] is the index after it. *)
Fixpoint ls_entries (fuel : nat) (fd : Z) (p : nat) (buf : list Z) : U W unit :=
  match fuel with
  | O => u_nofuel
  | S fuel' =>
      r <- u_read fd dirent_size ;;
      let '(n, bs) := r in
      if negb (n =? dirent_size) then uret tt else
      let de := dec_dirent bs in
      if de_inum de =? 0 then ls_entries fuel' fd p buf else
      let buf := splice p (de_name de) buf in
      let buf := <[(p + Z.to_nat DIRSIZ)%nat := 0]> buf in
      r <- stat buf ;;
      match r with
      | (n, Some st) =>
          (if n <? 0 then printf (line "ls: cannot stat %s") [AStr (Some buf)] else ls_line buf st) ;;
          ls_entries fuel' fd p buf
      | (n, None) =>
          printf (line "ls: cannot stat %s") [AStr (Some buf)] ;;
          ls_entries fuel' fd p buf
      end
  end.

Definition ls (fuel : nat) (path : list Z) : U W unit :=
  fd <- u_open path O_RDONLY ;;
  if fd <? 0 then fprintf 2 (line "ls: cannot open %s") [AStr (Some path)] else
  r <- u_fstat fd ;;
  let '(n, st) := r in
  if n <? 0 then
    fprintf 2 (line "ls: cannot stat %s") [AStr (Some path)] ;;
    u_close fd ;; uret tt
  else
  (if (us_type st =? T_DEVICE) || (us_type st =? T_FILE) then ls_line path st
   else if us_type st =? T_DIR then
     if 512 <? strlen path + 1 + DIRSIZ + 1 then printf (line "ls: path too long") [] else
     let buf := ULib.strcpy (replicate 512 0) path in
     let p := Z.to_nat (strlen buf) in
     ls_entries fuel fd (S p) (<[p := chr "/"]> buf)
   else uret tt) ;;
  u_close fd ;; uret tt.

Definition ls_main (fuel : nat) (argv : list (list Z)) : U W unit :=
  match argv with
  | [] | [_] => ls fuel (chars ".") ;; u_exit 0
  | _ :: paths => each_arg paths (ls fuel) ;; u_exit 0
  end.

(** ** init *)

Fixpoint init_wait (fuel : nat) (pid : Z) : U W unit :=
  match fuel with
  | O => u_nofuel
  | S fuel' =>
      r <- u_wait ;;
      let wpid := fst r in
      if wpid =? pid then uret tt else
      if wpid <? 0 then printf (line "init: wait returned an error") [] ;; u_exit 1 else
      init_wait fuel' pid
  end.
Fixpoint init_loop (fuel : nat) : U W unit :=
  match fuel with
  | O => u_nofuel
  | S fuel' =>
      printf (line "init: starting sh") [] ;;
      pid <- u_fork ;;
      if pid <? 0 then printf (line "init: fork failed") [] ;; u_exit 1 else
      if pid =? 0 then
        u_exec (chars "sh") [chars "sh"] ;;
        printf (line "init: exec sh failed") [] ;; u_exit 1
      else
      init_wait fuel pid ;;
      init_loop fuel'
  end.
Definition init_main (fuel : nat) : U W unit :=
  fd <- u_open (chars "console") O_RDWR ;;
  (when (fd <? 0) do
    (u_mknod (chars "console") CONSOLE 0 ;;
     u_open (chars "console") O_RDWR ;; uret tt)) ;;
  u_dup 0 ;;
  u_dup 0 ;;
  init_loop fuel.

(** ** zombie, forktest, stressfs, forphan, dorphan *)

Definition zombie_main : U W unit :=
  pid <- u_fork ;;
  (when (0 <? pid) do (u_pause 5 ;; uret tt)) ;;
  u_exit 0.

Definition print (s : string) : U W unit := u_write 1 (chars s) ;; uret tt.

(** The loop that forks; the number of children. *)
Fixpoint fork_loop (k : nat) (n : Z) : U W Z :=
  match k with
  | O => uret n
  | S k' =>
      pid <- u_fork ;;
      if pid <? 0 then uret n else
      if pid =? 0 then u_exit 0 else fork_loop k' (n + 1)
  end.
Fixpoint wait_loop (n : nat) : U W unit :=
  match n with
  | O => uret tt
  | S n' =>
      r <- u_wait ;;
      if fst r <? 0 then print (line "wait stopped early") ;; u_exit 1 else wait_loop n'
  end.
Definition forktest : U W unit :=
  print (line "fork test") ;;
  n <- fork_loop 1000 0 ;;
  (when (n =? 1000) do (print (line "fork claimed to work N times!") ;; u_exit 1)) ;;
  wait_loop (Z.to_nat n) ;;
  r <- u_wait ;;
  (when (negb (fst r =? -1)) do (print (line "wait got too many") ;; u_exit 1)) ;;
  print (line "fork test OK").
Definition forktest_main : U W unit := forktest ;; u_exit 0.

(** The number of children that forked before this process. *)
Fixpoint stress_forks (k : nat) (i : Z) : U W Z :=
  match k with
  | O => uret i
  | S k' => pid <- u_fork ;; if 0 <? pid then uret i else stress_forks k' (i + 1)
  end.
Fixpoint repeat_ (n : nat) (m : U W unit) : U W unit :=
  match n with O => uret tt | S n' => m ;; repeat_ n' m end.
Definition stressfs_main : U W unit :=
  printf (line "stressfs starting") [] ;;
  let data := ULib.memset 0 (chr "a") 512 (replicate 512 0) in
  i <- stress_forks 4 0 ;;
  printf (line "write %d") [AInt i] ;;
  let path := chars "stressfs" ++ [u8 (chr "0" + i)] in
  fd <- u_open path (Z.lor O_CREATE O_RDWR) ;;
  repeat_ 20 (u_write fd data ;; uret tt) ;;
  u_close fd ;;
  printf (line "read") [] ;;
  fd <- u_open path O_RDONLY ;;
  repeat_ 20 (u_read fd 512 ;; uret tt) ;;
  u_close fd ;;
  u_wait ;;
  u_exit 0.

Fixpoint pause_forever (fuel : nat) : U W unit :=
  match fuel with O => u_nofuel | S fuel' => u_pause 1000 ;; pause_forever fuel' end.

Definition forphan_main (fuel : nat) (argv : list (list Z)) : U W unit :=
  let s := AStr (argv !! 0%nat) in
  let ff := chars "file0" in
  fd <- u_open ff (Z.lor O_CREATE O_WRONLY) ;;
  if fd <? 0 then printf (line "%s: open failed") [s] ;; u_exit 1 else
  r <- u_fstat fd ;;
  let '(n, st) := r in
  if n <? 0 then fprintf 2 (line "%s: cannot stat %s") [s; AStr (Some (chars "ff"))] ;; u_exit 1 else
  n <- u_unlink ff ;;
  if n <? 0 then printf (line "%s: unlink failed") [s] ;; u_exit 1 else
  fd <- u_open ff O_RDONLY ;;
  if negb (fd =? -1) then printf (line "%s: open successed") [s] ;; u_exit 1 else
  printf (line "wait for kill and reclaim %d") [AInt (us_ino st)] ;;
  pause_forever fuel.

Definition dorphan_main (fuel : nat) (argv : list (list Z)) : U W unit :=
  let s := AStr (argv !! 0%nat) in
  n <- u_mkdir (chars "dd") ;;
  if negb (n =? 0) then printf (line "%s: mkdir dd failed") [s] ;; u_exit 1 else
  n <- u_chdir (chars "dd") ;;
  if negb (n =? 0) then printf (line "%s: chdir dd failed") [s] ;; u_exit 1 else
  n <- u_unlink (chars "../dd") ;;
  if n <? 0 then printf (line "%s: unlink failed") [s] ;; u_exit 1 else
  printf (line "wait for kill and reclaim") [] ;;
  pause_forever fuel.
End progs.
