(* ===== verification/ProgsProps.v ===== *)
(** * What the small user programs do

    [wc] on a stream of bytes that [read] delivers in pieces of any size, and
    [cat] on the files of a file system that are read the same way. *)

From Stdlib Require Import String.
From S2P Require Import Prelude Param Str Printf Fs User ULib UWorld Grep Progs.
#[local] Open Scope user_scope.

(** ** Output *)

Section output.
Context {W : Type} `{!Sys W} (fd : Z) (rem out : W -> list Z) `{!Stream fd rem out}.

(** [m] writes the bytes [cs] to standard output and leaves the input as it
    is. *)
Definition writes (m : U W unit) (cs : list Z) : Prop :=
  forall w, exists w', m w = URet tt w' /\ rem w' = rem w /\ out w' = out w ++ cs.

Lemma writes_nothing : writes (uret tt) [].
Proof. intros w. exists w. by rewrite app_nil_r. Qed.
Lemma writes_seq m k cs ds : writes m cs -> writes k ds -> writes (m ;; k) (cs ++ ds).
Proof.
  intros Hm Hk w. destruct (Hm w) as (w1 & E1 & R1 & O1). destruct (Hk w1) as (w2 & E2 & R2 & O2).
  exists w2. unfold ubind. rewrite E1, E2, O2, O1, R2, R1, app_assoc. done.
Qed.
Lemma writes_write bs : writes (u_write 1 bs ;; uret tt) bs.
Proof. intros w. unfold ubind. destruct (stream_write (fd := fd) bs w) as (w' & -> & ? & ?). by exists w'. Qed.
Lemma writes_putc c : writes (putc 1 c) [u8 c].
Proof. apply writes_write. Qed.
Lemma writes_putcs cs : Forall is_byte cs -> writes (putcs 1 cs) cs.
Proof.
  induction 1 as [|c cs Hc _ IH]; [apply writes_nothing|]. cbn [putcs].
  rewrite <- (Z.mod_small c 256) at 2 by exact Hc. by apply (writes_seq _ _ [u8 c]); [apply writes_putc|].
Qed.
End output.

(** ** Numbers *)

(** Base 10 with the library of the user programs and with the kernel's. *)
Lemma uprintint_loop_dec fuel x buf :
  0 <= x -> uprintint_loop fuel x 10 buf = printint_loop fuel x 10 buf.
Proof.
  revert x buf. induction fuel as [|fuel IH]; intros x buf Hx; [done|]. cbn [uprintint_loop printint_loop].
  assert (udigit (x mod 10) = digit (x mod 10)) as ->.
  { assert (forallb (fun d => udigit d =? digit d) (seqZ 0 10) = true) as Hall by by vm_compute.
    rewrite forallb_forall in Hall. apply Z.eqb_eq, Hall, list_elem_of_In, elem_of_seqZ.
    pose proof (Z.mod_pos_bound x 10). lia. }
  by rewrite IH by (apply Z.div_pos; lia).
Qed.

(** The decimal digits of [n]. *)
Definition decimal (n : Z) : list Z := Printf.printint n 10 true.

Lemma printint_loop_more k f x b r :
  printint_loop f x 10 b = Some r -> printint_loop (f + k) x 10 b = Some r.
Proof.
  revert x b. induction f as [|f IH]; intros x b; [done|]. cbn [printint_loop Nat.add].
  destruct (negb _); [by auto|done].
Qed.

Lemma uprintint_decimal n : 0 <= n < 2 ^ 31 -> reverse (uprintint_buf n 10 true) = decimal n.
Proof.
  intros Hn. unfold decimal, Printf.printint, uprintint_buf, printint_buf.
  rewrite (proj2 (Z.ltb_ge n 0)) by lia. cbn [andb]. rewrite u32_small, u64_small by lia.
  rewrite uprintint_loop_dec by lia.
  destruct (printint_loop_spec 9 32 n 10 [] ltac:(lia) ltac:(lia) ltac:(lia)) as (ds & E & _ & _).
  apply (printint_loop_more 32) in E as E'. change (32 + 32)%nat with 64%nat in E'. rewrite E, E'. done.
Qed.

Lemma digit_byte d : 0 <= d < 10 -> is_byte (digit d).
Proof.
  intros Hd. assert (forallb (fun d => (0 <=? digit d) && (digit d <? 256)) (seqZ 0 10) = true) as Hall by by vm_compute.
  rewrite forallb_forall in Hall. specialize (Hall d). rewrite <- list_elem_of_In, elem_of_seqZ in Hall.
  unfold is_byte. destruct (andb_prop _ _ (Hall ltac:(lia))). lia.
Qed.

Lemma printint_loop_bytes f x b r :
  0 <= x -> Forall is_byte b -> printint_loop f x 10 b = Some r -> Forall is_byte r.
Proof.
  revert x b. induction f as [|f IH]; intros x b Hx Hb; [done|]. cbn [printint_loop].
  assert (Forall is_byte (b ++ [digit (x mod 10)])) as Hb'.
  { apply Forall_app; split; [done|]. apply Forall_singleton, digit_byte. pose proof (Z.mod_pos_bound x 10). lia. }
  destruct (negb _); [apply IH; [apply Z.div_pos; lia|done]|by intros [= <-]].
Qed.

Lemma decimal_bytes n : 0 <= n -> Forall is_byte (decimal n).
Proof.
  intros Hn. unfold decimal, Printf.printint, printint_buf.
  rewrite (proj2 (Z.ltb_ge n 0)) by lia. cbn [andb]. apply Forall_reverse.
  destruct (printint_loop 64 (u64 n) 10 []) as [r|] eqn:E; [|by constructor].
  eapply printint_loop_bytes; [|by apply Forall_nil_2|exact E]. apply u64_range.
Qed.

(** ** wc *)

Section wc.
Context {W : Type} `{!Sys W} (fd : Z) (rem out : W -> list Z) `{!Stream fd rem out}.
#[local] Abbreviation writes := (writes rem out).

Definition blank (c : Z) : bool := bool_decide (c ∈ blanks).

(** The text between white space characters, and the words: the pieces that
    are not empty. *)
Fixpoint pieces (t : list Z) : list (list Z) :=
  match t with
  | [] => [[]]
  | c :: t' =>
      if blank c then [] :: pieces t'
      else match pieces t' with p :: ps => (c :: p) :: ps | [] => [[c]] end
  end.
Definition words (t : list Z) : list (list Z) := filter (.≠ []) (pieces t).
Definition newlines (t : list Z) : Z := Z.of_nat (length (filter (.= 10) t)).

(** The words that begin in [t], when the text before it ends inside a word. *)
Definition begun (inword : bool) (t : list Z) : Z :=
  Z.of_nat (length (filter (.≠ []) (if inword then tl (pieces t) else pieces t))).

Lemma strchr_blanks c : match strchr blanks c with Some _ => true | None => false end = blank c.
Proof.
  unfold blank. assert (Forall (.≠ 0) blanks) as Hb by (by repeat constructor). revert Hb.
  induction blanks as [|x s IH]; intros Hb; [done|]. apply Forall_cons in Hb as [H0 Hb]. cbn [strchr].
  rewrite (proj2 (Z.eqb_neq x 0)) by done. destruct (Z.eqb_spec x c) as [->|Hne].
  - symmetry. apply bool_decide_true. by left.
  - transitivity (bool_decide (c ∈ s)); [rewrite <- (IH Hb); by destruct (strchr s c)|].
    apply bool_decide_ext. rewrite elem_of_cons. naive_solver.
Qed.

Lemma pieces_cons t : exists p ps, pieces t = p :: ps.
Proof. destruct t as [|c t]; cbn; [by eauto|]. destruct (blank c); [by eauto|]. destruct (pieces t); eauto. Qed.

Lemma begun_cons b c t :
  begun b (c :: t) = if blank c then begun false t else (if b then 0 else 1) + begun true t.
Proof.
  unfold begun. cbn [pieces]. destruct (blank c).
  - destruct b; [done|]. by rewrite filter_cons_False by (by intros ?).
  - destruct (pieces_cons t) as (p & ps & ->). destruct b; cbn [tl]; [lia|].
    rewrite filter_cons_True by done. cbn [length]. lia.
Qed.
Lemma begun_range b t : 0 <= begun b t <= Z.of_nat (length t).
Proof.
  revert b. induction t as [|c t IH]; intros b; [destruct b; by vm_compute|]. rewrite begun_cons.
  pose proof (IH false). pose proof (IH true). cbn [length]. destruct (blank c), b; lia.
Qed.

Lemma wc_chars l n c b t :
  0 <= l -> 0 <= n -> 0 <= c -> Z.max l (Z.max n c) + Z.of_nat (length t) < 2 ^ 31 ->
  exists b', foldl wc_char (mkWc l n c b) t = mkWc (l + newlines t) (n + begun b t) (c + Z.of_nat (length t)) b'.
Proof.
  revert l n c b. induction t as [|x t IH]; intros l n c b Hl Hn Hc Hb.
  - exists b. change (newlines []) with 0. replace (begun b []) with 0 by (by destruct b). cbn [foldl length]. f_equal; lia.
  - cbn [foldl length] in *. rewrite begun_cons. unfold wc_char at 2. cbn [wc_l wc_w wc_c wc_inword].
    pose proof (strchr_blanks x) as Hx. rewrite (s32_small (c + 1)) by lia.
    set (l' := if x =? 10 then s32 (l + 1) else l).
    assert (l' + newlines t = l + newlines (x :: t) /\ 0 <= l' <= l + 1) as [El Rl].
    { unfold l', newlines. destruct (Z.eqb_spec x 10) as [->|Hne].
      - rewrite filter_cons_True, s32_small by (done || lia). cbn [length]. lia.
      - rewrite filter_cons_False by done. lia. }
    rewrite <- El. destruct (strchr blanks x); rewrite <- Hx; [|destruct b; cbn [negb]; rewrite ?(s32_small (n + 1)) by lia];
      match goal with |- context [foldl wc_char (mkWc ?l1 ?n1 ?c1 ?b1) _] =>
        destruct (IH l1 n1 c1 b1) as [b' ->]; [lia..|exists b'; f_equal; lia] end.
Qed.

(** The loop consumes the stream, whatever the pieces. *)
Lemma wc_loop_spec fuel s w :
  (length (rem w) < fuel)%nat ->
  exists w', wc_loop fuel fd s w = URet (0, foldl wc_char s (rem w)) w' /\ out w' = out w.
Proof.
  revert s w. induction fuel as [|fuel IH]; intros s w Hf; [lia|]. cbn [wc_loop].
  destruct (stream_read 512 w ltac:(lia)) as (k & w1 & E & Hr & Ho & Hk & Hkl & Hk0).
  unfold ubind. rewrite E. destruct (decide (k = 0%nat)) as [->|Hne].
  - destruct (Hk0 eq_refl) as [| ->]; [done|]. by exists w1.
  - rewrite (proj2 (Z.ltb_lt 0 _)) by lia. rewrite Nat2Z.id, take_take, Nat.min_id.
    destruct (IH (foldl wc_char s (take k (rem w))) w1) as (w' & -> & Ho'); [rewrite Hr, length_drop; lia|].
    exists w'. by rewrite Hr, <- foldl_app, take_drop, Ho', Ho.
Qed.

Lemma writes_printint n : 0 <= n < 2 ^ 31 -> writes (printint 1 (s32 n) 10 true) (decimal n).
Proof.
  intros Hn. unfold printint. rewrite s32_small, uprintint_decimal by lia.
  apply (writes_putcs fd rem out), decimal_bytes. lia.
Qed.

Lemma wc_report l n c name :
  0 <= l < 2 ^ 31 -> 0 <= n < 2 ^ 31 -> 0 <= c < 2 ^ 31 -> Forall is_byte (cstr name) ->
  writes (printf (line "%d %d %d %s") [AInt l; AInt n; AInt c; AStr (Some name)])
    (decimal l ++ [32] ++ decimal n ++ [32] ++ decimal c ++ [32] ++ cstr name ++ [10]).
Proof.
  intros Hl Hn Hc Hm.
  assert (printf (line "%d %d %d %s") [AInt l; AInt n; AInt c; AStr (Some name)] =
    (printint 1 (s32 l) 10 true ;; putc 1 32 ;; printint 1 (s32 n) 10 true ;; putc 1 32 ;;
     printint 1 (s32 c) 10 true ;; putc 1 32 ;; putcs 1 (cstr name) ;; putc 1 10 ;; uret tt)) as -> by reflexivity.
  repeat (apply writes_seq; [by first [apply writes_printint|apply (writes_putcs fd rem out)|apply (writes_putc fd rem out)]|]).
  apply (writes_seq rem out _ _ [10] []); [apply (writes_putc fd rem out)|apply writes_nothing].
Qed.
End wc.

(** ** Programs over files *)

(** Files that can be opened, read and closed; the standard output is
    recorded, the standard error is not. *)
Class Files {W} `{!Sys W} (contents : list Z -> option (list Z)) (rem : Z -> W -> list Z) (out : W -> list Z) := {
  files_stream fd :: Stream fd (rem fd) out;
  files_open f w : exists fd w', u_open f O_RDONLY w = URet fd w' /\ out w' = out w /\
    match contents f with Some c => 0 <= fd /\ rem fd w' = c | None => fd = -1 end;
  files_close fd w : exists n w', u_close fd w = URet n w' /\ out w' = out w;
  files_err bs w : exists n w', u_write 2 bs w = URet n w' /\ out w' = out w;
  files_exit A n w : u_exit (A := A) n w = UExit n w
}.

Section files.
Context {W : Type} `{!Sys W} (contents : list Z -> option (list Z)) (rem : Z -> W -> list Z) (out : W -> list Z).
Context `{!Files contents rem out}.

(** [m] ends and writes nothing to standard output. *)
Definition quiet (m : U W unit) : Prop := forall w, exists w', m w = URet tt w' /\ out w' = out w.

Lemma quiet_seq m k : quiet m -> quiet k -> quiet (m ;; k).
Proof.
  intros Hm Hk w. unfold ubind. destruct (Hm w) as (w1 & -> & O1). destruct (Hk w1) as (w2 & -> & O2).
  exists w2. by rewrite O2.
Qed.
Lemma quiet_ret : quiet (uret tt).
Proof. intros w. by exists w. Qed.
Lemma quiet_putc c : quiet (putc 2 c).
Proof. intros w. unfold putc, ubind. destruct (files_err (contents := contents) [u8 c] w) as (n & w' & -> & ?). by exists w'. Qed.
Lemma quiet_putcs cs : quiet (putcs 2 cs).
Proof. induction cs as [|c cs IH]; [apply quiet_ret|]. by apply quiet_seq; [apply quiet_putc|]. Qed.

Lemma quiet_convert c0 c1 c2 a : quiet (fst (fst (convert 2 c0 c1 c2 a))).
Proof.
  unfold convert. repeat case_match; cbn [fst];
    first [apply quiet_putcs|apply quiet_putc|apply quiet_seq; apply quiet_putc].
Qed.

(** Diagnostics of any format end. *)
Lemma quiet_fprintf fmt a : quiet (fprintf 2 fmt a).
Proof.
  unfold fprintf, vprintf. generalize (chars fmt) as f. intros f.
  assert (length f < S (length f))%nat as Hf by lia. revert Hf. generalize (S (length f)) as n. generalize false as pct.
  intros pct n. revert pct f a. induction n as [|n IH]; intros pct f a Hf; [lia|]. cbn [vprintf_loop].
  destruct f as [|x f]; [apply quiet_ret|]. cbn [length] in Hf. destruct (rd (x :: f) 0 =? 0); [apply quiet_ret|].
  destruct (negb pct).
  - destruct (_ =? _); [|apply quiet_seq; [apply quiet_putc|]]; apply IH; cbn; rewrite drop_0; lia.
  - pose proof (fun c1 c2 => quiet_convert (rd (x :: f) 0) c1 c2 a) as Hq.
    match goal with |- context [convert 2 ?c0 ?c1 ?c2 a] => specialize (Hq c1 c2); destruct (convert 2 c0 c1 c2 a) as [[act k] a'] end.
    apply quiet_seq; [exact Hq|]. apply IH. rewrite length_drop. cbn [length]. lia.
Qed.

Lemma cat_spec fuel fd w :
  (length (rem fd w) < fuel)%nat -> exists w', cat fuel fd w = URet tt w' /\ out w' = out w ++ rem fd w.
Proof.
  intros Hf. assert (exists w', cat_loop fuel fd w = URet 0 w' /\ out w' = out w ++ rem fd w) as (w' & E & Ho).
  { revert w Hf. induction fuel as [|fuel IH]; intros w Hf; [lia|]. cbn [cat_loop].
    destruct (stream_read (fd := fd) (out := out) 512 w ltac:(lia)) as (k & w1 & E & Hr & Ho & Hk & Hkl & Hk0).
    unfold ubind at 1. rewrite E. destruct (decide (k = 0%nat)) as [->|Hne].
    - destruct (Hk0 eq_refl) as [| ->]; [done|]. exists w1. by rewrite Ho, app_nil_r.
    - rewrite (proj2 (Z.ltb_lt 0 _)) by lia. rewrite Nat2Z.id, take_take, Nat.min_id. unfold ubind.
      destruct (stream_write (fd := fd) (rem := rem fd) (out := out) (take k (rem fd w)) w1) as (w2 & -> & Hr2 & Ho2).
      rewrite length_take, Nat.min_l, Z.eqb_refl by lia. cbn [negb].
      destruct (IH w2) as (w' & -> & Ho'); [rewrite Hr2, Hr, length_drop; lia|].
      exists w'. by rewrite Ho', Ho2, Hr2, Hr, Ho, <- app_assoc, take_drop. }
  exists w'. unfold cat, ubind. by rewrite E.
Qed.

(** The contents of the files up to the first that cannot be opened, and
    whether there is one. *)
Fixpoint until_missing (fs : list (list Z)) : list Z * bool :=
  match fs with
  | [] => ([], false)
  | f :: fs' =>
      match contents f with
      | Some c => let '(cs, e) := until_missing fs' in (c ++ cs, e)
      | None => ([], true)
      end
  end.

(** C24: [cat] with file arguments writes the contents of the files to
    standard output, one after the other, and exits with status 0; at the
    first file that cannot be opened it stops and exits with status 1. *)
Theorem cat_correct fuel prog f fs w :
  (forall g c, g ∈ f :: fs -> contents g = Some c -> (length c < fuel)%nat) ->
  exists w', cat_main fuel (prog :: f :: fs) w = UExit (if snd (until_missing (f :: fs)) then 1 else 0) w' /\
    out w' = out w ++ fst (until_missing (f :: fs)).
Proof.
  unfold cat_main. generalize (f :: fs) as gs. clear f fs. intros gs. revert w.
  induction gs as [|g gs IH]; intros w Hf.
  - cbn. unfold ubind, uret. rewrite files_exit. exists w. by rewrite app_nil_r.
  - cbn [each_arg until_missing]. unfold ubind in *.
    destruct (files_open g w) as (fd & w1 & -> & O1 & Hg). destruct (contents g) as [c|] eqn:Ec.
    + destruct Hg as [Hfd Hc]. rewrite (proj2 (Z.ltb_ge fd 0)) by lia.
      destruct (cat_spec fuel fd w1) as (w2 & -> & O2); [rewrite Hc; eapply Hf; [by left|done]|].
      destruct (files_close fd w2) as (n & w3 & -> & O3). cbn [uret].
      destruct (IH w3) as (w' & E & Ho); [intros g' c' Hg'; apply Hf; by right|].
      destruct (until_missing gs) as [cs e]. exists w'. cbn [fst snd] in *. split; [exact E|].
      by rewrite Ho, O3, O2, O1, Hc, app_assoc.
    + subst fd. cbn [Z.ltb Z.compare]. destruct (quiet_fprintf (line "cat: cannot open %s") [AStr (Some g)] w1) as (w2 & -> & O2).
      rewrite files_exit. exists w2. cbn. by rewrite O2, O1, app_nil_r.
Qed.
End files.

(** C23: [wc] prints the number of newline characters, of words (maximal runs
    of characters other than white space) and of bytes of its input, in
    decimal, then the name: however [read] cuts the input into pieces, also in
    the middle of a word. *)
Theorem wc_correct {W} `{!Sys W} (fd : Z) (rem out : W -> list Z) `{!Stream fd rem out} fuel name w :
  (length (rem w) < fuel)%nat -> Z.of_nat (length (rem w)) < 2 ^ 31 -> Forall is_byte (cstr name) ->
  exists w', wc fuel fd name w = URet tt w' /\
    out w' = out w ++ decimal (newlines (rem w)) ++ [32] ++ decimal (Z.of_nat (length (words (rem w)))) ++ [32] ++
      decimal (Z.of_nat (length (rem w))) ++ [32] ++ cstr name ++ [10].
Proof.
  intros Hf Hl Hn. unfold wc, ubind.
  destruct (wc_loop_spec fd rem out fuel (mkWc 0 0 0 false) w Hf) as (w1 & -> & O1). cbn [Z.ltb Z.compare].
  destruct (wc_chars 0 0 0 false (rem w)) as [b' ->]; [lia..|]. cbn [wc_l wc_w wc_c].
  assert (0 <= newlines (rem w) <= Z.of_nat (length (rem w))) as Hnl
    by (unfold newlines; pose proof (length_filter (.= 10) (rem w)); lia).
  pose proof (begun_range false (rem w)).
  destruct (wc_report fd rem out (0 + newlines (rem w)) (0 + begun false (rem w)) (0 + Z.of_nat (length (rem w))) name
    ltac:(lia) ltac:(lia) ltac:(lia) Hn w1) as (w2 & -> & _ & O2).
  exists w2. split; [done|]. by rewrite O2, O1.
Qed.

(** ** A world of files *)

Record fworld := mkFw {
  fw_open : gmap Z (list Z);            (* what is left to read *)
  fw_next : Z;
  fw_out : list Z
}.

Definition fw_rem (fd : Z) (w : fworld) : list Z := default [] (fw_open w !! fd).

Section fworld.
Context (files : gmap (list Z) (list Z)).

Definition fw_read (fd n : Z) (w : fworld) : ures fworld (Z * list Z) :=
  let k := Nat.min (Z.to_nat n) (length (fw_rem fd w)) in
  URet (Z.of_nat k, take k (fw_rem fd w)) (mkFw (<[fd := drop k (fw_rem fd w)]> (fw_open w)) (fw_next w) (fw_out w)).
Definition fw_write (fd : Z) (bs : list Z) (w : fworld) : ures fworld Z :=
  URet (Z.of_nat (length bs)) (if fd =? 1 then mkFw (fw_open w) (fw_next w) (fw_out w ++ bs) else w).
Definition fw_openf (f : list Z) (mode : Z) (w : fworld) : ures fworld Z :=
  match files !! f with
  | Some c => URet (Z.max 3 (fw_next w)) (mkFw (<[Z.max 3 (fw_next w) := c]> (fw_open w)) (Z.max 3 (fw_next w) + 1) (fw_out w))
  | None => URet (-1) w
  end.
Definition Sys_fworld : Sys fworld := {|
  u_fork := uret (-1);
  u_exit A n w := UExit n w;
  u_wait := uret (-1, 0);
  u_pipe := uret (-1, 0, 0);
  u_write := fw_write;
  u_read := fw_read;
  u_close _ := uret 0;
  u_kill _ := uret 0;
  u_exec _ _ := uret (-1);
  u_open := fw_openf;
  u_mknod _ _ _ := uret (-1);
  u_unlink _ := uret (-1);
  u_fstat _ := uret (-1, mkUstat 0 0 0 0 0);
  u_link _ _ := uret (-1);
  u_mkdir _ := uret (-1);
  u_chdir _ := uret (-1);
  u_dup _ := uret (-1);
  u_getpid := uret 1;
  u_sbrk _ _ := uret (-1);
  u_pause _ := uret 0;
  u_uptime := uret 0
|}.
#[local] Existing Instance Sys_fworld.

Lemma Stream_fworld fd : Stream fd (fw_rem fd) fw_out.
Proof.
  split.
  - intros n w Hn. exists (Nat.min (Z.to_nat n) (length (fw_rem fd w))). eexists. split_and!; [done|..|done|lia|lia|].
    + unfold fw_rem at 1. cbn [fw_open]. by rewrite lookup_insert_eq.
    + intros Hk. destruct (fw_rem fd w); [by right|]. left. cbn [length] in Hk. lia.
  - intros bs w. by eexists.
Qed.
Lemma Files_fworld : Files (fun f => files !! f) fw_rem fw_out.
Proof.
  split.
  - apply Stream_fworld.
  - intros f w. cbn. unfold fw_openf. destruct (files !! f) as [c|].
    + do 2 eexists. split_and!; [done..|lia|]. unfold fw_rem. cbn [fw_open]. by rewrite lookup_insert_eq.
    + by do 2 eexists.
  - intros fd w. by do 2 eexists.
  - intros bs w. by do 2 eexists.
  - done.
Qed.
End fworld.

Definition demo_files : gmap (list Z) (list Z) :=
  {[ chars "a" := chars "one two"; chars "b" := chars "three" ]}.
Definition fw0 : fworld := mkFw ∅ 3 [].

Lemma cat_correct_witness :
  exists w', cat_main (Sys0 := Sys_fworld demo_files) 100 [chars "cat"; chars "a"; chars "b"; chars "c"; chars "a"] fw0 = UExit 1 w' /\
    fw_out w' = chars "one twothree".
Proof.
  apply (cat_correct (Sys0 := Sys_fworld demo_files) (fun f => demo_files !! f) fw_rem fw_out (Files0 := Files_fworld demo_files)
    100 (chars "cat") (chars "a") [chars "b"; chars "c"; chars "a"] fw0).
  intros g c _ Hc. apply (bool_decide_unpack (map_Forall (fun _ c => (length c < 100)%nat) demo_files)) in Hc; [done|by vm_compute].
Defined.

Lemma wc_correct_witness :
  exists w', wc 100 3 (chars "a") (world0 [] (chars " one  two three") 4 []) = URet tt w' /\ w_out w' = chars (line "0 3 15 a").
Proof.
  destruct (wc_correct 3 w_in w_out 100 (chars "a") (world0 [] (chars " one  two three") 4 [])) as (w' & E & Ho).
  - vm_compute. lia.
  - by vm_compute.
  - apply (bool_decide_unpack _). by vm_compute.
  - exists w'. split; [exact E|]. rewrite Ho. by vm_compute.
Defined.
