(* ===== verification/Mkfs.v ===== *)
(** * The program that makes the file system image (mkfs/mkfs.c)

    The image is a disk as the kernel sees it; its length in blocks is that of
    the host file.  A failed assertion or system call ends the program: the
    outcome [Panic].  The input files are given by what [read] returns of
    them, piece by piece; a file that cannot be opened has none.  Conversion
    to RISC-V byte order is that of a little-endian host.  *)

From Stdlib Require Import String.
From S2P Require Import Prelude Param Str Printf Log Fs.

Definition NINODES : Z := 200.

Definition nbitmap : Z := FSSIZE / BPB + 1.
Definition ninodeblocks : Z := NINODES / IPB + 1.
Definition nlog : Z := LOGBLOCKS + 1.
Definition nmeta : Z := 2 + nlog + ninodeblocks + nbitmap.
Definition nblocks : Z := FSSIZE - nmeta.

Record mst := mkMst {
  m_img : disk;          (* the blocks written, newest first *)
  m_len : Z;             (* length of the image file in blocks *)
  m_freeinode : Z;
  m_freeblock : Z
}.
Definition set_mimg x s := mkMst x (m_len s) (m_freeinode s) (m_freeblock s).
Definition set_mlen x s := mkMst (m_img s) x (m_freeinode s) (m_freeblock s).
Definition set_freeinode x s := mkMst (m_img s) (m_len s) x (m_freeblock s).
Definition set_freeblock x s := mkMst (m_img s) (m_len s) (m_freeinode s) x.

(** The bytes of the number in little-endian order, read as the host does. *)
Definition xshort (x : Z) : Z := le_decode (le_encode 2 x).
Definition xint (x : Z) : Z := le_decode (le_encode 4 x).

Definition sb : superblock :=
  mkSb FSMAGIC (xint FSSIZE) (xint nblocks) (xint NINODES) (xint nlog) (xint 2) (xint (2 + nlog)) (xint (2 + nlog + ninodeblocks)).
Definition enc_superblock (s : superblock) : list Z :=
  enc_u32s [sb_magic s; sb_size s; sb_nblocks s; sb_ninodes s; sb_nlog s; sb_logstart s; sb_inodestart s; sb_bmapstart s].

Definition assert_ (b : bool) (msg : string) : M mst unit := if b then ret tt else panic msg.

(** ** Blocks and inodes *)

(** Writing past the end of the file makes it longer. *)
Definition wsect (sec : Z) (buf : block) : M mst unit :=
  modify (fun s => set_mlen (Z.max (m_len s) (sec + 1)) (set_mimg (disk_write sec buf (m_img s)) s)).
Definition rsect (sec : Z) : M mst block :=
  s <- get ;;
  if sec <? m_len s then ret (disk_read (m_img s) sec) else panic "read".

Definition winode (inum : Z) (ip : dinode) : M mst unit :=
  buf <- rsect (IBLOCK inum sb) ;;
  wsect (IBLOCK inum sb) (put_dinode inum ip buf).
Definition rinode (inum : Z) : M mst dinode :=
  buf <- rsect (IBLOCK inum sb) ;;
  ret (get_dinode inum buf).

Definition zero_dinode : dinode := mkDinode 0 0 0 0 0 (replicate NADDRS 0).
Definition set_dtype x d := mkDinode x (d_major d) (d_minor d) (d_nlink d) (d_size d) (d_addrs d).
Definition set_dnlink x d := mkDinode (d_type d) (d_major d) (d_minor d) x (d_size d) (d_addrs d).
Definition set_dsize x d := mkDinode (d_type d) (d_major d) (d_minor d) (d_nlink d) x (d_addrs d).
Definition set_daddrs x d := mkDinode (d_type d) (d_major d) (d_minor d) (d_nlink d) (d_size d) x.

Definition ialloc (type : Z) : M mst Z :=
  inum <- gets m_freeinode ;;
  modify (set_freeinode (u32 (inum + 1))) ;;
  winode inum (set_dsize (xint 0) (set_dnlink (xshort 1) (set_dtype (xshort type) zero_dinode))) ;;
  ret inum.

(** [freeblock++] *)
Definition next_block : M mst Z :=
  b <- gets m_freeblock ;;
  modify (set_freeblock (u32 (b + 1))) ;;
  ret b.

Definition balloc (used : Z) : M mst unit :=
  assert_ (used <? BPB) "used < BPB" ;;
  let buf := foldl (fun buf i => <[Z.to_nat (i / 8) := Z.lor (rd buf (Z.to_nat (i / 8))) (Z.shiftl 1 (i mod 8))]> buf)
                   (replicate bsize 0) (seqZ 0 used) in
  wsect (sb_bmapstart sb) buf.

(** ** Appending to a file *)

(** The block number of the file's block [fbn], and the inode. *)
Definition append_block (din : dinode) (fbn : Z) : M mst (Z * dinode) :=
  if fbn <? NDIRECT then
    din <- (if xint (d_addrs din !!! Z.to_nat fbn) =? 0 then
              b <- next_block ;; ret (set_daddrs (<[Z.to_nat fbn := xint b]> (d_addrs din)) din)
            else ret din) ;;
    ret (xint (d_addrs din !!! Z.to_nat fbn), din)
  else
    din <- (if xint (d_addrs din !!! Z.to_nat NDIRECT) =? 0 then
              b <- next_block ;; ret (set_daddrs (<[Z.to_nat NDIRECT := xint b]> (d_addrs din)) din)
            else ret din) ;;
    let a := xint (d_addrs din !!! Z.to_nat NDIRECT) in
    let k := (4 * Z.to_nat (fbn - NDIRECT))%nat in
    indirect <- rsect a ;;
    indirect <- (if get_u32 k indirect =? 0 then
                   b <- next_block ;;
                   let indirect := splice k (le_encode 4 (xint b)) indirect in
                   wsect a indirect ;;
                   ret indirect
                 else ret indirect) ;;
    ret (xint (get_u32 k indirect), din).

Fixpoint iappend_loop (fuel : nat) (din : dinode) (off : Z) (p : list Z) : M mst (Z * dinode) :=
  match fuel with
  | O => no_fuel
  | S fuel' =>
      let n := Z.of_nat (length p) in
      if n <=? 0 then ret (off, din) else
      let fbn := off / BSIZE in
      assert_ (fbn <? MAXFILE) "fbn < MAXFILE" ;;
      r <- append_block din fbn ;;
      let '(x, din) := r in
      let n1 := Z.min n ((fbn + 1) * BSIZE - off) in
      buf <- rsect x ;;
      wsect x (splice (Z.to_nat (off - fbn * BSIZE)) (take (Z.to_nat n1) p) buf) ;;
      iappend_loop fuel' din (off + n1) (drop (Z.to_nat n1) p)
  end.
Definition iappend (inum : Z) (p : list Z) : M mst unit :=
  din <- rinode inum ;;
  r <- iappend_loop (S (length p)) din (xint (d_size din)) p ;;
  let '(off, din) := r in
  winode inum (set_dsize (xint off) din).

(** ** The program *)

Record hostfile := mkHost { hf_name : list Z; hf_read : option (list (list Z)) }.

Definition strip_user (name : list Z) : list Z :=
  if strncmp 5 name (chars "user/") =? 0 then drop 5 name else name.
Definition strip_underscore (name : list Z) : list Z := if rd name 0 =? chr "_" then drop 1 name else name.

Definition dir_entry (inum : Z) (name : list Z) : list Z :=
  enc_dirent (mkDirent (xshort inum) (strncpy (replicate (Z.to_nat DIRSIZ) 0) name DIRSIZ)).

Definition add_file (rootino : Z) (f : hostfile) : M mst unit :=
  let shortname := strip_user (hf_name f) in
  assert_ (negb (bool_decide (slash ∈ cstr shortname))) "index(shortname, '/') == 0" ;;
  match hf_read f with
  | None => panic "open"
  | Some pieces =>
      let shortname := strip_underscore shortname in
      assert_ (strlen shortname <=? DIRSIZ) "strlen(shortname) <= DIRSIZ" ;;
      inum <- ialloc T_FILE ;;
      iappend rootino (dir_entry inum shortname) ;;
      for_each pieces (iappend inum)
  end.

Definition mkfs (files : list hostfile) : M mst unit :=
  modify (set_freeblock nmeta) ;;
  for_each (seqZ 0 FSSIZE) (fun i => wsect i zero_block) ;;
  wsect 1 (splice 0 (enc_superblock sb) zero_block) ;;
  rootino <- ialloc T_DIR ;;
  assert_ (rootino =? ROOTINO) "rootino == ROOTINO" ;;
  iappend rootino (dir_entry rootino (chars ".")) ;;
  iappend rootino (dir_entry rootino (chars "..")) ;;
  for_each files (add_file rootino) ;;
  din <- rinode rootino ;;
  let off := (xint (d_size din) / BSIZE + 1) * BSIZE in
  winode rootino (set_dsize (xint off) din) ;;
  used <- gets m_freeblock ;;
  balloc used.

(** The variables at the start, the image file empty. *)
Definition mkfs_start : mst := mkMst [] 0 1 0.
