(* ===== verification/MkfsProps.v ===== *)
(** * The image mkfs makes

    Every block in use belongs to one file: [own b] names the file and the
    place of block [b] in it.  The routines of mkfs keep track of the blocks
    exactly, so that the image is one the kernel's file system can work on:
    the geometry, the empty log, the bitmap, the inodes, the contents and the
    root directory.  *)

From Stdlib Require Import String.
From S2P Require Import Prelude Param Str Printf Bio BioSpec BioOps Log LogDisk LogOps LogTx Fs FsSpec FsCodec FsBitmap FsFile Mkfs.

(** A block of a file: its data block [n] or its block of addresses. *)
Inductive slot := Data (n : Z) | Ind.
Abbreviation owner := (Z -> option (Z * slot)).

(** The address of data block [n], 0 if there is none. *)
Definition faddr (B : Z -> block) (a : list Z) (n : Z) : Z :=
  if n <? NDIRECT then a !!! Z.to_nat n
  else if a !!! Z.to_nat NDIRECT =? 0 then 0
  else get_u32 (4 * Z.to_nat (n - NDIRECT)) (B (a !!! Z.to_nat NDIRECT)).

(** File [i] has its first [m] data blocks, and a block of addresses if
    [hi]. *)
Record shape (own : owner) (B : Z -> block) (i : Z) (a : list Z) (m : Z) (hi : bool) : Prop := {
  sh_len : length a = NADDRS;
  sh_u32 : Forall is_u32 a;
  sh_max : 0 <= m <= MAXFILE;
  sh_hi : NDIRECT < m -> hi = true;
  sh_data : forall n, 0 <= n < m -> own (faddr B a n) = Some (i, Data n);
  sh_zero : forall n, m <= n < MAXFILE -> faddr B a n = 0;
  sh_ind : if hi then own (a !!! Z.to_nat NDIRECT) = Some (i, Ind) else a !!! Z.to_nat NDIRECT = 0
}.

(** The blocks hold the bytes of [c], and zeros after them. *)
Definition holds (B : Z -> block) (a : list Z) (m : Z) (c : list Z) : Prop :=
  forall k, 0 <= k < m * BSIZE -> rd (B (faddr B a (k / BSIZE))) (Z.to_nat (k mod BSIZE)) = rd c (Z.to_nat k).

Definition blocks_for (len : Z) : Z := (len + BSIZE - 1) / BSIZE.
Definition has_ind (m : Z) : bool := NDIRECT <? m.
Definition cost (m : Z) : Z := m + (if has_ind m then 1 else 0).

Record file_ok (own : owner) (B : Z -> block) (i : Z) (a : list Z) (c : list Z) : Prop := {
  fo_shape : shape own B i a (blocks_for (Z.of_nat (length c))) (has_ind (blocks_for (Z.of_nat (length c))));
  fo_holds : holds B a (blocks_for (Z.of_nat (length c))) c
}.

(** [host_ok] of a file with byte contents and names given outright. *)
Ltac solve_host :=
  split; [eexists; split; [reflexivity|]| | | |]; first [by apply (bool_decide_unpack _); vm_compute | by vm_compute].

Section mkfs.
Abbreviation blk s := (disk_read (m_img s)).

Record base (own : owner) (s : mst) : Prop := {
  ba_good : disk_ok (m_img s);
  ba_len : m_len s = FSSIZE;
  ba_own : forall b x, own b = Some x -> nmeta <= b < m_freeblock s;
  ba_fb : nmeta <= m_freeblock s <= FSSIZE;
  ba_zero : forall b, m_freeblock s <= b -> blk s b = zero_block
}.

(** What work on file [i] leaves alone. *)
Definition spares (i : Z) (own : owner) (s : mst) (own' : owner) (s' : mst) : Prop :=
  (forall b i' sl, i' <> i -> own b = Some (i', sl) -> own' b = Some (i', sl) /\ blk s' b = blk s b) /\
  (forall b, b < nmeta -> blk s' b = blk s b) /\ m_freeinode s' = m_freeinode s.

Lemma spares_refl i own s : spares i own s own s.
Proof. by split_and!. Qed.
Lemma spares_trans i own1 s1 own2 s2 own3 s3 :
  spares i own1 s1 own2 s2 -> spares i own2 s2 own3 s3 -> spares i own1 s1 own3 s3.
Proof.
  intros (A1 & B1 & C1) (A2 & B2 & C2). split_and!; [|intros b Hb; by rewrite B2, B1|congruence].
  intros b i' sl Hne Ho. destruct (A1 b i' sl Hne Ho) as [Ho' Hb]. destruct (A2 b i' sl Hne Ho') as [? Hb']. split; [done|congruence].
Qed.

(** A file keeps its shape and its bytes when its blocks do. *)
Lemma faddr_same own own' B B' i a m hi n :
  (forall b sl, own b = Some (i, sl) -> own' b = Some (i, sl) /\ B' b = B b) ->
  shape own B i a m hi -> faddr B' a n = faddr B a n.
Proof.
  intros Hs Sh. unfold faddr. destruct (_ <? _); [done|]. destruct (Z.eqb_spec (a !!! Z.to_nat NDIRECT) 0) as [?|Hne]; [done|].
  pose proof (sh_ind _ _ _ _ _ _ Sh) as Hi. destruct hi; [|done]. destruct (Hs _ _ Hi) as [_ ->]. done.
Qed.

Lemma shape_frame own own' B B' i a m hi :
  (forall b sl, own b = Some (i, sl) -> own' b = Some (i, sl) /\ B' b = B b) ->
  shape own B i a m hi -> shape own' B' i a m hi.
Proof.
  intros Hs Sh. pose proof (fun n => faddr_same own own' B B' i a m hi n Hs Sh) as Hf. destruct Sh as [? ? ? ? Sd Sz Si].
  split; try done.
  - intros n Hn. rewrite Hf. by apply Hs, Sd.
  - intros n Hn. rewrite Hf. by apply Sz.
  - destruct hi; [by apply Hs|done].
Qed.

Lemma holds_frame own own' B B' i a m hi c :
  (forall b sl, own b = Some (i, sl) -> own' b = Some (i, sl) /\ B' b = B b) ->
  shape own B i a m hi -> holds B a m c -> holds B' a m c.
Proof.
  intros Hs Sh Hh k Hk. rewrite (faddr_same own own' B B' i a m hi _ Hs Sh).
  assert (0 <= k / BSIZE < m) as Hn by (change BSIZE with 1024 in *; split; [apply Z.div_pos; lia|apply Z.div_lt_upper_bound; lia]).
  destruct (Hs _ _ (sh_data _ _ _ _ _ _ Sh _ Hn)) as [_ ->]. by apply Hh.
Qed.

Lemma file_ok_spares i own s own' s' i' a c :
  spares i own s own' s' -> i' <> i -> file_ok own (blk s) i' a c -> file_ok own' (blk s') i' a c.
Proof.
  intros (A & _) Hne [Sh Hh].
  assert (forall b sl, own b = Some (i', sl) -> own' b = Some (i', sl) /\ blk s' b = blk s b) as Hs by (intros; by eapply A).
  split; [by eapply shape_frame|by eapply holds_frame].
Qed.

(** ** Steps *)

Definition wput (s : mst) (sec : Z) (buf : block) : mst := set_mimg (disk_write sec buf (m_img s)) s.
Definition oset (own : owner) (b : Z) (x : Z * slot) : owner := fun b' => if decide (b' = b) then Some x else own b'.

Lemma blk_wput s sec buf b : blk (wput s sec buf) b = if decide (b = sec) then buf else blk s b.
Proof. cbn. case_decide as H; [subst; by rewrite Z.eqb_refl|]. by rewrite (proj2 (Z.eqb_neq sec b)). Qed.

Lemma wp_rsect s sec (Q : block -> mst -> Prop) : sec < m_len s -> Q (blk s sec) s -> wp (rsect sec) Q s.
Proof. intros Hs HQ. unfold rsect. wp_step. apply wp_get. rewrite (proj2 (Z.ltb_lt _ _)) by done. by apply wp_ret. Qed.
Lemma wp_wsect s sec buf (Q : unit -> mst -> Prop) : sec < m_len s -> Q tt (wput s sec buf) -> wp (wsect sec buf) Q s.
Proof.
  intros Hs HQ. apply wp_modify. rewrite Z.max_l by lia. by destruct s.
Qed.

Ltac consts := change nmeta with 47 in *; change FSSIZE with 2000 in *; change BSIZE with 1024 in *; change NDIRECT with 12 in *;
  change MAXFILE with 268 in *; change NINODES with 200 in *.

Lemma wp_next_block own s (Q : Z -> mst -> Prop) :
  base own s -> Q (m_freeblock s) (set_freeblock (m_freeblock s + 1) s) -> wp next_block Q s.
Proof.
  intros Ba HQ. unfold next_block. wp_step. apply wp_gets. wp_step. apply wp_modify. apply wp_ret.
  rewrite u32_small by (pose proof (ba_fb _ _ Ba); consts; lia). done.
Qed.

Lemma base_wput own s b buf : base own s -> b < m_freeblock s -> good buf -> base own (wput s b buf).
Proof.
  intros [Bg Bl Bo Bf Bz] Hb [Hl Hg]. split; try done.
  - by constructor.
  - intros b' Hb'. rewrite blk_wput, decide_False by (cbn in Hb'; lia). by apply Bz.
Qed.

Lemma base_alloc own s x :
  base own s -> m_freeblock s < FSSIZE -> base (oset own (m_freeblock s) x) (set_freeblock (m_freeblock s + 1) s).
Proof.
  intros [Bg Bl Bo Bf Bz] Hlt. split; try done; cbn.
  - intros b y. unfold oset. case_decide; [intros _; lia|]. intros Hy. specialize (Bo b y Hy). lia.
  - lia.
  - intros b Hb. apply Bz. lia.
Qed.

Lemma own_fresh own s b x : base own s -> own b = Some x -> b <> m_freeblock s.
Proof. intros Ba Ho ->. pose proof (ba_own _ _ Ba _ _ Ho). lia. Qed.

Lemma oset_old own s x b y : base own s -> own b = Some y -> oset own (m_freeblock s) x b = Some y.
Proof. intros Ba Ho. unfold oset. rewrite decide_False by (by eapply own_fresh). done. Qed.

Lemma spares_alloc i own s sl :
  base own s -> spares i own s (oset own (m_freeblock s) (i, sl)) (set_freeblock (m_freeblock s + 1) s).
Proof. intros Ba. split_and!; try done. intros b i' sl' _ Ho. split; [by eapply oset_old|done]. Qed.

Lemma spares_wput i own s b buf sl : base own s -> own b = Some (i, sl) -> spares i own s own (wput s b buf).
Proof.
  intros Ba Ho. pose proof (ba_own _ _ Ba _ _ Ho) as Hr. split_and!; [| |done].
  - intros b' i' sl' Hne Ho'. split; [done|]. rewrite blk_wput, decide_False; [done|]. intros ->. congruence.
  - intros b' Hb'. rewrite blk_wput, decide_False; [done|lia].
Qed.

Lemma u32_lookup a k : Forall is_u32 a -> is_u32 (a !!! k).
Proof.
  intros Ha. rewrite list_lookup_total_alt. destruct (a !! k) as [x|] eqn:E; cbn; [|unfold is_u32; lia].
  by apply (proj1 (Forall_lookup _ _) Ha k x).
Qed.
Lemma xint_u32 x : is_u32 x -> xint x = x.
Proof. apply u32_decode. Qed.

(** A new data block among the direct ones. *)
Lemma shape_direct own B i a m b :
  shape own B i a m false -> m < NDIRECT -> is_u32 b -> (forall x y, own x = Some y -> x <> b) ->
  shape (oset own b (i, Data m)) B i (<[Z.to_nat m := b]> a) (m + 1) false /\
  (forall n, 0 <= n < MAXFILE -> faddr B (<[Z.to_nat m := b]> a) n = if decide (n = m) then b else faddr B a n).
Proof.
  intros [Sl Su Sm Sh Sd Sz Si] Hm Hb Hfr. consts.
  assert (forall n, 0 <= n < 268 -> faddr B (<[Z.to_nat m := b]> a) n = if decide (n = m) then b else faddr B a n) as Hf.
  { intros n Hn. unfold faddr. consts. rewrite (list_lookup_total_insert_ne a (Z.to_nat m) (Z.to_nat 12)) by lia.
    case_decide as Hd; [subst n; rewrite (proj2 (Z.ltb_lt m 12)) by lia; apply list_lookup_total_insert_eq; rewrite Sl; unfold NADDRS; consts; lia|].
    destruct (n <? 12); [|done]. by rewrite list_lookup_total_insert_ne by lia. }
  split; [|exact Hf]. split; consts.
  - by rewrite length_insert.
  - by apply Forall_insert.
  - lia.
  - lia.
  - intros n Hn. rewrite Hf by lia. unfold oset. destruct (decide (n = m)) as [->|Hd]; [by rewrite decide_True|].
    rewrite decide_False; [apply Sd; lia|]. eapply Hfr. apply Sd. lia.
  - intros n Hn. rewrite Hf, decide_False by lia. apply Sz. lia.
  - by rewrite list_lookup_total_insert_ne by lia.
Qed.

#[local] Transparent zero_block.
Lemma get_u32_zero_block off : get_u32 off zero_block = 0.
Proof. apply get_u32_zeros. Qed.
Lemma rd_zero_block k : rd zero_block k = 0.
Proof.
  unfold rd, zero_block. destruct (decide (k < bsize)%nat) as [Hk|Hk]; [by rewrite lookup_replicate_2|].
  by rewrite lookup_ge_None_2 by (rewrite length_replicate; lia).
Qed.
Lemma zero_block_good : good zero_block.
Proof. split; [apply zero_block_length|apply zero_block_bytes]. Qed.
#[local] Opaque zero_block.

(** A new block of addresses. *)
Lemma shape_ind own B i a m b :
  shape own B i a m false -> is_u32 b -> b <> 0 -> B b = zero_block -> (forall x y, own x = Some y -> x <> b) ->
  shape (oset own b (i, Ind)) B i (<[Z.to_nat NDIRECT := b]> a) m true /\
  (forall n, 0 <= n < MAXFILE -> faddr B (<[Z.to_nat NDIRECT := b]> a) n = faddr B a n).
Proof.
  intros [Sl Su Sm Sh Sd Sz Si] Hb Hb0 HB Hfr. consts.
  assert ((<[Z.to_nat 12 := b]> a) !!! Z.to_nat 12 = b) as H12
    by (apply list_lookup_total_insert_eq; rewrite Sl; unfold NADDRS; consts; lia).
  assert (forall n, 0 <= n < 268 -> faddr B (<[Z.to_nat 12 := b]> a) n = faddr B a n) as Hf.
  { intros n Hn. unfold faddr. consts. destruct (Z.ltb_spec n 12); [by rewrite list_lookup_total_insert_ne by lia|].
    rewrite H12, (proj2 (Z.eqb_neq b 0)), HB by done. rewrite Si. cbn [Z.eqb]. apply get_u32_zero_block. }
  split; [|exact Hf]. split; consts; try done.
  - by rewrite length_insert.
  - by apply Forall_insert.
  - intros n Hn. rewrite Hf by lia. unfold oset. rewrite decide_False; [by apply Sd|]. eapply Hfr. by apply Sd.
  - intros n Hn. rewrite Hf by lia. apply Sz. lia.
  - rewrite H12. unfold oset. by rewrite decide_True.
Qed.

(** A new data block among the indirect ones. *)
Lemma shape_entry own B B' i a m b :
  shape own B i a m true -> NDIRECT <= m < MAXFILE -> is_u32 b -> a !!! Z.to_nat NDIRECT <> 0 -> length (B (a !!! Z.to_nat NDIRECT)) = bsize ->
  B' (a !!! Z.to_nat NDIRECT) = splice (4 * Z.to_nat (m - NDIRECT)) (le_encode 4 b) (B (a !!! Z.to_nat NDIRECT)) ->
  (forall x y, own x = Some y -> x <> b) ->
  shape (oset own b (i, Data m)) B' i a (m + 1) true /\
  (forall n, 0 <= n < MAXFILE -> faddr B' a n = if decide (n = m) then b else faddr B a n).
Proof.
  intros [Sl Su Sm Sh Sd Sz Si] Hm Hb H0 Hlen HB' Hfr. consts.
  assert (forall n, 0 <= n < 268 -> faddr B' a n = if decide (n = m) then b else faddr B a n) as Hf.
  { intros n Hn. unfold faddr. consts. destruct (Z.ltb_spec n 12); [by rewrite decide_False by lia|].
    rewrite (proj2 (Z.eqb_neq _ 0)) by done. rewrite HB'. case_decide as Hd; [subst n|].
    - apply get_u32_put; [rewrite Hlen; unfold bsize; consts; lia|done].
    - apply get_u32_put_ne. lia. }
  split; [|exact Hf]. split; consts; try done.
  - lia.
  - intros n Hn. rewrite Hf by lia. unfold oset. destruct (decide (n = m)) as [->|Hd]; [by rewrite decide_True|].
    rewrite decide_False; [apply Sd; lia|]. eapply Hfr. apply Sd. lia.
  - intros n Hn. rewrite Hf, decide_False by lia. apply Sz. lia.
  - unfold oset. rewrite decide_False; [done|]. by eapply Hfr.
Qed.

Lemma holds_extend B B' a a' m c b :
  holds B a m c -> 0 <= m -> Z.of_nat (length c) <= m * BSIZE ->
  (forall n, 0 <= n < m -> faddr B' a' n = faddr B a n /\ B' (faddr B a n) = B (faddr B a n)) ->
  faddr B' a' m = b -> B' b = zero_block -> holds B' a' (m + 1) c.
Proof.
  intros Hh Hm Hc Hf Hb HB k Hk. consts. pose proof (Z.div_mod k 1024 ltac:(lia)). pose proof (Z.mod_pos_bound k 1024 ltac:(lia)).
  destruct (decide (k / 1024 = m)) as [E|E].
  - rewrite E, Hb, HB, rd_zero_block. unfold rd. by rewrite lookup_ge_None_2 by lia.
  - assert (0 <= k / 1024) by (apply Z.div_pos; lia). destruct (Hf (k / 1024)) as [-> ->]; [lia|]. apply Hh. consts. lia.
Qed.

Record appended (own : owner) (s : mst) (i m fbn : Z) (c : list Z) (own' : owner) (s' : mst) (a' : list Z) (x : Z) : Prop := {
  ap_base : base own' s';
  ap_spares : spares i own s own' s';
  ap_shape : shape own' (blk s') i a' (fbn + 1) (has_ind (fbn + 1));
  ap_holds : holds (blk s') a' (fbn + 1) c;
  ap_addr : faddr (blk s') a' fbn = x;
  ap_fb : m_freeblock s' = m_freeblock s + (cost (fbn + 1) - cost m)
}.

(** The block is there. *)
Lemma wp_append_old own s i din c fbn :
  base own s -> 0 <= fbn < MAXFILE -> shape own (blk s) i (d_addrs din) (fbn + 1) (has_ind (fbn + 1)) ->
  holds (blk s) (d_addrs din) (fbn + 1) c ->
  wp (append_block din fbn) (fun r s' => s' = s /\ r = (faddr (blk s) (d_addrs din) fbn, din)) s.
Proof.
  intros Ba Hf Sh Hh. pose proof (ba_own _ _ Ba _ _ (sh_data _ _ _ _ _ _ Sh fbn ltac:(lia))) as Ho.
  pose proof (ba_fb _ _ Ba). pose proof (ba_len _ _ Ba) as Hlen. pose proof (sh_u32 _ _ _ _ _ _ Sh) as Hu.
  pose proof (sh_ind _ _ _ _ _ _ Sh) as Hi. unfold append_block. revert Ho Hi. unfold faddr, has_ind. consts.
  destruct (Z.ltb_spec fbn 12) as [Hd|Hd]; intros Ho Hi.
  - rewrite xint_u32 by by apply u32_lookup. rewrite (proj2 (Z.eqb_neq _ 0)) by lia. wp_step. apply wp_ret. apply wp_ret.
    by rewrite xint_u32 by by apply u32_lookup.
  - rewrite (proj2 (Z.ltb_lt _ _)) in Hi by lia. pose proof (ba_own _ _ Ba _ _ Hi) as Hr. consts.
    rewrite xint_u32 by by apply u32_lookup. rewrite (proj2 (Z.eqb_neq _ 0)) in * by lia. wp_step. apply wp_ret. cbv zeta.
    rewrite xint_u32 by by apply u32_lookup. wp_step. apply wp_rsect; [lia|]. wp_step.
    rewrite (proj2 (Z.eqb_neq _ 0)) by lia. apply wp_ret. apply wp_ret. rewrite xint_u32; [done|].
    apply get_u32_range. by apply disk_read_bytes, Ba.
Qed.

Definition append_post (own : owner) (s : mst) (i m fbn : Z) (din : dinode) (c : list Z) (r : Z * dinode) (s' : mst) : Prop :=
  exists own' a', appended own s i m fbn c own' s' a' (fst r) /\ snd r = set_daddrs a' din.

Lemma wp_append_direct own s i din c fbn :
  base own s -> 0 <= fbn < NDIRECT -> shape own (blk s) i (d_addrs din) fbn (has_ind fbn) -> holds (blk s) (d_addrs din) fbn c ->
  Z.of_nat (length c) <= fbn * BSIZE -> m_freeblock s + (cost (fbn + 1) - cost fbn) <= FSSIZE ->
  wp (append_block din fbn) (append_post own s i fbn fbn din c) s.
Proof.
  intros Ba Hf Sh Hh Hc Hroom. pose proof (ba_fb _ _ Ba) as Hfb. set (b := m_freeblock s) in *.
  assert (has_ind fbn = false /\ has_ind (fbn + 1) = false /\ cost (fbn + 1) - cost fbn = 1) as (I1 & I2 & I3).
  { unfold cost, has_ind. consts. rewrite !(proj2 (Z.ltb_ge _ _)) by lia. lia. }
  rewrite I1 in Sh. rewrite I3 in Hroom. pose proof (sh_u32 _ _ _ _ _ _ Sh) as Hu. pose proof (sh_len _ _ _ _ _ _ Sh) as Hl.
  assert (is_u32 b) as Hb by (unfold is_u32; consts; lia).
  assert (faddr (blk s) (d_addrs din) fbn = 0) as Hz by (apply (sh_zero _ _ _ _ _ _ Sh); consts; lia).
  destruct (shape_direct own (blk s) i (d_addrs din) fbn b Sh ltac:(lia) Hb ltac:(intros x y; by apply own_fresh)) as [Sh' Hf'].
  unfold append_block. rewrite (proj2 (Z.ltb_lt fbn NDIRECT)) by lia. wp_step.
  unfold faddr in Hz. rewrite (proj2 (Z.ltb_lt fbn NDIRECT)) in Hz by lia. rewrite Hz. change (xint 0 =? 0) with true. cbv iota.
  wp_step. apply (wp_next_block own); [done|]. fold b. apply wp_ret. apply wp_ret. cbn [d_addrs set_daddrs].
  rewrite (xint_u32 b Hb). rewrite list_lookup_total_insert_eq by (rewrite Hl; unfold NADDRS; consts; lia). rewrite (xint_u32 b Hb).
  exists (oset own b (i, Data fbn)), (<[Z.to_nat fbn := b]> (d_addrs din)). split; [|done]. cbn [fst]. split.
  - apply base_alloc; [done|fold b; lia].
  - by apply spares_alloc.
  - by rewrite I2.
  - apply (holds_extend (blk s) _ (d_addrs din) _ fbn c b); [done|lia|done| | |].
    + intros n Hn. rewrite Hf', decide_False by (consts; lia). done.
    + rewrite Hf' by (consts; lia). by rewrite decide_True.
    + apply (ba_zero _ _ Ba). done.
  - rewrite Hf' by (consts; lia). by rewrite decide_True.
  - rewrite I3. done.
Qed.

(** The block of addresses is there, or is made. *)
Lemma wp_make_ind own s i din c fbn (k : dinode -> M mst (Z * dinode)) (Q : Z * dinode -> mst -> Prop) :
  base own s -> NDIRECT <= fbn < MAXFILE -> shape own (blk s) i (d_addrs din) fbn (has_ind fbn) -> holds (blk s) (d_addrs din) fbn c ->
  m_freeblock s + (fbn + 1 - cost fbn) <= FSSIZE ->
  (forall own' s' a', base own' s' -> spares i own s own' s' -> shape own' (blk s') i a' fbn true -> holds (blk s') a' fbn c ->
    m_freeblock s' = m_freeblock s + (fbn + 1 - cost fbn) -> wp (k (set_daddrs a' din)) Q s') ->
  wp (din <- (if xint (d_addrs din !!! Z.to_nat NDIRECT) =? 0 then
                b <- next_block ;; ret (set_daddrs (<[Z.to_nat NDIRECT := xint b]> (d_addrs din)) din)
              else ret din) ;; k din) Q s.
Proof.
  intros Ba Hf Sh Hh Hroom HQ. pose proof (ba_fb _ _ Ba) as Hfb. set (b := m_freeblock s) in *.
  pose proof (sh_u32 _ _ _ _ _ _ Sh) as Hu. pose proof (sh_ind _ _ _ _ _ _ Sh) as Hi. rewrite xint_u32 by by apply u32_lookup.
  destruct (has_ind fbn) eqn:E.
  - pose proof (ba_own _ _ Ba _ _ Hi) as Hr. rewrite (proj2 (Z.eqb_neq _ 0)) by (consts; lia). wp_step. apply wp_ret.
    replace din with (set_daddrs (d_addrs din) din) by (by destruct din). apply (HQ own); [done|apply spares_refl|done|done|].
    unfold cost. rewrite E. lia.
  - assert (is_u32 b) as Hb by (unfold is_u32; consts; lia). rewrite Hi. cbn [Z.eqb]. wp_step. wp_step.
    apply (wp_next_block own); [done|]. fold b. apply wp_ret. rewrite (xint_u32 b Hb).
    assert (blk s b = zero_block) as Hz by (by apply (ba_zero _ _ Ba)).
    destruct (shape_ind own (blk s) i (d_addrs din) fbn b Sh Hb ltac:(consts; lia) Hz ltac:(intros x y; by apply own_fresh)) as [Sh' Hf'].
    unfold cost in Hroom, HQ. rewrite E in Hroom, HQ. apply (HQ (oset own b (i, Ind))).
    + apply base_alloc; [done|fold b; lia].
    + by apply spares_alloc.
    + done.
    + intros j Hj. change (blk (set_freeblock (b + 1) s)) with (blk s). rewrite Hf'; [by apply Hh|].
      consts. split; [apply Z.div_pos; lia|apply Z.div_lt_upper_bound; lia].
    + cbn. fold b. lia.
Qed.

Lemma wp_append_indirect own s i din c fbn :
  base own s -> NDIRECT <= fbn < MAXFILE -> shape own (blk s) i (d_addrs din) fbn (has_ind fbn) -> holds (blk s) (d_addrs din) fbn c ->
  Z.of_nat (length c) <= fbn * BSIZE -> m_freeblock s + (cost (fbn + 1) - cost fbn) <= FSSIZE ->
  wp (append_block din fbn) (append_post own s i fbn fbn din c) s.
Proof.
  intros Ba Hf Sh Hh Hc Hroom.
  assert (has_ind (fbn + 1) = true) as I2 by (unfold has_ind; consts; apply Z.ltb_lt; lia).
  assert (cost (fbn + 1) = fbn + 1 + 1) as I3 by (unfold cost; by rewrite I2). rewrite I3 in Hroom.
  unfold append_block. rewrite (proj2 (Z.ltb_ge fbn NDIRECT)) by lia.
  apply (wp_make_ind own s i din c fbn); [done|done|done|done|lia|]. intros own1 s1 a Ba1 Sp1 Sh1 Hh1 Hfb1. cbn [d_addrs set_daddrs]. cbv zeta.
  pose proof (ba_fb _ _ Ba1) as Hfb. set (b := m_freeblock s1) in *. set (A := a !!! Z.to_nat NDIRECT).
  pose proof (sh_ind _ _ _ _ _ _ Sh1) as Hi. cbn in Hi. fold A in Hi. pose proof (ba_own _ _ Ba1 _ _ Hi) as HA. fold b in HA.
  assert (is_u32 b) as Hb by (unfold is_u32; consts; lia). assert (A <> 0) as HA0 by (consts; lia).
  rewrite xint_u32 by (apply u32_lookup; apply Sh1). fold A. wp_step. apply wp_rsect; [rewrite (ba_len _ _ Ba1); lia|].
  assert (get_u32 (4 * Z.to_nat (fbn - NDIRECT)) (blk s1 A) = 0) as Hz.
  { pose proof (sh_zero _ _ _ _ _ _ Sh1 fbn ltac:(lia)) as Hz. unfold faddr in Hz. fold A in Hz.
    rewrite (proj2 (Z.ltb_ge fbn NDIRECT)), (proj2 (Z.eqb_neq A 0)) in Hz by (done || lia). done. }
  rewrite Hz. cbn [Z.eqb]. wp_step. wp_step. apply (wp_next_block own1); [done|]. fold b. rewrite (xint_u32 b Hb).
  set (ib := splice (4 * Z.to_nat (fbn - NDIRECT)) (le_encode 4 b) (blk s1 A)). set (s2 := set_freeblock (b + 1) s1).
  wp_step. apply wp_wsect; [cbn; rewrite (ba_len _ _ Ba1); lia|]. apply wp_ret. apply wp_ret. fold s2.
  assert (length (blk s1 A) = bsize) as Hlen by (by apply disk_read_length, Ba1).
  assert (blk (wput s2 A ib) A = ib) as HAib by (by rewrite blk_wput, decide_True).
  destruct (shape_entry own1 (blk s1) (blk (wput s2 A ib)) i a fbn b Sh1 Hf Hb HA0 Hlen HAib ltac:(intros x y; by apply own_fresh)) as [Sh2 Hf2].
  assert (get_u32 (4 * Z.to_nat (fbn - NDIRECT)) ib = b) as Hgb by (apply get_u32_put; [rewrite Hlen; unfold bsize; consts; lia|done]).
  rewrite Hgb, (xint_u32 b Hb).
  assert (base (oset own1 b (i, Data fbn)) s2) as Ba2 by (apply base_alloc; [done|fold b; lia]).
  exists (oset own1 b (i, Data fbn)), a. split; [|done]. cbn [fst]. split.
  - apply base_wput; [done|cbn; lia|]. apply put_u32_good. split; [done|]. by apply disk_read_bytes, Ba1.
  - eapply spares_trans; [exact Sp1|]. eapply spares_trans; [by apply spares_alloc|]. apply (spares_wput i _ _ A ib Ind); [exact Ba2|].
    by apply (oset_old own1 s1).
  - by rewrite I2.
  - apply (holds_extend (blk s1) _ a _ fbn c b); [done|consts; lia|done| | |].
    + intros n Hn. rewrite Hf2, decide_False by (consts; lia). split; [done|]. rewrite blk_wput, decide_False; [done|].
      intros E. pose proof (sh_data _ _ _ _ _ _ Sh1 n Hn) as Hd. rewrite E in Hd. congruence.
    + rewrite Hf2 by (consts; lia). by rewrite decide_True.
    + rewrite blk_wput, decide_False by lia. by apply (ba_zero _ _ Ba1).
  - rewrite Hf2 by (consts; lia). by rewrite decide_True.
  - cbn. fold b. rewrite I3, Hfb1. lia.
Qed.

(** The block for the next byte of the file. *)
Lemma wp_append_block own s i din c :
  let len := Z.of_nat (length c) in let m := blocks_for len in let fbn := len / BSIZE in
  base own s -> fbn < MAXFILE -> file_ok own (blk s) i (d_addrs din) c -> m_freeblock s + (cost (fbn + 1) - cost m) <= FSSIZE ->
  wp (append_block din fbn) (append_post own s i m fbn din c) s.
Proof.
  intros len m fbn Ba Hf [Sh Hh] Hroom. fold len m in Sh, Hh.
  assert (0 <= fbn /\ (m = fbn /\ len = fbn * BSIZE \/ m = fbn + 1)) as [H0 [[Hm Hl]|Hm]].
  { unfold m, fbn, blocks_for. consts. pose proof (Z.div_mod len 1024 ltac:(lia)). pose proof (Z.mod_pos_bound len 1024 ltac:(lia)).
    assert (0 <= len) by lia. split; [apply Z.div_pos; lia|]. destruct (decide (len mod 1024 = 0)) as [E|E]; [left|right].
    - split; [|lia]. symmetry. apply (Z.div_unique _ _ _ 1023); lia.
    - symmetry. apply (Z.div_unique _ _ _ (len mod 1024 - 1)); lia. }
  - rewrite Hm in *. destruct (decide (fbn < NDIRECT)); [apply wp_append_direct|apply wp_append_indirect]; try done; lia.
  - rewrite Hm in *. eapply wp_mono; [by apply (wp_append_old own s i din c fbn)|]. intros r s' [-> ->].
    exists own, (d_addrs din). split; [|by destruct din]. cbn [fst]. split; try done. lia.
Qed.

(** ** The loop of iappend *)

Lemma rd_splice off bs l k :
  (off + length bs <= length l)%nat ->
  rd (splice off bs l) k = if decide (off <= k < off + length bs)%nat then rd bs (k - off) else rd l k.
Proof.
  intros Hl. unfold rd. case_decide as Hk; [by rewrite lookup_splice_new by lia|by rewrite lookup_splice_old by lia].
Qed.
Lemma rd_app c p k : rd (c ++ p) k = if decide (k < length c)%nat then rd c k else rd p (k - length c).
Proof. unfold rd. case_decide; [by rewrite lookup_app_l|by rewrite lookup_app_r by lia]. Qed.
Lemma rd_ge c k : (length c <= k)%nat -> rd c k = 0.
Proof. intros. unfold rd. by rewrite lookup_ge_None_2. Qed.

Lemma faddr_data own B i a m hi n x buf k :
  shape own B i a m hi -> own x = Some (i, Data n) ->
  faddr (fun b => if decide (b = x) then buf else B b) a k = faddr B a k.
Proof.
  intros Sh Hx. unfold faddr. destruct (_ <? _); [done|]. destruct (Z.eqb_spec (a !!! Z.to_nat NDIRECT) 0) as [?|Hne]; [done|].
  pose proof (sh_ind _ _ _ _ _ _ Sh) as Hi. destruct hi; [|done]. rewrite decide_False; [done|]. intros E. congruence.
Qed.

Lemma holds_write own B i a c p1 fbn hi x :
  shape own B i a (fbn + 1) hi -> holds B a (fbn + 1) c -> faddr B a fbn = x -> 0 <= fbn -> length (B x) = bsize ->
  fbn * BSIZE <= Z.of_nat (length c) -> Z.of_nat (length c) + Z.of_nat (length p1) <= (fbn + 1) * BSIZE ->
  holds (fun b => if decide (b = x) then splice (Z.to_nat (Z.of_nat (length c) - fbn * BSIZE)) p1 (B x) else B b) a (fbn + 1) (c ++ p1).
Proof.
  intros Sh Hh Hx H0 Hlen Hlo Hhi k Hk. pose proof (sh_data _ _ _ _ _ _ Sh fbn ltac:(lia)) as Hox. rewrite Hx in Hox.
  rewrite (faddr_data own B i a _ hi fbn x _ _ Sh Hox). consts.
  pose proof (Z.div_mod k 1024 ltac:(lia)) as Hdm. pose proof (Z.mod_pos_bound k 1024 ltac:(lia)) as Hmb.
  specialize (Hh k ltac:(consts; lia)). consts. rewrite rd_app. destruct (decide (k / 1024 = fbn)) as [E|E].
  - rewrite E, Hx in *. rewrite decide_True by done. rewrite rd_splice by (rewrite Hlen; unfold bsize; consts; lia).
    destruct (decide (Z.to_nat k < length c)%nat) as [Hc|Hc].
    + rewrite decide_False by lia. exact Hh.
    + case_decide as Hs; [f_equal; lia|]. rewrite (rd_ge p1) by lia. rewrite Hh. apply rd_ge. lia.
  - assert (0 <= k / 1024) by (apply Z.div_pos; lia).
    rewrite decide_False by (intros Ex; pose proof (sh_data _ _ _ _ _ _ Sh (k / 1024) ltac:(lia)) as Hd; rewrite Ex in Hd; congruence).
    rewrite decide_True by lia. exact Hh.
Qed.

Lemma shape_ext own B B' i a m hi : (forall b, B' b = B b) -> shape own B i a m hi -> shape own B' i a m hi.
Proof. intros He. apply shape_frame. intros b sl Hb. by split. Qed.
Lemma holds_ext B B' a m c : (forall b, B' b = B b) -> holds B a m c -> holds B' a m c.
Proof. intros He Hh k Hk. unfold faddr in *. rewrite !He. by apply Hh. Qed.

Lemma blocks_for_last len fbn : fbn * BSIZE < len <= (fbn + 1) * BSIZE -> blocks_for len = fbn + 1.
Proof. unfold blocks_for. consts. intros H. symmetry. apply (Z.div_unique _ _ _ (len - fbn * 1024 - 1)); lia. Qed.
Lemma blocks_for_mono l l' : l <= l' -> blocks_for l <= blocks_for l'.
Proof. unfold blocks_for. consts. intros H. apply Z.div_le_mono; lia. Qed.
Lemma cost_mono m m' : m <= m' -> cost m <= cost m'.
Proof. unfold cost, has_ind. intros H. destruct (Z.ltb_spec NDIRECT m), (Z.ltb_spec NDIRECT m'); lia. Qed.

(** One turn: the bytes that fit in the block. *)
Lemma file_ok_written own s i m fbn c own' s' a x p1 :
  appended own s i m fbn c own' s' a x -> 0 <= fbn -> p1 <> [] -> Forall is_byte p1 -> fbn * BSIZE <= Z.of_nat (length c) ->
  Z.of_nat (length c) + Z.of_nat (length p1) <= (fbn + 1) * BSIZE ->
  let s2 := wput s' x (splice (Z.to_nat (Z.of_nat (length c) - fbn * BSIZE)) p1 (blk s' x)) in
  base own' s2 /\ spares i own s own' s2 /\ file_ok own' (blk s2) i a (c ++ p1).
Proof.
  intros [Ba Sp Sh Hh Hx _] H0 Hp Hb Hlo Hhi s2. pose proof (sh_data _ _ _ _ _ _ Sh fbn ltac:(lia)) as Hox. rewrite Hx in Hox.
  pose proof (ba_own _ _ Ba _ _ Hox) as Hr. assert (length (blk s' x) = bsize) as Hlen by (by apply disk_read_length, Ba).
  assert (length p1 <> 0%nat) as Hp0 by (by destruct p1).
  assert (forall b, blk s2 b = if decide (b = x) then splice (Z.to_nat (Z.of_nat (length c) - fbn * BSIZE)) p1 (blk s' x) else blk s' b) as HB
    by (intros b; apply blk_wput).
  assert (blocks_for (Z.of_nat (length (c ++ p1))) = fbn + 1) as Hbf by (apply blocks_for_last; rewrite length_app; lia).
  split_and!.
  - apply base_wput; [done|lia|]. split; [by rewrite splice_length|]. apply splice_Forall; [done|]. by apply disk_read_bytes, Ba.
  - eapply spares_trans; [exact Sp|]. by eapply spares_wput.
  - split; rewrite Hbf.
    + apply (shape_ext _ _ _ _ _ _ _ HB). destruct Sh as [? ? ? ? Sd Sz Si]. split; try done; intros n Hn.
      * rewrite (faddr_data own' (blk s') i a (fbn + 1) (has_ind (fbn + 1)) fbn); [by apply Sd|by split|done].
      * rewrite (faddr_data own' (blk s') i a (fbn + 1) (has_ind (fbn + 1)) fbn); [by apply Sz|by split|done].
    + apply (holds_ext _ _ _ _ _ HB). by eapply holds_write.
Qed.

Record grown (own : owner) (s : mst) (i : Z) (c p : list Z) (own' : owner) (s' : mst) (a : list Z) : Prop := {
  gr_base : base own' s';
  gr_spares : spares i own s own' s';
  gr_file : file_ok own' (blk s') i a (c ++ p);
  gr_fb : m_freeblock s' = m_freeblock s +
    (cost (blocks_for (Z.of_nat (length (c ++ p)))) - cost (blocks_for (Z.of_nat (length c))))
}.

Lemma wp_iappend_loop fuel own s i din c p :
  base own s -> file_ok own (blk s) i (d_addrs din) c -> Forall is_byte p -> (length p < fuel)%nat ->
  Z.of_nat (length (c ++ p)) <= MAXFILE * BSIZE ->
  m_freeblock s + (cost (blocks_for (Z.of_nat (length (c ++ p)))) - cost (blocks_for (Z.of_nat (length c)))) <= FSSIZE ->
  wp (iappend_loop fuel din (Z.of_nat (length c)) p) (fun r s' => exists own' a,
    grown own s i c p own' s' a /\ r = (Z.of_nat (length (c ++ p)), set_daddrs a din)) s.
Proof.
  revert own s din c p. induction fuel as [|fuel IH]; intros own s din c p Ba Fo Hb Hf Hmax Hroom; [lia|]. cbn [iappend_loop].
  destruct p as [|b0 p0] eqn:Ep.
  { cbn [length]. apply wp_ret. exists own, (d_addrs din). rewrite app_nil_r. split; [|by destruct din].
    split; [done|apply spares_refl|by rewrite app_nil_r|rewrite app_nil_r; lia]. }
  rewrite <- Ep in *. assert (0 < length p)%nat as Hp by (subst p; cbn; lia). clear Ep b0 p0.
  rewrite (proj2 (Z.leb_gt _ 0)) by lia. set (len := Z.of_nat (length c)) in *. set (fbn := len / BSIZE).
  rewrite length_app, Nat2Z.inj_add in Hmax, Hroom. fold len in Hmax, Hroom.
  assert (0 <= fbn /\ fbn * BSIZE <= len < (fbn + 1) * BSIZE) as [H0 Hlo].
  { unfold fbn. consts. pose proof (Z.div_mod len 1024 ltac:(lia)). pose proof (Z.mod_pos_bound len 1024 ltac:(lia)).
    split; [apply Z.div_pos; lia|lia]. }
  assert (fbn < MAXFILE) as Hfm by (consts; lia). wp_step. unfold assert_. rewrite (proj2 (Z.ltb_lt fbn MAXFILE)) by done. apply wp_ret.
  set (n1 := Z.min (Z.of_nat (length p)) ((fbn + 1) * BSIZE - len)). set (p1 := take (Z.to_nat n1) p).
  assert (Z.of_nat (length p1) = n1 /\ 0 < n1) as [Hp1 Hn1] by (unfold p1; rewrite length_take; unfold n1; lia).
  assert (blocks_for (len + n1) = fbn + 1) as Hbf by (apply blocks_for_last; unfold n1; lia).
  pose proof (cost_mono _ _ (blocks_for_mono (len + n1) (len + Z.of_nat (length p)) ltac:(unfold n1; lia))) as Hcm.
  rewrite Hbf in Hcm. wp_step. eapply wp_mono; [apply (wp_append_block own s i din c); fold len fbn; [done|done|done|lia]|].
  intros [x din1] s1 (own1 & a1 & Ap & Ed). cbn [fst snd] in Ap, Ed. subst din1. fold len fbn in Ap.
  destruct (file_ok_written own s i _ fbn c own1 s1 a1 x p1 Ap H0) as (Ba2 & Sp2 & Fo2);
    [intros E; rewrite E in Hp1; cbn in Hp1; lia|by apply Forall_take|fold len; lia|fold len; unfold n1 in *; lia|].
  fold len in Ba2, Sp2, Fo2. set (s2 := wput s1 x _) in *.
  pose proof (ba_own _ _ (ap_base _ _ _ _ _ _ _ _ _ _ Ap) _ _ (sh_data _ _ _ _ _ _ (ap_shape _ _ _ _ _ _ _ _ _ _ Ap) fbn ltac:(lia))) as Hx.
  rewrite (ap_addr _ _ _ _ _ _ _ _ _ _ Ap) in Hx. pose proof (ba_fb _ _ (ap_base _ _ _ _ _ _ _ _ _ _ Ap)).
  pose proof (ba_len _ _ (ap_base _ _ _ _ _ _ _ _ _ _ Ap)) as Hlen.
  wp_step. apply wp_rsect; [lia|]. wp_step. apply wp_wsect; [lia|]. fold p1 s2.
  assert (Z.of_nat (length (c ++ p1)) = len + n1) as Hl1 by (rewrite length_app; lia).
  assert ((c ++ p1) ++ drop (Z.to_nat n1) p = c ++ p) as Happ by (by rewrite <- app_assoc; unfold p1; rewrite take_drop).
  rewrite <- Hl1. pose proof (ap_fb _ _ _ _ _ _ _ _ _ _ Ap) as Hfb1. fold len in Hfb1.
  eapply wp_mono; [apply (IH own1 s2 (set_daddrs a1 din) (c ++ p1) (drop (Z.to_nat n1) p))|].
  - done.
  - exact Fo2.
  - by apply Forall_drop.
  - rewrite length_drop. lia.
  - rewrite Happ, length_app. lia.
  - rewrite Happ, Hl1, Hbf, length_app, Nat2Z.inj_add. fold len. cbn. lia.
  - intros r s3 (own3 & a3 & [G1 G2 G3 G4] & ->). exists own3, a3. rewrite Happ in *. split; [|done]. split; [done| |done|].
    + by eapply spares_trans.
    + rewrite G4, Hl1, Hbf. cbn. rewrite Hfb1. fold len. lia.
Qed.

(** ** The image as a whole *)

Definition inode_of (s : mst) (i : Z) : dinode := get_dinode i (blk s (IBLOCK i sb)).

Fixpoint total_cost (fs : list (Z * list Z)) : Z :=
  match fs with [] => 0 | (_, c) :: fs' => cost (blocks_for (Z.of_nat (length c))) + total_cost fs' end.

Definition inode_blocks (b : Z) : Prop := sb_inodestart sb <= b < sb_bmapstart sb.

(** The files, by inode number from 1 on: their type and contents. *)
Record minv (own : owner) (s : mst) (fs : list (Z * list Z)) : Prop := {
  mi_base : base own s;
  mi_fi : m_freeinode s = 1 + Z.of_nat (length fs);
  mi_fb : m_freeblock s = nmeta + total_cost fs;
  mi_count : Z.of_nat (length fs) < NINODES;
  mi_file : forall j t c, fs !! j = Some (t, c) -> exists a,
    inode_of s (1 + Z.of_nat j) = mkDinode t 0 0 1 (Z.of_nat (length c)) a /\
    file_ok own (blk s) (1 + Z.of_nat j) a c;
  mi_type : forall j t c, fs !! j = Some (t, c) -> 0 <= t < 2 ^ 15;
  mi_unused : forall i, 1 + Z.of_nat (length fs) <= i < NINODES -> d_type (inode_of s i) = 0;
  mi_meta : forall b, 0 <= b < nmeta -> ~ inode_blocks b ->
    blk s b = if b =? 1 then splice 0 (enc_superblock sb) zero_block else zero_block
}.

Lemma iblock_val i : 0 <= i < NINODES -> IBLOCK i sb = i / 16 + 33 /\ 33 <= i / 16 + 33 < 46.
Proof.
  intros Hi. unfold IBLOCK. change IPB with 16. change (sb_inodestart sb) with 33. change NINODES with 200 in *.
  pose proof (Z.div_mod i 16 ltac:(lia)). pose proof (Z.mod_pos_bound i 16 ltac:(lia)).
  rewrite u32_small; lia.
Qed.

Lemma wp_winode own s i d (Q : unit -> mst -> Prop) :
  base own s -> 0 <= i < NINODES -> Q tt (wput s (IBLOCK i sb) (put_dinode i d (blk s (IBLOCK i sb)))) -> wp (winode i d) Q s.
Proof.
  intros Ba Hi HQ. destruct (iblock_val i Hi) as [E ?]. unfold winode. pose proof (ba_len _ _ Ba). consts.
  wp_step. apply wp_rsect; [lia|]. by apply wp_wsect; [lia|].
Qed.
Lemma wp_rinode own s i (Q : dinode -> mst -> Prop) :
  base own s -> 0 <= i < NINODES -> Q (inode_of s i) s -> wp (rinode i) Q s.
Proof.
  intros Ba Hi HQ. destruct (iblock_val i Hi) as [E ?]. unfold rinode. pose proof (ba_len _ _ Ba). consts.
  wp_step. apply wp_rsect; [lia|]. by apply wp_ret.
Qed.

(** Writing an inode. *)
Lemma inode_of_winode own s i i' d :
  base own s -> 0 <= i < NINODES -> 0 <= i' < NINODES -> valid_dinode d ->
  inode_of (wput s (IBLOCK i sb) (put_dinode i d (blk s (IBLOCK i sb)))) i' = if decide (i' = i) then d else inode_of s i'.
Proof.
  intros Ba Hi Hi' Hv. unfold inode_of. rewrite blk_wput. destruct (iblock_val i Hi) as [E _]. destruct (iblock_val i' Hi') as [E' _].
  assert (length (blk s (IBLOCK i sb)) = bsize) as Hlen by (by apply disk_read_length, Ba).
  destruct (decide (i' = i)) as [->|Hne]; [rewrite decide_True by done; by apply get_put_dinode|].
  case_decide as Hb; [|done]. rewrite get_put_dinode_ne; [by rewrite Hb|apply Hv|]. rewrite E, E' in Hb. intros Hm.
  change IPB with 16 in Hm. pose proof (Z.div_mod i 16 ltac:(lia)). pose proof (Z.div_mod i' 16 ltac:(lia)). lia.
Qed.

Lemma file_ok_winode own s i d i' a c :
  base own s -> 0 <= i < NINODES ->
  file_ok own (blk s) i' a c -> file_ok own (blk (wput s (IBLOCK i sb) d)) i' a c.
Proof.
  intros Ba Hi [Sh Hh]. destruct (iblock_val i Hi) as [E ?].
  assert (forall b sl, own b = Some (i', sl) -> own b = Some (i', sl) /\ blk (wput s (IBLOCK i sb) d) b = blk s b) as Hs.
  { intros b sl Ho. split; [done|]. pose proof (ba_own _ _ Ba _ _ Ho). consts. rewrite blk_wput, decide_False by lia. done. }
  split; [by eapply shape_frame|by eapply holds_frame].
Qed.

Lemma total_cost_insert fs j t c c' :
  fs !! j = Some (t, c) -> total_cost (<[j := (t, c')]> fs) =
  total_cost fs + (cost (blocks_for (Z.of_nat (length c'))) - cost (blocks_for (Z.of_nat (length c)))).
Proof.
  revert j. induction fs as [|[t1 c1] fs IH]; intros [|j] Hj; [done..| |].
  - injection Hj as -> ->. cbn. lia.
  - change (<[S j := (t, c')]> ((t1, c1) :: fs)) with ((t1, c1) :: <[j := (t, c')]> fs). cbn [total_cost]. rewrite (IH j Hj). lia.
Qed.

Lemma file_len own B i a c : file_ok own B i a c -> Z.of_nat (length c) <= 268 * 1024.
Proof.
  intros [Sh _]. pose proof (sh_max _ _ _ _ _ _ Sh) as Hm. unfold blocks_for in Hm. consts.
  pose proof (Z.div_mod (Z.of_nat (length c) + 1024 - 1) 1024 ltac:(lia)).
  pose proof (Z.mod_pos_bound (Z.of_nat (length c) + 1024 - 1) 1024 ltac:(lia)). lia.
Qed.

(** The inode block is written back after work on the file's blocks. *)
Lemma valid_file own B i a c t :
  file_ok own B i a c -> 0 <= t < 2 ^ 15 -> valid_dinode (mkDinode t 0 0 1 (Z.of_nat (length c)) a).
Proof.
  intros Fo Ht. pose proof (file_len _ _ _ _ _ Fo) as Hl. destruct Fo as [Sh _].
  unfold valid_dinode, is_s16. cbn. split_and!; try lia; [|apply Sh|apply Sh]. unfold is_u32. lia.
Qed.

Lemma winode_meta s i d b :
  0 <= i < NINODES -> ~ inode_blocks b -> blk (wput s (IBLOCK i sb) d) b = blk s b.
Proof.
  intros Hi Hb. rewrite blk_wput, decide_False; [done|]. intros ->. apply Hb. destruct (iblock_val i Hi) as [-> ?].
  unfold inode_blocks. change (sb_inodestart sb) with 33. change (sb_bmapstart sb) with 46. lia.
Qed.

Lemma wp_iappend own s fs j t c p :
  minv own s fs -> fs !! j = Some (t, c) -> Forall is_byte p -> Z.of_nat (length (c ++ p)) <= MAXFILE * BSIZE ->
  nmeta + total_cost (<[j := (t, c ++ p)]> fs) <= FSSIZE ->
  wp (iappend (1 + Z.of_nat j) p) (fun _ s' => exists own', minv own' s' (<[j := (t, c ++ p)]> fs)) s.
Proof.
  intros M Hj Hp Hmax Hroom. pose proof (lookup_lt_Some _ _ _ Hj) as Hlt. set (i := 1 + Z.of_nat j).
  assert (0 <= i < NINODES) as Hi by (pose proof (mi_count _ _ _ M); lia).
  destruct M as [Ba Mi Mf Mc Mfile Mt Mu Mm]. destruct (Mfile j t c Hj) as (a & Ha & Fo). fold i in Ha, Fo.
  rewrite (total_cost_insert _ _ _ _ _ Hj) in Hroom. unfold iappend. wp_step. apply (wp_rinode own); [done..|]. rewrite Ha. cbn [d_size].
  pose proof (valid_file _ _ _ _ _ t Fo (Mt j t c Hj)) as (_ & _ & _ & _ & Hsz & _). cbn in Hsz. rewrite (xint_u32 _ Hsz).
  wp_step. eapply wp_mono; [apply (wp_iappend_loop (S (length p)) own s i _ c p); [done|exact Fo|done|lia|done|lia]|].
  intros r s1 (own1 & a1 & [Ba1 Sp1 Fo1 Hfb1] & ->). pose proof (valid_file _ _ _ _ _ t Fo1 (Mt j t c Hj)) as Hv.
  pose proof Hv as (_ & _ & _ & _ & Hsz1 & _). cbn in Hsz1. rewrite (xint_u32 _ Hsz1). cbn [set_dsize set_daddrs d_type d_major d_minor d_nlink d_addrs].
  apply (wp_winode own1); [done..|]. set (d1 := mkDinode t 0 0 1 (Z.of_nat (length (c ++ p))) a1) in *.
  set (s2 := wput s1 _ _). destruct Sp1 as (Sp1 & Spm & Spi). exists own1. destruct (iblock_val i Hi) as [Ei ?]. consts.
  assert (good (blk s1 (IBLOCK i sb))) as Hg by (split; [apply disk_read_length|apply disk_read_bytes]; apply Ba1).
  split.
  - apply base_wput; [done|pose proof (ba_fb _ _ Ba1); consts; lia|]. by apply put_dinode_good.
  - rewrite length_insert. cbn. by rewrite Spi.
  - cbn. rewrite (total_cost_insert _ _ _ _ _ Hj), Hfb1, Mf. consts. lia.
  - by rewrite length_insert.
  - intros j' t' c' Hj'. destruct (decide (j' = j)) as [->|Hne].
    + rewrite list_lookup_insert_eq in Hj' by done. injection Hj' as <- <-. fold i. exists a1. split.
      * unfold s2. by rewrite (inode_of_winode own1), decide_True.
      * by apply file_ok_winode.
    + rewrite list_lookup_insert_ne in Hj' by done. destruct (Mfile j' t' c' Hj') as (a' & Ha' & Fo'). exists a'.
      pose proof (lookup_lt_Some _ _ _ Hj'). assert (0 <= 1 + Z.of_nat j' < NINODES) as Hi' by (consts; lia). split.
      * unfold s2. rewrite (inode_of_winode own1), decide_False by (done || lia). rewrite <- Ha'. unfold inode_of.
        rewrite Spm; [done|]. destruct (iblock_val _ Hi') as [-> ?]. consts. lia.
      * apply file_ok_winode; [done..|]. eapply (file_ok_spares i own s own1 s1); [by split_and!|lia|done].
  - intros j' t' c' Hj'. destruct (decide (j' = j)) as [->|Hne].
    + rewrite list_lookup_insert_eq in Hj' by done. injection Hj' as <- <-. by apply (Mt j t c).
    + rewrite list_lookup_insert_ne in Hj' by done. by apply (Mt j' t' c').
  - rewrite length_insert. intros i' Hi'. assert (0 <= i' < NINODES) as Hr by (consts; lia). pose proof (lookup_lt_Some _ _ _ Hj).
    unfold s2. rewrite (inode_of_winode own1), decide_False by (done || lia). rewrite <- (Mu i' Hi'). unfold inode_of.
    rewrite Spm; [done|]. destruct (iblock_val _ Hr) as [-> ?]. consts. lia.
  - intros b Hb Hnb. unfold s2. rewrite winode_meta, Spm by (done || (consts; lia)). by apply Mm.
Qed.

Lemma total_cost_app fs gs : total_cost (fs ++ gs) = total_cost fs + total_cost gs.
Proof. induction fs as [|[t c] fs IH]; [done|]. cbn [app total_cost]. lia. Qed.

(** A file without contents. *)
Lemma file_ok_empty own B i : file_ok own B i (replicate NADDRS 0) [].
Proof.
  assert (forall n, faddr B (replicate NADDRS 0) n = 0) as Hf.
  { intros n. unfold faddr. assert (forall k, (k < NADDRS)%nat -> replicate NADDRS 0 !!! k = 0) as Hr
      by (intros k Hk; apply list_lookup_total_correct; by apply lookup_replicate_2).
    consts. destruct (Z.ltb_spec n 12); rewrite Hr by (unfold NADDRS; consts; lia); done. }
  split; change (blocks_for (Z.of_nat (length []))) with 0.
  - split; try done; [by apply Forall_replicate|intros n Hn; lia].
  - intros k Hk. lia.
Qed.

Lemma wp_ialloc own s fs t :
  minv own s fs -> Z.of_nat (length fs) + 1 < NINODES -> 0 <= t < 2 ^ 15 ->
  wp (ialloc t) (fun r s' => r = 1 + Z.of_nat (length fs) /\ minv own s' (fs ++ [(t, [])])) s.
Proof.
  intros M Hn Ht. destruct M as [Ba Mi Mf Mc Mfile Mt Mu Mm] eqn:EM. clear EM.
  unfold ialloc. wp_step. apply wp_gets. rewrite Mi. set (i := 1 + Z.of_nat (length fs)).
  assert (0 <= i < NINODES) as Hi by lia. change NINODES with 200 in *. wp_step. apply wp_modify. rewrite u32_small by lia.
  set (s1 := set_freeinode (i + 1) s). assert (base own s1) as Ba1 by (destruct Ba; by split).
  set (d := set_dsize _ _). assert (d = mkDinode t 0 0 1 0 (replicate NADDRS 0)) as Ed.
  { assert (xshort t = t) as Et by (unfold xshort; rewrite le_decode_encode; apply Z.mod_small; change (8 * Z.of_nat 2) with 16; lia).
    unfold d. rewrite Et. done. }
  wp_step. apply (wp_winode own); [done..|]. apply wp_ret. split; [done|]. rewrite Ed. clear d Ed. set (d := mkDinode t 0 0 1 0 (replicate NADDRS 0)).
  assert (valid_dinode d) as Hv by (apply (valid_file own (blk s) i (replicate NADDRS 0) [] t); [apply file_ok_empty|done]).
  set (s2 := wput s1 _ _). destruct (iblock_val i Hi) as [Ei ?].
  assert (good (blk s1 (IBLOCK i sb))) as Hg by (split; [apply disk_read_length|apply disk_read_bytes]; apply Ba1).
  split.
  - apply base_wput; [done|pose proof (ba_fb _ _ Ba1); consts; lia|]. by apply put_dinode_good.
  - cbn. rewrite length_app. cbn. lia.
  - change (m_freeblock s2) with (m_freeblock s). rewrite total_cost_app, Mf. change (total_cost [(t, [])]) with 0. lia.
  - rewrite length_app. cbn. change NINODES with 200. lia.
  - intros j t' c Hj. apply lookup_app_Some in Hj as [Hj|[Hge Hj]].
    + destruct (Mfile j t' c Hj) as (a & Ha & Fo). exists a. pose proof (lookup_lt_Some _ _ _ Hj). split.
      * unfold s2. rewrite (inode_of_winode own), decide_False by (done || (consts; lia)). exact Ha.
      * by apply file_ok_winode.
    + destruct (j - length fs)%nat as [|n] eqn:En; [|done]. injection Hj as <- <-. assert (1 + Z.of_nat j = i) as -> by lia.
      exists (replicate NADDRS 0). split; [|apply file_ok_empty]. unfold s2. by rewrite (inode_of_winode own), decide_True.
  - intros j t' c Hj. apply lookup_app_Some in Hj as [Hj|[Hge Hj]]; [by apply (Mt j t' c)|].
    destruct (j - length fs)%nat; [|done]. by injection Hj as <- <-.
  - rewrite length_app. cbn [length]. intros i' Hi'. unfold s2.
    rewrite (inode_of_winode own), decide_False by (done || (consts; lia)). apply Mu. consts. lia.
  - intros b Hb Hnb. unfold s2. rewrite winode_meta by done. by apply Mm.
Qed.

Lemma cost_len_mono l l' : l <= l' -> cost (blocks_for l) <= cost (blocks_for l').
Proof. intros. by apply cost_mono, blocks_for_mono. Qed.

(** The pieces [read] delivers. *)
Lemma wp_pieces own s fs j t c ps :
  minv own s fs -> fs !! j = Some (t, c) -> Forall (Forall is_byte) ps ->
  Z.of_nat (length (c ++ concat ps)) <= MAXFILE * BSIZE -> nmeta + total_cost (<[j := (t, c ++ concat ps)]> fs) <= FSSIZE ->
  wp (for_each ps (iappend (1 + Z.of_nat j))) (fun _ s' => exists own', minv own' s' (<[j := (t, c ++ concat ps)]> fs)) s.
Proof.
  revert own s fs c. induction ps as [|p ps IH]; intros own s fs c M Hj Hb Hmax Hroom; cbn [for_each concat] in *.
  - apply wp_ret. exists own. by rewrite app_nil_r, list_insert_id.
  - apply Forall_cons in Hb as [Hp Hb]. rewrite app_assoc in *. wp_step.
    assert (Z.of_nat (length (c ++ p)) <= Z.of_nat (length ((c ++ p) ++ concat ps))) as Hle by (rewrite (length_app (c ++ p)); lia).
    rewrite (total_cost_insert _ _ _ _ _ Hj) in Hroom. pose proof (cost_len_mono _ _ Hle).
    eapply wp_mono; [apply (wp_iappend own s fs j t c p); [done..|lia|]|].
    { rewrite (total_cost_insert _ _ _ _ _ Hj). lia. }
    intros [] s1 (own1 & M1). set (fs1 := <[j := (t, c ++ p)]> fs) in *.
    assert (fs1 !! j = Some (t, c ++ p)) as Hj1 by (apply list_lookup_insert_eq; by eapply lookup_lt_Some).
    assert (<[j := (t, (c ++ p) ++ concat ps)]> fs1 = <[j := (t, (c ++ p) ++ concat ps)]> fs) as E1 by apply list_insert_insert_eq.
    eapply wp_mono; [apply (IH own1 s1 fs1 (c ++ p) M1 Hj1 Hb Hmax)|].
    + rewrite E1, (total_cost_insert _ _ _ _ _ Hj). lia.
    + intros [] s2 (own2 & M2). exists own2. by rewrite E1 in M2.
Qed.

(** ** Files of the host *)

Definition short_name (f : hostfile) : list Z := strip_underscore (strip_user (hf_name f)).
Definition host_bytes (f : hostfile) : list Z := concat (default [] (hf_read f)).

(** What mkfs asks of a file: it can be read, its name without the directory
    has no slash and fits in a directory entry, and it is not too long. *)
Record host_ok (f : hostfile) : Prop := {
  ho_read : exists ps, hf_read f = Some ps /\ Forall (Forall is_byte) ps;
  ho_name : Forall is_byte (hf_name f);
  ho_slash : slash ∉ cstr (strip_user (hf_name f));
  ho_short : strlen (short_name f) <= DIRSIZ;
  ho_size : Z.of_nat (length (host_bytes f)) <= MAXFILE * BSIZE
}.

(** The root directory and the files. *)
Definition root_entries (files : list hostfile) : list Z :=
  dir_entry 1 (chars ".") ++ dir_entry 1 (chars "..") ++
  concat (imap (fun k f => dir_entry (2 + Z.of_nat k) (short_name f)) files).
Definition contents (files : list hostfile) : list (Z * list Z) :=
  (T_DIR, root_entries files) :: ((fun f => (T_FILE, host_bytes f)) <$> files).

Lemma dir_entry_length inum name : length (dir_entry inum name) = 16%nat.
Proof.
  unfold dir_entry, enc_dirent. cbn [de_inum de_name]. rewrite length_app, le_encode_length, strncpy_spec by (rewrite length_replicate; unfold DIRSIZ; lia).
  by rewrite splice_length.
Qed.
Lemma cstr_bytes t : Forall is_byte t -> Forall is_byte (cstr t).
Proof. induction 1 as [|c t Hc Ht IH]; [constructor|]. cbn. destruct (c =? 0); [constructor|by constructor]. Qed.
Lemma dir_entry_bytes inum name : Forall is_byte name -> Forall is_byte (dir_entry inum name).
Proof.
  intros Hn. unfold dir_entry, enc_dirent. cbn [de_inum de_name]. apply Forall_app. split; [apply le_encode_bytes|].
  rewrite strncpy_spec by (rewrite length_replicate; unfold DIRSIZ; lia). apply splice_Forall; [|apply Forall_replicate; unfold is_byte; lia].
  unfold name_field. apply Forall_app. split; [by apply Forall_take, cstr_bytes|apply Forall_replicate; unfold is_byte; lia].
Qed.
Lemma short_name_bytes f : Forall is_byte (hf_name f) -> Forall is_byte (short_name f).
Proof.
  intros H. unfold short_name, strip_underscore, strip_user. repeat case_match; by repeat apply Forall_drop.
Qed.

Lemma root_entries_length files : length (root_entries files) = (16 * (2 + length files))%nat.
Proof.
  unfold root_entries. rewrite !length_app, !dir_entry_length.
  assert (forall g : nat -> Z, length (concat (imap (fun k f => dir_entry (g k) (short_name f)) files)) = (16 * length files)%nat) as Hg.
  { induction files as [|f files IH]; intros g; [done|]. rewrite imap_cons. cbn [concat].
    rewrite length_app, dir_entry_length.
    match goal with |- (_ + length (concat ?l))%nat = _ => change l with (imap (fun k f => dir_entry (g (S k)) (short_name f)) files) end.
    rewrite (IH (fun k => g (S k))). cbn [length]. lia. }
  rewrite (Hg (fun k => 2 + Z.of_nat k)). lia.
Qed.

Lemma root_entries_snoc dn f :
  root_entries (dn ++ [f]) = root_entries dn ++ dir_entry (2 + Z.of_nat (length dn)) (short_name f).
Proof.
  unfold root_entries. rewrite imap_app, concat_app, <- !app_assoc. do 3 f_equal. cbn. by rewrite app_nil_r, Nat.add_0_r.
Qed.

Lemma wp_add_file own s dn f :
  minv own s (contents dn) -> host_ok f -> Z.of_nat (length dn) + 2 < NINODES ->
  nmeta + total_cost (contents (dn ++ [f])) <= FSSIZE ->
  wp (add_file 1 f) (fun _ s' => exists own', minv own' s' (contents (dn ++ [f]))) s.
Proof.
  intros M [(ps & Eps & Hps) Hnm Hsl Hsh Hsz] Hn Hroom. unfold add_file.
  set (n := length dn) in *. set (e := dir_entry (2 + Z.of_nat n) (short_name f)).
  set (c := concat ps). assert (host_bytes f = c) as Hc by (unfold host_bytes; by rewrite Eps). rewrite Hc in Hsz.
  assert (contents (dn ++ [f]) = (T_DIR, root_entries dn ++ e) :: ((fun f => (T_FILE, host_bytes f)) <$> dn) ++ [(T_FILE, c)]) as Ec.
  { unfold contents. rewrite root_entries_snoc, fmap_app. cbn. by rewrite Hc. }
  assert (length (contents dn) = S n) as Hlc by (unfold contents; cbn; by rewrite length_fmap).
  wp_step. unfold assert_. rewrite bool_decide_false by done. cbn [negb]. apply wp_ret. rewrite Eps. wp_step.
  fold (short_name f). rewrite (proj2 (Z.leb_le _ _)) by done. apply wp_ret. wp_step.
  eapply wp_mono; [apply (wp_ialloc own s (contents dn) T_FILE); [done|rewrite Hlc; lia|unfold T_FILE; lia]|].
  intros inum s1 [-> M1]. rewrite Hlc. replace (1 + Z.of_nat (S n)) with (2 + Z.of_nat n) by lia. fold e.
  set (fs1 := contents dn ++ [(T_FILE, [])]) in *. set (fs2 := <[0%nat := (T_DIR, root_entries dn ++ e)]> fs1).
  assert (fs1 !! 0%nat = Some (T_DIR, root_entries dn)) as H0 by done.
  assert (fs2 !! S n = Some (T_FILE, [])) as Hj.
  { unfold fs2. rewrite list_lookup_insert_ne by done. unfold fs1. rewrite lookup_app_r, Hlc, Nat.sub_diag by lia. done. }
  assert (<[S n := (T_FILE, [] ++ c)]> fs2 = contents (dn ++ [f])) as E2.
  { rewrite Ec. set (l := (fun f => (T_FILE, host_bytes f)) <$> dn).
    change (<[S n := (T_FILE, [] ++ c)]> fs2) with ((T_DIR, root_entries dn ++ e) :: <[n := (T_FILE, c)]> (l ++ [(T_FILE, [])])).
    f_equal. rewrite insert_app_r_alt by (unfold l; rewrite length_fmap; done). unfold l. by rewrite length_fmap, Nat.sub_diag. }
  pose proof (total_cost_insert _ _ _ _ ([] ++ c) Hj) as Hcost. rewrite E2 in Hcost.
  pose proof (cost_len_mono (Z.of_nat (length (@nil Z))) (Z.of_nat (length ([] ++ c))) ltac:(cbn; lia)).
  wp_step. eapply wp_mono; [apply (wp_iappend own s1 fs1 0 T_DIR (root_entries dn) e M1 H0)|].
  - by apply dir_entry_bytes, short_name_bytes.
  - rewrite length_app, root_entries_length. unfold e. rewrite dir_entry_length. fold n. consts. lia.
  - fold fs2. lia.
  - intros [] s2 (own2 & M2). fold fs2 in M2. replace (2 + Z.of_nat n) with (1 + Z.of_nat (S n)) by lia.
    eapply wp_mono; [apply (wp_pieces own2 s2 fs2 (S n) T_FILE [] ps M2 Hj Hps)|]; fold c.
    + exact Hsz.
    + rewrite E2. done.
    + intros [] s3 (own3 & M3). exists own3. by rewrite E2 in M3.
Qed.

(** ** The program *)

Lemma wp_zero_image (Q : unit -> mst -> Prop) :
  (forall img, disk_ok img -> (forall b, disk_read img b = zero_block) -> Q tt (mkMst img FSSIZE 1 nmeta)) ->
  wp (for_each (seqZ 0 FSSIZE) (fun i => wsect i zero_block)) Q (mkMst [] 0 1 nmeta).
Proof.
  intros HQ. eapply wp_mono; [apply (wp_for_each _ (fun dn _ s =>
    exists img, s = mkMst img (Z.of_nat (length dn)) 1 nmeta /\ disk_ok img /\ forall b, disk_read img b = zero_block))|].
  - exists []. split_and!; [done|constructor|done].
  - intros dn x rest s Hl (img & -> & Hok & Hz). assert (x = Z.of_nat (length dn)) as ->.
    { assert (seqZ 0 FSSIZE !! length dn = Some x) as Hx by (rewrite Hl; by apply list_lookup_middle). apply lookup_seqZ in Hx. lia. }
    apply wp_modify. exists (disk_write (Z.of_nat (length dn)) zero_block img). split_and!.
    + unfold set_mlen, set_mimg. cbn [m_len m_freeinode m_freeblock m_img]. rewrite length_app. cbn [length]. f_equal. lia.
    + constructor; [split; [apply zero_block_length|apply zero_block_bytes]|done].
    + intros b. cbn. destruct (_ =? b); [done|apply Hz].
  - intros [] s (img & -> & Hok & Hz). rewrite length_seqZ. by apply HQ.
Qed.

Lemma enc_superblock_good : good (splice 0 (enc_superblock sb) zero_block).
Proof.
  split; [rewrite splice_length; apply zero_block_length|]. apply splice_Forall; [apply enc_u32s_bytes|apply zero_block_bytes].
Qed.

#[local] Transparent zero_block.
Lemma zero_inode i : d_type (get_dinode i zero_block) = 0.
Proof.
  unfold get_dinode, dec_dinode, get_s16, slice, zero_block. cbn [d_type]. rewrite !drop_replicate, !take_replicate, drop_replicate, take_replicate.
  generalize (2 `min` (dinode_size `min` (bsize - dinode_size * Z.to_nat (i mod IPB)) - 0))%nat. intros n.
  assert (le_decode (replicate n 0) = 0) as -> by (induction n as [|n IH]; cbn; [done|by rewrite IH]). done.
Qed.
#[local] Opaque zero_block.

Lemma minv_start img :
  disk_ok img -> (forall b, disk_read img b = zero_block) ->
  minv (fun _ => None) (wput (mkMst img FSSIZE 1 nmeta) 1 (splice 0 (enc_superblock sb) zero_block)) [].
Proof.
  intros Hok Hz. split; try done.
  - split; try done.
    + constructor; [|done]. apply enc_superblock_good.
    + intros b Hb. rewrite blk_wput, decide_False by (cbn in Hb; consts; lia). apply Hz.
  - intros i Hi. cbn [length] in Hi. assert (0 <= i < NINODES) as Hr by lia. destruct (iblock_val i Hr) as [E ?]. unfold inode_of.
    rewrite blk_wput, decide_False by lia. change (blk (mkMst img FSSIZE 1 nmeta)) with (disk_read img). rewrite Hz. apply zero_inode.
  - intros b Hb _. rewrite blk_wput. cbn [m_img]. destruct (Z.eqb_spec b 1) as [->|Hne]; [by rewrite decide_True|].
    rewrite decide_False by done. apply Hz.
Qed.

Lemma total_cost_prefix dn rest :
  total_cost (contents dn) <= total_cost (contents (dn ++ rest)).
Proof.
  unfold contents. cbn [total_cost]. rewrite fmap_app, total_cost_app.
  assert (forall fs, 0 <= total_cost fs) as Hp.
  { induction fs as [|[t c] fs IH]; cbn [total_cost]; [lia|]. pose proof (cost_len_mono 0 (Z.of_nat (length c)) ltac:(lia)) as H0.
    change (cost (blocks_for 0)) with 0 in H0. lia. }
  pose proof (Hp ((fun f => (T_FILE, host_bytes f)) <$> rest)).
  pose proof (cost_len_mono (Z.of_nat (length (root_entries dn))) (Z.of_nat (length (root_entries (dn ++ rest))))) as Hc.
  rewrite !root_entries_length, length_app in *. lia.
Qed.

(** The directories and files are made. *)
Lemma wp_populate own s files (K : Z -> M mst unit) (Q : unit -> mst -> Prop) :
  minv own s [] -> Forall host_ok files -> Z.of_nat (length files) + 2 <= NINODES -> nmeta + total_cost (contents files) <= FSSIZE ->
  (forall own' s', minv own' s' (contents files) -> wp (K 1) Q s') ->
  wp (rootino <- ialloc T_DIR ;;
      assert_ (rootino =? ROOTINO) "rootino == ROOTINO" ;;
      iappend rootino (dir_entry rootino (chars ".")) ;;
      iappend rootino (dir_entry rootino (chars "..")) ;;
      for_each files (add_file rootino) ;; K rootino) Q s.
Proof.
  intros M Hok Hn Hroom HK. pose proof (total_cost_prefix [] files) as Hpre. cbn [app] in Hpre.
  wp_step. eapply wp_mono; [apply (wp_ialloc own s [] T_DIR); [done|by vm_compute|unfold T_DIR; lia]|]. intros r s1 [-> M1].
  change (1 + Z.of_nat (length (@nil (Z * list Z)))) with 1 in *. wp_step. apply wp_ret. cbn [app] in M1.
  set (e1 := dir_entry 1 (chars ".")). set (e2 := dir_entry 1 (chars "..")).
  assert (contents [] = [(T_DIR, e1 ++ e2)]) as E0 by (unfold contents, root_entries; cbn [imap concat fmap list_fmap]; by rewrite app_nil_r).
  assert (total_cost [(T_DIR, e1)] <= total_cost (contents [])) as H1.
  { rewrite E0. cbn [total_cost]. pose proof (cost_len_mono (Z.of_nat (length e1)) (Z.of_nat (length (e1 ++ e2))) ltac:(rewrite length_app; lia)). lia. }
  wp_step. eapply wp_mono; [apply (wp_iappend own s1 [(T_DIR, [])] 0 T_DIR [] e1 M1 eq_refl)|].
  { apply dir_entry_bytes. by apply (bool_decide_unpack _); vm_compute. }
  { cbn [app]. unfold e1. rewrite dir_entry_length. consts. lia. }
  { cbn [app]. change (<[0%nat := (T_DIR, e1)]> [(T_DIR, [])]) with [(T_DIR, e1)]. lia. }
  cbn [app]. change (<[0%nat := (T_DIR, e1)]> [(T_DIR, [])]) with [(T_DIR, e1)]. intros [] s2 (own2 & M2).
  wp_step. eapply wp_mono; [apply (wp_iappend own2 s2 [(T_DIR, e1)] 0 T_DIR e1 e2 M2 eq_refl)|].
  { apply dir_entry_bytes. by apply (bool_decide_unpack _); vm_compute. }
  { rewrite length_app. unfold e1, e2. rewrite !dir_entry_length. consts. lia. }
  { change (<[0%nat := (T_DIR, e1 ++ e2)]> [(T_DIR, e1)]) with [(T_DIR, e1 ++ e2)]. rewrite <- E0. lia. }
  change (<[0%nat := (T_DIR, e1 ++ e2)]> [(T_DIR, e1)]) with [(T_DIR, e1 ++ e2)]. rewrite <- E0. intros [] s3 (own3 & M3).
  wp_step. eapply wp_mono; [apply (wp_for_each _ (fun dn _ s => exists own', minv own' s (contents dn)))|].
  - by exists own3.
  - intros dn f rest s' Hl (own' & M'). rewrite Hl in *. pose proof (total_cost_prefix (dn ++ [f]) rest) as Hp. rewrite <- app_assoc in Hp.
    apply (wp_add_file own'); [done| |rewrite length_app in Hn; cbn in Hn; lia|cbn [app] in Hp; lia].
    apply Forall_app in Hok as [_ Hok]. by apply Forall_cons in Hok as [? _].
  - intros [] s4 (own4 & M4). by apply (HK own4).
Qed.

(** The bitmap [balloc] writes. *)
Lemma mark_bits (n : nat) :
  Z.of_nat n <= BPB ->
  good (foldl set_bit zero_block (seqZ 0 (Z.of_nat n))) /\
  forall b, 0 <= b -> bit_free (foldl set_bit zero_block (seqZ 0 (Z.of_nat n))) b = (Z.of_nat n <=? b).
Proof.
  induction n as [|n IH]; intros Hn.
  - split; [split; [apply zero_block_length|apply zero_block_bytes]|]. intros b Hb. rewrite (proj2 (Z.leb_le _ _)) by lia.
    rewrite bit_free_testbit by done. cbn [foldl]. by rewrite rd_zero_block, Z.testbit_0_l.
  - rewrite seqZ_S, foldl_app. cbn [foldl]. rewrite Z.add_0_l. destruct IH as [Hg Hb]; [lia|]. split; [by apply set_bit_good|].
    intros b Hp. rewrite set_bit_free by (first [apply Hg|lia]). case_decide; [by rewrite (proj2 (Z.leb_gt _ _)) by lia|]. rewrite Hb by done.
    destruct (Z.leb_spec (Z.of_nat n) b), (Z.leb_spec (Z.of_nat (S n)) b); first [done|lia].
Qed.

(** ** What the image holds

    The superblock is the one the kernel will read, its layout is the one the
    kernel's proofs assume and the log is empty; the bitmap marks the blocks up
    to some point as used and the rest as free; and the inodes from 1 on are the
    root directory and the files in the order of the command line, each with
    data blocks of its own among the used ones that hold its bytes; the other
    inodes are free. *)
Definition image_size (j : nat) (c : list Z) : Z :=
  let len := Z.of_nat (length c) in if decide (j = 0%nat) then (len / BSIZE + 1) * BSIZE else len.

Record formatted (files : list hostfile) (img : disk) : Prop := {
  fm_super : dec_superblock (slice 0 32 (disk_read img 1)) = sb;
  fm_geom : FsGeom ROOTDEV sb;
  fm_log : log_holds (sb_logstart sb) img [];
  fm_files : exists used own,
    (forall b, 0 <= b < sb_size sb -> bit_free (disk_read img (BBLOCK b sb)) (b mod BPB) = (used <=? b)) /\
    used <= sb_size sb /\ (forall b x, own b = Some x -> datastart sb <= b < used) /\
    forall j t c, contents files !! j = Some (t, c) -> exists a,
      get_dinode (1 + Z.of_nat j) (disk_read img (IBLOCK (1 + Z.of_nat j) sb)) = mkDinode t 0 0 1 (image_size j c) a /\
      file_ok own (disk_read img) (1 + Z.of_nat j) a c;
  fm_unused : forall i, Z.of_nat (length (contents files)) < i < sb_ninodes sb ->
    d_type (get_dinode i (disk_read img (IBLOCK i sb))) = 0
}.

#[local] Transparent zero_block.
Lemma superblock_read : dec_superblock (slice 0 32 (splice 0 (enc_superblock sb) zero_block)) = sb.
Proof. by vm_compute. Qed.
Lemma zero_head : head_is zero_block [].
Proof. split; [by vm_compute|]. intros k x. by rewrite lookup_nil. Qed.
#[local] Opaque zero_block.

Lemma geometry : FsGeom ROOTDEV sb.
Proof. split; [split; by vm_compute|by vm_compute..|]. split; by vm_compute. Qed.

(** The root directory's size is rounded up. *)
Lemma wp_round_root own s files (K : M mst unit) (Q : unit -> mst -> Prop) :
  minv own s (contents files) ->
  (forall s', base own s' -> (forall b, ~ inode_blocks b -> blk s' b = blk s b) ->
     (forall j t c, contents files !! j = Some (t, c) -> exists a,
        inode_of s' (1 + Z.of_nat j) = mkDinode t 0 0 1 (image_size j c) a /\ file_ok own (blk s') (1 + Z.of_nat j) a c) ->
     (forall i, Z.of_nat (length (contents files)) < i < NINODES -> d_type (inode_of s' i) = 0) -> wp K Q s') ->
  wp (din <- rinode 1 ;;
      winode 1 (set_dsize (xint ((xint (d_size din) / BSIZE + 1) * BSIZE)) din) ;; K) Q s.
Proof.
  intros [Ba Mi Mf Mc Mfile Mt Mu Mm] HK. destruct (Mfile 0%nat T_DIR (root_entries files) eq_refl) as (a0 & Ha0 & Fo0).
  change (1 + Z.of_nat 0) with 1 in *. pose proof (file_len _ _ _ _ _ Fo0) as Hlen. set (n := Z.of_nat (length (root_entries files))) in *.
  assert (0 <= 1 < NINODES) as H1 by (consts; lia). wp_step. apply (wp_rinode own); [done..|]. rewrite Ha0. cbn [d_size].
  pose proof (Z.div_mod n 1024 ltac:(lia)). pose proof (Z.mod_pos_bound n 1024 ltac:(lia)).
  rewrite !xint_u32 by (rewrite ?xint_u32; unfold is_u32; consts; lia). set (d := set_dsize _ _).
  assert (valid_dinode d) as Hv.
  { destruct (valid_file own (blk s) 1 a0 _ T_DIR Fo0) as (V1 & V2 & V3 & V4 & _ & V6 & V7); [by vm_compute|].
    split_and!; try done. cbn. unfold is_u32. consts. lia. }
  wp_step. apply (wp_winode own); [done..|]. assert (good (blk s (IBLOCK 1 sb))) as Hg by (split; [apply disk_read_length|apply disk_read_bytes]; apply Ba).
  apply HK; [|intros b Hb; by apply winode_meta| |].
  - apply base_wput; [done|change (IBLOCK 1 sb) with 33; pose proof (ba_fb _ _ Ba); consts; lia|by apply put_dinode_good].
  - intros j t c Hj. pose proof (lookup_lt_Some _ _ _ Hj). destruct (Mfile j t c Hj) as (a & Ha & Fo). exists a.
    split; [|by apply file_ok_winode]. rewrite (inode_of_winode own) by (done || (consts; lia)). unfold image_size.
    destruct j as [|j]; [|by rewrite !decide_False by lia]. rewrite !decide_True by lia. cbn in Hj. injection Hj as <- <-.
    change (1 + Z.of_nat 0) with 1 in *. rewrite Ha0 in Ha. injection Ha as <-. done.
  - intros i Hi. cbn [contents length] in Hi. rewrite (inode_of_winode own), decide_False by (done || (consts; lia)). apply Mu. cbn [contents length]. lia.
Qed.

(** The bitmap is written. *)
Lemma wp_mark_used own s files :
  base own s -> blk s 1 = splice 0 (enc_superblock sb) zero_block -> blk s 2 = zero_block ->
  (forall j t c, contents files !! j = Some (t, c) -> exists a,
     inode_of s (1 + Z.of_nat j) = mkDinode t 0 0 1 (image_size j c) a /\ file_ok own (blk s) (1 + Z.of_nat j) a c) ->
  (forall i, Z.of_nat (length (contents files)) < i < NINODES -> d_type (inode_of s i) = 0) ->
  Z.of_nat (length (contents files)) < NINODES ->
  wp (balloc (m_freeblock s)) (fun _ s' => formatted files (m_img s')) s.
Proof.
  intros Ba B1 B2 Hf Hu Hn. pose proof (ba_fb _ _ Ba). pose proof (ba_len _ _ Ba). consts. change BPB with 8192 in *.
  unfold balloc. rewrite (proj2 (Z.ltb_lt _ _)) by (change BPB with 8192; lia). wp_step. apply wp_ret.
  change (sb_bmapstart sb) with 46. change (replicate bsize 0) with zero_block.
  destruct (mark_bits (Z.to_nat (m_freeblock s))) as [Hg Hb]; [change BPB with 8192; lia|].
  rewrite Z2Nat.id in Hg, Hb by lia. set (buf := foldl set_bit _ _) in *.
  apply wp_wsect; [lia|]. fold buf. set (s' := wput s 46 buf).
  assert (forall b, b <> 46 -> blk s' b = blk s b) as Hne by (intros b ?; unfold s'; by rewrite blk_wput, decide_False).
  split.
  - change (disk_read (m_img s') 1) with (blk s' 1). rewrite Hne, B1 by done. apply superblock_read.
  - apply geometry.
  - split_and!; [|change (sb_logstart sb) with 2; change (disk_read (m_img s') 2) with (blk s' 2); rewrite Hne, B2 by done; apply zero_head|apply loggable_nil].
    apply (base_wput own s 46 buf); [done|lia|done].
  - exists (m_freeblock s), own. split_and!.
    + intros b Hbr. change (sb_size sb) with 2000 in Hbr. unfold BBLOCK. change (sb_bmapstart sb) with 46. change BPB with 8192.
      rewrite Z.div_small, Z.mod_small by lia. change (u32 (0 + 46)) with 46. change (disk_read (m_img s') 46) with (blk s' 46).
      unfold s'. rewrite blk_wput, decide_True by done. apply Hb. lia.
    + change (sb_size sb) with 2000. lia.
    + intros b x Ho. apply (ba_own _ _ Ba _ _ Ho).
    + intros j t c Hj. destruct (Hf j t c Hj) as (a & Ha & Fo). exists a. pose proof (lookup_lt_Some _ _ _ Hj). split.
      * rewrite <- Ha. unfold inode_of. f_equal. apply Hne. destruct (iblock_val (1 + Z.of_nat j)) as [-> ?]; [consts|]; lia.
      * destruct Fo as [Sh Hh]. assert (forall b sl, own b = Some (1 + Z.of_nat j, sl) -> own b = Some (1 + Z.of_nat j, sl) /\ blk s' b = blk s b) as Hs.
        { intros b sl Ho. split; [done|]. apply Hne. pose proof (ba_own _ _ Ba _ _ Ho). consts. lia. }
        split; [by eapply shape_frame|by eapply holds_frame].
  - intros i Hi. change (sb_ninodes sb) with 200 in Hi. transitivity (d_type (inode_of s i)); [|by apply Hu]. unfold inode_of. do 2 f_equal. apply Hne.
    destruct (iblock_val i) as [-> ?]; [consts|]; lia.
Qed.

(** The whole program. *)
Lemma wp_mkfs files :
  Forall host_ok files -> Z.of_nat (length files) + 2 <= NINODES -> datastart sb + total_cost (contents files) <= FSSIZE ->
  wp (mkfs files) (fun _ s => formatted files (m_img s)) mkfs_start.
Proof.
  intros Hok Hn Hroom. unfold mkfs. wp_step. apply wp_modify. wp_step. apply wp_zero_image. intros img Hd Hz.
  wp_step. apply wp_wsect; [by vm_compute|]. eapply wp_populate; [by apply minv_start|done..|]. intros own s M.
  eapply wp_round_root; [done|]. intros s1 Ba Hm Hf Hu. wp_step. apply wp_gets.
  assert (forall b, 0 <= b < 33 -> blk s1 b = if b =? 1 then splice 0 (enc_superblock sb) zero_block else zero_block) as Hb.
  { intros b Hb. assert (~ inode_blocks b) as Hi by (unfold inode_blocks; change (sb_inodestart sb) with 33; lia).
    rewrite Hm by done. apply (mi_meta _ _ _ M); [consts; lia|done]. }
  apply (wp_mark_used own); [done|by rewrite Hb|by rewrite Hb|done|done|apply M].
Qed.

(** C15: mkfs makes a file system the kernel can mount.  Given files that can
    be read, have short names and fit (no more than there are inodes, and
    blocks enough on the disk for them and the root directory), the program
    ends without a failed assertion, and the image has the superblock and the
    geometry the kernel expects, an empty log, a bitmap that marks exactly the
    blocks handed out, and for the root directory and each file an inode and
    blocks of its own among those which hold its contents; the root directory
    lists [.], [..] and every file under its short name and inode number. *)
Theorem mkfs_correct files :
  Forall host_ok files -> Z.of_nat (length files) + 2 <= NINODES -> datastart sb + total_cost (contents files) <= FSSIZE ->
  wp (mkfs files) (fun _ s => formatted files (m_img s)) mkfs_start.
Proof. apply wp_mkfs. Qed.

(** The program cat, of three bytes. *)
Definition demo_files : list hostfile := [mkHost (chars "user/_cat") (Some [[127; 69]; [76]])].

Lemma demo_files_ok : Forall host_ok demo_files.
Proof. constructor; [solve_host|constructor]. Qed.

Lemma mkfs_correct_witness :
  root_entries demo_files = dir_entry 1 (chars ".") ++ dir_entry 1 (chars "..") ++ dir_entry 2 (chars "cat") /\
  wp (mkfs demo_files) (fun _ s => formatted demo_files (m_img s)) mkfs_start.
Proof.
  split; [by vm_compute|]. apply mkfs_correct.
  - apply demo_files_ok.
  - by vm_compute.
  - by vm_compute.
Defined.
End mkfs.
