(* ===== verification/Mount.v ===== *)
(** * Mounting the file system

    What [main] and the first process do before any file is touched (binit,
    iinit, fsinit): from a disk whose log holds a transaction or none, the
    kernel comes to see the disk with that transaction carried out.  An image
    mkfs made is such a disk.  *)

From Stdlib Require Import String.
From S2P Require Import Prelude Param Spinlock Sleeplock Str Printf Bio BioSpec BioOps Log LogDisk LogOps LogTx LogProps Fs FsSpec FsBitmap FsFile FsRw FsCodec FsWritei Mkfs MkfsProps.

(** The calls of [main] and [forkret]. *)
Definition mount (dev : Z) : M fs unit := flog (lift binit) ;; iinit ;; fsinit dev.

Section mount.
Context (d : Z) (sb : superblock) {G : FsGeom d sb}.
#[local] Abbreviation st := (sb_logstart sb).

(** [iinit] initialises the locks. *)
Lemma wp_iinit s (Q : unit -> fs -> Prop) :
  (forall s', fs_log s' = fs_log s -> it_lock s' = initlock -> Q tt s') -> wp iinit Q s.
Proof.
  intros HQ. unfold iinit. wp_step. apply wp_modify.
  eapply wp_mono; [apply (wp_for_each _ (fun _ _ s' => fs_log s' = fs_log s /\ it_lock s' = initlock))|].
  - done.
  - intros dn i rest s' _ [Hl Hi]. unfold updi. by apply wp_modify.
  - intros [] s' [Hl Hi]. by apply HQ.
Qed.

Lemma wp_readsb s (Q : unit -> fs -> Prop) :
  bio_inv d ∅ ∅ (lg_bio (fs_log s)) ->
  (forall b, bio_inv d ∅ ∅ b -> io_disk b = io_disk (lg_bio (fs_log s)) -> env_same (io_env (lg_bio (fs_log s))) (io_env b) ->
     Q tt (set_sb (dec_superblock (slice 0 32 (disk_read (io_disk (lg_bio (fs_log s))) 1))) (set_log (set_bio b (fs_log s)) s))) ->
  wp (readsb d) Q s.
Proof.
  intros I HQ. unfold readsb. pose proof (blk_clean d ∅ ∅ _ 1 I ltac:(set_solver) ltac:(set_solver)) as Hb.
  wp_step. unfold fbread. apply wp_flog, wp_lift.
  eapply wp_mono; [apply (wp_bread d ∅ ∅ _ 1 I); [set_solver|left; rewrite union_empty_l_L, size_empty; unfold NBUF; lia]|].
  intros i b1 (I1 & S1 & (F1 & D1 & B1)). wp_step. apply wp_flog, wp_lift. eapply wp_bdata; [done..|].
  wp_step. apply wp_modify. apply wp_flog, wp_lift. cbn [fs_log lg_bio set_sb set_log set_bio].
  eapply wp_mono; [apply (wp_brelse d ({[1]} ∪ ∅) ∅ b1 i 1 I1 S1); [set_solver|right; by rewrite B1, D1]|].
  intros [] b2 (I2 & (F2 & D2 & B2)). rewrite B1, Hb. replace (({[1]} ∪ ∅) ∖ {[1]} : gset Z) with (∅ : gset Z) in I2 by set_solver.
  apply (HQ b2); [done|congruence|]. etransitivity; [apply F1|apply F2].
Qed.

(** No inode is in use that no directory names. *)
Definition no_orphan (v : Z -> block) : Prop :=
  forall inum, good_inum sb inum ->
    let di := get_dinode inum (v (IBLOCK inum sb)) in d_type di = 0 \/ d_nlink di <> 0.

Lemma wp_ireclaim s :
  fs_tx d sb ∅ s -> tx s = [] -> no_orphan (cur d s) ->
  wp (ireclaim d) (fun _ s' => fs_tx d sb ∅ s' /\ calm d ∅ s s') s.
Proof.
  intros T X No. unfold ireclaim. wp_step. apply wp_gets. rewrite (ft_sb _ _ _ _ T).
  eapply wp_mono; [apply (wp_for_each _ (fun _ _ s' => fs_tx d sb ∅ s' /\ calm d ∅ s s'))|]; [by split| |done].
  intros dn inum rest s1 Hl [T1 C1]. assert (good_inum sb inum) as Hi.
  { assert (inum ∈ seqZ 1 (sb_ninodes sb - 1)) as He by (rewrite Hl; set_solver). apply elem_of_seqZ in He. unfold good_inum. lia. }
  pose proof C1 as (_ & _ & X1 & B1 & _). assert (room 0 s1) as R by (split; [|by left]; fold (tx s1); rewrite X1, X; cbn; lia).
  wp_step. wp_use (wp_fbread d sb ∅ s1 (IBLOCK inum sb)); [done|set_solver|rewrite size_empty; lia|done|].
  intros i s2 (T2 & S2 & C2). wp_step. eapply wp_fbdata; [done..|]. destruct C2 as (? & ? & ? & B2 & ?) eqn:EC. clear EC.
  rewrite B2, B1. set (di := get_dinode _ _). assert (negb (d_type di =? 0) && (d_nlink di =? 0) = false) as ->.
  { destruct (No inum Hi) as [Ho|Ho]; fold di in Ho; [by rewrite Ho|]. rewrite (proj2 (Z.eqb_neq _ _) Ho). apply andb_false_r. }
  wp_step. apply wp_ret. eapply (wp_read_release d sb ∅ s2 i (IBLOCK inum sb) s1); [done|set_solver|done|by split_and!|done|].
  intros s3 T3 C3. apply wp_ret. split; [done|]. by etransitivity.
Qed.

Lemma wp_mount e c bl :
  env_ok e -> log_holds st c bl -> dec_superblock (slice 0 32 (disk_read c 1)) = sb -> sb_magic sb = FSMAGIC ->
  no_orphan (logical st c) ->
  wp (mount d) (fun _ s => fs_tx d sb ∅ s /\ tx s = [] /\ lg_outstanding (fs_log s) = 0 /\ it_lock s = initlock /\
    forall y, home st y -> cur d s y = logical st c y) (fs_boot e c).
Proof.
  intros He Hh Hsb Hm No. unfold mount. pose proof geom_dev as Hd0. wp_step. apply wp_flog, wp_lift.
  wp_use (binit_spec d); [done|lia|apply Hh|]. intros [] b (I & D & E & B).
  wp_step. apply wp_iinit. cbn [fs_log set_log]. intros s1 L1 K1. unfold fsinit. wp_step.
  apply wp_readsb; [by rewrite L1|]. rewrite L1. cbn [lg_bio set_bio]. rewrite D, Hsb. intros b2 I2 D2 E2.
  wp_step. apply wp_gets. cbn [fs_sb set_sb]. rewrite Hm. change (negb (FSMAGIC =? FSMAGIC)) with false. cbv iota.
  wp_step. apply wp_flog. wp_use (wp_initlog_inv d st bl); [done..|by cbn; rewrite D2|].
  cbn [lg_bio set_bio fs_log set_log set_sb]. rewrite D2. intros [] l (Li & Hl & Ho & _ & Hs & _). set (s2 := set_log l _).
  assert (fs_tx d sb ∅ s2) as T2 by (split; [done|done|rewrite size_empty; lia]).
  wp_use (wp_ireclaim s2); [done|done| |].
  - intros inum Hi. change (cur d s2) with (blk d (lg_bio l)). rewrite (Hs (IBLOCK inum sb)) by (by apply (IBLOCK_home d)). by apply No.
  - intros [] s3 (T3 & (Sm & _ & X3 & B3 & _)). destruct Sm as (_ & M2 & _ & M4 & _). split_and!; [done|by rewrite X3|by rewrite M4|by rewrite M2|].
    intros y Hy. rewrite B3. by apply Hs.
Qed.
End mount.

(** ** An image of mkfs

    Every file is there: whatever in-memory inode [ilock] loads from the disk
    inode has the file's type, size and contents, and blocks of its own that
    are in use. *)
Record mounted (files : list hostfile) (s : fs) : Prop := {
  mt_tx : fs_tx ROOTDEV Mkfs.sb ∅ s;
  mt_idle : tx s = [] /\ lg_outstanding (fs_log s) = 0;
  mt_meta : meta_used ROOTDEV Mkfs.sb s;
  mt_file : forall j t c ip, contents files !! j = Some (t, c) -> i_dev ip = ROOTDEV ->
    to_dinode ip = disk_inode ROOTDEV Mkfs.sb s (1 + Z.of_nat j) ->
    i_type ip = t /\ i_nlink ip = 1 /\ i_size ip = image_size j c /\ inode_ok ROOTDEV Mkfs.sb s ip /\
    content ROOTDEV s ip 0 (Z.of_nat (length c)) = c
}.

#[local] Abbreviation sb := Mkfs.sb.
#[local] Instance geom : FsGeom ROOTDEV sb := geometry.

(** A file of the image, seen by the kernel. *)
Section file.
Context (s : fs) (B : Z -> block) (own : owner) (i : Z) (ip : inode) (c : list Z).
Hypothesis Hcur : forall b x, own b = Some x -> cur ROOTDEV s b = B b.
Hypothesis Huse : forall b x, own b = Some x -> in_use ROOTDEV sb s b.
Hypothesis Fo : file_ok own B i (i_addrs ip) c.

Lemma in_use_pos b : in_use ROOTDEV sb s b -> b <> 0.
Proof. intros [Hb _]. change (datastart sb) with 47 in Hb. lia. Qed.

Lemma fblock_faddr bn : fblock ROOTDEV s ip bn = faddr B (i_addrs ip) bn.
Proof.
  unfold fblock, faddr, ind. destruct (bn <? NDIRECT); [done|]. destruct (Z.eqb_spec (i_addrs ip !!! Z.to_nat NDIRECT) 0) as [|Hz]; [done|].
  pose proof (sh_ind _ _ _ _ _ _ (fo_shape _ _ _ _ _ Fo)) as Hi. destruct (has_ind _); [|by rewrite Hi in Hz]. by rewrite (Hcur _ _ Hi).
Qed.

(** A block of the file is one of its data blocks, in order. *)
Lemma fblock_own bn : 0 <= bn < MAXFILE -> fblock ROOTDEV s ip bn <> 0 -> own (fblock ROOTDEV s ip bn) = Some (i, Data bn).
Proof.
  intros Hb Hz. rewrite fblock_faddr in *. destruct (fo_shape _ _ _ _ _ Fo) as [_ _ _ _ Sd Sz _].
  destruct (decide (bn < blocks_for (Z.of_nat (length c)))); [apply Sd; lia|]. rewrite Sz in Hz by lia. done.
Qed.

Lemma file_inode_ok : i_dev ip = ROOTDEV -> inode_ok ROOTDEV sb s ip.
Proof.
  intros Hd. assert (ind ip <> 0 -> own (ind ip) = Some (i, Ind)) as Hind.
  { intros Hz. pose proof (sh_ind _ _ _ _ _ _ (fo_shape _ _ _ _ _ Fo)) as Hi. unfold ind in *. by destruct (has_ind _). }
  split; [done|apply (fo_shape _ _ _ _ _ Fo)|..].
  - intros Hz. by eapply Huse, Hind.
  - intros bn Hb Hz. by eapply Huse, fblock_own.
  - intros bn bn' Hb Hb' Hz He. pose proof (fblock_own bn Hb Hz) as H1. rewrite He in Hz, H1. rewrite (fblock_own bn' Hb' Hz) in H1. congruence.
  - intros bn Hb Hz He. pose proof (fblock_own bn Hb Hz) as H1. rewrite He in Hz, H1. rewrite (Hind Hz) in H1. congruence.
Qed.

Lemma blocks_for_cover len : len <= blocks_for len * BSIZE.
Proof.
  unfold blocks_for. pose proof (Z.div_mod (len + BSIZE - 1) BSIZE ltac:(done)). pose proof (Z.mod_pos_bound (len + BSIZE - 1) BSIZE ltac:(done)). lia.
Qed.

Lemma file_contents : content ROOTDEV s ip 0 (Z.of_nat (length c)) = c.
Proof.
  apply list_eq_same_length with (n := length c); [done|rewrite content_length; lia|]. intros k x y Hk Hx Hy.
  rewrite content_lookup in Hx by lia. injection Hx as <-. unfold fbyte. rewrite Z.add_0_l.
  assert (0 <= Z.of_nat k < blocks_for (Z.of_nat (length c)) * BSIZE) as Hr by (pose proof (blocks_for_cover (Z.of_nat (length c))); lia).
  assert (0 <= Z.of_nat k / BSIZE < blocks_for (Z.of_nat (length c))) as Hb by (split; [apply Z.div_pos|apply Z.div_lt_upper_bound]; unfold BSIZE in *; lia).
  destruct Fo as [Sh Hh]. pose proof (sh_data _ _ _ _ _ _ Sh _ Hb) as Ho. specialize (Hh _ Hr). rewrite fblock_faddr.
  rewrite (proj2 (Z.eqb_neq _ _)) by (by eapply in_use_pos, Huse). rewrite (Hcur _ _ Ho), Hh, Nat2Z.id. unfold rd. by rewrite Hy.
Qed.
End file.

Lemma formatted_no_orphan files img : formatted files img -> no_orphan sb (logical (sb_logstart sb) img).
Proof.
  intros F inum Hi. cbv zeta. rewrite logical_empty by apply F. destruct (fm_files _ _ F) as (used & own & _ & _ & _ & Hf).
  destruct (decide (Z.of_nat (length (contents files)) < inum)) as [Hlt|Hge].
  - left. apply (fm_unused _ _ F). destruct Hi. by split.
  - right. assert (is_Some (contents files !! Z.to_nat (inum - 1))) as [[t c] Hj] by (apply lookup_lt_is_Some; destruct Hi; lia).
    destruct (Hf _ _ _ Hj) as (a & Ha & _). replace (1 + Z.of_nat (Z.to_nat (inum - 1))) with inum in Ha by (destruct Hi; lia). by rewrite Ha.
Qed.

Lemma formatted_mounted files img s :
  formatted files img -> fs_tx ROOTDEV sb ∅ s -> tx s = [] -> lg_outstanding (fs_log s) = 0 ->
  (forall y, home (sb_logstart sb) y -> cur ROOTDEV s y = disk_read img y) -> Z.of_nat (length (contents files)) < NINODES ->
  mounted files s.
Proof.
  intros F T X O Hc Hn. destruct (fm_files _ _ F) as (used & own & Hbits & Hused & Hown & Hf).
  assert (forall b, 0 <= b < sb_size sb -> free ROOTDEV sb s b = (used <=? b)) as Hfree.
  { intros b Hb. unfold free. rewrite Hc by (by apply (bitmap_home ROOTDEV)). by apply Hbits. }
  assert (exists b x, own b = Some x) as (b0 & x0 & Ho0).
  { destruct (Hf 0%nat T_DIR (root_entries files) eq_refl) as (a & _ & [Sh _]). eexists _, _. apply (sh_data _ _ _ _ _ _ Sh 0).
    rewrite root_entries_length. split; [lia|]. unfold blocks_for. apply Z.div_str_pos. unfold BSIZE. lia. }
  assert (datastart sb <= used) as Hds by (pose proof (Hown _ _ Ho0); lia).
  split; [done|done| |].
  - intros b Hb. change (datastart sb) with 47 in *. change (sb_size sb) with 2000 in *. rewrite Hfree by lia. apply Z.leb_gt. lia.
  - intros j t c ip Hj Hd Hip. destruct (Hf _ _ _ Hj) as (a & Ha & Fo).
    assert (good_inum sb (1 + Z.of_nat j)) as Hi by (pose proof (lookup_lt_Some _ _ _ Hj); unfold good_inum; change (sb_ninodes sb) with NINODES; lia).
    unfold disk_inode in Hip. rewrite Hc, Ha in Hip by (by apply (IBLOCK_home ROOTDEV)).
    injection Hip as -> _ _ -> -> <-.
    assert (forall b x, own b = Some x -> in_use ROOTDEV sb s b) as Huse.
    { intros b x Ho. pose proof (Hown _ _ Ho). split; [lia|]. change (datastart sb) with 47 in *. rewrite Hfree by lia. apply Z.leb_gt. lia. }
    assert (forall b x, own b = Some x -> cur ROOTDEV s b = disk_read img b) as Hcur.
    { intros b x Ho. apply Hc, (data_home ROOTDEV sb). pose proof (Hown _ _ Ho). lia. }
    split_and!; [done..|by eapply file_inode_ok|by eapply file_contents].
Qed.

(** ** A disk the machine left during a commit

    The header in block 2 says that block 3 is the new contents of block
    100. *)
Module MountDemo.
#[local] Transparent zero_block.

Definition newdata : block := splice 0 [104; 105] zero_block.
Definition disk0 : disk :=
  [(1, splice 0 (enc_superblock sb) zero_block); (2, splice 0 (enc_u32s [1; 100]) zero_block); (3, newdata)].

Lemma disk0_log : log_holds 2 disk0 [100].
Proof.
  split_and!.
  - repeat constructor; cbn [snd]; (apply (bool_decide_unpack _); by vm_compute).
  - split; [by vm_compute|]. intros [|k] x Hk; [|done]. injection Hk as <-. by vm_compute.
  - split_and!; [apply NoDup_singleton| |by vm_compute]. constructor; [|constructor].
    split; [lia|]. unfold in_log, LOGBLOCKS, MAXOPBLOCKS. lia.
Qed.

Lemma disk0_no_orphan : no_orphan sb (logical 2 disk0).
Proof.
  intros inum Hi. left. pose proof (IBLOCK_range ROOTDEV sb inum Hi) as Hb.
  change (sb_inodestart sb) with 33 in Hb. change (sb_bmapstart sb) with 46 in Hb.
  rewrite (logical_out 2 disk0 [100]); [|apply disk0_log|rewrite list_elem_of_singleton; lia].
  assert (disk_read disk0 (IBLOCK inum sb) = zero_block) as ->; [|apply zero_inode].
  unfold disk0. cbn [disk_read]. by rewrite !(proj2 (Z.eqb_neq _ _)) by lia.
Qed.
End MountDemo.



(** C14: the kernel mounts what mkfs makes.  Booted from the image of files
    that fit, [fsinit] returns, the blocks of the meta data are marked in use,
    and the root directory and every file have the type, size and contents
    mkfs gave them and blocks of their own that are in use: what the kernel's
    file operations assume of a file. *)
Theorem mkfs_mounts files e :
  Forall host_ok files -> Z.of_nat (length files) + 2 <= NINODES -> datastart sb + total_cost (contents files) <= FSSIZE -> env_ok e ->
  wp (mkfs files) (fun _ m => wp (mount ROOTDEV) (fun _ s => mounted files s) (fs_boot e (m_img m))) mkfs_start.
Proof.
  intros Hok Hn Hroom He. eapply wp_mono; [by apply wp_mkfs|]. intros [] m F.
  wp_use (wp_mount ROOTDEV sb e (m_img m) []); [done|apply F|apply F|done|by eapply formatted_no_orphan|].
  intros [] s (T & X & O & _ & Hc). eapply formatted_mounted; [done..| |].
  - intros y Hy. rewrite Hc by done. apply logical_empty, F.
  - unfold contents. cbn [length]. rewrite length_fmap. lia.
Qed.

Lemma mkfs_mounts_witness :
  wp (mkfs demo_files) (fun _ m => wp (mount ROOTDEV) (fun _ s => mounted demo_files s) (fs_boot Demo.env0 (m_img m))) mkfs_start.
Proof.
  apply mkfs_mounts.
  - apply demo_files_ok.
  - by vm_compute.
  - by vm_compute.
  - apply Demo.env0_ok.
Defined.

(** C31: where the root directory's entries fill its blocks exactly, as with 62
    files, mkfs gives the directory a size of one block more than it has: the
    last block below the size is missing from the image. *)
Theorem mkfs_root_hole files :
  Forall host_ok files -> length files = 62%nat -> datastart sb + total_cost (contents files) <= FSSIZE ->
  wp (mkfs files) (fun _ m => exists a, get_dinode 1 (disk_read (m_img m) (IBLOCK 1 sb)) = mkDinode T_DIR 0 0 1 2048 a /\
    faddr (disk_read (m_img m)) a 1 = 0) mkfs_start.
Proof.
  intros Hok Hlen Hroom. eapply wp_mono; [apply wp_mkfs; [done|rewrite Hlen; by vm_compute|done]|]. intros [] m F.
  destruct (fm_files _ _ F) as (used & own & _ & _ & _ & Hf). destruct (Hf 0%nat T_DIR (root_entries files) eq_refl) as (a & Ha & [Sh _]).
  exists a. unfold image_size in Ha. rewrite decide_True, root_entries_length, Hlen in Ha by done. split; [done|].
  apply (sh_zero _ _ _ _ _ _ Sh). rewrite root_entries_length, Hlen. by vm_compute.
Qed.

(** Empty files f00 to f61. *)
Definition full_root : list hostfile :=
  (fun k => mkHost [102; 48 + k / 10; 48 + k mod 10] (Some [])) <$> seqZ 0 62.

Lemma full_root_ok : Forall host_ok full_root.
Proof. apply Forall_forall. intros f Hf. repeat (apply elem_of_cons in Hf as [->|Hf]; [solve_host|]). by apply elem_of_nil in Hf. Qed.

Lemma mkfs_root_hole_witness :
  wp (mkfs full_root) (fun _ m => exists a, get_dinode 1 (disk_read (m_img m) (IBLOCK 1 sb)) = mkDinode T_DIR 0 0 1 2048 a /\
    faddr (disk_read (m_img m)) a 1 = 0) mkfs_start.
Proof.
  apply mkfs_root_hole.
  - apply full_root_ok.
  - by vm_compute.
  - by vm_compute.
Defined.
